(* ===== verification/_CoqProject ===== *)
-Q . S2P
Prelude.v
Kernel.v
Float64.v
Libc.v
Nettop.v
NettopTypes.v
NettopRace.v
Printf.v
NettopPoll.v
Ids.v
Packet.v
Firewall.v
XdpCount.v
TcStat.v
TailCall.v
ArgvSnoop.v
Loader.v
OpenCount.v
Inet.v
IdsBeacon.v
IdsText.v
TcpSock.v
TcpStates.v
TcpLife.v
Stash.v
OpenSnoop.v
NetSnoop.v
VerifierLab.v
ExecGuard.v
Keyring.v
BashReadline.v
Rows.v
TaskDump.v
Sys.v
Mains.v
FirewallRun.v
CountRun.v
IdsRun.v
NettopRun.v
NettopLive.v
SnoopRun.v
SnoopSessions.v
TcpSessions.v
Fileless.v
FilelessV1.v
StageKey.v
KeyringRun.v
ReadlineRun.v
ArgvRace.v
TcRun.v
TailRun.v
