(* ===== verification/Prelude.v ===== *)
(** * A verification of the eBPF course programs

    The repository is a course on eBPF.  Each chapter from 7 on is a program
    of two halves: a BPF program that the kernel runs on its events (a
    kprobe, a tracepoint, a packet), and a C loader that attaches it and
    shows what it found.  The halves share a header with their records and
    talk through BPF maps (counters, tables by process or socket) or a ring
    buffer (one record per event).  This library models the C programs of
    chapters 7 to 23 and 25 to 27 and proves what each is meant to do, from
    the hooks in the kernel to the lines on the screen, failures included.

    ** How the code is modelled

    - A C integer is a [Z] and the wrap-around of its type is written out
      ([u8] to [u64], [s32] below); a buffer or a string is the list of its
      bytes; a C array has its elements in place; a double is an IEEE 754
      number that computes (Float64).
    - The kernel and libbpf are not part of the repository.  What the
      programs use of them are interfaces (Kernel; Packet and TailCall for
      two kinds of array): a class of operations and a class of laws from
      bpf(2) and bpf-helpers(7).  The theorems are proved from the laws;
      reference instances over [gmap] and lists show the laws can hold and
      make the examples run.  A record from the ring buffer has arbitrary
      contents until the program fills it, a user string may be unreadable,
      and an update may be refused.  The ring buffer has a capacity (the
      class RingReader): a record is refused only when the records nobody has
      read fill it.
    - A BPF program is a function on the state of its maps.  Where programs
      run on several CPUs at once (NettopRace, OpenCount, ArgvRace) it is also
      a sequence of atomic steps that interleave freely.
    - A loader is a function of what its calls return (Loader, TcStat,
      TailCall, TaskDump, VerifierLab) or a program of [Sys]: a tree of
      system calls whose answers the environment chooses, with a weakest
      precondition against a state machine that watches the calls, and an
      interpreter against a world that computes the answers.  Theorems of
      the first kind hold for every behaviour of the environment; the
      second kind composes a loader with its BPF program.

    ** Which file models what

    Shared: this file (integers, lists, association by key, automation),
    Kernel (maps, ring buffer, user memory, current task), Float64, Libc
    (strtoull, strtoul, atoi, strtod), Printf, Inet (inet_ntop and
    [fmt_endpoint]), Packet (packet access, per-CPU arrays), Sys.

    Chapter 27, src/27-nettop: Nettop ([account] and the seven kprobes of
    nettop.bpf.c), NettopRace ([account] on several CPUs), NettopTypes (the
    C types of the maps' contents), NettopPoll ([sample] of nettop.c as a
    pure pass over the map), NettopRun (options, [attach_all], [sample] as
    system calls, [print_sample], [main], and all of it together), NettopLive
    (the frames of a run while the kernel goes on counting).

    Chapter 23, src/23-ids: Ids (the tap of ids.bpf.c and the rules of
    ids.c), IdsBeacon (the beacon rule over the packet history), IdsText (the
    printed alerts), IdsRun (a session).

    Chapter 21, src/21-firewall: Firewall (the XDP program, the rules),
    FirewallRun (a session).  Chapters 17 to 19: XdpCount with CountRun (a
    session), TcStat with TcRun and TailCall with TailRun (the main function
    with its text, a session).

    The snoopers: OpenSnoop (chapters 7, 9, 10), ArgvSnoop (8), NetSnoop
    (11), TcpStates (12), TcpLife (13), BashReadline (15), with Stash and
    TcpSock for what two of them share, Rows for the lines they print, and
    Loader for their main functions and that of chapter 20.  SnoopRun has the
    program that is common to these main functions, with its texts, and the
    world it runs in; SnoopSessions (7 to 11 and 20), TcpSessions (12 and
    13) and ReadlineRun (15, whose main function is its own) compose it with
    the hooks and the lines of each chapter.  ArgvRace has the hooks of chapter
    8 on several CPUs.

    The others: VerifierLab (14), OpenCount (16), ExecGuard (20), TaskDump
    (22), Fileless and FilelessV1 (25), Keyring, StageKey and KeyringRun (26; the
    last is a session of the detector).  Mains has the main functions of
    chapters 16, 17, 21, 23 and 26.

    Definitions have the names of the C functions they model where there is
    one.  Every file opens with the functions it covers.

    ** What the theorems show

    - nettop counts exactly: every process has the totals of its own traffic
      over any sequence of hook hits ([Nettop.accounting_exact]), on any
      number of CPUs under any interleaving ([NettopRace]), and a
      retransmission is counted for the process that last used the socket
      since it was last closed, always while both maps have room, and never
      for another process ([Nettop.retransmit_attribution]).  A pass of the poller terminates although it deletes while it
      walks, and reports each process once with the traffic since the pass
      before ([NettopPoll.sample_exact]); its arrays are not overrun whatever
      happens meanwhile ([sample_bounds]).  [NettopRun.nettop_session] joins
      both: every frame of a session has one row for each process with traffic
      or retransmissions since the frame before and none for an idle one, with
      the name, the rates and the retransmissions exactly.  In [NettopLive.frames_add_up] the kernel counts
      between any two calls of the poller: whatever order that gives, a rate
      is a difference over the time between the two readings of the clock
      before the frame, and what the frames show for a live process adds up to
      what was counted, as long as no frame is full and the walks see no more
      keys than the table has rows.
      [NettopTypes] has the type invariant.
    - The intrusion detection engine refines independent automata, one per
      flow and source ([Ids.engine_refines]); its rules agree with
      definitions over the packet history ([portscan_window],
      [IdsBeacon.beacon_exact], [periodic_flow_reported],
      [alerts_at_most_once]),
      and the tap delivers exactly the packets they are about
      ([ids_tap_exact]).  The engine's theorems are about any packets with at
      most 2^31 of each flow (the port-scan rule: about every run that stays
      inside the arrays): [int ngaps] counts the packets of a flow and
      indexes a ring, and [Ids.gap_counter_overflows] shows the write outside
      the ring that the counter's overflow leads to.  [IdsRun.ids_session] goes from the frames on the
      wire to the lines on the screen, without loss while the ring keeps up.
    - The firewall drops what its command line says and prints the number of
      drops, over a whole session ([FirewallRun.firewall_session]); so does
      the packet counter with its categories ([CountRun.count_session]) and
      the counters of both directions ([TcRun.tc_session]), and the dispatcher
      of chapter 19 misses no command ([TailRun.tail_session]).
    - The snoopers report what happened, from the system calls or the
      transitions of the sockets to the screen: each session prints exactly
      the lines that what happened calls for, in order, with the right
      arguments, results, addresses and times
      ([SnoopSessions.connect_session], [open_session], [argv_session],
      [name_sessions], [TcpSessions.states_session], [life_session],
      [ReadlineRun.readline_session], [KeyringRun.keyring_session]).  The
      lines that are missing are exactly those of events that found the ring
      full: none, while not more events come between two polls than the ring
      has room for.  The LRU maps of chapters 12 and 13 forget nothing while
      there are fewer sockets than they have room for.  Execves that run at the same time
      do not mix up their arguments, if their slots in the loader's table
      differ ([ArgvRace.argv_race_session]).
      Others show what goes wrong ([ArgvSnoop.lost_end_marker_merges],
      [TcpLife.stale_identity], [NetSnoop.filtered_connect_steals]).
      The printed endpoints can be read back ([Inet.endpoint_roundtrip]) and
      the lines keep their columns ([TcpStates.row_columns]; Rows).
    - The loaders release what they acquire whatever fails, all but a program
      or a link that the system refuses to detach or to unpin, tell failures
      by their exit status (with the exceptions stated) and finish when they
      are told to, chapter 16 provided that its [pause] returns: a signal
      between its test of the flag and the call is lost
      ([Mains.lost_wakeup]) (Loader, SnoopRun, ReadlineRun, Mains, NettopRun, TcStat, TailRun,
      TaskDump).
    - The execution lab executes nothing but complete copies, for the three
      loaders that check their reads, and does execute them when nothing
      fails (Fileless); the corrections of that lab changed nothing but
      failures, with the exception of deleted_exec, which used to remove its
      caller's file (FilelessV1).  The key of stage-key is reported with its type and
      description and flagged exactly from the threshold on, if the kernel
      accepts its size (StageKey).

    ** Bounds and fuel

    Structural recursion is used where the code's loop is over a list or an
    array.  The other loops have fuel, and the theorems say how much is
    enough: the walk of [NettopPoll.sample] needs (n+1)^2 steps for n rows,
    since each deletion restarts it; the status loops of the loaders need
    one round per question for the stop flag ([Mains.mains_finish]), and the
    sessions one per batch; [Fileless.copy] needs one per byte and one more.
    A loop that runs out of fuel is [Running], which is not an exit, and
    safety holds of it too.  The sizes of tables and buffers are those of
    the sources; the ring of a chapter has [SLOTS_n] records, from the 256 kB
    of the map, the size of the struct and the header of a record
    ([Kernel.ring_slots]), which is on the safe side of what ringbuf.c of the
    kernel fits in.

    ** Not modelled

    - The BPF verifier and the translation of C by clang; the rejected
      programs of chapter 14 are never run.
    - Weak memory: an atomic operation or a map helper is one step.  The
      racing plain store of [last_ns] is covered as one step as well.
    - argp's own options (--help, --version), the wording of informative
      messages that loaders print besides their tables, and the locale.
    - The signal handlers, which only set the stop flag: the flag is a
      question to the environment, and so is whether a [pause] returns.
    - What a write outside an array does: the step has no result ([None] in
      Ids).
    - Chapters 1 to 6 and 24, which are Python scripts; shell scripts, tests
      and detection rules; hello.c and sleeper.c of chapter 25, which only
      print and sleep.
    - The hooks are atomic in the sessions, except those of chapter 8 in
      ArgvRace, the only ones that submit more than one record.
    - A signal that comes before its handler is installed, which ends the
      process and leaves what is outside it (the qdisc of chapter 18, the
      pins of chapter 16).

    ** Plan

    Done in this order: nettop, the rule engine, the datapath programs, the
    snoopers, the loaders, the text of the output, whole sessions of nettop,
    the firewall and the intrusion detection system, the execution lab and
    its older versions, the poller against a kernel that goes on counting,
    whole sessions of the packet counter, the traffic counters, the
    dispatcher, the snoopers, bash readline and the keyring detector, the capacity of the ring, and
    concurrent execves.  What is left is listed above as not modelled. *)

From stdpp Require Import prelude gmap list strings sorting.
From Stdlib Require Import ZArith Lia.

#[global] Open Scope Z_scope.

(** ** Machine integers

    A C integer is a [Z]; the wrap-around of its type is written out. *)

Definition u8 (z : Z) : Z := z mod 2 ^ 8.
Definition u16 (z : Z) : Z := z mod 2 ^ 16.
Definition u32 (z : Z) : Z := z mod 2 ^ 32.
Definition u64 (z : Z) : Z := z mod 2 ^ 64.

(** Conversion to a signed two's complement type of 32 and 64 bits. *)
Definition s32 (z : Z) : Z := (z + 2 ^ 31) mod 2 ^ 32 - 2 ^ 31.
Definition s64 (z : Z) : Z := (z + 2 ^ 63) mod 2 ^ 64 - 2 ^ 63.

#[global] Arguments u8 : simpl never.
#[global] Arguments u16 : simpl never.
#[global] Arguments u32 : simpl never.
#[global] Arguments u64 : simpl never.
#[global] Arguments s32 : simpl never.
#[global] Arguments s64 : simpl never.

Declare Scope c_scope.
Delimit Scope c_scope with C.

(** Unsigned 64-bit addition and subtraction, as [__u64] and
    [unsigned long long] have them. *)
Notation "a +64 b" := (u64 (a + b)) (at level 50, left associativity) : c_scope.
Notation "a -64 b" := (u64 (a - b)) (at level 50, left associativity) : c_scope.
#[global] Open Scope c_scope.

Lemma u64_range z : 0 ≤ u64 z < 2 ^ 64.
Proof. apply Z.mod_pos_bound. lia. Qed.

Lemma s32_small z : - 2 ^ 31 ≤ z < 2 ^ 31 → s32 z = z.
Proof. unfold s32. intros Hz. rewrite Z.mod_small; lia. Qed.

Lemma u64_small z : 0 ≤ z < 2 ^ 64 → u64 z = z.
Proof. apply Z.mod_small. Qed.

Lemma u64_add_l a b : u64 (u64 a + b) = u64 (a + b).
Proof. unfold u64. apply Zplus_mod_idemp_l. Qed.

Lemma u64_add_r a b : u64 (a + u64 b) = u64 (a + b).
Proof. unfold u64. apply Zplus_mod_idemp_r. Qed.

Lemma u64_idemp a : u64 (u64 a) = u64 a.
Proof. unfold u64. apply Z.mod_mod. lia. Qed.

(** Congruent values stay congruent under the same change. *)
Lemma u64_congr x y d : u64 x = u64 y → u64 (x + d) = u64 (y + d).
Proof. intros H. by rewrite <- u64_add_l, H, u64_add_l. Qed.

Lemma u32_range z : 0 ≤ u32 z < 2 ^ 32.
Proof. apply Z.mod_pos_bound. lia. Qed.

Lemma u16_range z : 0 ≤ u16 z < 2 ^ 16.
Proof. apply Z.mod_pos_bound. lia. Qed.

Lemma u16_small z : 0 ≤ z < 2 ^ 16 → u16 z = z.
Proof. apply Z.mod_small. Qed.

(** Facts about machine integers that [auto] can finish. *)
Create HintDb machine.
#[export] Hint Resolve u64_range u32_range u16_range : machine.

Create Rewrite HintDb wrap.
#[export] Hint Rewrite u64_add_l u64_add_r u64_idemp : wrap.

(** ** Bytes, C strings and byte order

    A byte is a [Z] in [0, 256); an object in memory is the list of its
    bytes.  The programs run on little-endian machines (x86-64, aarch64), so
    a multi-byte load combines the bytes from the least significant up and
    the [ntoh]/[hton] family swaps. *)

Definition is_byte (b : Z) : Prop := 0 ≤ b < 256.

#[export] Instance is_byte_dec b : Decision (is_byte b).
Proof. unfold is_byte. apply _. Defined.

(** A literal byte is one. *)
#[export] Hint Extern 1 (is_byte _) => (unfold is_byte; lia) : machine.

Fixpoint le_combine (l : list Z) : Z :=
  match l with
  | [] => 0
  | b :: l' => Z.lor b (Z.shiftl (le_combine l') 8)
  end.

Fixpoint le_split (n : nat) (z : Z) : list Z :=
  match n with
  | O => []
  | S n' => Z.land z 255 :: le_split n' (Z.shiftr z 8)
  end.

Definition bswap16 (z : Z) : Z :=
  Z.lor (Z.shiftl (Z.land z 255) 8) (Z.land (Z.shiftr z 8) 255).

Definition bswap32 (z : Z) : Z :=
  Z.lor (Z.shiftl (bswap16 (Z.land z 65535)) 16) (bswap16 (Z.land (Z.shiftr z 16) 65535)).

(** [bpf_ntohs], [bpf_htons], [ntohs] and the 32-bit forms on a
    little-endian host. *)
Definition ntohs : Z → Z := bswap16.
Definition htons : Z → Z := bswap16.
Definition ntohl : Z → Z := bswap32.
Definition htonl : Z → Z := bswap32.

(** Characters of a string literal. *)
Fixpoint str (s : string) : list Z :=
  match s with
  | EmptyString => []
  | String c s' => Z.of_N (Ascii.N_of_ascii c) :: str s'
  end.

#[global] Arguments str s%_string_scope.

(** The C string stored in a buffer: the bytes before the first NUL. *)
Fixpoint cstr (l : list Z) : list Z :=
  match l with
  | [] => []
  | b :: l' => if b =? 0 then [] else b :: cstr l'
  end.

Lemma length_le_split n z : length (le_split n z) = n.
Proof. revert z; induction n as [|n IH]; intros z; simpl; [done|by rewrite IH]. Qed.

(** Disjoint bits add up. *)
Lemma lor_shiftl_low x b n : 0 ≤ n → 0 ≤ b < 2 ^ n → Z.lor (Z.shiftl x n) b = x * 2 ^ n + b.
Proof.
  intros Hn Hb. rewrite <- Z.shiftl_mul_pow2 by done.
  rewrite Z.add_nocarry_lxor, <- Z.lxor_lor; try done; apply Z.bits_inj'; intros i Hi;
    rewrite Z.land_spec, Z.bits_0, Z.shiftl_spec by done;
    (destruct (Z.lt_ge_cases i n);
      [rewrite Z.testbit_neg_r by lia; done
      |rewrite <- (Z.mod_small b (2 ^ n)) by done; rewrite Z.mod_pow2_bits_high by lia; apply andb_false_r]).
Qed.

Lemma le_combine_cons b l : is_byte b → le_combine (b :: l) = b + 256 * le_combine l.
Proof.
  intros Hb. cbn [le_combine]. rewrite Z.lor_comm, lor_shiftl_low by (unfold is_byte in Hb; lia).
  lia.
Qed.

Lemma bswap16_bytes a b : is_byte a → is_byte b → bswap16 (a + 256 * b) = a * 256 + b.
Proof.
  unfold is_byte. intros Ha Hb. unfold bswap16.
  change 255 with (Z.ones 8). rewrite !Z.land_ones, Z.shiftr_div_pow2 by lia. change (2 ^ 8) with 256.
  assert ((a + 256 * b) mod 256 = a) as -> by (rewrite (Z.mul_comm 256), Z.mod_add, Z.mod_small; lia).
  assert ((a + 256 * b) / 256 = b) as -> by (rewrite (Z.mul_comm 256), Z.div_add, Z.div_small; lia).
  rewrite (Z.mod_small b) by lia. rewrite lor_shiftl_low by lia. lia.
Qed.

(** A field in network order, read by a little-endian machine and swapped,
    is the number the bytes spell most significant first. *)
Lemma ntohs_bytes a b : is_byte a → is_byte b → ntohs (le_combine [a; b]) = a * 256 + b.
Proof.
  intros Ha Hb. rewrite !le_combine_cons by done. cbn [le_combine].
  replace (b + 256 * 0) with b by lia. by apply bswap16_bytes.
Qed.

Lemma ntohl_bytes a b c d :
  is_byte a → is_byte b → is_byte c → is_byte d →
  ntohl (le_combine [a; b; c; d]) = ((a * 256 + b) * 256 + c) * 256 + d.
Proof.
  intros Ha Hb Hc Hd. rewrite !le_combine_cons by done. cbn [le_combine]. unfold ntohl, bswap32.
  change 65535 with (Z.ones 16). rewrite !Z.land_ones, Z.shiftr_div_pow2 by lia. change (2 ^ 16) with 65536.
  replace (a + 256 * (b + 256 * (c + 256 * (d + 256 * 0)))) with ((a + 256 * b) + (c + 256 * d) * 65536) by lia.
  unfold is_byte in *. rewrite Z.mod_add, Z.div_add, (Z.mod_small (a + 256 * b)), (Z.div_small (a + 256 * b)) by lia.
  rewrite Z.add_0_l, (Z.mod_small (c + 256 * d)) by lia.
  rewrite !bswap16_bytes by done. rewrite lor_shiftl_low by lia. lia.
Qed.

(** Storing a number the loads gave stores the bytes that were loaded. *)
Lemma le_split_combine l : Forall is_byte l → le_split (length l) (le_combine l) = l.
Proof.
  induction 1 as [|b l Hb _ IH]; [done|]. rewrite le_combine_cons by done. cbn [length le_split].
  change 255 with (Z.ones 8). rewrite Z.land_ones, Z.shiftr_div_pow2 by lia. change (2 ^ 8) with 256.
  unfold is_byte in Hb. f_equal.
  - rewrite Z.mul_comm, Z.mod_add, Z.mod_small by lia. done.
  - rewrite Z.mul_comm, Z.div_add, Z.div_small, Z.add_0_l by lia. done.
Qed.

(** Both byte swaps of a 32-bit field, stored again. *)
Lemma le_split_swap_back a b c d :
  is_byte a → is_byte b → is_byte c → is_byte d →
  le_split 4 (htonl (ntohl (le_combine [a; b; c; d]))) = [a; b; c; d].
Proof.
  intros Ha Hb Hc Hd. rewrite ntohl_bytes by done.
  assert (((a * 256 + b) * 256 + c) * 256 + d = le_combine [d; c; b; a]) as ->.
  { rewrite !le_combine_cons by done. cbn [le_combine]. lia. }
  change htonl with ntohl. rewrite ntohl_bytes by done.
  assert (((d * 256 + c) * 256 + b) * 256 + a = le_combine [a; b; c; d]) as ->.
  { rewrite !le_combine_cons by done. cbn [le_combine]. lia. }
  apply (le_split_combine [a; b; c; d]). by rewrite !Forall_cons, Forall_nil.
Qed.

(** Reading a structure: [bytes_at off n b] are the [n] bytes at offset
    [off], and [field n off b] the unsigned integer a load of them gives.
    [be_combine] is the number they spell in network order. *)
Definition bytes_at (off n : nat) (b : list Z) : list Z := take n (drop off b).
Definition field (n off : nat) (b : list Z) : Z := le_combine (bytes_at off n b).
Definition be_combine (l : list Z) : Z := foldl (λ acc b, acc * 256 + b) 0 l.

Lemma bytes_at_bytes_at off n off' n' b :
  (off' + n' ≤ n)%nat → bytes_at off' n' (bytes_at off n b) = bytes_at (off + off') n' b.
Proof.
  intros H. unfold bytes_at. rewrite skipn_firstn_comm, take_take, drop_drop.
  by rewrite Nat.min_l by lia.
Qed.

Lemma field_bytes_at off n off' n' b :
  (off' + n' ≤ n)%nat → field n' off' (bytes_at off n b) = field n' (off + off') b.
Proof. intros H. unfold field. by rewrite bytes_at_bytes_at. Qed.

Lemma length_bytes_at off n b : (off + n ≤ length b)%nat → length (bytes_at off n b) = n.
Proof. intros H. unfold bytes_at. rewrite length_take, length_drop. lia. Qed.

Lemma Forall_bytes_at (P : Z → Prop) off n b : Forall P b → Forall P (bytes_at off n b).
Proof. intros H. by apply Forall_take, Forall_drop. Qed.

Lemma ntohs_field off b :
  (off + 2 ≤ length b)%nat → Forall is_byte b → ntohs (field 2 off b) = be_combine (bytes_at off 2 b).
Proof.
  intros Hl Hb. unfold field. pose proof (length_bytes_at off 2 b Hl) as Hn.
  apply (Forall_bytes_at _ off 2) in Hb.
  destruct (bytes_at off 2 b) as [|x [|y [|]]]; try done.
  inversion_clear Hb as [|? ? H1 H2]. inversion_clear H2. by apply ntohs_bytes.
Qed.

Lemma ntohl_field off b :
  (off + 4 ≤ length b)%nat → Forall is_byte b → ntohl (field 4 off b) = be_combine (bytes_at off 4 b).
Proof.
  intros Hl Hb. unfold field. pose proof (length_bytes_at off 4 b Hl) as Hn.
  apply (Forall_bytes_at _ off 4) in Hb.
  destruct (bytes_at off 4 b) as [|x [|y [|z [|w [|]]]]]; try done.
  inversion_clear Hb as [|? ? H1 H2]. inversion_clear H2 as [|? ? H3 H4]. inversion_clear H4 as [|? ? H5 H6].
  inversion_clear H6. by apply ntohl_bytes.
Qed.

Lemma field_one off b :
  (off + 1 ≤ length b)%nat → Forall is_byte b → field 1 off b = be_combine (bytes_at off 1 b).
Proof.
  intros Hl Hb. unfold field. pose proof (length_bytes_at off 1 b Hl) as Hn.
  apply (Forall_bytes_at _ off 1) in Hb.
  destruct (bytes_at off 1 b) as [|x [|]]; try done. inversion_clear Hb.
  rewrite le_combine_cons by done. unfold be_combine. cbn [le_combine foldl]. lia.
Qed.

(** Comparing a field with a swapped constant compares the network-order
    values. *)
Lemma field_eq_htons off b a c :
  (off + 2 ≤ length b)%nat → Forall is_byte b → is_byte a → is_byte c →
  (field 2 off b =? htons (a * 256 + c)) = (be_combine (bytes_at off 2 b) =? a * 256 + c).
Proof.
  intros Hl Hb Ha Hc. unfold field. pose proof (length_bytes_at off 2 b Hl) as Hn.
  apply (Forall_bytes_at _ off 2) in Hb.
  destruct (bytes_at off 2 b) as [|x [|y [|]]]; try done.
  inversion_clear Hb as [|? ? H1 H2]. inversion_clear H2 as [|? ? H3 _].
  rewrite !le_combine_cons by done. cbn [le_combine be_combine foldl].
  replace (a * 256 + c) with (c + 256 * a) by lia. unfold htons. rewrite bswap16_bytes by done.
  unfold is_byte in *. unfold be_combine. cbn [foldl]. apply eq_true_iff_eq. rewrite !Z.eqb_eq. lia.
Qed.

Lemma cstr_nonzero l : Forall (λ b, b ≠ 0) (cstr l).
Proof.
  induction l as [|b l IH]; simpl; [constructor|].
  destruct (Z.eqb_spec b 0); [constructor | by constructor].
Qed.

Lemma cstr_app_nul s l : Forall (λ b, b ≠ 0) s → cstr (s ++ 0 :: l) = s.
Proof.
  induction 1 as [|b s Hb _ IH]; simpl; [done|].
  destruct (Z.eqb_spec b 0); [done | by rewrite IH].
Qed.

(** ** Arrays

    Two loops over C arrays that several programs repeat.  [find_index]
    searches an array for its first matching element; [compact_loop] is
    [for (i = 0; i < k; i++) if (keep(a[i])) a[w++] = a[i];], which moves
    the kept elements to the front in place. *)

Fixpoint find_index {A} (p : A → bool) (l : list A) : option nat :=
  match l with
  | [] => None
  | x :: l' => if p x then Some O else S <$> find_index p l'
  end.

Fixpoint compact_loop {A} (keep : A → bool) (k i w : nat) (a : list A) : list A * nat :=
  match k with
  | O => (a, w)
  | S k' =>
      match a !! i with
      | Some x =>
          if keep x then compact_loop keep k' (S i) (S w) (<[w:=x]> a)
          else compact_loop keep k' (S i) w a
      | None => (a, w)
      end
  end.

(** The boolean filter of a list, in the list's order. *)
Fixpoint bfilter {A} (p : A → bool) (l : list A) : list A :=
  match l with
  | [] => []
  | x :: l' => if p x then x :: bfilter p l' else bfilter p l'
  end.

Lemma find_index_Some {A} (p : A → bool) l i :
  find_index p l = Some i ↔
  ∃ x, l !! i = Some x ∧ p x = true ∧ ∀ j y, (j < i)%nat → l !! j = Some y → p y = false.
Proof.
  revert i; induction l as [|x l IH]; intros i; simpl.
  { split; [done|]. intros (y & Hy & _). done. }
  destruct (p x) eqn:Hp.
  - split.
    + intros [= <-]. exists x. repeat split; [done|]. intros j y Hj; lia.
    + intros (y & Hy & Hpy & Hmin). destruct i as [|i]; [done|].
      specialize (Hmin O x ltac:(lia) eq_refl). congruence.
  - split.
    + intros (i' & H' & ->)%fmap_Some. apply IH in H' as (y & Hy & Hpy & Hmin).
      exists y. repeat split; [done|done|]. intros [|j] z Hj Hz; simpl in Hz; [congruence|].
      apply (Hmin j z); [lia|done].
    + intros (y & Hy & Hpy & Hmin). destruct i as [|i]; simpl in Hy; [congruence|].
      apply fmap_Some. exists i. split; [|done]. apply IH. exists y. repeat split; [done|done|].
      intros j z Hj Hz. apply (Hmin (S j) z); [lia|done].
Qed.

Lemma find_index_None {A} (p : A → bool) l :
  find_index p l = None ↔ Forall (λ x, p x = false) l.
Proof.
  induction l as [|x l IH]; simpl; [split; [constructor|done]|].
  destruct (p x) eqn:Hp.
  - split; [done|]. intros H; inversion H; congruence.
  - rewrite fmap_None, IH. split; [by constructor|]. intros H; by inversion H.
Qed.

Lemma elem_of_bfilter {A} (p : A → bool) l x : x ∈ bfilter p l ↔ p x = true ∧ x ∈ l.
Proof.
  induction l as [|y l IH]; simpl; [rewrite elem_of_nil; tauto|].
  destruct (p y) eqn:Hp; rewrite !elem_of_cons, IH; naive_solver congruence.
Qed.

Lemma bfilter_app {A} (p : A → bool) l k : bfilter p (l ++ k) = bfilter p l ++ bfilter p k.
Proof. induction l as [|x l IH]; simpl; [done|]. destruct (p x); simpl; by rewrite IH. Qed.

Lemma bfilter_ext {A} (p q : A → bool) l : (∀ x, p x = q x) → bfilter p l = bfilter q l.
Proof. intros H. induction l as [|x l IH]; simpl; [done|]. by rewrite H, IH. Qed.

Lemma bfilter_length {A} (p : A → bool) l : (length (bfilter p l) ≤ length l)%nat.
Proof. induction l as [|x l IH]; simpl; [done|]. destruct (p x); simpl; lia. Qed.

Lemma bfilter_none {A} (p : A → bool) l : Forall (λ x, p x = false) l → bfilter p l = [].
Proof. induction 1 as [|x l Hx _ IH]; simpl; [done|]. by rewrite Hx. Qed.

Lemma bfilter_all {A} (p : A → bool) l : Forall (λ x, p x = true) l → bfilter p l = l.
Proof. induction 1 as [|x l Hx _ IH]; simpl; [done|]. by rewrite Hx, IH. Qed.

Lemma bfilter_sublist {A} (p : A → bool) l : bfilter p l `sublist_of` l.
Proof.
  induction l as [|x l IH]; simpl; [constructor|].
  destruct (p x); by constructor.
Qed.

Lemma bfilter_NoDup_fmap {A B} (f : A → B) (p : A → bool) l :
  NoDup (f <$> l) → NoDup (f <$> bfilter p l).
Proof.
  intros H. eapply sublist_NoDup; [exact H|].
  apply fmap_sublist, bfilter_sublist.
Qed.

(** Overwriting a cell forgets what was done to it. *)
Lemma insert_after_alter {A} (l : list A) i x (g : A → A) : <[i:=x]> (alter g i l) = <[i:=x]> l.
Proof. revert i. induction l as [|y l IH]; intros [|i]; simpl; [done|done|done|]. f_equal. apply IH. Qed.

(** The in-place loop leaves in the first [w'] cells what it had there,
    followed by the kept elements of the cells it scanned, in order; the
    array keeps its length. *)
Lemma compact_loop_spec {A} (keep : A → bool) k : ∀ i w (a : list A),
  (w ≤ i)%nat → (i + k ≤ length a)%nat →
  let '(a', w') := compact_loop keep k i w a in
  take w' a' = take w a ++ bfilter keep (take k (drop i a)) ∧ length a' = length a.
Proof.
  induction k as [|k IH]; intros i w a Hwi Hlen; cbn [compact_loop].
  { by rewrite take_0, app_nil_r. }
  destruct (lookup_lt_is_Some_2 a i ltac:(lia)) as [x Hx]. rewrite Hx.
  rewrite (drop_S a x i Hx). cbn [take bfilter firstn].
  destruct (keep x).
  - specialize (IH (S i) (S w) (<[w:=x]> a) ltac:(lia)).
    rewrite length_insert in IH. specialize (IH ltac:(lia)).
    destruct (compact_loop keep k (S i) (S w) (<[w:=x]> a)) as [a' w'].
    destruct IH as [IH1 IH2]. split; [|done]. rewrite IH1.
    rewrite (take_S_r _ w x) by (apply list_lookup_insert_eq; lia).
    rewrite take_insert_ge by lia. rewrite drop_insert_lt by lia.
    by rewrite <- app_assoc.
  - specialize (IH (S i) w a ltac:(lia) ltac:(lia)).
    destruct (compact_loop keep k (S i) w a) as [a' w']. destruct IH as [-> ?]. done.
Qed.

Lemma compact_loop_count {A} (keep : A → bool) k : ∀ i w (a : list A),
  ((compact_loop keep k i w a).2 ≤ w + k)%nat.
Proof.
  induction k as [|k IH]; intros i w a; simpl; [lia|].
  destruct (a !! i) as [x|]; simpl; [|lia].
  destruct (keep x); [specialize (IH (S i) (S w) (<[w:=x]> a))|specialize (IH (S i) w a)]; lia.
Qed.

Lemma compact_loop_filter {A} (keep : A → bool) (a : list A) n :
  (n ≤ length a)%nat →
  let '(a', w) := compact_loop keep n 0 0 a in
  take w a' = bfilter keep (take n a) ∧ length a' = length a.
Proof.
  intros Hn. pose proof (compact_loop_spec keep n 0 0 a ltac:(lia) ltac:(lia)) as H.
  destruct (compact_loop keep n 0 0 a) as [a' w]. by rewrite drop_0 in H.
Qed.

(** ** Tables indexed by a field

    Programs keep small tables as arrays of records searched by a key field;
    [by_key f l] is the finite map such an array stands for. *)

Definition by_key {A} (f : A → Z) (l : list A) : gmap Z A :=
  list_to_map ((λ x, (f x, x)) <$> l).

Lemma fmap_fst_by_key {A} (f : A → Z) (l : list A) : ((λ x, (f x, x)) <$> l).*1 = f <$> l.
Proof. rewrite <- list_fmap_compose. done. Qed.

Lemma by_key_Some {A} (f : A → Z) (l : list A) k x :
  NoDup (f <$> l) → by_key f l !! k = Some x ↔ x ∈ l ∧ f x = k.
Proof.
  intros Hnd. unfold by_key.
  rewrite <- elem_of_list_to_map by (by rewrite fmap_fst_by_key).
  rewrite list_elem_of_fmap. split.
  - intros (y & [= -> ->] & Hy). done.
  - intros [Hx <-]. eauto.
Qed.

Lemma by_key_None {A} (f : A → Z) (l : list A) k : by_key f l !! k = None ↔ k ∉ f <$> l.
Proof. unfold by_key. by rewrite <- not_elem_of_list_to_map, fmap_fst_by_key. Qed.

Lemma by_key_snoc {A} (f : A → Z) (l : list A) x :
  f x ∉ f <$> l → by_key f (l ++ [x]) = <[f x := x]> (by_key f l).
Proof.
  intros Hx. unfold by_key. rewrite fmap_app. simpl.
  apply list_to_map_snoc. by rewrite fmap_fst_by_key.
Qed.

(** Overwriting a record with one of the same key. *)
Lemma by_key_insert {A} (f : A → Z) (l : list A) i x y :
  NoDup (f <$> l) → l !! i = Some x → f y = f x →
  by_key f (<[i:=y]> l) = <[f y := y]> (by_key f l) ∧ f <$> <[i:=y]> l = f <$> l.
Proof.
  intros Hnd Hi Hxy.
  assert (Hkeys : f <$> <[i:=y]> l = f <$> l).
  { rewrite list_fmap_insert, Hxy. apply list_insert_id. by rewrite list_lookup_fmap, Hi. }
  split; [|done].
  apply map_eq. intros k. apply option_eq. intros z.
  rewrite by_key_Some by (by rewrite Hkeys).
  rewrite lookup_insert_Some, by_key_Some by done. split.
  - intros [Hz <-]. apply list_elem_of_lookup in Hz as [j Hj].
    destruct (decide (i = j)) as [<-|Hne].
    + rewrite list_lookup_insert_eq in Hj by (by eapply lookup_lt_Some). left. by simplify_eq.
    + rewrite list_lookup_insert_ne in Hj by done. right. split.
      * rewrite Hxy. intros Heq. apply Hne.
        eapply (NoDup_lookup _ i j (f x) Hnd); rewrite list_lookup_fmap, ?Hi, ?Hj; simpl; congruence.
      * split; [|done]. apply list_elem_of_lookup. eauto.
  - intros [[<- ->]|(Hne & Hz & <-)].
    + split; [|done]. apply list_elem_of_lookup. exists i.
      apply list_lookup_insert_eq. by eapply lookup_lt_Some.
    + split; [|done]. apply list_elem_of_lookup in Hz as [j Hj].
      apply list_elem_of_lookup. exists j. rewrite list_lookup_insert_ne; [done|].
      intros ->. rewrite Hi in Hj. simplify_eq.
Qed.

(** Filtering the array filters the map. *)
Lemma by_key_bfilter {A} (f : A → Z) (p : A → bool) (l : list A) k :
  NoDup (f <$> l) →
  by_key f (bfilter p l) !! k = by_key f l !! k ≫= λ x, if p x then Some x else None.
Proof.
  intros Hnd. apply option_eq. intros x.
  rewrite by_key_Some by (by apply bfilter_NoDup_fmap). rewrite elem_of_bfilter, bind_Some. split.
  - intros [[Hp Hx] Hk]. exists x. rewrite by_key_Some by done. by rewrite Hp.
  - intros (y & Hy & Hx). apply by_key_Some in Hy as [Hy Hk]; [|done].
    destruct (p y) eqn:Hp; [|done]. by injection Hx as <-.
Qed.

(** Changing the records and not their keys. *)
Lemma by_key_fmap {A} (f : A → Z) (g : A → A) (l : list A) k :
  (∀ x, f (g x) = f x) → by_key f (g <$> l) !! k = g <$> (by_key f l !! k).
Proof.
  intros Hg. unfold by_key. induction l as [|x l IH]; csimpl; [done|]. rewrite Hg.
  destruct (decide (f x = k)) as [->|]; [by rewrite !lookup_insert_eq|by rewrite !lookup_insert_ne].
Qed.

(** The linear search finds what the map holds. *)
Lemma find_index_by_key {A} (f : A → Z) (l : list A) k :
  NoDup (f <$> l) →
  match find_index (λ x, f x =? k) l with
  | Some i => ∃ x, l !! i = Some x ∧ f x = k ∧ by_key f l !! k = Some x
  | None => by_key f l !! k = None
  end.
Proof.
  intros Hnd. destruct (find_index _ l) as [i|] eqn:E.
  - apply find_index_Some in E as (x & Hi & Hx & _). apply Z.eqb_eq in Hx.
    exists x. split; [done|]. split; [done|]. apply by_key_Some; [done|].
    split; [|done]. apply list_elem_of_lookup. eauto.
  - apply find_index_None in E. apply by_key_None. intros (x & -> & Hx)%list_elem_of_fmap.
    rewrite Forall_forall in E. specialize (E x Hx). by rewrite Z.eqb_refl in E.
Qed.

Lemma size_by_key {A} (f : A → Z) (l : list A) :
  NoDup (f <$> l) → size (by_key f l) = length l.
Proof.
  induction l as [|x l IH] using rev_ind; intros Hnd; [done|].
  rewrite fmap_app in Hnd. apply NoDup_app in Hnd as (Hnd & Hx & _). simpl in Hx.
  assert (f x ∉ f <$> l) as Hx' by (intros Hin; apply (Hx _ Hin); by left).
  rewrite by_key_snoc by done.
  rewrite map_size_insert_None by (by apply by_key_None).
  rewrite IH by done. rewrite length_app. simpl. lia.
Qed.

(** Setting an absent key to nothing. *)
Lemma partial_alter_absent `{Countable K} {A} (m : gmap K A) k :
  m !! k = None → partial_alter (λ _, None) k m = m.
Proof.
  intros Hk. apply map_eq. intros j. destruct (decide (j = k)) as [->|];
    [rewrite lookup_partial_alter_eq | rewrite lookup_partial_alter_ne]; done.
Qed.

(** A table over some of a map's keys, and not all, is smaller. *)
Lemma size_lt_of_dom `{Countable K} {A B} (m : gmap K A) (g : gmap K B) k :
  (∀ j, is_Some (m !! j) → is_Some (g !! j)) → is_Some (g !! k) → m !! k = None →
  (size m < size g)%nat.
Proof.
  intros Hsub Hk Hm. rewrite <- !size_dom. apply subset_size. split.
  - intros j. rewrite !elem_of_dom. apply Hsub.
  - intros H'. specialize (H' k). rewrite !elem_of_dom in H'. destruct (H' Hk). congruence.
Qed.

(** Splitting at the characters that satisfy [p]; the pieces may be empty. *)
Fixpoint split_by (p : Z → bool) (l : list Z) : list (list Z) :=
  match l with
  | [] => [[]]
  | c :: l' =>
      if p c then [] :: split_by p l'
      else match split_by p l' with x :: xs => (c :: x) :: xs | [] => [[c]] end
  end.

Lemma split_by_seg p seg d r :
  Forall (λ c, p c = false) seg → p d = true → split_by p (seg ++ d :: r) = seg :: split_by p r.
Proof.
  intros Hs Hd. induction Hs as [|c seg Hc _ IH]; cbn [app split_by]; [by rewrite Hd|]. by rewrite Hc, IH.
Qed.

Lemma split_by_last p seg : Forall (λ c, p c = false) seg → split_by p seg = [seg].
Proof. induction 1 as [|c seg Hc _ IH]; [done|]. cbn [split_by]. by rewrite Hc, IH. Qed.

(** A circular buffer of [n] cells: the pushed values [l], the latest [n] of
    them in cell (index mod [n]). *)
Definition ring_latest {A} (n : nat) (ring l : list A) : Prop :=
  ∀ j x, l !! j = Some x → (length l ≤ j + n)%nat → ring !! (j `mod` n)%nat = Some x.

Lemma mod_window_ne (n j c : nat) : (j < c)%nat → (c < j + n)%nat → (j `mod` n)%nat ≠ (c `mod` n)%nat.
Proof.
  intros H1 H2 Heq. pose proof (Nat.Div0.div_mod j n). pose proof (Nat.Div0.div_mod c n).
  assert (c - j = n * (c `div` n - j `div` n))%nat by nia.
  destruct (c `div` n - j `div` n)%nat eqn:E; nia.
Qed.

Lemma ring_latest_push {A} (n : nat) (ring l : list A) x :
  (0 < n)%nat → (n ≤ length ring)%nat → ring_latest n ring l →
  ring_latest n (<[(length l `mod` n)%nat := x]> ring) (l ++ [x]).
Proof.
  intros Hn Hr Hl j y Hj Hlen. rewrite length_app in Hlen. simpl in Hlen.
  apply lookup_app_Some in Hj as [Hj|[Hge Hj]].
  - pose proof (lookup_lt_Some _ _ _ Hj). rewrite list_lookup_insert_ne.
    + apply Hl; [done|lia].
    + apply not_eq_sym, mod_window_ne; lia.
  - apply list_lookup_singleton_Some in Hj as [Hj ->]. assert (j = length l) as -> by lia.
    apply list_lookup_insert_eq. pose proof (Nat.mod_upper_bound (length l) n). lia.
Qed.

(** Reading the cells from the oldest on. *)
Lemma ring_latest_read {A} (n : nat) (ring l : list A) i :
  (0 < n)%nat → ring_latest n ring l → (i < Nat.min (length l) n)%nat →
  ring !! (((if (length l <? n)%nat then 0 else length l `mod` n) + i) `mod` n)%nat = l !! (length l - n + i)%nat.
Proof.
  intros Hn Hl Hi. destruct (lookup_lt_is_Some_2 l (length l - n + i)) as [x Hx]; [lia|]. rewrite Hx.
  rewrite <- (Hl (length l - n + i)%nat x Hx) by lia. f_equal. destruct (Nat.ltb_spec (length l) n).
  - f_equal. lia.
  - rewrite Nat.Div0.add_mod_idemp_l. replace (length l + i)%nat with ((length l - n + i) + 1 * n)%nat by lia.
    apply Nat.Div0.mod_add.
Qed.

(** ** Sums *)

Definition sumZ (l : list Z) : Z := foldr Z.add 0 l.

Lemma sumZ_app l k : sumZ (l ++ k) = sumZ l + sumZ k.
Proof. unfold sumZ. induction l as [|x l IH]; simpl; lia. Qed.

(** Replacing one element of a list changes a sum over it by the
    difference. *)
Lemma sumZ_fmap_insert {A} (f : A → Z) (l : list A) i x y :
  l !! i = Some x → sumZ (f <$> <[i:=y]> l) = sumZ (f <$> l) - f x + f y.
Proof.
  revert i. induction l as [|z l IH]; intros [|i] Hi; simplify_eq/=; [unfold sumZ; lia|].
  rewrite (IH i Hi). lia.
Qed.

Lemma sumZ_fmap_ext {A} (f g : A → Z) (l : list A) :
  Forall (λ x, f x = g x) l → sumZ (f <$> l) = sumZ (g <$> l).
Proof. induction 1; csimpl; congruence. Qed.

(** ** Automation

    [split_ifs] splits on every boolean test left in the goal or the
    context; [bool_to_prop] turns the tests into propositions. *)

Ltac split_ifs :=
  repeat match goal with
  | |- context [if ?b then _ else _] => destruct b eqn:?
  | H : context [if ?b then _ else _] |- _ => destruct b eqn:?
  end.

Ltac bool_to_prop :=
  repeat match goal with
  | H : (_ && _)%bool = true |- _ => apply andb_true_iff in H as [? ?]
  | H : (_ || _)%bool = false |- _ => apply orb_false_iff in H as [? ?]
  | H : negb _ = true |- _ => apply negb_true_iff in H
  | H : negb _ = false |- _ => apply negb_false_iff in H
  | H : (_ =? _)%Z = true |- _ => apply Z.eqb_eq in H
  | H : (_ =? _)%Z = false |- _ => apply Z.eqb_neq in H
  | H : (_ <? _)%Z = true |- _ => apply Z.ltb_lt in H
  | H : (_ <? _)%Z = false |- _ => apply Z.ltb_ge in H
  | H : (_ <=? _)%Z = true |- _ => apply Z.leb_le in H
  | H : (_ <=? _)%Z = false |- _ => apply Z.leb_gt in H
  end.

(** Equalities between wrapped sums. *)
Ltac wrap_lia := first [reflexivity | lia | apply f_equal; lia].
