(* ===== verification/Kernel.v ===== *)
(** * Kernel

    The kernel services the BPF programs and their loaders call: BPF maps,
    the ring buffer, the current task and the memory-reading helpers.  None
    of that code is part of the repository, so each service is an interface:
    a class of operations ([BpfMap], [Ringbuf], [UserMem]) and a class of
    laws ([BpfHashLaws], [BpfLruLaws], [RingbufLaws], [UserMemLaws]) that
    states what bpf(2) and bpf-helpers(7) document.  The programs are
    written against the operations and their theorems are proved from the
    laws.  The end of the file has reference implementations over [gmap]
    and lists, which show the laws can hold and let examples run. *)

From stdpp Require Import prelude gmap list.
From Stdlib Require Import ZArith Lia.
From S2P Require Import Prelude.

(** errno values (asm-generic/errno-base.h). *)
Definition EPERM : Z := 1.
Definition ENOENT : Z := 2.
Definition EINTR : Z := 4.
Definition E2BIG : Z := 7.
Definition EFAULT : Z := 14.
Definition EEXIST : Z := 17.

(** ** The current task

    What [bpf_get_current_pid_tgid], [bpf_get_current_uid_gid] and
    [bpf_get_current_comm] report about the task a hook runs in.  [comm] is
    the TASK_COMM_LEN bytes the helper writes. *)
Record task := mk_task {
  pid_tgid : Z;
  uid_gid : Z;
  comm : list Z;
}.

(** [bpf_get_current_pid_tgid() >> 32], stored in a [__u32]. *)
Definition current_pid (t : task) : Z := u32 (Z.shiftr (pid_tgid t) 32).

(** [bpf_get_current_uid_gid() & 0xFFFFFFFF]. *)
Definition current_uid (t : task) : Z := Z.land (uid_gid t) 4294967295.

#[global] Opaque current_pid current_uid.

(** ** Maps *)

Inductive update_flag := BPF_ANY | BPF_NOEXIST.

(** [map_poke m k f] is a store through the pointer a lookup of [k]
    returned: the value in the map becomes [f] of what it was.
    [map_view] and [map_keys] are the contents and the iteration order; they
    occur in the laws, never in a program. *)
Class BpfMap (M K V : Type) `{Countable K} := {
  map_empty : M;
  map_lookup_elem : M → K → option V;
  map_update_elem : M → K → V → update_flag → Z * M;
  map_delete_elem : M → K → Z * M;
  map_poke : M → K → (V → V) → M;
  map_get_next_key : M → K → option K;
  map_view : M → gmap K V;
  map_keys : M → list K;
}.

(** [BPF_MAP_GET_NEXT_KEY] over an iteration order: the key after [k], or
    the first key when [k] is not in the map. *)
Fixpoint succ_in `{EqDecision K} (k : K) (l : list K) : option (option K) :=
  match l with
  | [] => None
  | x :: l' => if decide (x = k) then Some (head l') else succ_in k l'
  end.

Definition next_key_in `{EqDecision K} (l : list K) (k : K) : option K :=
  default (head l) (succ_in k l).

(** What every map type promises. *)
Class BpfMapLaws (M K V : Type) `{Countable K} `{!BpfMap M K V} : Prop := {
  map_empty_view : map_view map_empty = ∅;
  map_lookup_view (m : M) (k : K) : map_lookup_elem m k = map_view m !! k;
  map_delete_view (m : M) (k : K) :
    map_view (map_delete_elem m k).2 = delete k (map_view m);
  map_poke_view (m : M) (k : K) (f : V → V) :
    map_view (map_poke m k f) = alter f k (map_view m);
  map_keys_NoDup (m : M) : NoDup (map_keys m);
  map_keys_elem (m : M) (k : K) : k ∈ map_keys m ↔ is_Some (map_view m !! k);
  map_next_key_keys (m : M) (k : K) : map_get_next_key m k = next_key_in (map_keys m) k;
}.

(** [bpf_map_update_elem] on BPF_MAP_TYPE_HASH: BPF_NOEXIST refuses a key
    that is present, a new key is refused once the map holds [max_entries]
    elements, and a refused update leaves the map as it was. *)
Definition hash_update `{Countable K} {V} (max_entries : Z) (g : gmap K V)
    (k : K) (v : V) (flag : update_flag) : Z * gmap K V :=
  match g !! k, flag with
  | Some _, BPF_NOEXIST => (- EEXIST, g)
  | Some _, BPF_ANY => (0, <[k:=v]> g)
  | None, _ =>
      if Z.of_nat (size g) <? max_entries then (0, <[k:=v]> g) else (- E2BIG, g)
  end.

Class BpfHashLaws (M K V : Type) `{Countable K} `{!BpfMap M K V} (max_entries : Z) : Prop := {
  hash_map_laws :: BpfMapLaws M K V;
  hash_update_view (m : M) (k : K) (v : V) (fl : update_flag) :
    ((map_update_elem m k v fl).1, map_view (map_update_elem m k v fl).2)
    = hash_update max_entries (map_view m) k v fl;
}.

(** BPF_MAP_TYPE_LRU_HASH: an update always finds room, at the price of
    evicting other keys. *)
Class BpfLruLaws (M K V : Type) `{Countable K} `{!BpfMap M K V} (max_entries : Z) : Prop := {
  lru_map_laws :: BpfMapLaws M K V;
  lru_update_noexist (m : M) (k : K) (v : V) :
    is_Some (map_view m !! k) →
    map_view (map_update_elem m k v BPF_NOEXIST).2 = map_view m;
  lru_update_self (m : M) (k : K) (v : V) (fl : update_flag) :
    fl = BPF_ANY ∨ map_view m !! k = None →
    map_view (map_update_elem m k v fl).2 !! k = Some v;
  lru_update_other (m : M) (k k' : K) (v : V) (fl : update_flag) :
    k' ≠ k →
    map_view (map_update_elem m k v fl).2 !! k' = map_view m !! k'
    ∨ map_view (map_update_elem m k v fl).2 !! k' = None;
}.

(** It evicts nothing before it reaches [max_entries], its capacity
    (Documentation/bpf/map_hash.rst): the size of the map, less the free rows
    that CPUs keep for themselves. *)
Class LruCapacity (M K V : Type) `{Countable K} `{!BpfMap M K V} (max_entries : Z) : Prop :=
  lru_keeps (m : M) (k k' : K) (v : V) (fl : update_flag) :
    Z.of_nat (size (map_view m)) < max_entries → k' ≠ k →
    map_view (map_update_elem m k v fl).2 !! k' = map_view m !! k'.

(** ** The ring buffer

    [ringbuf_reserve] returns NULL when the buffer is full, otherwise a
    record whose bytes are whatever the buffer last held there: a field the
    program does not write keeps that value.  [ringbuf_records] is what has
    been submitted, in order. *)
Class Ringbuf (R E : Type) := {
  ringbuf_reserve : R → option (E * R);
  ringbuf_submit : R → E → R;
  ringbuf_discard : R → E → R;
  ringbuf_records : R → list E;
}.

Class RingbufLaws (R E : Type) `{!Ringbuf R E} : Prop := {
  ringbuf_reserve_records (r r' : R) (e : E) :
    ringbuf_reserve r = Some (e, r') → ringbuf_records r' = ringbuf_records r;
  ringbuf_submit_records (r : R) (e : E) :
    ringbuf_records (ringbuf_submit r e) = ringbuf_records r ++ [e];
  ringbuf_discard_records (r : R) (e : E) :
    ringbuf_records (ringbuf_discard r e) = ringbuf_records r;
}.

(** Whether there is room for a record. *)
Definition ring_ready {R E} `{!Ringbuf R E} (r : R) : bool :=
  match ringbuf_reserve r with Some _ => true | None => false end.

(** User space reads the ring: [ring_consumed] is the ring once it has read
    all there is.  [ring_unread], how many records it has not read, occurs
    in the laws and the statements, never in a program. *)
Class RingReader (R : Type) := {
  ring_consumed : R → R;
  ring_unread : R → nat;
}.

(** A ring has room for a record until [slots] of them are unread; a record
    counts from the moment it is reserved, and a discarded one may as well. *)
Class RingReaderLaws (R E : Type) `{!Ringbuf R E, !RingReader R} (slots : nat) : Prop := {
  reader_ring_laws :: RingbufLaws R E;
  ring_consumed_records (r : R) : ringbuf_records (ring_consumed r) = ringbuf_records r;
  ring_consumed_unread (r : R) : ring_unread (ring_consumed r) = 0%nat;
  ring_room (r : R) : (ring_unread r < slots)%nat → ring_ready r = true;
  ring_reserve_unread (r r' : R) (e : E) :
    ringbuf_reserve r = Some (e, r') → (ring_unread r' ≤ S (ring_unread r))%nat;
  ring_submit_unread (r : R) (e : E) : (ring_unread (ringbuf_submit r e) ≤ ring_unread r)%nat;
  ring_discard_unread (r : R) (e : E) : (ring_unread (ringbuf_discard r e) ≤ ring_unread r)%nat;
}.

(** How many records of [size] bytes a ring of [bytes] bytes holds: a record
    has a header of 8 bytes and starts at a multiple of 8, and one byte of
    the ring stays free (Documentation/bpf/ringbuf.rst). *)
Definition ring_slots (bytes size : Z) : nat := Z.to_nat ((bytes - 1) / (8 * ((size + 15) / 8))).

(** A session in which not more than [cap] things happen between two polls:
    [starting] and the first batch come before the first of them. *)
Definition calm {H : Type} (cap : nat) (starting : list H) (batches : list (list H)) : Prop :=
  match batches with
  | [] => (length starting ≤ cap)%nat
  | hs :: rest => Forall (λ hs, (length hs ≤ cap)%nat) ((starting ++ hs) :: rest)
  end.

(** ** Reading another address space

    [probe_read_user_str a size dst] is the helper's result and the [size]
    bytes of [dst] afterwards.  [user_str a] is the string at address [a],
    [None] when reading it faults. *)
Class UserMem := {
  user_str : Z → option (list Z);
  probe_read_user_str : Z → nat → list Z → Z * list Z;
}.

(** bpf-helpers(7): at most [size - 1] characters and a NUL are copied, the
    rest of the destination is not padded, and the result counts the NUL;
    on a fault it is negative. *)
Class UserMemLaws `{!UserMem} : Prop := {
  user_str_nonzero (a : Z) (s : list Z) : user_str a = Some s → Forall (λ b, b ≠ 0) s;
  probe_read_user_str_ok (a : Z) (size : nat) (dst s : list Z) :
    user_str a = Some s → (0 < size)%nat → length dst = size →
    probe_read_user_str a size dst
    = (Z.of_nat (S (length (take (size - 1) s))),
       take (size - 1) s ++ 0 :: drop (S (length (take (size - 1) s))) dst);
  probe_read_user_str_fault (a : Z) (size : nat) (dst : list Z) :
    user_str a = None → (probe_read_user_str a size dst).1 < 0;
}.

(** [probe_read_user a size dst] is the result of [bpf_probe_read_user] and
    the bytes of [dst] afterwards; [user_bytes a size] is the [size] bytes at
    [a], [None] when one of them cannot be read, and then the helper reports
    a negative errno. *)
Class UserBytes := {
  user_bytes : Z → nat → option (list Z);
  probe_read_user : Z → nat → list Z → Z * list Z;
}.

Class UserBytesLaws `{!UserBytes} : Prop := {
  user_bytes_length (a : Z) (size : nat) (b : list Z) :
    user_bytes a size = Some b → length b = size ∧ Forall is_byte b;
  probe_read_user_ok (a : Z) (size : nat) (dst b : list Z) :
    user_bytes a size = Some b → probe_read_user a size dst = (0, b);
  probe_read_user_fault (a : Z) (size : nat) (dst : list Z) :
    user_bytes a size = None → (probe_read_user a size dst).1 < 0;
}.

(** ** Packets seen through a socket buffer

    [skb_load_bytes s off len] is the result of [bpf_skb_load_bytes] and the
    bytes it copied: zero and the bytes when the range lies inside the
    packet, a negative errno otherwise.  [skb_bytes] is the packet. *)
Class Skb (S : Type) := {
  skb_bytes : S → list Z;
  skb_len : S → Z;
  skb_load_bytes : S → nat → nat → Z * list Z;
}.

Class SkbLaws (S : Type) `{!Skb S} : Prop := {
  skb_len_bytes (s : S) : skb_len s = Z.of_nat (length (skb_bytes s));
  skb_load_ok (s : S) (off len : nat) :
    (off + len ≤ length (skb_bytes s))%nat →
    skb_load_bytes s off len = (0, take len (drop off (skb_bytes s)));
  skb_load_fault (s : S) (off len : nat) :
    (length (skb_bytes s) < off + len)%nat → (skb_load_bytes s off len).1 < 0;
}.

(** ** Consequences of the laws *)

Section next_key.
  Context `{EqDecision K}.
  Implicit Types (l : list K) (k : K).

Lemma succ_in_None k l : succ_in k l = None ↔ k ∉ l.
Proof.
  induction l as [|x l IH]; simpl; [set_solver|].
  case_decide; subst; [|rewrite IH]; set_solver.
Qed.

Lemma next_key_in_notin l k : k ∉ l → next_key_in l k = head l.
Proof. intros Hk%succ_in_None. unfold next_key_in. by rewrite Hk. Qed.

Lemma next_key_in_mid l1 l2 k : k ∉ l1 → next_key_in (l1 ++ k :: l2) k = head l2.
Proof.
  intros Hk. unfold next_key_in.
  assert (succ_in k (l1 ++ k :: l2) = Some (head l2)) as ->; [|done].
  induction l1 as [|x l1 IH]; simpl; case_decide; set_solver.
Qed.
End next_key.

Section map_laws.
  Context `{Countable K} {M V : Type} `{!BpfMap M K V}.

Lemma hash_update_rc_view {mx : Z} `{!BpfHashLaws M K V mx} (m : M) k v fl rc m' :
  map_update_elem m k v fl = (rc, m') →
  (rc, map_view m') = hash_update mx (map_view m) k v fl.
Proof. intros Hu. rewrite <- hash_update_view. by rewrite Hu. Qed.

Lemma length_map_keys `{!BpfMapLaws M K V} (m : M) : length (map_keys m) = size (map_view m).
Proof.
  rewrite <- length_map_to_list, <- (length_fmap fst (map_to_list (map_view m))).
  apply Permutation_length, NoDup_Permutation.
  - apply map_keys_NoDup.
  - apply NoDup_fst_map_to_list.
  - intros k. rewrite map_keys_elem, list_elem_of_fmap. split.
    + intros [v Hv]. exists (k, v). by rewrite elem_of_map_to_list.
    + intros ([k' v] & -> & Hkv%elem_of_map_to_list). by exists v.
Qed.

(** An LRU map whose keys are among fewer than [max_entries] ones. *)
Lemma lru_keeps_others {max_entries : Z} `{!LruCapacity M K V max_entries} (m : M) (S : gset K) k k' v fl :
  (∀ i, is_Some (map_view m !! i) → i ∈ S) → Z.of_nat (size S) < max_entries → k' ≠ k →
  map_view (map_update_elem m k v fl).2 !! k' = map_view m !! k'.
Proof.
  intros Hd Hs Hne. apply (lru_keeps (max_entries := max_entries)); [|done]. rewrite <- size_dom.
  assert (size (dom (map_view m)) ≤ size S)%nat; [|lia]. apply subseteq_size. intros i Hi%elem_of_dom. by apply Hd.
Qed.
End map_laws.

(** A string read into a buffer of [size] bytes is cut to [size - 1]. *)
Lemma probe_read_user_str_cstr `{!UserMem} `{!UserMemLaws} a size dst s :
  user_str a = Some s → (0 < size)%nat → length dst = size →
  cstr (probe_read_user_str a size dst).2 = take (size - 1) s.
Proof.
  intros Hs Hz Hl. rewrite (probe_read_user_str_ok a size dst s) by done. cbn [snd].
  apply cstr_app_nul, Forall_take. by eapply user_str_nonzero.
Qed.

Lemma skb_load_cases {S : Type} `{!Skb S} `{!SkbLaws S} (s : S) off len :
  ((off + len ≤ length (skb_bytes s))%nat
   ∧ skb_load_bytes s off len = (0, bytes_at off len (skb_bytes s)))
  ∨ ((length (skb_bytes s) < off + len)%nat
     ∧ ∃ rc b, skb_load_bytes s off len = (rc, b) ∧ (rc <? 0) = true).
Proof.
  destruct (Nat.le_gt_cases (off + len) (length (skb_bytes s))) as [Hl|Hl]; [left|right].
  - split; [done|]. by apply skb_load_ok.
  - split; [done|]. pose proof (skb_load_fault s off len Hl) as Hr.
    destruct (skb_load_bytes s off len) as [rc b]. exists rc, b. split; [done|]. by apply Z.ltb_lt.
Qed.

(** ** Reference implementations *)

Section reference.
  Context `{Countable K} {V : Type}.

Definition gmap_keys (g : gmap K V) : list K := (map_to_list g).*1.

(** A hash map of [max_entries] elements. *)
Definition gmap_hash (max_entries : Z) : BpfMap (gmap K V) K V := {|
  map_empty := ∅;
  map_lookup_elem g k := g !! k;
  map_update_elem g k v fl := hash_update max_entries g k v fl;
  map_delete_elem g k :=
    match g !! k with Some _ => (0, delete k g) | None => (- ENOENT, g) end;
  map_poke g k f := alter f k g;
  map_get_next_key g k := next_key_in (gmap_keys g) k;
  map_view g := g;
  map_keys g := gmap_keys g;
|}.

(** An LRU map: a full map evicts its first key in iteration order. *)
Definition gmap_lru (max_entries : Z) : BpfMap (gmap K V) K V := {|
  map_empty := ∅;
  map_lookup_elem g k := g !! k;
  map_update_elem g k v fl :=
    match g !! k, fl with
    | Some _, BPF_NOEXIST => (- EEXIST, g)
    | Some _, BPF_ANY => (0, <[k:=v]> g)
    | None, _ =>
        if Z.of_nat (size g) <? max_entries then (0, <[k:=v]> g)
        else (0, <[k:=v]> (match head (gmap_keys g) with Some k' => delete k' g | None => g end))
    end;
  map_delete_elem g k :=
    match g !! k with Some _ => (0, delete k g) | None => (- ENOENT, g) end;
  map_poke g k f := alter f k g;
  map_get_next_key g k := next_key_in (gmap_keys g) k;
  map_view g := g;
  map_keys g := gmap_keys g;
|}.

Lemma gmap_delete_view (g : gmap K V) k :
  (match g !! k with Some _ => (0, delete k g) | None => (- ENOENT, g) end).2 = delete k g.
Proof. destruct (g !! k) eqn:E; simpl; [done|]. by rewrite delete_id. Qed.

Lemma gmap_keys_elem (g : gmap K V) k : k ∈ gmap_keys g ↔ is_Some (g !! k).
Proof.
  unfold gmap_keys. rewrite list_elem_of_fmap. split.
  - intros ([k' v] & -> & Hkv%elem_of_map_to_list). by exists v.
  - intros [v Hv]. exists (k, v). by rewrite elem_of_map_to_list.
Qed.

Lemma gmap_hash_map_laws max_entries : @BpfMapLaws (gmap K V) K V _ _ (gmap_hash max_entries).
Proof.
  split; simpl; try done.
  - apply gmap_delete_view.
  - intros g. apply NoDup_fst_map_to_list.
  - apply gmap_keys_elem.
Qed.

Lemma gmap_hash_laws max_entries :
  @BpfHashLaws (gmap K V) K V _ _ (gmap_hash max_entries) max_entries.
Proof.
  split; [apply gmap_hash_map_laws|]. intros g k v fl. simpl.
  by destruct (hash_update max_entries g k v fl).
Qed.

Lemma gmap_lru_laws max_entries :
  @BpfLruLaws (gmap K V) K V _ _ (gmap_lru max_entries) max_entries.
Proof.
  split; simpl.
  - split; simpl; try done.
    + apply gmap_delete_view.
    + intros g. apply NoDup_fst_map_to_list.
    + apply gmap_keys_elem.
  - intros g k v [w Hw]. by rewrite Hw.
  - intros g k v fl Hfl. destruct (g !! k) eqn:E; simpl.
    + destruct Hfl as [->|?]; [|done]. simpl. by rewrite lookup_insert_eq.
    + destruct (_ <? _); simpl; by rewrite lookup_insert_eq.
  - intros g k k' v fl Hne. destruct (g !! k) eqn:E; simpl.
    + destruct fl; simpl; [rewrite lookup_insert_ne by done|]; by left.
    + destruct (_ <? _); simpl; rewrite lookup_insert_ne by done; [by left|].
      destruct (head (gmap_keys g)) as [k0|]; [|by left].
      destruct (decide (k0 = k')) as [->|]; [right; apply lookup_delete_eq|].
      left. by rewrite lookup_delete_ne.
Qed.

Lemma gmap_lru_capacity max_entries : @LruCapacity (gmap K V) K V _ _ (gmap_lru max_entries) max_entries.
Proof.
  intros g k k' v fl Hs Hne. cbn in *. apply Z.ltb_lt in Hs. rewrite Hs.
  destruct (g !! k), fl; cbn; by rewrite ?lookup_insert_ne.
Qed.
End reference.

(** A ring buffer with room for [free] more records, whose reserved slots
    hold [dirt]. *)
Record list_ring (E : Type) := mk_ring { ring_done : list E; ring_free : nat; ring_dirt : E }.
Arguments mk_ring {E} _ _ _.
Arguments ring_done {E} _.
Arguments ring_free {E} _.
Arguments ring_dirt {E} _.

Definition list_ringbuf {E : Type} : Ringbuf (list_ring E) E := {|
  ringbuf_reserve r :=
    match ring_free r with
    | O => None
    | S n => Some (ring_dirt r, mk_ring (ring_done r) n (ring_dirt r))
    end;
  ringbuf_submit r e := mk_ring (ring_done r ++ [e]) (ring_free r) (ring_dirt r);
  ringbuf_discard r e := mk_ring (ring_done r) (S (ring_free r)) (ring_dirt r);
  ringbuf_records := ring_done;
|}.

Lemma list_ringbuf_laws {E : Type} : @RingbufLaws (list_ring E) E list_ringbuf.
Proof.
  split; simpl; try done.
  intros r r' e He. destruct (ring_free r); [done|]. by injection He as <- <-.
Qed.

(** A user address space given by a finite map from addresses to the strings
    stored there. *)
Definition gmap_user_mem (g : gmap Z (list Z)) : UserMem := {|
  user_str a := cstr <$> (g !! a);
  probe_read_user_str a size dst :=
    match g !! a with
    | Some b =>
        let s := take (size - 1) (cstr b) in
        (Z.of_nat (S (length s)), s ++ 0 :: drop (S (length s)) dst)
    | None => (- EFAULT, dst)
    end;
|}.

Lemma gmap_user_mem_laws g : @UserMemLaws (gmap_user_mem g).
Proof.
  split; simpl.
  - intros a s (b & _ & ->)%fmap_Some. apply cstr_nonzero.
  - intros a size dst s (b & -> & ->)%fmap_Some _ _. done.
  - intros a size dst ->%fmap_None. done.
Qed.

(** An address space whose readable ranges are the ones listed. *)
Definition gmap_user_bytes (g : gmap (Z * nat) (list Z)) : UserBytes := {|
  user_bytes a size :=
    match g !! (a, size) with
    | Some b => if bool_decide (length b = size ∧ Forall is_byte b) then Some b else None
    | None => None
    end;
  probe_read_user a size dst :=
    match g !! (a, size) with
    | Some b => if bool_decide (length b = size ∧ Forall is_byte b) then (0, b) else (- EFAULT, dst)
    | None => (- EFAULT, dst)
    end;
|}.

Lemma gmap_user_bytes_laws g : @UserBytesLaws (gmap_user_bytes g).
Proof.
  split; simpl; intros a size; destruct (g !! (a, size)) as [b|]; try done; case_bool_decide; try done;
    intros; by simplify_eq.
Qed.

(** A linear socket buffer. *)
Definition list_skb : Skb (list Z) := {|
  skb_bytes s := s;
  skb_len s := Z.of_nat (length s);
  skb_load_bytes s off len :=
    if (off + len <=? length s)%nat then (0, take len (drop off s)) else (- EFAULT, replicate len 0);
|}.

Lemma list_skb_laws : @SkbLaws (list Z) list_skb.
Proof.
  split; simpl; [done| |]; intros s off len H.
  - by destruct (Nat.leb_spec (off + len) (length s)); [|lia].
  - by destruct (Nat.leb_spec (off + len) (length s)); [lia|].
Qed.

(** A ring buffer whose reserved slots always hold [dirt]. *)
Definition const_ringbuf {E : Type} (dirt : E) : Ringbuf (list E * nat) E := {|
  ringbuf_reserve r := match r with (l, S n) => Some (dirt, (l, n)) | (_, O) => None end;
  ringbuf_submit r e := (r.1 ++ [e], r.2);
  ringbuf_discard r e := (r.1, S r.2);
  ringbuf_records := fst;
|}.

Lemma const_ringbuf_laws {E : Type} (dirt : E) : @RingbufLaws (list E * nat) E (const_ringbuf dirt).
Proof. split; simpl; [|done|done]. intros [l [|n]] r' e; [done|]. by intros [= <- <-]. Qed.

(** A ring that never fills up. *)
Definition endless_ringbuf {E : Type} (dirt : E) : Ringbuf (list E) E := {|
  ringbuf_reserve r := Some (dirt, r);
  ringbuf_submit r e := r ++ [e];
  ringbuf_discard r _ := r;
  ringbuf_records r := r;
|}.

Lemma endless_ringbuf_laws {E : Type} (dirt : E) : @RingbufLaws (list E) E (endless_ringbuf dirt).
Proof. split; simpl; [|done|done]. by intros r r' e [= -> ->]. Qed.

(** A ring with room for [slots] unread records: [(records, unread)]. *)
Definition sized_ringbuf {E : Type} (slots : nat) (dirt : E) : Ringbuf (list E * nat) E := {|
  ringbuf_reserve '(l, n) := if (n <? slots)%nat then Some (dirt, (l, S n)) else None;
  ringbuf_submit r e := (r.1 ++ [e], r.2);
  ringbuf_discard r _ := r;
  ringbuf_records := fst;
|}.

Definition sized_reader {E : Type} : RingReader (list E * nat) := {|
  ring_consumed r := (r.1, 0%nat);
  ring_unread := snd;
|}.

Lemma sized_ring_laws {E : Type} (slots : nat) (dirt : E) :
  @RingReaderLaws (list E * nat) E (sized_ringbuf slots dirt) sized_reader slots.
Proof.
  assert (Hr : ∀ (r r' : list E * nat) (e : E), @ringbuf_reserve _ _ (sized_ringbuf slots dirt) r = Some (e, r') → r' = (r.1, S r.2)).
  { intros [l n] r' e. cbn [ringbuf_reserve sized_ringbuf]. destruct (n <? slots)%nat; [|done]. by intros [= _ <-]. }
  split; [split; [|done..]|done|done| | |cbn; lia|cbn; lia].
  - by intros r r' e ->%Hr.
  - intros [l n] Hn%Nat.ltb_lt. unfold ring_ready. cbn [ringbuf_reserve sized_ringbuf ring_unread sized_reader snd] in *. by rewrite Hn.
  - intros r r' e ->%Hr. cbn. lia.
Qed.

Lemma sized_dirt {E : Type} slots (dirt : E) r d r' :
  @ringbuf_reserve _ _ (sized_ringbuf slots dirt) r = Some (d, r') → d = dirt.
Proof. destruct r as [l n]. cbn [ringbuf_reserve sized_ringbuf]. destruct (n <? slots)%nat; [|done]. by intros [= <- _]. Qed.
