(* ===== verification/Float64.v ===== *)
(** * Float64: C doubles

    Two programs compute with [double] (src/27-nettop/nettop.c and
    src/23-ids/ids.c).  A double is a [spec_float] of the Standard Library
    with 53 bits of precision and maximal exponent 1024, and the operations
    are its IEEE 754 ones with rounding to nearest even, which compute.  The
    lemmas give what the programs' ordering arguments need: on numbers that
    are not NaN the comparison is a total order up to the two zeros, and
    converting integers, adding and dividing do not make a NaN out of
    non-negative operands. *)

From stdpp Require Import prelude.
From Stdlib Require Import ZArith Lia.
From Stdlib Require Import SpecFloat.
From S2P Require Import Prelude.

Notation f64 := spec_float.

Definition f64_zero : f64 := S754_zero false.

(** [(double)z]. *)
Definition f64_of_Z (z : Z) : f64 := binary_normalize 53 1024 z 0 false.

Definition f64_add : f64 → f64 → f64 := SFadd 53 1024.
Definition f64_sub : f64 → f64 → f64 := SFsub 53 1024.
Definition f64_mul : f64 → f64 → f64 := SFmul 53 1024.
Definition f64_div : f64 → f64 → f64 := SFdiv 53 1024.
Definition f64_sqrt : f64 → f64 := SFsqrt 53 1024.

(** [x < y], [x <= y], [x > y], [x >= y]; all false on a NaN. *)
Definition f64_ltb (x y : f64) : bool := SFltb x y.
Definition f64_leb (x y : f64) : bool := SFleb x y.
Definition f64_gtb (x y : f64) : bool := SFltb y x.
Definition f64_geb (x y : f64) : bool := SFleb y x.

(** A decimal constant [n / 10^k] of the source, correctly rounded. *)
Definition f64_dec (n : Z) (k : Z) : f64 := f64_div (f64_of_Z n) (f64_of_Z (10 ^ k)).

Definition is_nan (x : f64) : bool := match x with S754_nan => true | _ => false end.

(** Not NaN and not negative (either zero is allowed). *)
Definition nonneg (x : f64) : bool :=
  match x with
  | S754_zero _ | S754_infinity false | S754_finite false _ _ => true
  | _ => false
  end.

#[global] Arguments f64_of_Z : simpl never.
#[global] Arguments f64_add : simpl never.
#[global] Arguments f64_sub : simpl never.
#[global] Arguments f64_mul : simpl never.
#[global] Arguments f64_div : simpl never.
#[global] Arguments f64_sqrt : simpl never.

(** ** The order

    [rank] places a number in a lexicographic order of integers that the
    comparison of the specification computes. *)

Definition rank (x : f64) : Z * Z * Z :=
  match x with
  | S754_infinity true => (-2, 0, 0)
  | S754_finite true m e => (-1, - e, - Z.pos m)
  | S754_zero _ | S754_nan => (0, 0, 0)
  | S754_finite false m e => (1, e, Z.pos m)
  | S754_infinity false => (2, 0, 0)
  end.

Definition rank_lt (a b : Z * Z * Z) : Prop :=
  a.1.1 < b.1.1 ∨ (a.1.1 = b.1.1 ∧ (a.1.2 < b.1.2 ∨ (a.1.2 = b.1.2 ∧ a.2 < b.2))).

Lemma f64_ltb_rank x y :
  is_nan x = false → is_nan y = false → f64_ltb x y = true ↔ rank_lt (rank x) (rank y).
Proof.
  unfold f64_ltb, SFltb, rank_lt.
  destruct x as [sx|sx| |sx mx ex], y as [sy|sy| |sy my ey]; simpl; try done; intros _ _;
    try (destruct sx); try (destruct sy); simpl; try (split; intros; first [done|lia]).
  - destruct (Z.compare_spec ex ey); simpl; try (split; intros; first [done|lia]).
    change (Pos.compare_cont Eq mx my) with (Pos.compare mx my).
    destruct (Pos.compare_spec mx my); simpl; split; intros; first [done|lia].
  - destruct (Z.compare_spec ex ey); simpl; try (split; intros; first [done|lia]).
    change (Pos.compare_cont Eq mx my) with (Pos.compare mx my).
    destruct (Pos.compare_spec mx my); simpl; split; intros; first [done|lia].
Qed.

(** ** No NaN from non-negative operands *)

Section rounding.
  Variables prec emax : Z.

Lemma shr_1_nonneg mrs : 0 ≤ shr_m mrs → 0 ≤ shr_m (shr_1 mrs).
Proof. destruct mrs as [[|[p|p|]|[p|p|]] r s]; simpl; lia. Qed.

Lemma iter_shr_nonneg p : ∀ mrs, 0 ≤ shr_m mrs → 0 ≤ shr_m (iter_pos shr_1 p mrs).
Proof. induction p; intros mrs H; simpl; auto using shr_1_nonneg. Qed.

Lemma shr_fexp_nonneg m e l : 0 ≤ m → 0 ≤ shr_m (shr_fexp prec emax m e l).1.
Proof.
  intros Hm. unfold shr_fexp, shr.
  assert (0 ≤ shr_m (shr_record_of_loc m l)) by (by destruct l as [|[]]).
  destruct (_ - _); simpl; auto using iter_shr_nonneg.
Qed.

Lemma round_nearest_even_nonneg m l : 0 ≤ m → 0 ≤ round_nearest_even m l.
Proof. intros Hm. destruct l as [|[]]; simpl; try lia. destruct (Z.even m); lia. Qed.

Lemma binary_round_aux_nonneg m e l :
  0 ≤ m → nonneg (binary_round_aux prec emax false m e l) = true.
Proof.
  intros Hm. unfold binary_round_aux.
  pose proof (shr_fexp_nonneg m e l Hm) as H1.
  destruct (shr_fexp prec emax m e l) as [mrs1 e1]; simpl in H1.
  pose proof (shr_fexp_nonneg _ e1 loc_Exact
                (round_nearest_even_nonneg _ (loc_of_shr_record mrs1) H1)) as H2.
  destruct (shr_fexp prec emax _ e1 loc_Exact) as [mrs2 e2]; simpl in H2.
  destruct (shr_m mrs2); [done|by destruct (_ <=? _)|lia].
Qed.
End rounding.

Lemma nonneg_not_nan x : nonneg x = true → is_nan x = false.
Proof. by destruct x. Qed.

Lemma f64_of_Z_nonneg z : 0 ≤ z → nonneg (f64_of_Z z) = true.
Proof.
  unfold f64_of_Z, binary_normalize, binary_round. destruct z; [done| |lia]. intros _.
  destruct (shl_align _ _ _) as [mz ez]. by apply binary_round_aux_nonneg.
Qed.

Lemma f64_div_nonneg x y :
  nonneg x = true → nonneg y = true → f64_ltb f64_zero y = true →
  (∀ s s', x = S754_infinity s → y = S754_infinity s' → False) →
  nonneg (f64_div x y) = true.
Proof.
  unfold f64_div, f64_ltb, SFltb. intros Hx Hy Hpos Hinf.
  destruct x as [sx|sx| |sx mx ex], y as [sy|sy| |sy my ey]; simpl in *; try done;
    try (destruct sx); try (destruct sy); try done; try (exfalso; by eapply Hinf).
  destruct (SFdiv_core_binary 53 1024 (Z.pos mx) ex (Z.pos my) ey) as [[mz ez] lz] eqn:E.
  apply binary_round_aux_nonneg. unfold SFdiv_core_binary in E.
  destruct (Z.div_eucl _ (Z.pos my)) as [q r] eqn:Hq. injection E as <- <- <-.
  match type of Hq with Z.div_eucl ?a _ = _ => set (a' := a) in Hq end.
  assert (0 ≤ a') as Ha.
  { subst a'. destruct (_ - _); try lia. by apply Z.shiftl_nonneg. }
  pose proof (Z.div_pos a' (Z.pos my) Ha ltac:(lia)) as Hd. unfold Z.div in Hd. by rewrite Hq in Hd.
Qed.

Lemma shl_align_pos m e e' : 0 < Z.pos (shl_align m e e').1.
Proof. lia. Qed.

Lemma f64_add_nonneg x y :
  nonneg x = true → nonneg y = true → nonneg (f64_add x y) = true.
Proof.
  unfold f64_add. intros Hx Hy.
  destruct x as [sx|sx| |sx mx ex], y as [sy|sy| |sy my ey]; simpl in *; try done;
    try (destruct sx); try (destruct sy); try done.
  unfold binary_normalize. simpl. unfold binary_round.
  destruct (shl_align (_ + _)%positive _ _) as [mz ez]. by apply binary_round_aux_nonneg.
Qed.
