(* ===== verification/Libc.v ===== *)
(** * Libc: the conversions of numbers on the command line

    [strtoull], [strtoul], [atoi] and [strtod] as glibc has them on a 64-bit
    machine: an integer out of range is the nearest one of its type, a
    fraction is the nearest double.  A string is the list of its bytes
    without the final zero. *)

From stdpp Require Import prelude list strings.
From Stdlib Require Import ZArith Lia.
From Stdlib Require Import SpecFloat.
From S2P Require Import Prelude.
From S2P Require Import Kernel.
From S2P Require Import Float64.

(** ** Integers *)

Definition is_space (c : Z) : bool := (c =? 32) || ((9 <=? c) && (c <=? 13)).

(** The value of a digit in bases up to 36; 99 for other characters. *)
Definition digit (c : Z) : Z :=
  if (48 <=? c) && (c <=? 57) then c - 48
  else if (97 <=? c) && (c <=? 122) then c - 97 + 10
  else if (65 <=? c) && (c <=? 90) then c - 65 + 10
  else 99.

Fixpoint skip_space (s : list Z) : list Z :=
  match s with c :: s' => if is_space c then skip_space s' else s | [] => [] end.

(** The digits of [base] in front of [s]: their value and the rest. *)
Fixpoint digits (base acc : Z) (s : list Z) : Z * list Z :=
  match s with
  | c :: s' => if digit c <? base then digits base (acc * base + digit c) s' else (acc, s)
  | [] => (acc, [])
  end.

(** The base and the digits of an unsigned number with base 0: "0x" needs a
    hexadecimal digit after it, otherwise only the zero is read. *)
Definition base_prefix (s : list Z) : Z * list Z :=
  match s with
  | 48 :: x :: d :: s' =>
      if ((x =? 120) || (x =? 88)) && (digit d <? 16) then (16, d :: s') else (8, s)
  | 48 :: _ => (8, s)
  | _ => (10, s)
  end.

(** An optional sign: whether it is a minus, and the rest. *)
Definition sign (s : list Z) : bool * list Z :=
  match s with 45 :: s' => (true, s') | 43 :: s' => (false, s') | _ => (false, s) end.

Definition ULLONG_MAX : Z := 2 ^ 64 - 1.

(** [strtoull(s, &end, 0)]: the value, what is left at [end] ([None] when
    there was no number, and then [end] is [s]), and whether errno is
    ERANGE. *)
Definition strtoull (s : list Z) : option (Z * list Z * bool) :=
  let '(neg, s2) := sign (skip_space s) in
  let '(base, s3) := base_prefix s2 in
  match s3 with
  | d :: _ =>
      if digit d <? base then
        let '(v, rest) := digits base 0 s3 in
        if ULLONG_MAX <? v then Some (ULLONG_MAX, rest, true)
        else Some (if neg then u64 (- v) else v, rest, false)
      else None
  | [] => None
  end.

(** [strtoul(s, NULL, 0)], where long has 64 bits. *)
Definition strtoul (s : list Z) : Z := match strtoull s with Some (v, _, _) => v | None => 0 end.

Definition LONG_MAX : Z := 2 ^ 63 - 1.
Definition LONG_MIN : Z := - 2 ^ 63.

(** [strtol(s, NULL, 10)]. *)
Definition strtol (s : list Z) : Z :=
  let '(neg, s) := sign (skip_space s) in
  let v := (digits 10 0 s).1 in
  if neg then Z.max LONG_MIN (- v) else Z.min LONG_MAX v.

Definition atoi (s : list Z) : Z := s32 (strtol s).

(** ** Doubles *)

(** [n / d] rounded to nearest even, for [n, d > 0] of any size. *)
Definition f64_ratio (s : bool) (n d : Z) : f64 :=
  if n =? 0 then S754_zero s
  else let '(m, e, l) := SFdiv_core_binary 53 1024 n 0 d 0 in binary_round_aux 53 1024 s m e l.

(** [n * b^k]. *)
Definition f64_scaled (s : bool) (n b k : Z) : f64 :=
  if 0 <=? k then f64_ratio s (n * b ^ k) 1 else f64_ratio s n (b ^ (- k)).

(** Digits with at most one point: their value without the point, how many
    there are, how many come after the point, and the rest. *)
Fixpoint mantissa (base : Z) (point : bool) (acc n frac : Z) (s : list Z) : Z * Z * Z * list Z :=
  match s with
  | c :: s' =>
      if digit c <? base
      then mantissa base point (acc * base + digit c) (n + 1) (if point then frac + 1 else frac) s'
      else if (c =? 46) && negb point then mantissa base true acc n frac s'
      else (acc, n, frac, s)
  | [] => (acc, n, frac, [])
  end.

Definition lower (c : Z) : Z := if (65 <=? c) && (c <=? 90) then c + 32 else c.

(** The exponent after the letter [mark], if there is one. *)
Definition exponent (mark : Z) (s : list Z) : Z :=
  match s with
  | c :: s' =>
      if lower c =? mark then
        let '(neg, s) := sign s' in
        let v := (digits 10 0 s).1 in if neg then - v else v
      else 0
  | [] => 0
  end.

Definition starts_with (w s : list Z) : bool := bool_decide (take (length w) (lower <$> s) = w).

(** [strtod(s, NULL)]: 0 when there is no number. *)
Definition strtod (s : list Z) : f64 :=
  let '(neg, s) := sign (skip_space s) in
  if starts_with (str "inf") s then S754_infinity neg
  else if starts_with (str "nan") s then S754_nan
  else
    let decimal :=
      let '(v, n, frac, rest) := mantissa 10 false 0 0 0 s in
      if n =? 0 then f64_zero else f64_scaled neg v 10 (exponent 101 rest - frac) in
    match s with
    | 48 :: x :: s' =>
        if lower x =? 120 then
          let '(v, n, frac, rest) := mantissa 16 false 0 0 0 s' in
          if n =? 0 then decimal else f64_scaled neg v 2 (exponent 112 rest - 4 * frac)
        else decimal
    | _ => decimal
    end.

Example strtod_half : strtod (str " 0.5") = f64_div (f64_of_Z 1) (f64_of_Z 2).
Proof. vm_compute. reflexivity. Qed.

Example strtod_exp : strtod (str "25e-1x") = f64_div (f64_of_Z 5) (f64_of_Z 2).
Proof. vm_compute. reflexivity. Qed.

Example strtod_hex : strtod (str "-0x1.8p3") = f64_of_Z (-12).
Proof. vm_compute. reflexivity. Qed.

(** [(long)x]: the integer part; a value that is not representable gives
    LONG_MIN on x86. *)
Definition f64_to_long (x : f64) : Z :=
  match x with
  | S754_zero _ => 0
  | S754_finite s m e =>
      let a := if 0 <=? e then Z.pos m * 2 ^ e else Z.pos m / 2 ^ (- e) in
      let v := if s then - a else a in
      if (LONG_MIN <=? v) && (v <=? LONG_MAX) then v else LONG_MIN
  | _ => LONG_MIN
  end.
