(* ===== verification/Nettop.v ===== *)
(** * Nettop: the kernel side of chapter 27

    Models src/27-nettop/nettop.bpf.c and the record of nettop.h: [account],
    the seven kprobes, and runs of them.  [proc_stats_map] is used through
    the laws of a hash map, [sock_owner] through those of an LRU map.

    The theorems: byte and call totals are exact over any sequence of hook
    firings, up to the wrap-around of the counters; a full table drops new
    processes and leaves the others alone; a retransmission is counted for
    the process that last used the socket since it was last closed, exactly
    as long as neither map was ever full, and never for another one. *)

From stdpp Require Import prelude gmap list strings.
From Stdlib Require Import ZArith Lia.
From S2P Require Import Prelude.
From S2P Require Import Kernel.

Definition AF_INET : Z := 2.
Definition AF_INET6 : Z := 10.
Definition MAX_PROCS : Z := 4096.
Definition MAX_SOCKS : Z := 10240.
#[global] Arguments MAX_PROCS : simpl never.
#[global] Arguments MAX_SOCKS : simpl never.

Record proc_stats := mk_stats {
  tx_bytes : Z;
  rx_bytes : Z;
  tx_calls : Z;
  rx_calls : Z;
  retrans_pkts : Z;
  last_ns : Z;
  ps_comm : list Z;
}.

(** The parts of a [struct sock] the program reads: its address, used as a
    key, and [__sk_common.skc_family]. *)
Record sock := mk_sock { sk_addr : Z; skc_family : Z }.

(** Stores to one field of the row a lookup returned: the atomic
    additions and the plain assignment of [last_ns]. *)
Definition add_tx_bytes (n : Z) (p : proc_stats) : proc_stats :=
  mk_stats (tx_bytes p +64 n) (rx_bytes p) (tx_calls p) (rx_calls p)
    (retrans_pkts p) (last_ns p) (ps_comm p).
Definition add_rx_bytes (n : Z) (p : proc_stats) : proc_stats :=
  mk_stats (tx_bytes p) (rx_bytes p +64 n) (tx_calls p) (rx_calls p)
    (retrans_pkts p) (last_ns p) (ps_comm p).
Definition add_tx_calls (n : Z) (p : proc_stats) : proc_stats :=
  mk_stats (tx_bytes p) (rx_bytes p) (tx_calls p +64 n) (rx_calls p)
    (retrans_pkts p) (last_ns p) (ps_comm p).
Definition add_rx_calls (n : Z) (p : proc_stats) : proc_stats :=
  mk_stats (tx_bytes p) (rx_bytes p) (tx_calls p) (rx_calls p +64 n)
    (retrans_pkts p) (last_ns p) (ps_comm p).
Definition add_retrans (n : Z) (p : proc_stats) : proc_stats :=
  mk_stats (tx_bytes p) (rx_bytes p) (tx_calls p) (rx_calls p)
    (retrans_pkts p +64 n) (last_ns p) (ps_comm p).
Definition set_last_ns (n : Z) (p : proc_stats) : proc_stats :=
  mk_stats (tx_bytes p) (rx_bytes p) (tx_calls p) (rx_calls p)
    (retrans_pkts p) n (ps_comm p).

(** [struct proc_stats init = {}] with the current task's name. *)
Definition init_stats (cur : task) : proc_stats := mk_stats 0 0 0 0 0 0 (comm cur).

(** The two maps of the object. *)
Record kstate (PM SM : Type) := mk_kstate { proc_stats_map : PM; sock_owner : SM }.
Arguments mk_kstate {PM SM} _ _.
Arguments proc_stats_map {PM SM} _.
Arguments sock_owner {PM SM} _.

(** What a kprobe receives, by the function it is attached to. *)
Inductive hook :=
  | tcp_sendmsg (sk : sock) (size : Z)
  | tcp_cleanup_rbuf (sk : sock) (copied : Z)
  | udp_sendmsg (sk : sock) (len : Z)
  | udpv6_sendmsg (sk : sock) (len : Z)
  | skb_consume_udp (sk : sock) (len : Z)
  | tcp_retransmit_skb (sk : sock)
  | tcp_close (sk : sock).

(** One firing: the task on the CPU, [bpf_ktime_get_ns()], the hook. *)
Record firing := mk_firing { f_cur : task; f_now : Z; f_hook : hook }.

Section programs.
  Context {PM SM : Type} `{!BpfMap PM Z proc_stats} `{!BpfMap SM Z Z}.
  Implicit Types st : kstate PM SM.

(** The additions at the end of [account]. *)
Definition bump (pid bytes : Z) (is_tx : bool) (now : Z) (pm : PM) : PM :=
  let pm :=
    if is_tx
    then map_poke (map_poke pm pid (add_tx_bytes bytes)) pid (add_tx_calls 1)
    else map_poke (map_poke pm pid (add_rx_bytes bytes)) pid (add_rx_calls 1) in
  map_poke pm pid (set_last_ns now).

Definition account (cur : task) (now : Z) (sk : sock) (bytes : Z) (is_tx : bool) st
    : kstate PM SM :=
  let pid := current_pid cur in
  if pid =? 0 then st
  else
    let family := skc_family sk in
    if negb (family =? AF_INET) && negb (family =? AF_INET6) then st
    else
      let skaddr := sk_addr sk in
      let so := (map_update_elem (sock_owner st) skaddr pid BPF_ANY).2 in
      let pm := proc_stats_map st in
      match map_lookup_elem pm pid with
      | Some _ => mk_kstate (bump pid bytes is_tx now pm) so
      | None =>
          let pm := (map_update_elem pm pid (init_stats cur) BPF_NOEXIST).2 in
          match map_lookup_elem pm pid with
          | None => mk_kstate pm so
          | Some _ => mk_kstate (bump pid bytes is_tx now pm) so
          end
      end.

Definition handle_tcp_sendmsg (cur : task) (now : Z) (sk : sock) (size : Z) st :=
  account cur now sk (u64 size) true st.

Definition handle_tcp_cleanup_rbuf (cur : task) (now : Z) (sk : sock) (copied : Z) st :=
  if copied <=? 0 then st else account cur now sk (u64 copied) false st.

Definition handle_udp_sendmsg (cur : task) (now : Z) (sk : sock) (len : Z) st :=
  account cur now sk (u64 len) true st.

Definition handle_udpv6_sendmsg (cur : task) (now : Z) (sk : sock) (len : Z) st :=
  account cur now sk (u64 len) true st.

Definition handle_skb_consume_udp (cur : task) (now : Z) (sk : sock) (len : Z) st :=
  if len <=? 0 then st else account cur now sk (u64 len) false st.

Definition handle_tcp_retransmit (sk : sock) st : kstate PM SM :=
  let skaddr := sk_addr sk in
  match map_lookup_elem (sock_owner st) skaddr with
  | None => st
  | Some pid =>
      match map_lookup_elem (proc_stats_map st) pid with
      | None => st
      | Some _ => mk_kstate (map_poke (proc_stats_map st) pid (add_retrans 1)) (sock_owner st)
      end
  end.

Definition handle_tcp_close (sk : sock) st : kstate PM SM :=
  let skaddr := sk_addr sk in
  mk_kstate (proc_stats_map st) (map_delete_elem (sock_owner st) skaddr).2.

(** One kprobe hit, and a sequence of them. *)
Definition fire st (f : firing) : kstate PM SM :=
  match f_hook f with
  | tcp_sendmsg sk size => handle_tcp_sendmsg (f_cur f) (f_now f) sk size st
  | tcp_cleanup_rbuf sk copied => handle_tcp_cleanup_rbuf (f_cur f) (f_now f) sk copied st
  | udp_sendmsg sk len => handle_udp_sendmsg (f_cur f) (f_now f) sk len st
  | udpv6_sendmsg sk len => handle_udpv6_sendmsg (f_cur f) (f_now f) sk len st
  | skb_consume_udp sk len => handle_skb_consume_udp (f_cur f) (f_now f) sk len st
  | tcp_retransmit_skb sk => handle_tcp_retransmit sk st
  | tcp_close sk => handle_tcp_close sk st
  end.

Definition loaded : kstate PM SM := mk_kstate map_empty map_empty.

Definition run (fs : list firing) : kstate PM SM := foldl fire loaded fs.
End programs.

(** ** Specification over the history *)

(** A process's traffic as its socket calls describe it. *)
Record charge := mk_charge {
  c_pid : Z; c_sock : Z; c_tx : bool; c_bytes : Z; c_now : Z; c_comm : list Z
}.

Definition ip_socket (sk : sock) : bool :=
  (skc_family sk =? AF_INET) || (skc_family sk =? AF_INET6).

Definition charge_to (f : firing) (sk : sock) (tx : bool) (bytes : Z) : option charge :=
  if (current_pid (f_cur f) =? 0) || negb (ip_socket sk) then None
  else Some (mk_charge (current_pid (f_cur f)) (sk_addr sk) tx bytes (f_now f) (comm (f_cur f))).

(** The traffic a firing stands for, if it stands for any. *)
Definition charge_of (f : firing) : option charge :=
  match f_hook f with
  | tcp_sendmsg sk n | udp_sendmsg sk n | udpv6_sendmsg sk n => charge_to f sk true n
  | tcp_cleanup_rbuf sk n | skb_consume_udp sk n =>
      if n <=? 0 then None else charge_to f sk false n
  | tcp_retransmit_skb _ | tcp_close _ => None
  end.

Definition charges (fs : list firing) : list charge := omap charge_of fs.

Definition of_proc (pid : Z) (tx : bool) (c : charge) : bool :=
  (c_pid c =? pid) && Bool.eqb (c_tx c) tx.

Definition sum_bytes (cs : list charge) : Z := sumZ (c_bytes <$> cs).

(** Bytes and calls of one process in one direction. *)
Definition total_bytes (pid : Z) (tx : bool) (fs : list firing) : Z :=
  sum_bytes (bfilter (of_proc pid tx) (charges fs)).
Definition total_calls (pid : Z) (tx : bool) (fs : list firing) : Z :=
  Z.of_nat (length (bfilter (of_proc pid tx) (charges fs))).

Definition charged_pids (fs : list firing) : gset Z := list_to_set (c_pid <$> charges fs).

(** The process that last used socket [sk] since it was last closed. *)
Definition owner_step (sk : Z) (o : option Z) (f : firing) : option Z :=
  match f_hook f with
  | tcp_close s => if sk_addr s =? sk then None else o
  | _ =>
      match charge_of f with
      | Some c => if c_sock c =? sk then Some (c_pid c) else o
      | None => o
      end
  end.

Definition last_owner (sk : Z) (fs : list firing) : option Z := foldl (owner_step sk) None fs.

Definition charged_socks (fs : list firing) : gset Z := list_to_set (c_sock <$> charges fs).

(** The retransmissions on the sockets of process [pid], among the firings
    [fs] after the history [hist]. *)
Fixpoint retransmits_from (pid : Z) (hist fs : list firing) : Z :=
  match fs with
  | [] => 0
  | f :: fs' =>
      (match f_hook f with
       | tcp_retransmit_skb sk => if decide (last_owner (sk_addr sk) hist = Some pid) then 1 else 0
       | _ => 0
       end) + retransmits_from pid (hist ++ [f]) fs'
  end.

Definition retransmits (pid : Z) (fs : list firing) : Z := retransmits_from pid [] fs.

(** The row history promises for a process; retransmissions are not part of
    it. *)
Definition expected_row (pid : Z) (fs : list firing) : option proc_stats :=
  let cs := bfilter (λ c, c_pid c =? pid) (charges fs) in
  match head cs, last cs with
  | Some c0, Some cn =>
      Some (mk_stats (u64 (total_bytes pid true fs)) (u64 (total_bytes pid false fs))
              (u64 (total_calls pid true fs)) (u64 (total_calls pid false fs))
              0 (c_now cn) (c_comm c0))
  | _, _ => None
  end.

Definition no_retrans (p : proc_stats) : proc_stats :=
  mk_stats (tx_bytes p) (rx_bytes p) (tx_calls p) (rx_calls p) 0 (last_ns p) (ps_comm p).

(** What one charge does to a row. *)
Definition charge_row (c : charge) (p : proc_stats) : proc_stats :=
  set_last_ns (c_now c)
    (if c_tx c then add_tx_calls 1 (add_tx_bytes (u64 (c_bytes c)) p)
     else add_rx_calls 1 (add_rx_bytes (u64 (c_bytes c)) p)).

Definition fresh_row (c : charge) : proc_stats := mk_stats 0 0 0 0 0 0 (c_comm c).

(** ** Lemmas *)

Lemma charge_to_Some f sk tx n c :
  charge_to f sk tx n = Some c →
  c = mk_charge (current_pid (f_cur f)) (sk_addr sk) tx n (f_now f) (comm (f_cur f))
  ∧ current_pid (f_cur f) ≠ 0 ∧ ip_socket sk = true.
Proof.
  unfold charge_to. intros H. split_ifs; simplify_eq. bool_to_prop. done.
Qed.

Lemma charge_of_pid f c : charge_of f = Some c → c_pid c ≠ 0.
Proof.
  unfold charge_of. intros H. destruct (f_hook f); split_ifs; try done;
    by apply charge_to_Some in H as (-> & ? & _).
Qed.

Lemma charges_snoc fs f : charges (fs ++ [f]) = charges fs ++ option_list (charge_of f).
Proof. unfold charges. rewrite omap_app. simpl. by destruct (charge_of f). Qed.

Lemma sum_bytes_app a b : sum_bytes (a ++ b) = sum_bytes a + sum_bytes b.
Proof. unfold sum_bytes. by rewrite fmap_app, sumZ_app. Qed.

Lemma sum_bytes_one c : sum_bytes [c] = c_bytes c.
Proof. unfold sum_bytes, sumZ; simpl. lia. Qed.

Section proofs.
  Context {PM SM : Type} `{!BpfMap PM Z proc_stats} `{!BpfMap SM Z Z}.
  Context `{!BpfHashLaws PM Z proc_stats MAX_PROCS} `{!BpfLruLaws SM Z Z MAX_SOCKS}.
  Implicit Types st : kstate PM SM.
  Notation stats_of st := (map_view (proc_stats_map st)).
  Notation owners_of st := (map_view (sock_owner st)).

Lemma bump_view pid n tx now (pm : PM) p :
  map_view pm !! pid = Some p →
  map_view (bump pid (u64 n) tx now pm)
  = <[pid := charge_row (mk_charge pid 0 tx n now []) p]> (map_view pm).
Proof.
  intros Hp. apply map_eq. intros k. unfold bump, charge_row; simpl.
  destruct tx; rewrite !map_poke_view, !lookup_alter, lookup_insert, ?Hp;
    repeat case_decide; simplify_eq; rewrite ?Hp; done.
Qed.

(** The whole effect of [account] on the table: nothing for kernel threads
    and non-IP sockets; the row is bumped, after being created when it is
    missing and there is room. *)
Lemma account_view cur now sk n tx st pid c :
  current_pid cur = pid → pid ≠ 0 → ip_socket sk = true →
  c = mk_charge pid (sk_addr sk) tx n now (comm cur) →
  stats_of (account cur now sk (u64 n) tx st)
  = match stats_of st !! pid with
    | Some p => <[pid := charge_row c p]> (stats_of st)
    | None =>
        if Z.of_nat (size (stats_of st)) <? MAX_PROCS
        then <[pid := charge_row c (fresh_row c)]> (stats_of st)
        else stats_of st
    end.
Proof.
  intros Hpid H0 Hip ->. unfold account. rewrite Hpid.
  destruct (Z.eqb_spec pid 0) as [|_]; [done|].
  assert ((negb (skc_family sk =? AF_INET) && negb (skc_family sk =? AF_INET6)) = false) as ->.
  { unfold ip_socket in Hip. by rewrite <- negb_orb, Hip. }
  rewrite !map_lookup_view.
  destruct (stats_of st !! pid) as [p|] eqn:Hrow; simpl.
  { by rewrite (bump_view _ _ _ _ _ p). }
  destruct (map_update_elem (proc_stats_map st) pid (init_stats cur) BPF_NOEXIST)
    as [rc pm'] eqn:Hup.
  apply (hash_update_rc_view (mx := MAX_PROCS)) in Hup. unfold hash_update in Hup.
  rewrite Hrow in Hup. simpl. destruct (_ <? _); injection Hup as _ Hview; rewrite Hview.
  - rewrite lookup_insert_eq. simpl.
    rewrite (bump_view _ _ _ _ _ (init_stats cur)) by (by rewrite Hview, lookup_insert_eq).
    rewrite Hview, insert_insert_eq. done.
  - by rewrite Hrow.
Qed.

Lemma fire_charge_view st f c :
  charge_of f = Some c →
  stats_of (fire st f)
  = match stats_of st !! c_pid c with
    | Some p => <[c_pid c := charge_row c p]> (stats_of st)
    | None =>
        if Z.of_nat (size (stats_of st)) <? MAX_PROCS
        then <[c_pid c := charge_row c (fresh_row c)]> (stats_of st)
        else stats_of st
    end.
Proof.
  unfold charge_of, fire. intros H.
  destruct (f_hook f); try done;
    unfold handle_tcp_sendmsg, handle_tcp_cleanup_rbuf, handle_udp_sendmsg,
      handle_udpv6_sendmsg, handle_skb_consume_udp;
    try (destruct (_ <=? 0); [done|]);
    apply charge_to_Some in H as (-> & ? & ?); by apply account_view.
Qed.

Lemma account_None cur now sk n tx st f :
  cur = f_cur f → charge_to f sk tx n = None → account cur now sk (u64 n) tx st = st.
Proof.
  intros ->. unfold charge_to, account, ip_socket. rewrite negb_orb.
  destruct (_ =? 0); [done|]. simpl. by destruct (_ && _).
Qed.

(** A firing that stands for no traffic changes no byte or call counter. *)
Lemma fire_no_charge_view st f :
  charge_of f = None → no_retrans <$> stats_of (fire st f) = no_retrans <$> stats_of st.
Proof.
  unfold charge_of, fire. intros H.
  destruct (f_hook f) as [sk n|sk n|sk n|sk n|sk n|sk|sk]; try done;
    unfold handle_tcp_sendmsg, handle_tcp_cleanup_rbuf, handle_udp_sendmsg,
      handle_udpv6_sendmsg, handle_skb_consume_udp;
    try (split_ifs; try done; by erewrite account_None by done).
  unfold handle_tcp_retransmit. rewrite !map_lookup_view.
  destruct (owners_of st !! sk_addr sk) as [pid|]; [|done].
  rewrite map_lookup_view.
  destruct (stats_of st !! pid) eqn:Hrow; simpl; [|done].
  rewrite map_poke_view. apply map_eq. intros k. rewrite !lookup_fmap, lookup_alter.
  case_decide; [|done]. subst. by rewrite Hrow.
Qed.

Lemma charge_row_expected c p q :
  no_retrans p = no_retrans q → no_retrans (charge_row c p) = no_retrans (charge_row c q).
Proof. destruct p, q, (c_tx c) eqn:E; unfold charge_row; rewrite E; intros [=]; by simplify_eq. Qed.

(** How the promised row grows by one firing. *)
Lemma expected_row_snoc pid fs f :
  expected_row pid (fs ++ [f])
  = match charge_of f with
    | Some c =>
        if c_pid c =? pid
        then Some (no_retrans (charge_row c (default (fresh_row c) (expected_row pid fs))))
        else expected_row pid fs
    | None => expected_row pid fs
    end.
Proof.
  unfold expected_row, total_bytes, total_calls. rewrite charges_snoc.
  destruct (charge_of f) as [c|] eqn:Hc; simpl; [|by rewrite app_nil_r].
  rewrite !bfilter_app. simpl.
  destruct (Z.eqb_spec (c_pid c) pid) as [Hpid|Hpid].
  2: { unfold of_proc; simpl. destruct (Z.eqb_spec (c_pid c) pid); [done|].
       by rewrite !app_nil_r. }
  rewrite last_snoc, head_app.
  set (cs := charges fs). unfold of_proc; simpl.
  destruct (Z.eqb_spec (c_pid c) pid); [|done]. simpl.
  assert (Hnil : bfilter (λ c, c_pid c =? pid) cs = [] →
    ∀ tx, bfilter (λ c, (c_pid c =? pid) && Bool.eqb (c_tx c) tx) cs = []).
  { clear. induction cs as [|d cs IH]; simpl; [done|]. destruct (c_pid d =? pid); [done|]. apply IH. }
  destruct (bfilter (λ c, c_pid c =? pid) cs) as [|d ds] eqn:Hds.
  - rewrite !(Hnil eq_refl). simpl. unfold charge_row.
    destruct (c_tx c); simpl; unfold sum_bytes, sumZ; simpl; unfold no_retrans; simpl;
      autorewrite with wrap; f_equal; f_equal; solve [wrap_lia].
  - destruct (last (d :: ds)) as [z|] eqn:Hz; [|by apply last_None in Hz].
    unfold charge_row. simpl.
    destruct (c_tx c); simpl; rewrite ?app_nil_r, ?sum_bytes_app, ?length_app, ?sum_bytes_one; simpl;
      unfold no_retrans; simpl; autorewrite with wrap;
      f_equal; f_equal; solve [wrap_lia].
Qed.

Lemma expected_row_charged pid fs : is_Some (expected_row pid fs) ↔ pid ∈ charged_pids fs.
Proof.
  unfold charged_pids. rewrite elem_of_list_to_set, list_elem_of_fmap.
  induction fs as [|f fs IH] using rev_ind.
  { unfold expected_row; simpl. split; [intros [? [=]]|]. intros (c & _ & Hc). by apply elem_of_nil in Hc. }
  rewrite expected_row_snoc, charges_snoc.
  destruct (charge_of f) as [c|]; simpl; [|by rewrite app_nil_r].
  setoid_rewrite elem_of_app. setoid_rewrite list_elem_of_singleton.
  destruct (Z.eqb_spec (c_pid c) pid).
  - split; [|by eauto]. intros _. exists c. auto.
  - rewrite IH. naive_solver.
Qed.

Lemma charged_pids_snoc fs f :
  charged_pids (fs ++ [f])
  = charged_pids fs ∪ match charge_of f with Some c => {[c_pid c]} | None => ∅ end.
Proof.
  unfold charged_pids. rewrite charges_snoc, fmap_app, list_to_set_app_L.
  destruct (charge_of f); simpl; set_solver.
Qed.

Lemma run_snoc fs f : run (PM := PM) (SM := SM) (fs ++ [f]) = fire (run fs) f.
Proof. unfold run. by rewrite foldl_app. Qed.

(** While the table has never been full, its rows are those the history
    promises. *)
Lemma run_rows fs :
  Z.of_nat (size (charged_pids fs)) ≤ MAX_PROCS →
  ∀ pid, no_retrans <$> stats_of (run fs) !! pid = expected_row pid fs.
Proof.
  induction fs as [|f fs IH] using rev_ind; intros Hsize pid.
  { simpl. by rewrite map_empty_view, lookup_empty. }
  rewrite charged_pids_snoc in Hsize.
  assert (Hsub : charged_pids fs ⊆ charged_pids fs
            ∪ match charge_of f with Some c => {[c_pid c]} | None => ∅ end) by set_solver.
  specialize (IH ltac:(apply subseteq_size in Hsub; lia)).
  rewrite run_snoc, expected_row_snoc.
  destruct (charge_of f) as [c|] eqn:Hc.
  2: { rewrite <- IH, <- !lookup_fmap. by rewrite fire_no_charge_view. }
  assert (Hdom : dom (stats_of (run fs)) = charged_pids fs).
  { apply set_eq. intros k. rewrite elem_of_dom, <- expected_row_charged, <- IH.
    by rewrite fmap_is_Some. }
  rewrite (fire_charge_view _ _ _ Hc).
  pose proof (IH (c_pid c)) as IHc.
  destruct (stats_of (run fs) !! c_pid c) as [p|] eqn:Hp; simpl in IHc.
  - rewrite lookup_insert. case_decide as Hk; destruct (Z.eqb_spec (c_pid c) pid); try done.
    subst pid. simpl. f_equal. rewrite <- IHc. simpl. by apply charge_row_expected.
  - assert (c_pid c ∉ charged_pids fs) as Hnew.
    { rewrite <- Hdom. by apply not_elem_of_dom. }
    rewrite size_union, size_singleton, <- Hdom, size_dom in Hsize by set_solver.
    destruct (Z.ltb_spec (Z.of_nat (size (stats_of (run fs)))) MAX_PROCS); [|lia].
    rewrite lookup_insert. case_decide as Hk; destruct (Z.eqb_spec (c_pid c) pid); try done.
    subst pid. by rewrite <- IHc.
Qed.

(** The owner table after one firing. *)
Lemma fire_owner st f :
  sock_owner (fire st f)
  = match f_hook f with
    | tcp_close sk => (map_delete_elem (sock_owner st) (sk_addr sk)).2
    | _ =>
        match charge_of f with
        | Some c => (map_update_elem (sock_owner st) (c_sock c) (c_pid c) BPF_ANY).2
        | None => sock_owner st
        end
    end.
Proof.
  assert (Hacc : ∀ sk n tx,
    sock_owner (account (f_cur f) (f_now f) sk (u64 n) tx st)
    = match charge_to f sk tx n with
      | Some c => (map_update_elem (sock_owner st) (c_sock c) (c_pid c) BPF_ANY).2
      | None => sock_owner st
      end).
  { intros sk n tx. unfold account, charge_to, ip_socket. rewrite negb_orb.
    destruct (_ =? 0); [done|]. destruct (_ && _); [done|]. simpl.
    by repeat case_match. }
  unfold fire, charge_of. destruct (f_hook f); try done;
    unfold handle_tcp_sendmsg, handle_tcp_cleanup_rbuf, handle_udp_sendmsg,
      handle_udpv6_sendmsg, handle_skb_consume_udp, handle_tcp_retransmit;
    try (destruct (_ <=? 0); [done|]); try apply Hacc.
  by repeat case_match.
Qed.

(** An entry of the owner table names the last user of the socket: eviction
    loses entries, it never makes one wrong. *)
Lemma run_owner fs sk pid :
  owners_of (run fs) !! sk = Some pid → last_owner sk fs = Some pid.
Proof.
  revert pid. induction fs as [|f fs IH] using rev_ind; intros pid.
  { simpl. by rewrite map_empty_view, lookup_empty. }
  rewrite run_snoc, fire_owner. unfold last_owner. rewrite foldl_app. simpl.
  fold (last_owner sk fs). unfold owner_step.
  assert (Hch : ∀ o,
    map_view match o with
             | Some c => (map_update_elem (sock_owner (run fs)) (c_sock c) (c_pid c) BPF_ANY).2
             | None => sock_owner (run fs)
             end !! sk = Some pid →
    match o with
    | Some c => if c_sock c =? sk then Some (c_pid c) else last_owner sk fs
    | None => last_owner sk fs
    end = Some pid).
  { intros [c|]; [|apply IH]. destruct (Z.eqb_spec (c_sock c) sk) as [<-|Hne].
    - rewrite lru_update_self by (by left). done.
    - destruct (lru_update_other (max_entries := MAX_SOCKS) (sock_owner (run fs))
                  (c_sock c) sk (c_pid c) BPF_ANY) as [->| ->]; [congruence|apply IH|done]. }
  destruct (f_hook f); try apply Hch.
  rewrite map_delete_view, lookup_delete. destruct (Z.eqb_spec (sk_addr sk0) sk);
    case_decide; try done. apply IH.
Qed.

(** [C1] Accounting is exact.  After any sequence of kprobe firings on
    freshly loaded maps, as long as no more than MAX_PROCS processes had
    traffic, a lookup of [pid] finds a row exactly when the process had IP
    socket traffic, and that row holds the sum of the bytes of its send
    (receive) calls and their number, modulo 2^64, with the time of its last
    call and the command name of its first. *)
Theorem accounting_exact fs pid :
  Z.of_nat (size (charged_pids fs)) ≤ MAX_PROCS →
  match map_lookup_elem (proc_stats_map (run (PM := PM) (SM := SM) fs)) pid with
  | Some ps =>
      pid ∈ charged_pids fs
      ∧ tx_bytes ps = u64 (total_bytes pid true fs)
      ∧ rx_bytes ps = u64 (total_bytes pid false fs)
      ∧ tx_calls ps = u64 (total_calls pid true fs)
      ∧ rx_calls ps = u64 (total_calls pid false fs)
      ∧ Some (last_ns ps) = c_now <$> last (bfilter (λ c, c_pid c =? pid) (charges fs))
      ∧ Some (ps_comm ps) = c_comm <$> head (bfilter (λ c, c_pid c =? pid) (charges fs))
  | None => pid ∉ charged_pids fs
  end.
Proof.
  intros Hsize. rewrite map_lookup_view. pose proof (run_rows fs Hsize pid) as Hrow.
  destruct (stats_of (run fs) !! pid) as [ps|]; simpl in Hrow;
    rewrite <- expected_row_charged, <- Hrow; [|by intros [? ?]].
  split; [by eauto|]. unfold expected_row in Hrow.
  destruct (head _), (last _); try done. unfold no_retrans in Hrow. injection Hrow as -> -> -> -> -> ->. by repeat split.
Qed.

(** A full table degrades without corrupting anything: a firing that
    stands for traffic of a process that has no row, once the table holds
    MAX_PROCS rows, leaves every row as it was; a process that has a row
    keeps being counted. *)
Theorem full_table_drops_only_new st f c :
  charge_of f = Some c → Z.of_nat (size (stats_of st)) = MAX_PROCS →
  stats_of (fire st f)
  = match stats_of st !! c_pid c with
    | None => stats_of st
    | Some p => <[c_pid c := charge_row c p]> (stats_of st)
    end.
Proof.
  intros Hc Hfull. rewrite (fire_charge_view _ _ _ Hc), Hfull, Z.ltb_irrefl. done.
Qed.

(** ** Retransmissions *)

(** The counter of a process, 0 without a row. *)
Definition retrans_counter st (pid : Z) : Z := default 0 (retrans_pkts <$> stats_of st !! pid).

Lemma retransmits_from_app pid fs : ∀ hist fs',
  retransmits_from pid hist (fs ++ fs') = retransmits_from pid hist fs + retransmits_from pid (hist ++ fs) fs'.
Proof.
  induction fs as [|f fs IH]; intros hist fs'; cbn [app retransmits_from]; [by rewrite app_nil_r|].
  rewrite IH, <- app_assoc. cbn [app]. lia.
Qed.

Lemma retransmits_snoc pid fs f :
  retransmits pid (fs ++ [f])
  = retransmits pid fs
    + match f_hook f with
      | tcp_retransmit_skb sk => if decide (last_owner (sk_addr sk) fs = Some pid) then 1 else 0
      | _ => 0
      end.
Proof. unfold retransmits. rewrite retransmits_from_app. cbn [retransmits_from app]. lia. Qed.

Lemma retransmits_bounds pid fs : 0 ≤ retransmits pid fs ≤ Z.of_nat (length fs).
Proof.
  induction fs as [|f fs IH] using rev_ind; [done|]. rewrite retransmits_snoc, length_app. cbn [length].
  destruct (f_hook f); try lia. case_decide; lia.
Qed.

Lemma charged_socks_snoc fs f :
  charged_socks (fs ++ [f])
  = charged_socks fs ∪ match charge_of f with Some c => {[c_sock c]} | None => ∅ end.
Proof.
  unfold charged_socks. rewrite charges_snoc, fmap_app, list_to_set_app_L.
  destruct (charge_of f); simpl; set_solver.
Qed.

(** Only sockets with traffic have an owner, and an owner has traffic. *)
Lemma last_owner_charged sk fs pid :
  last_owner sk fs = Some pid → sk ∈ charged_socks fs ∧ pid ∈ charged_pids fs.
Proof.
  unfold last_owner. induction fs as [|f fs IH] using rev_ind; [done|].
  rewrite foldl_app, charged_socks_snoc, charged_pids_snoc. simpl. fold (last_owner sk fs) in *. unfold owner_step.
  assert (Hch : ∀ o : option charge,
    match o with Some c => if c_sock c =? sk then Some (c_pid c) else last_owner sk fs | None => last_owner sk fs end = Some pid →
    sk ∈ charged_socks fs ∪ match o with Some c => {[c_sock c]} | None => ∅ end
    ∧ pid ∈ charged_pids fs ∪ match o with Some c => {[c_pid c]} | None => ∅ end).
  { intros [c|]; [|set_solver]. destruct (Z.eqb_spec (c_sock c) sk); [intros [= <-]; set_solver|set_solver]. }
  destruct (f_hook f) eqn:Hf; try apply Hch. destruct (_ =? sk); [done|]. set_solver.
Qed.

(** While the table never gets full, it knows every owner. *)
Lemma run_owner_exact {cap : Z} `{!LruCapacity SM Z Z cap} fs sk :
  Z.of_nat (size (charged_socks fs)) < cap →
  owners_of (run fs) !! sk = last_owner sk fs.
Proof.
  revert sk. induction fs as [|f fs IH] using rev_ind; intros sk Hs.
  { simpl. by rewrite map_empty_view, lookup_empty. }
  rewrite charged_socks_snoc in Hs.
  assert (Hs' : Z.of_nat (size (charged_socks fs)) < cap).
  { assert (charged_socks fs ⊆ charged_socks fs ∪ match charge_of f with Some c => {[c_sock c]} | None => ∅ end)
      as Hsub%subseteq_size by set_solver. lia. }
  clear Hs. pose proof (λ sk, IH sk Hs') as Hi. clear IH.
  rewrite run_snoc, fire_owner. unfold last_owner. rewrite foldl_app. simpl. fold (last_owner sk fs). unfold owner_step.
  assert (Hch : ∀ o : option charge, map_view match o with
             | Some c => (map_update_elem (sock_owner (run fs)) (c_sock c) (c_pid c) BPF_ANY).2
             | None => sock_owner (run fs)
             end !! sk
    = match o with
      | Some c => if c_sock c =? sk then Some (c_pid c) else last_owner sk fs
      | None => last_owner sk fs
      end).
  { intros [c|]; [|apply Hi]. destruct (Z.eqb_spec (c_sock c) sk) as [<-|Hne]; [by apply lru_update_self; left|].
    rewrite <- Hi. apply (lru_keeps_others (max_entries := cap) _ (charged_socks fs)); [|done|done].
    intros i [p Hp]. rewrite Hi in Hp. by apply last_owner_charged in Hp as [? _]. }
  destruct (f_hook f); try apply Hch.
  rewrite map_delete_view, lookup_delete. destruct (Z.eqb_spec (sk_addr sk0) sk); case_decide; try done; apply Hi.
Qed.

(** One firing and the counters: only a retransmission counts. *)
Lemma fire_retrans st f pid :
  retrans_counter (fire st f) pid
  = match f_hook f with
    | tcp_retransmit_skb sk =>
        if decide (owners_of st !! sk_addr sk = Some pid ∧ is_Some (stats_of st !! pid))
        then retrans_counter st pid +64 1 else retrans_counter st pid
    | _ => retrans_counter st pid
    end.
Proof.
  unfold retrans_counter. destruct (charge_of f) as [c|] eqn:Hc.
  - assert (Hst : retrans_pkts <$> stats_of (fire st f) !! pid = retrans_pkts <$> stats_of st !! pid
      ∨ stats_of st !! pid = None ∧ retrans_pkts <$> stats_of (fire st f) !! pid = Some 0).
    { assert (Hcr : ∀ p, retrans_pkts (charge_row c p) = retrans_pkts p) by (intros p; unfold charge_row; by destruct (c_tx c)).
      rewrite (fire_charge_view _ _ _ Hc). destruct (stats_of st !! c_pid c) as [p|] eqn:Hp.
      - rewrite lookup_insert. case_decide as Hk; [|by left]. subst pid. cbn [fmap option_fmap option_map]. rewrite Hcr, Hp. by left.
      - destruct (_ <? _); [|by left]. rewrite lookup_insert. case_decide as Hk; [|by left].
        subst pid. cbn [fmap option_fmap option_map]. rewrite Hcr, Hp. by right. }
    assert (match f_hook f with tcp_retransmit_skb _ => False | _ => True end) as Hh.
    { unfold charge_of in Hc. by destruct (f_hook f). }
    destruct (f_hook f); try done; by destruct Hst as [-> |[-> ->]].
  - unfold charge_of, fire in *. destruct (f_hook f) as [sk n|sk n|sk n|sk n|sk n|sk|sk]; try done;
      unfold handle_tcp_sendmsg, handle_tcp_cleanup_rbuf, handle_udp_sendmsg, handle_udpv6_sendmsg, handle_skb_consume_udp;
      try (split_ifs; try done; by erewrite account_None by done).
    unfold handle_tcp_retransmit. rewrite !map_lookup_view.
    destruct (owners_of st !! sk_addr sk) as [o|]; [|by rewrite decide_False by (by intros [? _])].
    rewrite map_lookup_view. destruct (stats_of st !! o) as [p|] eqn:Ho; cbn [proc_stats_map].
    + rewrite map_poke_view, lookup_alter. case_decide as Hk.
      * subst o. rewrite Ho, decide_True by eauto. done.
      * by rewrite decide_False by (intros [[=] _]; by subst).
    + rewrite decide_False; [done|]. intros [[= ->] [v Hv]]. congruence.
Qed.

(** The counters grow, by one for each firing at most. *)
Lemma retrans_counter_grows fs fs' pid :
  Z.of_nat (length (fs ++ fs')) < 2 ^ 64 →
  0 ≤ retrans_counter (run fs) pid ≤ retrans_counter (run (fs ++ fs')) pid
  ∧ retrans_counter (run (fs ++ fs')) pid ≤ Z.of_nat (length (fs ++ fs')).
Proof.
  assert (Hone : ∀ l f, Z.of_nat (length (l ++ [f])) < 2 ^ 64 →
    0 ≤ retrans_counter (run l) pid ≤ Z.of_nat (length l) →
    retrans_counter (run l) pid ≤ retrans_counter (run (l ++ [f])) pid ≤ Z.of_nat (length (l ++ [f]))).
  { intros l f Hl Hb. rewrite length_app in *. cbn [length] in *. rewrite run_snoc, fire_retrans.
    destruct (f_hook f); try lia. case_decide; [|lia]. rewrite u64_small by lia. lia. }
  assert (Hb : ∀ l, Z.of_nat (length l) < 2 ^ 64 → 0 ≤ retrans_counter (run l) pid ≤ Z.of_nat (length l)).
  { induction l as [|f l IH] using rev_ind; intros Hl.
    - unfold retrans_counter. simpl. rewrite map_empty_view, lookup_empty. done.
    - pose proof Hl as Hl'. rewrite length_app in Hl'. specialize (IH ltac:(lia)). specialize (Hone l f Hl IH). lia. }
  induction fs' as [|f fs' IH] using rev_ind; intros Hl.
  - rewrite app_nil_r in *. specialize (Hb fs Hl). lia.
  - rewrite app_assoc in *. pose proof Hl as Hl'. rewrite length_app in Hl'. specialize (IH ltac:(lia)).
    specialize (Hone _ f Hl ltac:(apply Hb; lia)). lia.
Qed.

(** Within the capacities the counters are the retransmissions. *)
Lemma retransmits_exact {cap : Z} `{!LruCapacity SM Z Z cap} fs pid :
  Z.of_nat (size (charged_socks fs)) < cap → Z.of_nat (size (charged_pids fs)) ≤ MAX_PROCS →
  retrans_counter (run fs) pid = u64 (retransmits pid fs).
Proof.
  induction fs as [|f fs IH] using rev_ind; intros Hs Hp.
  { unfold retrans_counter. simpl. by rewrite map_empty_view, lookup_empty. }
  rewrite charged_socks_snoc in Hs. rewrite charged_pids_snoc in Hp.
  assert (Hs' : Z.of_nat (size (charged_socks fs)) < cap).
  { assert (charged_socks fs ⊆ charged_socks fs ∪ match charge_of f with Some c => {[c_sock c]} | None => ∅ end)
      as Hsub%subseteq_size by set_solver. lia. }
  assert (Hp' : Z.of_nat (size (charged_pids fs)) ≤ MAX_PROCS).
  { assert (charged_pids fs ⊆ charged_pids fs ∪ match charge_of f with Some c => {[c_pid c]} | None => ∅ end)
      as Hsub%subseteq_size by set_solver. lia. }
  rewrite run_snoc, fire_retrans, retransmits_snoc, (IH Hs' Hp').
  destruct (f_hook f) as [| | | | |sk|]; rewrite ?Z.add_0_r; try done.
  rewrite (run_owner_exact (cap := cap)) by done.
  destruct (decide (last_owner (sk_addr sk) fs = Some pid)) as [Ho|Ho].
  - rewrite decide_True; [unfold u64; by rewrite Zplus_mod_idemp_l|]. split; [done|].
    apply last_owner_charged in Ho as [_ Ho]. apply expected_row_charged in Ho. rewrite <- (run_rows fs Hp') in Ho.
    by apply fmap_is_Some in Ho.
  - rewrite decide_False by (by intros [? _]). by rewrite Z.add_0_r.
Qed.

(** [C19] Retransmissions are attributed correctly.  When the timer fires
    [tcp_retransmit_skb] on a socket, whatever happened before, the process
    that [sock_owner] has for it is the one that last used this socket
    address since its last [tcp_close], and its row changes by one in
    [retrans_pkts] and in nothing else; when the table has none, no row
    changes.  In particular nothing is charged on behalf of a previous owner
    of a recycled address.  As long as fewer sockets had traffic than the
    table keeps and not more processes than there are rows, the last user
    has a row and the retransmission is counted there, and the counter of
    every process is the number of retransmissions on its sockets. *)
Theorem retransmit_attribution fs cur now sk :
  let st := run (PM := PM) (SM := SM) fs in
  let st' := fire st (mk_firing cur now (tcp_retransmit_skb sk)) in
  sock_owner st' = sock_owner st
  ∧ match map_lookup_elem (sock_owner st) (sk_addr sk) with
    | Some pid => last_owner (sk_addr sk) fs = Some pid ∧ stats_of st' = alter (add_retrans 1) pid (stats_of st)
    | None => stats_of st' = stats_of st
    end
  ∧ ∀ cap, LruCapacity SM Z Z cap →
    Z.of_nat (size (charged_socks fs)) < cap → Z.of_nat (size (charged_pids fs)) ≤ MAX_PROCS →
    (∀ pid, last_owner (sk_addr sk) fs = Some pid →
       ∃ ps, stats_of st !! pid = Some ps ∧ stats_of st' = <[pid := add_retrans 1 ps]> (stats_of st))
    ∧ ∀ pid, retrans_counter st pid = u64 (retransmits pid fs).
Proof.
  intros st st'. subst st'. unfold fire; simpl. unfold handle_tcp_retransmit. rewrite !map_lookup_view.
  split; [by repeat case_match|]. split.
  - destruct (owners_of st !! sk_addr sk) as [pid|] eqn:Ho; [|done]. split; [by apply run_owner|]. rewrite map_lookup_view.
    destruct (stats_of st !! pid) as [ps|] eqn:Hp; cbn [proc_stats_map]; [apply map_poke_view|].
    symmetry. apply map_eq. intros k. rewrite lookup_alter. case_decide; [subst k; by rewrite Hp|done].
  - intros cap Hcap Hs Hp. split; [|intros pid; by apply (retransmits_exact (cap := cap))]. intros pid Ho.
    unfold st. rewrite (run_owner_exact (cap := cap)), Ho, map_lookup_view by done.
    apply last_owner_charged in Ho as [_ Ho]. apply expected_row_charged in Ho. rewrite <- (run_rows fs Hp) in Ho.
    apply fmap_is_Some in Ho as [ps Hps]. exists ps. rewrite Hps. split; [done|]. cbn [proc_stats_map].
    rewrite map_poke_view. apply map_eq. intros k. rewrite lookup_alter, lookup_insert.
    case_decide; [subst k; by rewrite Hps|done].
Qed.

(** Sockets that are not IPv4 or IPv6 touch no map: neither a row nor
    an entry of the owner table is spent on them, whatever their traffic. *)
Theorem non_ip_untouched st cur now h sk :
  ip_socket sk = false →
  (∃ n, h = tcp_sendmsg sk n ∨ h = udp_sendmsg sk n ∨ h = udpv6_sendmsg sk n
        ∨ h = tcp_cleanup_rbuf sk n ∨ h = skb_consume_udp sk n) →
  fire st (mk_firing cur now h) = st.
Proof.
  intros Hip (n & Hh). unfold fire; simpl.
  assert (Hacc : ∀ b tx, account cur now sk b tx st = st).
  { intros b tx. unfold account. unfold ip_socket in Hip.
    rewrite <- negb_orb, Hip. by destruct (_ =? 0). }
  destruct Hh as [->|[->|[->|[->| ->]]]]; try apply Hacc;
    unfold handle_tcp_cleanup_rbuf, handle_skb_consume_udp;
    destruct (n <=? 0); try done; apply Hacc.
Qed.
End proofs.

(** ** The theorems at concrete inputs

    Two processes, 1000 ("nc") and 2000, on sockets 16 and 32; socket 16 is
    closed and its address is reused by process 2000. *)

Definition ex_nc : task := mk_task (1000 * 2 ^ 32 + 1000) 0 (str "nc").
Definition ex_sh : task := mk_task (2000 * 2 ^ 32 + 2001) 0 (str "sh").
Definition ex_history : list firing :=
  [ mk_firing ex_nc 10 (tcp_sendmsg (mk_sock 16 AF_INET) 700);
    mk_firing ex_nc 20 (tcp_sendmsg (mk_sock 16 AF_INET) 300);
    mk_firing ex_sh 30 (skb_consume_udp (mk_sock 32 AF_INET6) 64);
    mk_firing ex_sh 35 (tcp_cleanup_rbuf (mk_sock 32 AF_INET6) 0);
    mk_firing ex_sh 40 (tcp_close (mk_sock 16 AF_INET));
    mk_firing ex_sh 50 (tcp_sendmsg (mk_sock 16 AF_INET) 5) ].

Notation ex_run fs :=
  (@run _ _ (gmap_hash MAX_PROCS) (gmap_lru MAX_SOCKS) fs : kstate (gmap Z proc_stats) (gmap Z Z)).

Lemma accounting_exact_witness :
  Z.of_nat (size (charged_pids ex_history)) ≤ MAX_PROCS
  ∧ total_bytes 1000 true ex_history = 1000
  ∧ (tx_bytes <$> proc_stats_map (ex_run ex_history) !! 1000) = Some 1000.
Proof.
  assert (Z.of_nat (size (charged_pids ex_history)) ≤ MAX_PROCS) as Hs
    by (vm_compute; discriminate).
  split; [exact Hs|]. split; [reflexivity|].
  pose proof (@accounting_exact _ _ _ _ (gmap_hash_laws _) (gmap_lru_laws _) ex_history 1000 Hs) as H.
  cbn [map_lookup_elem gmap_hash] in H.
  destruct (proc_stats_map (ex_run ex_history) !! 1000) as [ps|] eqn:E.
  - destruct H as (_ & H & _). simpl. rewrite H. reflexivity.
  - vm_compute in E. discriminate.
Defined.

Lemma full_table_drops_only_new_witness :
  let g := list_to_map ((λ i, (Z.of_nat i + 1, init_stats ex_sh)) <$> seq 0 4096) : gmap Z proc_stats in
  map_view (BpfMap := gmap_hash MAX_PROCS) (proc_stats_map (@fire _ _ (gmap_hash MAX_PROCS)
     (gmap_lru MAX_SOCKS) (mk_kstate g (∅ : gmap Z Z))
     (mk_firing (mk_task (5000 * 2 ^ 32) 0 []) 0 (udp_sendmsg (mk_sock 16 AF_INET) 7)))) = g.
Proof.
  intros g.
  rewrite (@full_table_drops_only_new _ _ _ _ (gmap_hash_laws _) _ _
    (mk_charge 5000 16 true 7 0 [])).
  - assert (map_view (BpfMap := gmap_hash MAX_PROCS) (proc_stats_map (mk_kstate g (∅ : gmap Z Z)))
      !! 5000 = None) as Hn by (vm_compute; reflexivity).
    cbn [c_pid]. rewrite Hn. reflexivity.
  - vm_compute. reflexivity.
  - vm_compute. reflexivity.
Defined.

Lemma non_ip_untouched_witness :
  let st := ex_run ex_history in
  @fire _ _ (gmap_hash MAX_PROCS) (gmap_lru MAX_SOCKS) st
    (mk_firing ex_nc 60 (tcp_sendmsg (mk_sock 48 1) 9)) = st.
Proof.
  apply (non_ip_untouched (ex_run ex_history) ex_nc 60 _ (mk_sock 48 1)); [reflexivity|].
  exists 9. left. reflexivity.
Defined.

(** The recycled address: the retransmission on socket 16 goes to process
    2000, not to 1000 that had the address before the close. *)
Lemma retransmit_attribution_witness :
  last_owner 16 ex_history = Some 2000
  ∧ (let st' := @fire _ _ (gmap_hash MAX_PROCS) (gmap_lru MAX_SOCKS) (ex_run ex_history)
        (mk_firing ex_nc 60 (tcp_retransmit_skb (mk_sock 16 AF_INET))) in
     retrans_pkts <$> proc_stats_map st' !! 1000 = Some 0
     ∧ retrans_pkts <$> proc_stats_map st' !! 2000 = Some 1).
Proof.
  destruct (@retransmit_attribution _ _ _ _ (gmap_hash_laws MAX_PROCS) (gmap_lru_laws MAX_SOCKS)
              ex_history ex_nc 60 (mk_sock 16 AF_INET)) as (_ & _ & H).
  destruct (H MAX_SOCKS (gmap_lru_capacity MAX_SOCKS)) as [Ho _]; [vm_compute; reflexivity|vm_compute; discriminate|].
  destruct (Ho 2000) as (ps & Hps & Hst); [vm_compute; reflexivity|].
  split; [reflexivity|]. cbn [map_view gmap_hash] in Hst, Hps. cbv zeta. rewrite Hst.
  rewrite lookup_insert_ne by discriminate. rewrite lookup_insert_eq.
  split; [vm_compute; reflexivity|].
  assert (Hr : Some (retrans_pkts ps) = Some 0).
  { change (Some (retrans_pkts ps)) with (retrans_pkts <$> Some ps). rewrite <- Hps. vm_compute. reflexivity. }
  injection Hr as Hr. cbn [fmap option_fmap option_map add_retrans retrans_pkts]. rewrite Hr. reflexivity.
Defined.
