(* ===== verification/NettopTypes.v ===== *)
(** * NettopTypes: the values in the maps of chapter 27 have their types

    The kernel side of nettop (Nettop) computes with integers; this file
    shows that the wrap-around is written out wherever it is needed, so that
    what the maps hold are values of [struct proc_stats] and [__u32] at every
    moment, with the invariants the poller relies on: no row and no owner
    is process 0, and there is always room for all rows in the poller's
    arrays. *)

From stdpp Require Import prelude gmap list strings.
From Stdlib Require Import ZArith Lia.
From S2P Require Import Prelude.
From S2P Require Import Kernel.
From S2P Require Import Nettop.

Definition is_u64 (z : Z) : Prop := 0 ≤ z < 2 ^ 64.
Definition is_pid (z : Z) : Prop := 0 < z < 2 ^ 32.

(** A value of [struct proc_stats]. *)
Record stats_typed (p : proc_stats) : Prop := mk_stats_typed {
  st_tx_bytes : is_u64 (tx_bytes p);
  st_rx_bytes : is_u64 (rx_bytes p);
  st_tx_calls : is_u64 (tx_calls p);
  st_rx_calls : is_u64 (rx_calls p);
  st_retrans : is_u64 (retrans_pkts p);
  st_last : is_u64 (last_ns p);
  st_comm : length (ps_comm p) = 16%nat;
}.

(** What the kernel hands to a kprobe. *)
Record firing_typed (f : firing) : Prop := mk_firing_typed {
  ft_now : is_u64 (f_now f);
  ft_comm : length (comm (f_cur f)) = 16%nat;
}.

#[local] Hint Resolve u64_range : core.

(** The stores keep a row a row. *)
Lemma charge_row_typed c p : is_u64 (c_now c) → stats_typed p → stats_typed (charge_row c p).
Proof.
  intros Hn [? ? ? ? ? ? ?]. unfold charge_row. destruct (c_tx c); split; cbn; auto; apply u64_range.
Qed.

Lemma add_retrans_typed p : stats_typed p → stats_typed (add_retrans 1 p).
Proof. intros [? ? ? ? ? ? ?]. split; cbn; auto; apply u64_range. Qed.

Lemma fresh_row_typed c : length (c_comm c) = 16%nat → stats_typed (fresh_row c).
Proof. intros Hc. split; cbn; done || (unfold is_u64; lia). Qed.

(** The fields of a charge come from the firing. *)
Lemma charge_of_fields f c :
  charge_of f = Some c → is_pid (c_pid c) ∧ c_now c = f_now f ∧ c_comm c = comm (f_cur f).
Proof.
  intros Hc. pose proof (charge_of_pid f c Hc) as H0.
  assert (Hf : c_pid c = current_pid (f_cur f) ∧ c_now c = f_now f ∧ c_comm c = comm (f_cur f)).
  { unfold charge_of in Hc. destruct (f_hook f); try done; try (destruct (_ <=? 0); [done|]);
      by apply charge_to_Some in Hc as (-> & _). }
  destruct Hf as (Hp & Hn & Hm). split; [|done]. unfold is_pid. rewrite Hp in *.
  pose proof (u32_range (Z.shiftr (pid_tgid (f_cur f)) 32)). Transparent current_pid. unfold current_pid in *. lia.
Qed.

Section typed.
  Context {PM SM : Type} `{!BpfMap PM Z proc_stats} `{!BpfMap SM Z Z}.
  Context `{!BpfHashLaws PM Z proc_stats MAX_PROCS} `{!BpfLruLaws SM Z Z MAX_SOCKS}.
  Implicit Types st : kstate PM SM.
  Notation stats_of st := (map_view (proc_stats_map st)).
  Notation owners_of st := (map_view (sock_owner st)).

(** Both maps hold values of their types. *)
Record maps_typed st : Prop := mk_maps_typed {
  mt_stats : map_Forall (λ pid p, is_pid pid ∧ stats_typed p) (stats_of st);
  mt_owners : map_Forall (λ _ pid, is_pid pid) (owners_of st);
  mt_size : Z.of_nat (size (stats_of st)) ≤ MAX_PROCS;
}.

(** A firing that stands for no traffic leaves the rows alone or counts a
    retransmission in one of them. *)
Lemma fire_rows_no_charge st f :
  charge_of f = None → stats_of (fire st f) = stats_of st ∨ ∃ pid, stats_of (fire st f) = alter (add_retrans 1) pid (stats_of st).
Proof.
  unfold charge_of, fire. intros H. destruct (f_hook f) as [sk n|sk n|sk n|sk n|sk n|sk|sk]; try (by left);
    unfold handle_tcp_sendmsg, handle_tcp_cleanup_rbuf, handle_udp_sendmsg, handle_udpv6_sendmsg, handle_skb_consume_udp;
    try (split_ifs; left; [done|by erewrite account_None by done]);
    try (left; by erewrite account_None by done).
  unfold handle_tcp_retransmit. destruct (map_lookup_elem (sock_owner st) _) as [pid|]; [|by left].
  destruct (map_lookup_elem (proc_stats_map st) pid); [|by left]. right. exists pid. apply map_poke_view.
Qed.

Lemma fire_stats_typed st f :
  maps_typed st → firing_typed f →
  map_Forall (λ pid p, is_pid pid ∧ stats_typed p) (stats_of (fire st f))
  ∧ Z.of_nat (size (stats_of (fire st f))) ≤ MAX_PROCS.
Proof.
  intros [Hs _ Hn] [Hnow Hcomm]. destruct (charge_of f) as [c|] eqn:Hc.
  - destruct (charge_of_fields f c Hc) as (Hp & Ht & Hcm). rewrite (fire_charge_view _ _ _ Hc).
    destruct (stats_of st !! c_pid c) as [p|] eqn:Ep.
    + split.
      * apply map_Forall_insert_2; [|done]. split; [done|]. apply charge_row_typed; [congruence|]. by apply (Hs _ _ Ep).
      * by rewrite map_size_insert_Some.
    + destruct (Z.ltb_spec (Z.of_nat (size (stats_of st))) MAX_PROCS); [|done]. split.
      * apply map_Forall_insert_2; [|done]. split; [done|].
        apply charge_row_typed; [congruence|]. apply fresh_row_typed. congruence.
      * rewrite map_size_insert_None by done. lia.
  - destruct (fire_rows_no_charge st f Hc) as [->|[pid ->]]; [done|]. split.
    + intros k p Hk. apply lookup_alter_Some in Hk as [(-> & q & Hq & ->)|[_ Hq]]; [|by apply (Hs _ _ Hq)].
      destruct (Hs _ _ Hq) as [? ?]. split; [done|]. by apply add_retrans_typed.
    + rewrite <- size_dom, dom_alter_L, size_dom. done.
Qed.

Lemma fire_owners_typed st f :
  maps_typed st → map_Forall (λ _ pid, is_pid pid) (owners_of (fire st f)).
Proof.
  intros [_ Ho _]. rewrite fire_owner.
  assert (Hch : ∀ o, charge_of f = o → map_Forall (λ _ pid, is_pid pid) (map_view
    match o with
    | Some c => (map_update_elem (sock_owner st) (c_sock c) (c_pid c) BPF_ANY).2
    | None => sock_owner st
    end)).
  { intros [c|] Hc; [|done]. destruct (charge_of_fields f c Hc) as (Hp & _). intros k v.
    destruct (decide (k = c_sock c)) as [->|Hne].
    - rewrite lru_update_self by (by left). by intros [= <-].
    - destruct (lru_update_other (max_entries := MAX_SOCKS) (sock_owner st) (c_sock c) k (c_pid c) BPF_ANY Hne) as [->| ->];
        [apply Ho|done]. }
  destruct (f_hook f) as [| | | | | |sk]; try (by apply Hch).
  rewrite map_delete_view. by apply map_Forall_delete.
Qed.

(** One kprobe preserves the types. *)
Lemma fire_typed st f : maps_typed st → firing_typed f → maps_typed (fire st f).
Proof.
  intros Ht Hf. destruct (fire_stats_typed st f Ht Hf). split; [done|by apply fire_owners_typed|done].
Qed.

(** [C27] At every moment the maps of nettop hold values of their C types:
    whatever kprobes fired since they were created, every row has 64-bit
    counters that never leave their range and a name of 16 bytes, its key and
    every recorded owner is a 32-bit process id other than 0, and there are
    at most MAX_PROCS rows, so a pass of the poller has room for all. *)
Theorem maps_always_typed (fs : list firing) :
  Forall firing_typed fs → maps_typed (run (PM := PM) (SM := SM) fs).
Proof.
  induction fs as [|f fs IH] using rev_ind; intros Hf.
  - split; cbn; rewrite map_empty_view; [apply map_Forall_empty..|]. rewrite map_size_empty. done.
  - apply Forall_app in Hf as [Hfs Hf]. rewrite run_snoc. apply fire_typed; [by apply IH|by inversion Hf].
Qed.
End typed.

(** ** Witness *)

Definition ex_task : task := mk_task (1000 * 2 ^ 32 + 1000) 0 (str "nc" ++ replicate 14 0).

Lemma maps_always_typed_witness :
  let st := @run _ _ (gmap_hash MAX_PROCS) (gmap_lru MAX_SOCKS) [mk_firing ex_task 9 (tcp_sendmsg (mk_sock 16 AF_INET) (-1))] in
  map_Forall (λ pid p, is_pid pid ∧ stats_typed p) (proc_stats_map st : gmap Z proc_stats)
  ∧ tx_bytes <$> (proc_stats_map st : gmap Z proc_stats) !! 1000 = Some (2 ^ 64 - 1).
Proof.
  split; [|vm_compute; reflexivity].
  refine (mt_stats _ (@maps_always_typed _ _ _ _ (gmap_hash_laws MAX_PROCS) (gmap_lru_laws MAX_SOCKS)
    [mk_firing ex_task 9 (tcp_sendmsg (mk_sock 16 AF_INET) (-1))] _)).
  constructor; [|constructor]. split; [unfold is_u64; cbn; lia|reflexivity].
Defined.
