(* ===== verification/NettopRace.v ===== *)
(** * NettopRace: [account] on several CPUs at once

    The kprobes of chapter 27 run concurrently.  Here [account] of
    src/27-nettop/nettop.bpf.c is cut into its map operations, each atomic,
    and any number of CPUs execute them in any order.  One CPU on its own
    computes [Nettop.account] ([run_alone_account]).  The theorem: no
    interleaving loses a byte or a call, however the insertion race for a
    new row goes. *)

From stdpp Require Import prelude gmap list relations.
From Stdlib Require Import ZArith Lia.
From S2P Require Import Prelude.
From S2P Require Import Kernel.
From S2P Require Import Nettop.

(** One call of [account]. *)
Record job := mk_job { j_cur : task; j_now : Z; j_sock : sock; j_bytes : Z; j_tx : bool }.

Definition j_pid (j : job) : Z := current_pid (j_cur j).

(** Where a CPU stands: the next map operation it will execute. *)
Inductive pc :=
  | PRegister   (** [bpf_map_update_elem(&sock_owner, ...)] *)
  | PLookup     (** first [bpf_map_lookup_elem(&proc_stats_map, &pid)] *)
  | PInsert     (** [bpf_map_update_elem(..., BPF_NOEXIST)] *)
  | PRelookup   (** second lookup *)
  | PAddBytes   (** [__sync_fetch_and_add(&ps->tx_bytes, bytes)] *)
  | PAddCalls   (** [__sync_fetch_and_add(&ps->tx_calls, 1)] *)
  | PSetLast    (** [ps->last_ns = bpf_ktime_get_ns()] *)
  | PDone.

#[export] Instance pc_eq_dec : EqDecision pc.
Proof. solve_decision. Defined.

Record cpu := mk_cpu { cpu_job : job; cpu_pc : pc }.

(** The two guards before any map is touched. *)
Definition guarded (j : job) : bool := (j_pid j =? 0) || negb (ip_socket (j_sock j)).

Definition start_cpu (j : job) : cpu := mk_cpu j (if guarded j then PDone else PRegister).

Section machine.
  Context {PM SM : Type} `{!BpfMap PM Z proc_stats} `{!BpfMap SM Z Z}.
  Implicit Types st : kstate PM SM.

Definition cpu_step st (j : job) (p : pc) : option (kstate PM SM * pc) :=
  let pm := proc_stats_map st in
  let so := sock_owner st in
  let pid := j_pid j in
  match p with
  | PRegister =>
      Some (mk_kstate pm (map_update_elem so (sk_addr (j_sock j)) pid BPF_ANY).2, PLookup)
  | PLookup =>
      Some (st, match map_lookup_elem pm pid with Some _ => PAddBytes | None => PInsert end)
  | PInsert =>
      Some (mk_kstate (map_update_elem pm pid (init_stats (j_cur j)) BPF_NOEXIST).2 so, PRelookup)
  | PRelookup =>
      Some (st, match map_lookup_elem pm pid with Some _ => PAddBytes | None => PDone end)
  | PAddBytes =>
      Some (mk_kstate (map_poke pm pid
              (if j_tx j then add_tx_bytes (j_bytes j) else add_rx_bytes (j_bytes j))) so, PAddCalls)
  | PAddCalls =>
      Some (mk_kstate (map_poke pm pid (if j_tx j then add_tx_calls 1 else add_rx_calls 1)) so, PSetLast)
  | PSetLast => Some (mk_kstate (map_poke pm pid (set_last_ns (j_now j))) so, PDone)
  | PDone => None
  end.

(** Any CPU may execute its next operation. *)
Inductive step : kstate PM SM * list cpu → kstate PM SM * list cpu → Prop :=
  | step_cpu st st' cpus i j p p' :
      cpus !! i = Some (mk_cpu j p) →
      cpu_step st j p = Some (st', p') →
      step (st, cpus) (st', <[i := mk_cpu j p']> cpus).

Definition finished (cpus : list cpu) : Prop := Forall (λ c, cpu_pc c = PDone) cpus.

(** A CPU that is never interrupted. *)
Fixpoint run_alone (fuel : nat) st (j : job) (p : pc) : kstate PM SM :=
  match fuel with
  | O => st
  | S n => match cpu_step st j p with Some (st', p') => run_alone n st' j p' | None => st end
  end.
End machine.

(** ** What has been added so far *)

(** Past the addition of the bytes, and past the count of the call. *)
Definition bytes_in (p : pc) : bool :=
  match p with PAddCalls | PSetLast | PDone => true | _ => false end.
Definition call_in (p : pc) : bool := match p with PSetLast | PDone => true | _ => false end.

(** CPUs that hold a pointer to their row. *)
Definition holds_row (p : pc) : bool :=
  match p with PAddBytes | PAddCalls | PSetLast => true | _ => false end.

Definition job_for (pid : Z) (tx : bool) (j : job) : bool :=
  negb (guarded j) && (j_pid j =? pid) && Bool.eqb (j_tx j) tx.

Definition added_bytes (pid : Z) (tx : bool) (c : cpu) : Z :=
  if job_for pid tx (cpu_job c) && bytes_in (cpu_pc c) then j_bytes (cpu_job c) else 0.
Definition added_calls (pid : Z) (tx : bool) (c : cpu) : Z :=
  if job_for pid tx (cpu_job c) && call_in (cpu_pc c) then 1 else 0.

Definition job_bytes (pid : Z) (tx : bool) (j : job) : Z :=
  if job_for pid tx j then j_bytes j else 0.
Definition job_calls (pid : Z) (tx : bool) (j : job) : Z := if job_for pid tx j then 1 else 0.

(** A counter of a row, 0 for a missing row. *)
Definition bytes_of (tx : bool) (o : option proc_stats) : Z :=
  match o with Some p => if tx then tx_bytes p else rx_bytes p | None => 0 end.
Definition calls_of (tx : bool) (o : option proc_stats) : Z :=
  match o with Some p => if tx then tx_calls p else rx_calls p | None => 0 end.

Section proofs.
  Context {PM SM : Type} `{!BpfMap PM Z proc_stats} `{!BpfMap SM Z Z}.
  Context `{!BpfHashLaws PM Z proc_stats MAX_PROCS}.
  Implicit Types st : kstate PM SM.
  Notation stats_of st := (map_view (proc_stats_map st)).

(** The rows after one operation. *)
Definition row_effect (j : job) (p : pc) (g : gmap Z proc_stats) : gmap Z proc_stats :=
  match p with
  | PInsert => (hash_update MAX_PROCS g (j_pid j) (init_stats (j_cur j)) BPF_NOEXIST).2
  | PAddBytes => alter (if j_tx j then add_tx_bytes (j_bytes j) else add_rx_bytes (j_bytes j)) (j_pid j) g
  | PAddCalls => alter (if j_tx j then add_tx_calls 1 else add_rx_calls 1) (j_pid j) g
  | PSetLast => alter (set_last_ns (j_now j)) (j_pid j) g
  | _ => g
  end.

Lemma cpu_step_view st j p st' p' :
  cpu_step st j p = Some (st', p') → stats_of st' = row_effect j p (stats_of st).
Proof.
  intros H. destruct p; simpl in H; simplify_eq/=; rewrite ?map_poke_view; try reflexivity.
  by rewrite <- hash_update_view.
Qed.

(** The invariant of every interleaving: each counter is its initial value
    plus what the CPUs past the addition have added, and a CPU about to add
    holds a row. [D] is the set of processes that have or will have one. *)
Record inv (g0 : gmap Z proc_stats) (D : gset Z) st (cpus : list cpu) : Prop := {
  inv_bytes pid tx :
    u64 (bytes_of tx (stats_of st !! pid))
    = u64 (bytes_of tx (g0 !! pid) + sumZ (added_bytes pid tx <$> cpus));
  inv_calls pid tx :
    u64 (calls_of tx (stats_of st !! pid))
    = u64 (calls_of tx (g0 !! pid) + sumZ (added_calls pid tx <$> cpus));
  inv_dom : dom (stats_of st) ⊆ D;
  inv_cpu i j p : cpus !! i = Some (mk_cpu j p) →
    (guarded j = true ∧ p = PDone)
    ∨ (guarded j = false ∧ j_pid j ∈ D
       ∧ (holds_row p = true ∨ p = PRelookup → is_Some (stats_of st !! j_pid j)));
}.

Lemma row_effect_dom j p g pid : is_Some (g !! pid) → is_Some (row_effect j p g !! pid).
Proof.
  intros [r Hr]. destruct p; simpl; rewrite ?lookup_alter, ?Hr;
    try (case_decide; subst; rewrite ?Hr; by eauto); try by eauto.
  unfold hash_update. destruct (g !! j_pid j); simpl; [rewrite Hr; by eauto|].
  destruct (_ <? _); simpl; [|rewrite Hr; by eauto].
  rewrite lookup_insert, Hr. case_decide; by eauto.
Qed.

Lemma insert_present j g D :
  dom g ⊆ D → j_pid j ∈ D → Z.of_nat (size D) ≤ MAX_PROCS →
  row_effect j PInsert g
  = match g !! j_pid j with Some _ => g | None => <[j_pid j := init_stats (j_cur j)]> g end.
Proof.
  intros Hdom Hj Hsize. simpl. unfold hash_update. destruct (g !! j_pid j) eqn:E; [done|].
  assert (dom g ∪ {[j_pid j]} ⊆ D) as Hsub by set_solver.
  apply subseteq_size in Hsub. rewrite size_union, size_singleton, size_dom in Hsub.
  2: { apply not_elem_of_dom in E. set_solver. }
  destruct (Z.ltb_spec (Z.of_nat (size g)) MAX_PROCS); [done|lia].
Qed.

(** The counters of the touched row move by exactly what the CPU adds. *)
Lemma row_effect_counters j p p' g D pid tx :
  guarded j = false → dom g ⊆ D → j_pid j ∈ D → Z.of_nat (size D) ≤ MAX_PROCS →
  (holds_row p = true → is_Some (g !! j_pid j)) →
  bytes_in p' = bytes_in p || bool_decide (p = PAddBytes) →
  call_in p' = call_in p || bool_decide (p = PAddCalls) →
  u64 (bytes_of tx (row_effect j p g !! pid))
  = u64 (bytes_of tx (g !! pid) - added_bytes pid tx (mk_cpu j p) + added_bytes pid tx (mk_cpu j p'))
  ∧ u64 (calls_of tx (row_effect j p g !! pid))
  = u64 (calls_of tx (g !! pid) - added_calls pid tx (mk_cpu j p) + added_calls pid tx (mk_cpu j p')).
Proof.
  intros Hg Hdom Hj Hsize Hrow Hb Hc.
  unfold added_bytes, added_calls, job_for; simpl. rewrite Hb, Hc, Hg. simpl.
  destruct p; try (rewrite (insert_present j g D) by done); simpl in *;
    rewrite ?lookup_alter, ?andb_false_r, ?andb_true_r;
    try (split; apply f_equal; lia).
  - destruct (g !! j_pid j) eqn:E; [split; apply f_equal; lia|].
    rewrite lookup_insert. case_decide; subst; rewrite ?E; destruct tx; simpl; split; apply f_equal; lia.
  - destruct (Hrow eq_refl) as [r Hr].
    case_decide as Hk; destruct (Z.eqb_spec (j_pid j) pid); try done; subst; rewrite ?Hr;
      destruct (j_tx j), tx; simpl; split; autorewrite with wrap; apply f_equal; lia.
  - destruct (Hrow eq_refl) as [r Hr].
    case_decide as Hk; destruct (Z.eqb_spec (j_pid j) pid); try done; subst; rewrite ?Hr;
      destruct (j_tx j), tx; simpl; split; autorewrite with wrap; apply f_equal; lia.
  - destruct (Hrow eq_refl) as [r Hr].
    case_decide as Hk; subst; rewrite ?Hr; destruct tx; simpl; split; apply f_equal; lia.
Qed.

(** Where the program counter goes. *)
Lemma cpu_step_pc st j p st' p' :
  cpu_step st j p = Some (st', p') →
  (p = PRelookup → is_Some (stats_of st !! j_pid j)) →
  bytes_in p' = bytes_in p || bool_decide (p = PAddBytes)
  ∧ call_in p' = call_in p || bool_decide (p = PAddCalls)
  ∧ (holds_row p' = true → holds_row p = true ∨ is_Some (stats_of st !! j_pid j))
  ∧ (p' = PRelookup → p = PInsert).
Proof.
  intros H Hre. destruct p; simpl in H; try done; injection H as Hst <-; rewrite ?map_lookup_view;
    try (split; [done|]; split; [done|]; split; by intros; auto).
  - destruct (stats_of st !! j_pid j) eqn:E; simpl;
      (split; [done|]; split; [done|]; split; [|done]); [by eauto|done].
  - destruct (Hre eq_refl) as [r Hr]. rewrite Hr. simpl.
    (split; [done|]; split; [done|]; split; [|done]). by eauto.
Qed.

Lemma inv_step g0 D st cpus st' cpus' :
  Z.of_nat (size D) ≤ MAX_PROCS →
  inv g0 D st cpus → step (st, cpus) (st', cpus') → inv g0 D st' cpus'.
Proof.
  intros Hsize HI Hstep. inversion Hstep as [? ? ? i j p p' Hi Hs]; subst.
  pose proof (cpu_step_view _ _ _ _ _ Hs) as Hview.
  destruct (inv_cpu _ _ _ _ HI _ _ _ Hi) as [[_ ->]|(Hg & Hj & Hrow)]; [done|].
  destruct (cpu_step_pc _ _ _ _ _ Hs) as (Hb & Hc & Hh & Hr); [by auto|].
  assert (Hdom' : ∀ pid, is_Some (stats_of st !! pid) → is_Some (stats_of st' !! pid)).
  { intros pid. rewrite Hview. apply row_effect_dom. }
  pose proof (λ pid tx, row_effect_counters j p p' (stats_of st) D pid tx Hg
    (inv_dom _ _ _ _ HI) Hj Hsize ltac:(auto) Hb Hc) as Hcnt.
  split.
  - intros pid tx. rewrite Hview. destruct (Hcnt pid tx) as [-> _].
    rewrite (sumZ_fmap_insert _ _ _ _ _ Hi).
    pose proof (inv_bytes _ _ _ _ HI pid tx) as Hb0.
    apply (u64_congr _ _ (added_bytes pid tx (mk_cpu j p') - added_bytes pid tx (mk_cpu j p))) in Hb0.
    etrans; [|etrans; [exact Hb0|]]; apply f_equal; lia.
  - intros pid tx. rewrite Hview. destruct (Hcnt pid tx) as [_ ->].
    rewrite (sumZ_fmap_insert _ _ _ _ _ Hi).
    pose proof (inv_calls _ _ _ _ HI pid tx) as Hc0.
    apply (u64_congr _ _ (added_calls pid tx (mk_cpu j p') - added_calls pid tx (mk_cpu j p))) in Hc0.
    etrans; [|etrans; [exact Hc0|]]; apply f_equal; lia.
  - rewrite Hview. pose proof (inv_dom _ _ _ _ HI). destruct p; simpl; rewrite ?dom_alter_L; try done.
    pose proof (insert_present j (stats_of st) D ltac:(done) Hj Hsize) as Hins. simpl in Hins.
    rewrite Hins. destruct (stats_of st !! j_pid j); [done|]. rewrite dom_insert_L. set_solver.
  - intros i' j' q Hi'. destruct (decide (i = i')) as [<-|Hne].
    + rewrite list_lookup_insert_eq in Hi' by (by eapply lookup_lt_Some). simplify_eq.
      right. split; [done|]. split; [done|]. intros [Hq| ->].
      * apply Hdom'. destruct (Hh Hq); auto.
      * rewrite (Hr eq_refl) in Hview. rewrite Hview.
        rewrite (insert_present _ (stats_of st) D (inv_dom _ _ _ _ HI) Hj Hsize).
        destruct (stats_of st !! _) eqn:E; [by rewrite E|]. rewrite lookup_insert_eq. eauto.
    + rewrite list_lookup_insert_ne in Hi' by done.
      destruct (inv_cpu _ _ _ _ HI _ _ _ Hi') as [?|(? & ? & ?)]; [by left|]. right. auto.
Qed.

Lemma added_start pid tx js :
  sumZ (added_bytes pid tx <$> (start_cpu <$> js)) = 0
  ∧ sumZ (added_calls pid tx <$> (start_cpu <$> js)) = 0.
Proof.
  rewrite <- !list_fmap_compose.
  induction js as [|j js [IH1 IH2]]; [done|]. csimpl.
  unfold added_bytes, added_calls, job_for, start_cpu in *; simpl in *.
  destruct (guarded j); simpl; rewrite ?andb_false_r; simpl; split; lia.
Qed.

Lemma inv_start st js D :
  dom (stats_of st) ∪ list_to_set (j_pid <$> js) ⊆ D →
  inv (stats_of st) D st (start_cpu <$> js).
Proof.
  intros HD. split.
  - intros pid tx. destruct (added_start pid tx js) as [-> _]. by rewrite Z.add_0_r.
  - intros pid tx. destruct (added_start pid tx js) as [_ ->]. by rewrite Z.add_0_r.
  - set_solver.
  - intros i j p Hi. rewrite list_lookup_fmap in Hi. apply fmap_Some in Hi as (j' & Hj' & Heq).
    unfold start_cpu in Heq. injection Heq as -> ->.
    destruct (guarded j') eqn:Hg; [by left|]. right. split; [done|]. split.
    + apply HD, elem_of_union_r, elem_of_list_to_set, list_elem_of_fmap.
      exists j'. split; [done|]. by eapply list_elem_of_lookup_2.
    + intros [?|?]; done.
Qed.

Lemma inv_rtc g0 D c c' :
  Z.of_nat (size D) ≤ MAX_PROCS → rtc step c c' → inv g0 D c.1 c.2 → inv g0 D c'.1 c'.2.
Proof.
  intros Hsize. induction 1 as [|[st cpus] [st' cpus'] c' Hs _ IH]; [done|].
  intros HI. apply IH. simpl. by eapply inv_step.
Qed.

Lemma step_jobs c c' : step c c' → cpu_job <$> c'.2 = cpu_job <$> c.2.
Proof.
  destruct 1 as [st st' cpus i j p p' Hi Hs]; simpl.
  rewrite list_fmap_insert; simpl. apply list_insert_id. by rewrite list_lookup_fmap, Hi.
Qed.

Lemma rtc_jobs c c' : rtc step c c' → cpu_job <$> c'.2 = cpu_job <$> c.2.
Proof. induction 1 as [|c1 c2 c3 Hs _ IH]; [done|]. rewrite IH. by apply step_jobs. Qed.

Lemma added_finished pid tx cpus :
  finished cpus →
  sumZ (added_bytes pid tx <$> cpus) = sumZ (job_bytes pid tx <$> (cpu_job <$> cpus))
  ∧ sumZ (added_calls pid tx <$> cpus) = sumZ (job_calls pid tx <$> (cpu_job <$> cpus)).
Proof.
  intros Hf. rewrite <- !list_fmap_compose. split; apply sumZ_fmap_ext;
    eapply Forall_impl; [exact Hf| |exact Hf|]; intros [j p]; simpl; intros ->;
    unfold added_bytes, added_calls, job_bytes, job_calls; simpl; by rewrite andb_true_r.
Qed.

Lemma job_start (js : list job) : cpu_job <$> (start_cpu <$> js) = js.
Proof. rewrite <- list_fmap_compose. by apply list_fmap_id. Qed.

(** One CPU that is not interrupted computes [account]. *)
Lemma run_alone_account st j :
  run_alone 7 st j (cpu_pc (start_cpu j))
  = account (j_cur j) (j_now j) (j_sock j) (j_bytes j) (j_tx j) st.
Proof.
  unfold start_cpu, guarded, account, ip_socket, j_pid. simpl. rewrite negb_orb.
  destruct (_ =? 0); [done|]. destruct (_ && _); [done|]. simpl.
  unfold bump, j_pid.
  destruct (map_lookup_elem (proc_stats_map st) _) eqn:E1; simpl.
  - by destruct (j_tx j).
  - destruct (map_lookup_elem (map_update_elem _ _ _ _).2 _) eqn:E2; simpl; [|done].
    by destruct (j_tx j).
Qed.

(** [C4] No interleaving loses traffic.  Start any number of calls of
    [account] on different CPUs, for the same or different processes, with
    room in the table for the processes concerned, and let their map
    operations interleave in any order until all are done: for every
    process, the byte and call counters of either direction equal their
    initial value plus the sum over its calls, as 64-bit numbers.  The
    insertion race of two CPUs for the same new row costs nothing, because
    the loser of BPF_NOEXIST looks the row up again. *)
Theorem concurrent_account_exact st js st' cpus :
  Z.of_nat (size (dom (stats_of st) ∪ list_to_set (j_pid <$> js))) ≤ MAX_PROCS →
  rtc step (st, start_cpu <$> js) (st', cpus) → finished cpus →
  ∀ pid tx,
    u64 (bytes_of tx (map_lookup_elem (proc_stats_map st') pid))
    = u64 (bytes_of tx (map_lookup_elem (proc_stats_map st) pid) + sumZ (job_bytes pid tx <$> js))
    ∧ u64 (calls_of tx (map_lookup_elem (proc_stats_map st') pid))
    = u64 (calls_of tx (map_lookup_elem (proc_stats_map st) pid) + sumZ (job_calls pid tx <$> js)).
Proof.
  intros Hsize Hsteps Hf pid tx. rewrite !map_lookup_view.
  pose proof (inv_rtc _ _ _ _ Hsize Hsteps (inv_start _ _ _ (reflexivity _))) as HI.
  pose proof (rtc_jobs _ _ Hsteps) as Hjobs. simpl in HI, Hjobs. rewrite job_start in Hjobs.
  destruct (added_finished pid tx cpus Hf) as [Hb Hc]. rewrite Hjobs in Hb, Hc.
  rewrite <- Hb, <- Hc. split; [apply (inv_bytes _ _ _ _ HI)|apply (inv_calls _ _ _ _ HI)].
Qed.
End proofs.

(** ** At a concrete input

    Two CPUs account for the same new process and both find no row. *)

Definition ex_cur : task := mk_task (7 * 2 ^ 32) 0 [].
Definition ex_job (n : Z) : job := mk_job ex_cur 0 (mk_sock 16 AF_INET) n true.

(** A schedule of CPU numbers, executed. *)
Fixpoint exec {PM SM : Type} `{!BpfMap PM Z proc_stats} `{!BpfMap SM Z Z}
    (sched : list nat) (c : kstate PM SM * list cpu) : option (kstate PM SM * list cpu) :=
  match sched with
  | [] => Some c
  | i :: sched' =>
      c2 ← c.2 !! i;
      r ← cpu_step c.1 (cpu_job c2) (cpu_pc c2);
      exec sched' (r.1, <[i := mk_cpu (cpu_job c2) r.2]> c.2)
  end.

Lemma exec_rtc {PM SM : Type} `{!BpfMap PM Z proc_stats} `{!BpfMap SM Z Z}
    sched (c c' : kstate PM SM * list cpu) :
  exec sched c = Some c' → rtc step c c'.
Proof.
  revert c. induction sched as [|i sched IH]; intros [st cpus] H; simpl in H; [by simplify_eq|].
  apply bind_Some in H as ([j p] & Hi & H). apply bind_Some in H as ([st' p'] & Hs & H).
  eapply rtc_l; [|by apply IH]. by eapply step_cpu.
Qed.

(** Both look up, both insert, one loses; the additions cross over. *)
Definition ex_sched : list nat := [0; 1; 0; 1; 0; 1; 1; 0; 1; 0; 0; 1; 0; 1]%nat.

Lemma concurrent_account_exact_witness :
  let st0 := mk_kstate (∅ : gmap Z proc_stats) (∅ : gmap Z Z) in
  ∃ st' cpus,
    @exec _ _ (gmap_hash MAX_PROCS) (gmap_lru MAX_SOCKS) ex_sched
      (st0, start_cpu <$> [ex_job 40; ex_job 2]) = Some (st', cpus)
    ∧ u64 (bytes_of true (proc_stats_map st' !! 7)) = 42.
Proof.
  intros st0.
  destruct (@exec _ _ (gmap_hash MAX_PROCS) (gmap_lru MAX_SOCKS) ex_sched
      (st0, start_cpu <$> [ex_job 40; ex_job 2])) as [[st' cpus]|] eqn:E;
    [|vm_compute in E; discriminate].
  exists st', cpus. split; [reflexivity|].
  destruct (@concurrent_account_exact _ _ (gmap_hash MAX_PROCS) (gmap_lru MAX_SOCKS)
    (gmap_hash_laws _) st0 [ex_job 40; ex_job 2] st' cpus) with (pid := 7) (tx := true) as [H _].
  - vm_compute. discriminate.
  - by eapply exec_rtc.
  - vm_compute in E. injection E as <- <-. repeat constructor.
  - cbn [map_lookup_elem gmap_hash] in H. rewrite H. vm_compute. reflexivity.
Defined.
