(* ===== verification/Printf.v ===== *)
(** * Printf: the conversions of printf

    What the programs use of [printf] and [snprintf]: %u and %llx, %.Nf on
    doubles (glibc prints the exact value of the double, rounded half to
    even), field widths, and the size limit of [snprintf].  Text is the list
    of its bytes.  The lemmas: a printed number reads back as itself and is
    as long as its magnitude says. *)

From stdpp Require Import prelude list strings.
From Stdlib Require Import ZArith Lia.
From Stdlib Require Import SpecFloat.
From S2P Require Import Prelude.
From S2P Require Import Kernel.
From S2P Require Import Float64.
From S2P Require Import Libc.

(** ** Integers *)

(** The character of a digit below 16. *)
Definition char_of (d : Z) : Z := if d <? 10 then 48 + d else 87 + d.

Fixpoint num_aux (base : Z) (fuel : nat) (n : Z) : list Z :=
  match fuel with
  | O => []
  | S fuel => (if n <? base then [] else num_aux base fuel (n / base)) ++ [char_of (n mod base)]
  end.

(** %u and %x of [n >= 0]; a number has no more digits than bits. *)
Definition numeral (base n : Z) : list Z := num_aux base (S (Z.to_nat (Z.log2 n))) n.

Definition dec (n : Z) : list Z := numeral 10 n.
Definition hex (n : Z) : list Z := numeral 16 n.

#[global] Arguments dec : simpl never.
#[global] Arguments hex : simpl never.

(** %d. *)
Definition sdec (z : Z) : list Z := if z <? 0 then str "-" ++ dec (- z) else dec z.

(** %02d of a number below 100, as [strftime] prints the time. *)
Definition dec2 (n : Z) : list Z := [48 + n / 10; 48 + n mod 10].

(** ** Widths and sizes *)

(** %10s and %-16s. *)
Definition lpad (w : nat) (s : list Z) : list Z := replicate (w - length s) 32 ++ s.
Definition rpad (w : nat) (s : list Z) : list Z := s ++ replicate (w - length s) 32.

(** [snprintf(buf, size, ...)]: what is in [buf] before the zero. *)
Definition snprintf (size : nat) (s : list Z) : list Z := take (size - 1) s.

(** ** Doubles *)

(** [num / den] rounded half to even. *)
Definition round_div (num den : Z) : Z :=
  let q := num / den in
  match Z.compare (2 * (num mod den)) den with
  | Lt => q
  | Gt => q + 1
  | Eq => if Z.even q then q else q + 1
  end.

(** [n / 10^d] with [d] decimals. *)
Definition fixed (d : nat) (n : Z) : list Z :=
  let p := 10 ^ Z.of_nat d in
  dec (n / p) ++
  match d with
  | O => []
  | S _ => let f := dec (n mod p) in str "." ++ replicate (d - length f) 48 ++ f
  end.

(** [m * 2^e * 10^d], rounded to an integer. *)
Definition scaled (d : nat) (m : positive) (e : Z) : Z :=
  let n := Z.pos m * 10 ^ Z.of_nat d in
  if 0 <=? e then n * 2 ^ e else round_div n (2 ^ (- e)).

(** %.df. *)
Definition fmt_f (d : nat) (x : f64) : list Z :=
  match x with
  | S754_zero s => (if s then str "-" else []) ++ fixed d 0
  | S754_infinity s => (if s then str "-" else []) ++ str "inf"
  | S754_nan => str "nan"
  | S754_finite s m e => (if s then str "-" else []) ++ fixed d (scaled d m e)
  end.

(** ** Lemmas *)

Lemma digit_char_of d : 0 ≤ d < 16 → digit (char_of d) = d.
Proof.
  intros Hd. unfold char_of, digit. destruct (Z.ltb_spec d 10).
  - destruct (Z.leb_spec 48 (48 + d)), (Z.leb_spec (48 + d) 57); simpl; lia.
  - destruct (Z.leb_spec 48 (87 + d)), (Z.leb_spec (87 + d) 57); simpl; try lia.
    destruct (Z.leb_spec 97 (87 + d)), (Z.leb_spec (87 + d) 122); simpl; lia.
Qed.

Lemma digits_snoc base s c : ∀ acc,
  Forall (λ x, digit x < base) s →
  ∀ t, digit c < base → digits base acc (s ++ c :: t) = digits base ((digits base acc s).1 * base + digit c) t.
Proof.
  induction s as [|x s IH]; intros acc Hs t Hc; cbn [digits app].
  - apply Z.ltb_lt in Hc. by rewrite Hc.
  - inversion_clear Hs as [|? ? Hx Hs']. pose proof (proj2 (Z.ltb_lt _ _) Hx) as ->. by apply IH.
Qed.

Section numerals.
  Variable base : Z.
  Context (Hbase : 2 ≤ base ≤ 16).

Lemma num_aux_digits fuel n : 0 ≤ n → Forall (λ x, digit x < base) (num_aux base fuel n).
Proof.
  revert n. induction fuel as [|fuel IH]; intros n Hn; cbn [num_aux]; [constructor|].
  pose proof (Z.mod_pos_bound n base ltac:(lia)). apply Forall_app. split.
  - destruct (_ <? _); [constructor|]. apply IH. apply Z.div_pos; lia.
  - constructor; [|constructor]. rewrite digit_char_of; lia.
Qed.

Lemma num_aux_value fuel n :
  0 ≤ n → n < 2 ^ Z.of_nat fuel → digits base 0 (num_aux base fuel n) = (n, []).
Proof.
  revert n. induction fuel as [|fuel IH]; intros n Hn Hlt; cbn [num_aux].
  { cbn. f_equal. simpl in Hlt. lia. }
  pose proof (Z.mod_pos_bound n base ltac:(lia)) as Hm.
  assert (0 ≤ n / base) by (apply Z.div_pos; lia).
  assert (Hdiv : n / base < 2 ^ Z.of_nat fuel).
  { rewrite Nat2Z.inj_succ, Z.pow_succ_r in Hlt by lia. apply Z.div_lt_upper_bound; nia. }
  rewrite digits_snoc; rewrite ?digit_char_of by lia; [|destruct (_ <? _); [constructor|by apply num_aux_digits]|lia].
  destruct (Z.ltb_spec n base); cbn [digits].
  - f_equal. cbn. rewrite Z.mod_small; lia.
  - rewrite IH by done. cbn. f_equal. pose proof (Z.div_mod n base ltac:(lia)). lia.
Qed.

Lemma numeral_digits n : 0 ≤ n → Forall (λ x, digit x < base) (numeral base n).
Proof. apply num_aux_digits. Qed.

(** A printed number reads back as itself. *)
Lemma numeral_value n : 0 ≤ n → digits base 0 (numeral base n) = (n, []).
Proof.
  intros Hn. apply num_aux_value; [done|]. rewrite Nat2Z.inj_succ, Z2Nat.id by apply Z.log2_nonneg.
  destruct (decide (n = 0)) as [->|]; [done|]. apply Z.log2_spec. lia.
Qed.

Lemma numeral_inj a b : 0 ≤ a → 0 ≤ b → numeral base a = numeral base b → a = b.
Proof. intros Ha Hb E. apply (f_equal (λ s, (digits base 0 s).1)) in E. by rewrite !numeral_value in E. Qed.

Lemma numeral_nonempty n : numeral base n ≠ [].
Proof. unfold numeral. cbn [num_aux]. by intros [_ ?]%app_eq_nil. Qed.

(** [k] digits are enough below [base^k]. *)
Lemma num_aux_length fuel (k : nat) n :
  0 ≤ n → n < base ^ Z.of_nat k → (1 ≤ k)%nat → (length (num_aux base fuel n) ≤ k)%nat.
Proof.
  revert k n. induction fuel as [|fuel IH]; intros k n Hn Hlt Hk; cbn [num_aux]; [simpl; lia|].
  rewrite length_app. cbn [length]. destruct (Z.ltb_spec n base); [cbn; lia|].
  destruct k as [|[|k]]; [lia| |].
  - rewrite Z.pow_1_r in Hlt. lia.
  - rewrite Nat2Z.inj_succ, Z.pow_succ_r in Hlt by lia.
    assert (length (num_aux base fuel (n / base)) ≤ S k)%nat; [|lia].
    apply IH; [apply Z.div_pos; lia| |lia]. apply Z.div_lt_upper_bound; lia.
Qed.

Lemma numeral_length (k : nat) n : 0 ≤ n → n < base ^ Z.of_nat k → (1 ≤ k)%nat → (length (numeral base n) ≤ k)%nat.
Proof. apply num_aux_length. Qed.
End numerals.

Lemma round_div_near num den : 0 < den → 2 * Z.abs (round_div num den * den - num) ≤ den.
Proof.
  intros Hd. unfold round_div. pose proof (Z.div_mod num den ltac:(lia)). pose proof (Z.mod_pos_bound num den Hd).
  destruct (Z.compare_spec (2 * (num mod den)) den); [destruct (Z.even _)| |]; lia.
Qed.

Lemma round_div_nonneg num den : 0 ≤ num → 0 < den → 0 ≤ round_div num den.
Proof.
  intros Hn Hd. unfold round_div. pose proof (Z.div_pos num den Hn Hd).
  destruct (Z.compare _ _); [destruct (Z.even _)| |]; lia.
Qed.

(** Rounding does not go past an integer bound. *)
Lemma round_div_le num den b : 0 < den → num ≤ b * den → round_div num den ≤ b.
Proof. intros Hd Hb. pose proof (round_div_near num den Hd). nia. Qed.

Lemma length_lpad w s : length (lpad w s) = (w `max` length s)%nat.
Proof. unfold lpad. rewrite length_app, length_replicate. lia. Qed.

Lemma length_rpad w s : length (rpad w s) = (w `max` length s)%nat.
Proof. unfold rpad. rewrite length_app, length_replicate. lia. Qed.

(** What fits is not cut. *)
Lemma snprintf_fits size s : (length s < size)%nat → snprintf size s = s.
Proof. intros Hl. unfold snprintf. apply take_ge. lia. Qed.

(** [d] decimals after at most [k] digits. *)
Lemma fixed_length d (k : nat) n :
  0 ≤ n → n < 10 ^ Z.of_nat (k + d) → (1 ≤ k)%nat →
  (length (fixed d n) ≤ k + match d with O => 0 | S _ => S d end)%nat.
Proof.
  intros Hn Hlt Hk. unfold fixed. rewrite length_app.
  rewrite Nat2Z.inj_add, Z.pow_add_r in Hlt by lia.
  assert (Hp : 0 < 10 ^ Z.of_nat d) by (apply Z.pow_pos_nonneg; lia).
  assert (length (dec (n / 10 ^ Z.of_nat d)) ≤ k)%nat.
  { apply numeral_length; [lia|apply Z.div_pos; lia| |done]. apply Z.div_lt_upper_bound; lia. }
  destruct d as [|d]; [simpl; lia|]. rewrite length_app. cbn [length str].
  rewrite length_app, length_replicate.
  pose proof (Z.mod_pos_bound n _ Hp).
  assert (length (dec (n mod 10 ^ Z.of_nat (S d))) ≤ S d)%nat.
  { apply numeral_length; [lia|lia|lia|lia]. }
  change (length (str ".")) with 1%nat. lia.
Qed.

(** ** Tables *)

(** The columns of a line, of the given widths, each followed by a space. *)
Fixpoint columns (ws : list nat) (s : list Z) : list (list Z) :=
  match ws with
  | [] => [s]
  | w :: ws' => take w s :: columns ws' (drop (S w) s)
  end.

Lemma columns_pad (w : nat) ws f s :
  (length f ≤ w)%nat → columns (w :: ws) (rpad w f ++ str " " ++ s) = rpad w f :: columns ws s.
Proof.
  intros Hf. assert (Hl : length (rpad w f) = w) by (rewrite length_rpad; lia). cbn [columns].
  rewrite take_app_le, take_ge by lia. f_equal. f_equal. change (str " " ++ s) with ([32] ++ s).
  rewrite app_assoc, drop_app_length'; [done|]. rewrite length_app, Hl. cbn. lia.
Qed.
