(* ===== verification/NettopPoll.v ===== *)
(** * NettopPoll: the poller of chapter 27

    Models src/27-nettop/nettop.c: the previous-sample table, [sample] with
    its map walk, reaper, differences and compaction, the sort order, and
    the choice of rows and units [print_sample] makes.  The map is the
    [proc_stats_map] of Nettop, reached through system calls; between any
    two of them the kernel side may run, which [env] describes: [env i] is
    what happens to the map before the [i]-th system call of the walk.

    The theorems: on a map nobody else changes, a pass terminates although
    deleting during the walk restarts it, reports each process once with the
    traffic since the last pass, and leaves exactly the survivors'
    totals in the table; the bounds of both arrays hold under any
    interference; the display order is a total order, so it does not depend
    on the sorting algorithm. *)

From stdpp Require Import prelude gmap list sorting strings.
From Stdlib Require Import ZArith Lia.
From Stdlib Require Import SpecFloat.
From S2P Require Import Prelude.
From S2P Require Import Kernel.
From S2P Require Import Float64.
From S2P Require Import Nettop.

Definition MAX_ROWS : Z := 4096.
Definition TASK_COMM_LEN : nat := 16.
Definition REAP_IDLE_NS : Z := 60 * 1000000000.
#[global] Arguments MAX_ROWS : simpl never.
#[global] Arguments REAP_IDLE_NS : simpl never.

Record row := mk_row {
  r_pid : Z;
  r_comm : list Z;
  r_tx_bps : f64;
  r_rx_bps : f64;
  r_tx_total : Z;
  r_rx_total : Z;
  r_retrans : Z;
}.

Record prev_entry := mk_prev {
  p_pid : Z;
  p_tx_bytes : Z;
  p_rx_bytes : Z;
  p_retrans : Z;
  p_seen : bool;
}.

Definition prev_find (pid : Z) (prev : list prev_entry) : option nat :=
  find_index (λ p, p_pid p =? pid) prev.

(** The comparator handed to [qsort]. *)
Definition by_traffic (x y : row) : Z :=
  let xt := f64_add (r_tx_bps x) (r_rx_bps x) in
  let yt := f64_add (r_tx_bps y) (r_rx_bps y) in
  if f64_gtb xt yt then -1
  else if f64_ltb xt yt then 1
  else Z.b2z (r_pid y <? r_pid x) - Z.b2z (r_pid x <? r_pid y).

Definition traffic_le (x y : row) : Prop := by_traffic x y ≤ 0.

#[export] Instance traffic_le_dec x y : Decision (traffic_le x y).
Proof. unfold traffic_le. apply _. Defined.

(** [qsort] with [by_traffic]. *)
Definition qsort (rows : list row) : list row := merge_sort traffic_le rows.

(** [rows[i].comm] of the loop: sixteen bytes, the last one cleared. *)
Definition copy_comm (c : list Z) : list Z := <[15%nat := 0]> (take TASK_COMM_LEN c).

Definition diff (now before : Z) : Z := if before <=? now then now - before else 0.

(** The state of a pass: the table of the previous sample, whose length is
    [prev_n], and the rows collected so far, whose number is [n]. *)
Record scan := mk_scan { prev : list prev_entry; rows : list row }.

Section pass.
  Variables (elapsed : f64) (max_rows : Z) (priming : bool) (now_ns : Z) (alive : Z → bool).

(** The part of the loop body that differentiates, with [p] at index [i]. *)
Definition differentiate (key : Z) (val : proc_stats) (i : nat) (p : prev_entry) (s : scan) : scan :=
  let dtx := diff (tx_bytes val) (p_tx_bytes p) in
  let drx := diff (rx_bytes val) (p_rx_bytes p) in
  let dre := diff (retrans_pkts val) (p_retrans p) in
  let prev' := <[i := mk_prev (p_pid p) (tx_bytes val) (rx_bytes val) (retrans_pkts val) true]> (prev s) in
  if (dtx =? 0) && (drx =? 0) && (dre =? 0) then mk_scan prev' (rows s)
  else if max_rows <=? Z.of_nat (length (rows s)) then mk_scan prev' (rows s)
  else
    mk_scan prev'
      (rows s ++ [mk_row key (copy_comm (ps_comm val))
                    (f64_div (f64_of_Z dtx) elapsed) (f64_div (f64_of_Z drx) elapsed)
                    (tx_bytes val) (rx_bytes val) dre]).

(** From [prev_find] to the end of the loop body. *)
Definition collect (key : Z) (val : proc_stats) (s : scan) : scan :=
  match prev_find key (prev s) with
  | None =>
      if MAX_ROWS <=? Z.of_nat (length (prev s)) then s
      else if priming
      then mk_scan (prev s ++ [mk_prev key (tx_bytes val) (rx_bytes val) (retrans_pkts val) true]) (rows s)
      else
        let p := mk_prev key 0 0 0 true in
        differentiate key val (length (prev s)) p (mk_scan (prev s ++ [p]) (rows s))
  | Some i =>
      match prev s !! i with
      | Some p => differentiate key val i p s
      | None => s
      end
  end.

(** The condition under which the reaper deletes a row. *)
Definition reapable (key : Z) (val : proc_stats) : bool :=
  negb (alive key)
  && (let idle_ns := if last_ns val <? now_ns then now_ns - last_ns val else 0 in
      REAP_IDLE_NS <? idle_ns).

Section walk.
  Context {PM : Type} `{!BpfMap PM Z proc_stats}.
  Variable env : nat → PM → PM.

(** The [while (bpf_map_get_next_key(...) == 0)] loop.  [None]: the fuel ran
    out. *)
Fixpoint sample_loop (fuel i : nat) (key : Z) (m : PM) (s : scan) : option (PM * scan) :=
  match fuel with
  | O => None
  | S fuel' =>
      let m := env (3 * i) m in
      match map_get_next_key m key with
      | None => Some (m, s)
      | Some next_key =>
          let key := next_key in
          let m := env (3 * i + 1) m in
          match map_lookup_elem m key with
          | None => sample_loop fuel' (S i) key m s
          | Some val =>
              if reapable key val then
                let m := env (3 * i + 2) m in
                let m := (map_delete_elem m key).2 in
                sample_loop fuel' (S i) key m s
              else sample_loop fuel' (S i) key m (collect key val s)
          end
      end
  end.

Definition unsee (p : prev_entry) : prev_entry :=
  mk_prev (p_pid p) (p_tx_bytes p) (p_rx_bytes p) (p_retrans p) false.

(** [sample]: clear the marks, walk the map, compact the table, sort. *)
Definition sample (fuel : nat) (m : PM) (prev0 : list prev_entry)
    : option (PM * list prev_entry * list row) :=
  match sample_loop fuel 0 0 m (mk_scan (unsee <$> prev0) []) with
  | None => None
  | Some (m, s) =>
      let '(a, w) := compact_loop p_seen (length (prev s)) 0 0 (prev s) in
      Some (m, take w a, qsort (rows s))
  end.
End walk.
End pass.

(** ** [fmt_rate]: the unit and the scaled value *)

Definition units : list string := ["B"; "K"; "M"; "G"; "T"]%string.

Fixpoint scale_rate (fuel : nat) (bps : f64) (u : nat) : f64 * nat :=
  match fuel with
  | O => (bps, u)
  | S n =>
      if f64_geb bps (f64_of_Z 1024) && (u <? 4)%nat
      then scale_rate n (f64_div bps (f64_of_Z 1024)) (S u)
      else (bps, u)
  end.

(** The loop stops at [u = 4], so four rounds are enough fuel. *)
Definition fmt_rate (bps : f64) : f64 * nat := scale_rate 4 bps 0.

(** The rows [print_sample] prints, and the number in its "... more" line. *)
Definition shown (n top : Z) : Z := if n <? top then n else top.

(** ** Specification of one pass over an unchanging map *)

(** The table entry for a row's current totals. *)
Definition entry_of (key : Z) (val : proc_stats) : prev_entry :=
  mk_prev key (tx_bytes val) (rx_bytes val) (retrans_pkts val) true.

(** What is displayed for a row, given the totals of the previous pass:
    nothing when no counter moved. *)
Definition delta_row (elapsed : f64) (key : Z) (val : proc_stats) (tx rx re : Z) : option row :=
  let dtx := diff (tx_bytes val) tx in
  let drx := diff (rx_bytes val) rx in
  let dre := diff (retrans_pkts val) re in
  if (dtx =? 0) && (drx =? 0) && (dre =? 0) then None
  else Some (mk_row key (copy_comm (ps_comm val))
               (f64_div (f64_of_Z dtx) elapsed) (f64_div (f64_of_Z drx) elapsed)
               (tx_bytes val) (rx_bytes val) dre).

(** A process seen for the first time shows nothing on the priming pass and
    all its traffic later. *)
Definition display (elapsed : f64) (priming : bool) (old : option prev_entry)
    (key : Z) (val : proc_stats) : option row :=
  match old with
  | Some p => delta_row elapsed key val (p_tx_bytes p) (p_rx_bytes p) (p_retrans p)
  | None => if priming then None else delta_row elapsed key val 0 0 0
  end.

(** ** Lemmas on the table *)

Notation prevs := (by_key p_pid).
Notation shows := (by_key r_pid).

(** No pid occurs twice in either array. *)
Record scan_ok (s : scan) : Prop := mk_scan_ok {
  prev_nodup : NoDup (p_pid <$> prev s);
  rows_nodup : NoDup (r_pid <$> rows s);
}.

Lemma diff_le now before : before ≤ now → diff now before = now - before.
Proof. intros H. unfold diff. by destruct (Z.leb_spec before now); [|lia]. Qed.

Lemma diff_same x : diff x x = 0.
Proof. unfold diff. rewrite Z.leb_refl. lia. Qed.

Lemma delta_row_pid elapsed key val tx rx re r :
  delta_row elapsed key val tx rx re = Some r → r_pid r = key.
Proof. unfold delta_row. split_ifs; [done|]. by intros [= <-]. Qed.

Section collect.
  Variables (elapsed : f64) (max_rows : Z) (priming : bool).

Lemma differentiate_spec key val i p s :
  scan_ok s → prev s !! i = Some p → p_pid p = key → shows (rows s) !! key = None →
  Z.of_nat (length (rows s)) < max_rows →
  let s' := differentiate elapsed max_rows key val i p s in
  scan_ok s'
  ∧ prevs (prev s') = <[key := entry_of key val]> (prevs (prev s))
  ∧ shows (rows s')
    = partial_alter (λ _, delta_row elapsed key val (p_tx_bytes p) (p_rx_bytes p) (p_retrans p))
        key (shows (rows s)).
Proof.
  intros Hok Hi Hp Hnew Hroom. unfold differentiate, delta_row. rewrite Hp.
  destruct (by_key_insert p_pid (prev s) i p (entry_of key val) (prev_nodup _ Hok) Hi (eq_sym Hp))
    as [Hins Hkeys].
  fold (entry_of key val).
  destruct ((_ =? 0) && _ && _); simpl.
  - split; [split; simpl; [rewrite Hkeys; apply (prev_nodup _ Hok)|apply (rows_nodup _ Hok)]|]. split; [done|].
    symmetry. by apply partial_alter_absent.
  - destruct (Z.leb_spec max_rows (Z.of_nat (length (rows s)))); [lia|]. simpl.
    split; [|split; [done|]].
    + split; simpl; [rewrite Hkeys; apply (prev_nodup _ Hok)|]. rewrite fmap_app. simpl. apply NoDup_app.
      split; [apply (rows_nodup _ Hok)|]. split; [|apply NoDup_singleton].
      intros k Hk ->%list_elem_of_singleton. by apply by_key_None in Hnew.
    + rewrite by_key_snoc by (by apply by_key_None). done.
Qed.

(** The first visit of a row in a pass. *)
Lemma collect_first key val s :
  scan_ok s → shows (rows s) !! key = None →
  Z.of_nat (length (rows s)) < max_rows →
  (prevs (prev s) !! key = None → Z.of_nat (length (prev s)) < MAX_ROWS) →
  let s' := collect elapsed max_rows priming key val s in
  scan_ok s'
  ∧ prevs (prev s') = <[key := entry_of key val]> (prevs (prev s))
  ∧ shows (rows s') = partial_alter (λ _, display elapsed priming (prevs (prev s) !! key) key val) key (shows (rows s)).
Proof.
  intros Hok Hnew Hroom Hmax. unfold collect, prev_find.
  pose proof (find_index_by_key p_pid (prev s) key (prev_nodup _ Hok)) as Hf.
  destruct (find_index _ _) as [i|].
  - destruct Hf as (p & Hi & Hp & Hk). rewrite Hi, Hk. by apply differentiate_spec.
  - rewrite Hf. specialize (Hmax Hf).
    destruct (Z.leb_spec MAX_ROWS (Z.of_nat (length (prev s)))); [lia|].
    apply by_key_None in Hf.
    assert (Hok' : ∀ p, p_pid p = key → scan_ok (mk_scan (prev s ++ [p]) (rows s))).
    { intros p Hp. split; simpl; [|apply (rows_nodup _ Hok)]. rewrite fmap_app. simpl. apply NoDup_app.
      split; [apply (prev_nodup _ Hok)|]. split; [|apply NoDup_singleton].
      intros k Hk ->%list_elem_of_singleton. congruence. }
    unfold display. destruct priming.
    + simpl. split; [by apply Hok'|]. split; [by rewrite by_key_snoc|]. symmetry. by apply partial_alter_absent.
    + destruct (differentiate_spec key val (length (prev s)) (mk_prev key 0 0 0 true)
        (mk_scan (prev s ++ [mk_prev key 0 0 0 true]) (rows s))) as (H1 & H2 & H3);
        simpl in *; try done.
      * by apply Hok'.
      * by apply list_lookup_middle.
      * split; [done|]. split; [|done]. rewrite H2, by_key_snoc by done. simpl.
        by rewrite insert_insert_eq.
Qed.

(** A second visit in the same pass finds the totals it stored and changes
    nothing. *)
Lemma collect_again key val s :
  scan_ok s → prevs (prev s) !! key = Some (entry_of key val) → collect elapsed max_rows priming key val s = s.
Proof.
  intros Hok Hk. unfold collect, prev_find.
  pose proof (find_index_by_key p_pid (prev s) key (prev_nodup _ Hok)) as Hf.
  destruct (find_index _ _) as [i|]; [|congruence].
  destruct Hf as (p & Hi & Hp & Hk'). rewrite Hk in Hk'. injection Hk' as <-. rewrite Hi.
  unfold differentiate. cbn [entry_of p_tx_bytes p_rx_bytes p_retrans p_pid]. rewrite !diff_same. simpl.
  rewrite list_insert_id by done. by destruct s.
Qed.
End collect.

(** ** The walk over a map nobody else changes

    [W] is the set of keys visited so far.  Deleting a row makes
    the next [bpf_map_get_next_key] start over, so a key may be visited
    several times; the invariant says what the map, the table and the rows
    are in terms of [W] alone, and where the walk stands. *)

Definition frozen {PM} : nat → PM → PM := λ _ m, m.

Section walk_proof.
  Context {PM : Type} `{!BpfMap PM Z proc_stats} `{!BpfMapLaws PM Z proc_stats}.
  Variables (elapsed : f64) (max_rows : Z) (priming : bool) (now_ns : Z) (alive : Z → bool).
  Variables (v0 : gmap Z proc_stats) (p0 : gmap Z prev_entry).
  Notation reapable := (reapable now_ns alive).
  Notation loop := (sample_loop elapsed max_rows priming now_ns alive frozen).

(** Row [k] has been visited and is kept. *)
Definition done_with (W : gset Z) (k : Z) (v : proc_stats) : bool :=
  bool_decide (k ∈ W) && negb (reapable k v).

Definition want_prev (W : gset Z) (k : Z) : option prev_entry :=
  match v0 !! k with
  | Some v => if done_with W k v then Some (entry_of k v) else p0 !! k
  | None => p0 !! k
  end.

Definition want_row (W : gset Z) (k : Z) : option row :=
  match v0 !! k with
  | Some v => if done_with W k v then display elapsed priming (p0 !! k) k v else None
  | None => None
  end.

Record walk_inv (W : gset Z) (m : PM) (s : scan) : Prop := mk_walk_inv {
  wi_view k : map_view m !! k
    = (v0 !! k) ≫= λ v, if bool_decide (k ∈ W) && reapable k v then None else Some v;
  wi_ok : scan_ok s;
  wi_prev k : prevs (prev s) !! k = want_prev W k;
  wi_rows k : shows (rows s) !! k = want_row W k;
}.

(** The walk stands before [l2]: the keys of [l1] are behind it. *)
Definition at_pos (W : gset Z) (m : PM) (key : Z) (l2 : list Z) : Prop :=
  map_get_next_key m key = head l2
  ∧ ∃ l1, map_keys m = l1 ++ l2 ∧ Forall (.∈ W) l1.

Context (Hsub : ∀ k, is_Some (p0 !! k) → is_Some (v0 !! k)).
Context (Hmax : Z.of_nat (size v0) ≤ MAX_ROWS) (Hrows : Z.of_nat (size v0) ≤ max_rows).

Lemma want_prev_dom W k : is_Some (want_prev W k) → is_Some (v0 !! k).
Proof. unfold want_prev. destruct (v0 !! k) eqn:E; [eauto|]. intros H. apply Hsub in H. by rewrite E in H. Qed.

Lemma want_row_dom W k : is_Some (want_row W k) → is_Some (v0 !! k).
Proof. unfold want_row. destruct (v0 !! k) eqn:E; [eauto|]. by intros []. Qed.

(** Reaping row [k] on its first visit. *)
Lemma walk_inv_reap W m s k v :
  walk_inv W m s → map_view m !! k = Some v → reapable k v = true →
  walk_inv ({[k]} ∪ W) (map_delete_elem m k).2 s.
Proof.
  intros HI Hk Hr. pose proof (wi_view _ _ _ HI) as Hv.
  assert (Hk0 : v0 !! k = Some v).
  { rewrite Hv in Hk. destruct (v0 !! k); simpl in Hk; [|done]. split_ifs; congruence. }
  split; [intros j|apply HI|intros j|intros j].
  - rewrite map_delete_view. destruct (decide (j = k)) as [->|Hne].
    + rewrite lookup_delete_eq, Hk0. simpl. rewrite bool_decide_true by set_solver. by rewrite Hr.
    + rewrite lookup_delete_ne by done. rewrite Hv. destruct (v0 !! j); simpl; [|done].
      by rewrite (bool_decide_ext (j ∈ {[k]} ∪ W) (j ∈ W)) by set_solver.
  - rewrite (wi_prev _ _ _ HI). unfold want_prev, done_with. destruct (decide (j = k)) as [->|Hne].
    + rewrite Hk0, Hr. by rewrite !andb_false_r.
    + by rewrite (bool_decide_ext (j ∈ {[k]} ∪ W) (j ∈ W)) by set_solver.
  - rewrite (wi_rows _ _ _ HI). unfold want_row, done_with. destruct (decide (j = k)) as [->|Hne].
    + rewrite Hk0, Hr. by rewrite !andb_false_r.
    + by rewrite (bool_decide_ext (j ∈ {[k]} ∪ W) (j ∈ W)) by set_solver.
Qed.

(** Collecting row [k], on its first visit or again. *)
Lemma walk_inv_collect W m s k v :
  walk_inv W m s → map_view m !! k = Some v → reapable k v = false →
  walk_inv ({[k]} ∪ W) m (collect elapsed max_rows priming k v s).
Proof.
  intros HI Hk Hr. pose proof (wi_view _ _ _ HI) as Hv. pose proof (wi_ok _ _ _ HI) as Hok.
  assert (Hk0 : v0 !! k = Some v).
  { rewrite Hv in Hk. destruct (v0 !! k); simpl in Hk; [|done]. split_ifs; congruence. }
  assert (HWk : ∀ j, j ≠ k → bool_decide (j ∈ {[k]} ∪ W) = bool_decide (j ∈ W)).
  { intros j Hj. apply bool_decide_ext. set_solver. }
  assert (Hv' : ∀ j, map_view m !! j
    = (v0 !! j) ≫= λ v, if bool_decide (j ∈ {[k]} ∪ W) && reapable j v then None else Some v).
  { intros j. rewrite Hv. destruct (decide (j = k)) as [->|Hj].
    - rewrite Hk0. simpl. by rewrite Hr, !andb_false_r.
    - by rewrite HWk. }
  assert (Hp : prevs (prev s) !! k = if decide (k ∈ W) then Some (entry_of k v) else p0 !! k).
  { rewrite (wi_prev _ _ _ HI). unfold want_prev, done_with. rewrite Hk0, Hr.
    destruct (decide (k ∈ W)); [by rewrite bool_decide_true|by rewrite bool_decide_false]. }
  destruct (decide (k ∈ W)) as [HW|HW].
  { rewrite collect_again by done. replace ({[k]} ∪ W) with W by set_solver. done. }
  assert (Hs : shows (rows s) !! k = None).
  { rewrite (wi_rows _ _ _ HI). unfold want_row, done_with. rewrite Hk0.
    by rewrite bool_decide_false. }
  destruct (collect_first elapsed max_rows priming k v s Hok Hs) as (Hok' & Hp' & Hr').
  - rewrite <- (size_by_key r_pid) by apply Hok.
    assert (size (shows (rows s)) < size v0)%nat; [|lia].
    apply (size_lt_of_dom _ _ k); [|eauto|done].
    intros j. rewrite (wi_rows _ _ _ HI). apply want_row_dom.
  - intros Hnone. rewrite <- (size_by_key p_pid) by apply Hok.
    assert (size (prevs (prev s)) < size v0)%nat; [|lia].
    apply (size_lt_of_dom _ _ k); [|eauto|done].
    intros j. rewrite (wi_prev _ _ _ HI). apply want_prev_dom.
  - split; [done|done|intros j; rewrite Hp'|intros j; rewrite Hr'].
    + unfold want_prev, done_with. destruct (decide (j = k)) as [->|Hj].
      * rewrite lookup_insert_eq, Hk0, Hr. by rewrite bool_decide_true by set_solver.
      * rewrite lookup_insert_ne, HWk by done. apply (wi_prev _ _ _ HI).
    + unfold want_row, done_with. destruct (decide (j = k)) as [->|Hj].
      * rewrite lookup_partial_alter_eq, Hk0, Hr, Hp. by rewrite bool_decide_true by set_solver.
      * rewrite lookup_partial_alter_ne, HWk by done. apply (wi_rows _ _ _ HI).
Qed.

(** Where the walk stands after a step. *)
Lemma at_pos_restart W m k : map_view m !! k = None → at_pos W m k (map_keys m).
Proof.
  intros Hk. split; [|by exists []]. rewrite map_next_key_keys. apply next_key_in_notin.
  rewrite map_keys_elem, Hk. by intros [].
Qed.

Lemma at_pos_advance W m key k l2 : at_pos W m key (k :: l2) → at_pos ({[k]} ∪ W) m k l2.
Proof.
  intros (_ & l1 & Hl & HW). split.
  - rewrite map_next_key_keys, Hl. apply next_key_in_mid.
    pose proof (map_keys_NoDup m) as Hnd. rewrite Hl in Hnd. apply NoDup_app in Hnd as (_ & Hd & _).
    intros Hin. apply (Hd _ Hin). by left.
  - exists (l1 ++ [k]). rewrite <- app_assoc. split; [done|]. apply Forall_app. split.
    + eapply Forall_impl; [exact HW|]. set_solver.
    + constructor; set_solver.
Qed.

Lemma size_view_le W m s : walk_inv W m s → (size (map_view m) ≤ size v0)%nat.
Proof.
  intros HI. rewrite <- !size_dom. apply subseteq_size. intros j. rewrite !elem_of_dom.
  rewrite (wi_view _ _ _ HI). destruct (v0 !! j); simpl; [eauto|by intros []].
Qed.

(** The walk visits every row: each restart has one row less to go over. *)
Lemma loop_spec fuel : ∀ i W m s key l2,
  walk_inv W m s → at_pos W m key l2 →
  (size (map_view m) * S (size v0) + length l2 < fuel)%nat →
  ∃ m' s' W', loop fuel i key m s = Some (m', s') ∧ walk_inv W' m' s'
              ∧ ∀ k, is_Some (v0 !! k) → k ∈ W'.
Proof.
  induction fuel as [|fuel IH]; intros i W m s key l2 HI Hpos Hfuel; [lia|].
  cbn [sample_loop]. unfold frozen. rewrite (proj1 Hpos). destruct l2 as [|k l2]; simpl.
  { exists m, s, W. split; [done|]. split; [done|]. intros k [v Hv].
    destruct Hpos as (_ & l1 & Hl & HW). rewrite app_nil_r in Hl.
    destruct (map_view m !! k) eqn:Hk.
    - rewrite Forall_forall in HW. apply HW. rewrite <- Hl. apply map_keys_elem. eauto.
    - rewrite (wi_view _ _ _ HI), Hv in Hk. simpl in Hk.
      destruct (bool_decide_reflect (k ∈ W)); simpl in Hk; done. }
  assert (Hk : is_Some (map_view m !! k)).
  { destruct Hpos as (_ & l1 & Hl & _). apply map_keys_elem. rewrite Hl. set_solver. }
  destruct Hk as [v Hk]. rewrite map_lookup_view, Hk.
  destruct (reapable k v) eqn:Hr.
  - assert (Hdel : map_view (map_delete_elem m k).2 = delete k (map_view m)) by apply map_delete_view.
    apply (IH _ ({[k]} ∪ W) _ _ _ (map_keys (map_delete_elem m k).2)).
    + by apply (walk_inv_reap W m s k v).
    + apply at_pos_restart. rewrite Hdel. apply lookup_delete_eq.
    + rewrite length_map_keys, Hdel, map_size_delete, Hk.
      pose proof (size_view_le _ _ _ HI).
      assert (size (map_view m) ≠ 0)%nat.
      { rewrite map_size_ne_0_lookup. eauto. }
      simpl in Hfuel. nia.
  - apply (IH _ ({[k]} ∪ W) _ _ _ l2).
    + by apply walk_inv_collect.
    + by apply (at_pos_advance W m key).
    + simpl in Hfuel. lia.
Qed.
End walk_proof.

(** ** The display order *)

Definition total_bps (r : row) : f64 := f64_add (r_tx_bps r) (r_rx_bps r).

(** Busier first, then the smaller pid: the order the comparator computes
    when no rate is a NaN. *)
Definition busier (x y : row) : Prop :=
  rank_lt (rank (total_bps y)) (rank (total_bps x))
  ∨ (rank (total_bps x) = rank (total_bps y) ∧ r_pid x ≤ r_pid y).

Lemma rank_lt_trichotomy a b : rank_lt a b ∨ a = b ∨ rank_lt b a.
Proof.
  destruct a as [[a1 a2] a3], b as [[b1 b2] b3]. unfold rank_lt. simpl.
  destruct (Z.lt_trichotomy a1 b1) as [|[->|]]; [tauto| |tauto].
  destruct (Z.lt_trichotomy a2 b2) as [|[->|]]; [tauto| |tauto].
  destruct (Z.lt_trichotomy a3 b3) as [|[->|]]; tauto.
Qed.

Lemma by_traffic_busier x y :
  is_nan (total_bps x) = false → is_nan (total_bps y) = false → traffic_le x y ↔ busier x y.
Proof.
  intros Hx Hy. unfold traffic_le, by_traffic, busier, f64_gtb.
  fold (total_bps x) (total_bps y). fold (f64_ltb (total_bps y) (total_bps x)).
  pose proof (f64_ltb_rank _ _ Hx Hy) as Hxy. pose proof (f64_ltb_rank _ _ Hy Hx) as Hyx.
  destruct (f64_ltb (total_bps y) (total_bps x)) eqn:E1.
  { split; [|intros; lia]. intros _. left. by apply Hyx. }
  destruct (f64_ltb (total_bps x) (total_bps y)) eqn:E2.
  - split; [intros; exfalso; lia|]. assert (rank_lt (rank (total_bps x)) (rank (total_bps y))) as Hlt by (by apply Hxy).
    unfold rank_lt in *. intros [?|[Heq ?]]; [lia|]. rewrite Heq in Hlt. lia.
  - assert (rank (total_bps x) = rank (total_bps y)) as Heq.
    { destruct (rank_lt_trichotomy (rank (total_bps x)) (rank (total_bps y))) as [H|[H|H]]; [|done|].
      - apply Hxy in H. done.
      - apply Hyx in H. done. }
    rewrite Heq. destruct (Z.ltb_spec (r_pid y) (r_pid x)), (Z.ltb_spec (r_pid x) (r_pid y)); simpl;
      unfold rank_lt; split; intros; try lia; right; split; first [done|lia].
Qed.

#[export] Instance busier_trans : Transitive busier.
Proof.
  intros x y z. unfold busier, rank_lt. intros [H|[-> H]] [H'|[Heq' H']]; try lia.
  - left. rewrite <- Heq'. lia.
  - right. split; [done|lia].
Qed.

#[export] Instance traffic_le_total : Total traffic_le.
Proof.
  intros x y. unfold traffic_le, by_traffic, f64_gtb.
  set (a := f64_add (r_tx_bps x) _). set (b := f64_add (r_tx_bps y) _).
  fold (f64_ltb b a) (f64_ltb a b).
  destruct (f64_ltb b a), (f64_ltb a b); try lia;
    destruct (Z.ltb_spec (r_pid y) (r_pid x)), (Z.ltb_spec (r_pid x) (r_pid y)); simpl; lia.
Qed.

Lemma qsort_perm l : qsort l ≡ₚ l.
Proof. apply merge_sort_Permutation. Qed.

Lemma qsort_sorted l : Sorted traffic_le (qsort l).
Proof. apply Sorted_merge_sort. apply _. Qed.

Lemma sorted_busier l :
  Forall (λ r, is_nan (total_bps r) = false) l → Sorted traffic_le l → StronglySorted busier l.
Proof.
  intros Hn Hs. apply Sorted_StronglySorted; [apply _|].
  induction Hs as [|x l Hl IH Hx]; [constructor|]. inversion Hn as [|? ? Hnx Hnl]; subst.
  constructor; [by apply IH|]. destruct Hx as [|y l Hxy]; constructor.
  inversion Hnl; subst. by apply by_traffic_busier.
Qed.

(** Rows of distinct processes with real rates have one sorted order. *)
Lemma sorted_unique l1 l2 :
  Forall (λ r, is_nan (total_bps r) = false) l1 → NoDup (r_pid <$> l1) →
  l1 ≡ₚ l2 → Sorted traffic_le l1 → Sorted traffic_le l2 → l1 = l2.
Proof.
  intros Hn Hnd Hp H1 H2.
  apply (StronglySorted_unique_strong busier);
    [|by apply sorted_busier|apply sorted_busier; [by rewrite <- Hp|done]|done].
  intros x y Hx Hy Hxy Hyx. rewrite <- Hp in Hy.
  assert (r_pid x = r_pid y) as Hpid.
  { unfold busier, rank_lt in *. destruct Hxy as [Hxy|[Heq Hxy]], Hyx as [Hyx|[Heq' Hyx]]; try lia.
    - rewrite Heq' in Hxy. lia.
    - rewrite Heq in Hyx. lia. }
  apply list_elem_of_lookup in Hx as [i Hi], Hy as [j Hj].
  assert (i = j) as -> by (eapply (NoDup_lookup _ i j (r_pid x) Hnd); rewrite list_lookup_fmap, ?Hi, ?Hj; simpl; congruence).
  congruence.
Qed.

(** ** Whatever the kernel does meanwhile *)

(** The elapsed time is a positive, finite number of seconds. *)
Definition good_elapsed (x : f64) : Prop :=
  f64_ltb f64_zero x = true ∧ ∀ s, x ≠ S754_infinity s.

Record scan_bounds (elapsed : f64) (max_rows : Z) (s : scan) : Prop := mk_scan_bounds {
  sb_prev : NoDup (p_pid <$> prev s);
  sb_prev_len : Z.of_nat (length (prev s)) ≤ MAX_ROWS;
  sb_rows_len : Z.of_nat (length (rows s)) ≤ max_rows;
  sb_rates : good_elapsed elapsed →
    Forall (λ r, nonneg (r_tx_bps r) = true ∧ nonneg (r_rx_bps r) = true) (rows s);
}.

Lemma diff_nonneg a b : 0 ≤ diff a b.
Proof. unfold diff. destruct (Z.leb_spec b a); lia. Qed.

Lemma rate_nonneg elapsed d :
  good_elapsed elapsed → 0 ≤ d → nonneg (f64_div (f64_of_Z d) elapsed) = true.
Proof.
  intros [Hpos Hfin] Hd. apply f64_div_nonneg; [by apply f64_of_Z_nonneg| |done|].
  - unfold f64_ltb, SFltb in Hpos. by destruct elapsed as [|[]| |[]].
  - intros s s' _ H. by apply (Hfin s').
Qed.

Section bounds_proof.
  Context {PM : Type} `{!BpfMap PM Z proc_stats}.
  Variables (elapsed : f64) (max_rows : Z) (priming : bool) (now_ns : Z) (alive : Z → bool).
  Variable env : nat → PM → PM.
  Notation bounds := (scan_bounds elapsed max_rows).

Lemma differentiate_bounds key val i p s :
  bounds s → prev s !! i = Some p → bounds (differentiate elapsed max_rows key val i p s).
Proof.
  intros [H1 H2 H3 H4] Hi. unfold differentiate.
  set (p' := mk_prev _ _ _ _ _).
  destruct (by_key_insert p_pid (prev s) i p p' H1 Hi eq_refl) as [_ Hkeys].
  assert (Hs : bounds (mk_scan (<[i:=p']> (prev s)) (rows s))).
  { split; simpl; [by rewrite Hkeys|by rewrite length_insert|done|done]. }
  destruct (_ && _ && _); [done|]. destruct (Z.leb_spec max_rows (Z.of_nat (length (rows s)))); [done|].
  destruct Hs as [G1 G2 G3 G4]. split; simpl in *; [done|done|rewrite length_app; simpl; lia|].
  intros He. apply Forall_app. split; [by apply G4|]. constructor; [|constructor]. simpl.
  split; apply rate_nonneg; auto using diff_nonneg.
Qed.

Lemma collect_bounds key val s : bounds s → bounds (collect elapsed max_rows priming key val s).
Proof.
  intros Hs. pose proof Hs as [H1 H2 H3 H4]. unfold collect, prev_find.
  pose proof (find_index_by_key p_pid (prev s) key H1) as Hf.
  destruct (find_index _ _) as [i|].
  - destruct Hf as (p & Hi & _). rewrite Hi. by apply differentiate_bounds.
  - destruct (Z.leb_spec MAX_ROWS (Z.of_nat (length (prev s)))); [done|].
    apply by_key_None in Hf.
    assert (Hsnoc : ∀ p, p_pid p = key → bounds (mk_scan (prev s ++ [p]) (rows s))).
    { intros p Hp. split; simpl; [|rewrite length_app; simpl; lia|done|done].
      rewrite fmap_app. simpl. apply NoDup_app. split; [done|]. split; [|apply NoDup_singleton].
      intros k Hk ->%list_elem_of_singleton. congruence. }
    destruct priming; [by apply Hsnoc|]. apply differentiate_bounds; [by apply Hsnoc|].
    by apply list_lookup_middle.
Qed.

Lemma sample_loop_bounds fuel : ∀ i key m s m' s',
  bounds s →
  sample_loop elapsed max_rows priming now_ns alive env fuel i key m s = Some (m', s') → bounds s'.
Proof.
  induction fuel as [|fuel IH]; intros i key m s m' s' Hs; simpl; [done|].
  destruct (map_get_next_key _ _) as [k|]; [|by intros [= <- <-]].
  destruct (map_lookup_elem _ k) as [v|]; [|by apply IH].
  destruct (reapable now_ns alive k v); [by apply IH|]. apply IH. by apply collect_bounds.
Qed.

Lemma unsee_pids (l : list prev_entry) : p_pid <$> (unsee <$> l) = p_pid <$> l.
Proof. rewrite <- list_fmap_compose. by apply list_fmap_ext. Qed.

Lemma initial_bounds prev0 :
  NoDup (p_pid <$> prev0) → Z.of_nat (length prev0) ≤ MAX_ROWS → 0 ≤ max_rows →
  bounds (mk_scan (unsee <$> prev0) []).
Proof.
  intros H1 H2 H3. split; simpl; [by rewrite unsee_pids|by rewrite length_fmap|done|constructor].
Qed.

(** What [sample] does to the loop's result. *)
Lemma sample_loop_sample fuel m prev0 m' s' :
  sample_loop elapsed max_rows priming now_ns alive env fuel 0 0 m (mk_scan (unsee <$> prev0) [])
    = Some (m', s') →
  sample elapsed max_rows priming now_ns alive env fuel m prev0
    = Some (m', bfilter p_seen (prev s'), qsort (rows s')).
Proof.
  intros H. unfold sample. rewrite H.
  pose proof (compact_loop_filter p_seen (prev s') (length (prev s')) ltac:(done)) as Hc.
  destruct (compact_loop _ _ _ _ _) as [a w]. destruct Hc as [-> _]. by rewrite firstn_all.
Qed.
End bounds_proof.

(** ** Theorems *)

Section theorems.
  Context {PM : Type} `{!BpfMap PM Z proc_stats}.
  Variables (elapsed : f64) (max_rows : Z) (priming : bool) (now_ns : Z) (alive : Z → bool).

(** What a pass over a map nobody else changes does. *)
Lemma sample_spec `{!BpfMapLaws PM Z proc_stats} (m : PM) (prev0 : list prev_entry) (fuel : nat) :
  NoDup (p_pid <$> prev0) →
  Forall (λ p, is_Some (map_view m !! p_pid p)) prev0 →
  map_view m !! 0 = None →
  Z.of_nat (size (map_view m)) ≤ MAX_ROWS → Z.of_nat (size (map_view m)) ≤ max_rows →
  (S (size (map_view m)) * S (size (map_view m)) ≤ fuel)%nat →
  ∃ m' prev' rows',
    sample elapsed max_rows priming now_ns alive frozen fuel m prev0 = Some (m', prev', rows')
    ∧ map_view m' = filter (λ kv, reapable now_ns alive kv.1 kv.2 = false) (map_view m)
    ∧ NoDup (p_pid <$> prev')
    ∧ prevs prev' = map_imap (λ k v, Some (entry_of k v)) (map_view m')
    ∧ NoDup (r_pid <$> rows')
    ∧ shows rows' = map_imap (λ k v, display elapsed priming (prevs prev0 !! k) k v) (map_view m').
Proof.
  intros Hnd Hsub H0 Hmax Hrows Hfuel.
  destruct (loop_spec elapsed max_rows priming now_ns alive (map_view m) (prevs (unsee <$> prev0)))
    with (fuel := fuel) (i := O) (W := ∅ : gset Z) (m := m) (s := mk_scan (unsee <$> prev0) [])
      (key := 0) (l2 := map_keys m) as (m' & s' & W & Hloop & HI & HW); [|done|done| | | |].
  { intros k [p Hp]. apply by_key_Some in Hp as [Hp <-]; [|by rewrite unsee_pids].
    apply list_elem_of_fmap in Hp as (p' & -> & Hp'). rewrite Forall_forall in Hsub. exact (Hsub p' Hp'). }
  { split; [intros k| |intros k; unfold want_prev|intros k; unfold want_row];
      [| |by destruct (map_view m !! k)|by destruct (map_view m !! k)].
    - by destruct (map_view m !! k).
    - split; simpl; [by rewrite unsee_pids|constructor]. }
  { by apply at_pos_restart. }
  { rewrite length_map_keys. nia. }
  exists m', (bfilter p_seen (prev s')), (qsort (rows s')).
  split; [by apply sample_loop_sample|].
  pose proof (wi_ok _ _ _ _ _ _ _ _ _ HI) as [Hp Hr].
  assert (Hview : map_view m' = filter (λ kv, reapable now_ns alive kv.1 kv.2 = false) (map_view m)).
  { apply map_eq. intros k. rewrite (wi_view _ _ _ _ _ _ _ _ _ HI), map_lookup_filter.
    destruct (map_view m !! k) as [v|] eqn:Hk; simpl; [|done].
    rewrite bool_decide_true by eauto. simpl. destruct (reapable now_ns alive k v) eqn:E.
    - by rewrite option_guard_False by congruence.
    - by rewrite option_guard_True. }
  split; [done|]. split; [by apply bfilter_NoDup_fmap|]. split; [|split].
  - apply map_eq. intros k. rewrite by_key_bfilter by done. rewrite map_lookup_imap.
    rewrite (wi_prev _ _ _ _ _ _ _ _ _ HI), (wi_view _ _ _ _ _ _ _ _ _ HI).
    unfold want_prev, done_with. destruct (map_view m !! k) as [v|] eqn:Hk; simpl.
    + rewrite bool_decide_true by eauto. simpl. destruct (reapable now_ns alive k v); simpl; [|done].
      rewrite by_key_fmap by done. by destruct (prevs prev0 !! k).
    + rewrite by_key_fmap by done. by destruct (prevs prev0 !! k).
  - rewrite qsort_perm. done.
  - apply map_eq. intros k. rewrite map_lookup_imap.
    rewrite (wi_view _ _ _ _ _ _ _ _ _ HI).
    assert (shows (qsort (rows s')) !! k = shows (rows s') !! k) as ->.
    { apply option_eq. intros r. rewrite !by_key_Some by (by rewrite ?qsort_perm). by rewrite qsort_perm. }
    rewrite (wi_rows _ _ _ _ _ _ _ _ _ HI). unfold want_row, done_with.
    destruct (map_view m !! k) as [v|] eqn:Hk; simpl; [|done].
    rewrite bool_decide_true by eauto. simpl. destruct (reapable now_ns alive k v); simpl; [done|].
    rewrite by_key_fmap by done. by destruct (prevs prev0 !! k).
Qed.

(** [C5] A pass over a map nobody else changes.  Reaping a row restarts the
    walk, yet the pass ends (after at most [(K+1)^2] steps for [K] rows); it
    deletes exactly the rows of dead, idle processes; the table of previous
    totals becomes exactly the survivors' totals; and each survivor has
    exactly one row if it moved since the last pass and none otherwise. *)
Theorem sample_exact `{!BpfMapLaws PM Z proc_stats} (m : PM) (prev0 : list prev_entry) (fuel : nat) :
  NoDup (p_pid <$> prev0) →
  Forall (λ p, is_Some (map_view m !! p_pid p)) prev0 →
  map_view m !! 0 = None →
  Z.of_nat (size (map_view m)) ≤ MAX_ROWS → Z.of_nat (size (map_view m)) ≤ max_rows →
  (S (size (map_view m)) * S (size (map_view m)) ≤ fuel)%nat →
  ∃ m' prev' rows',
    sample elapsed max_rows priming now_ns alive frozen fuel m prev0 = Some (m', prev', rows')
    ∧ map_view m' = filter (λ kv, reapable now_ns alive kv.1 kv.2 = false) (map_view m)
    ∧ NoDup (p_pid <$> prev')
    ∧ prevs prev' = map_imap (λ k v, Some (entry_of k v)) (map_view m')
    ∧ NoDup (r_pid <$> rows')
    ∧ shows rows' = map_imap (λ k v, display elapsed priming (prevs prev0 !! k) k v) (map_view m').
Proof. apply sample_spec. Qed.

(** [C28] Under any interference between the system calls of the walk, a pass
    that returns has written no more than [max_rows] rows, keeps at most
    MAX_ROWS table entries with no pid twice, and, when the elapsed time is
    positive and finite, never reports a NaN or a negative rate. *)
Theorem sample_bounds (env : nat → PM → PM) (m m' : PM) (prev0 prev' : list prev_entry) rows' fuel :
  NoDup (p_pid <$> prev0) → Z.of_nat (length prev0) ≤ MAX_ROWS → 0 ≤ max_rows → good_elapsed elapsed →
  sample elapsed max_rows priming now_ns alive env fuel m prev0 = Some (m', prev', rows') →
  Z.of_nat (length rows') ≤ max_rows ∧ Z.of_nat (length prev') ≤ MAX_ROWS
  ∧ NoDup (p_pid <$> prev')
  ∧ Forall (λ r, nonneg (r_tx_bps r) = true ∧ nonneg (r_rx_bps r) = true) rows'.
Proof.
  intros Hnd Hlen Hmax He Hs.
  destruct (sample_loop elapsed max_rows priming now_ns alive env fuel 0 0 m (mk_scan (unsee <$> prev0) []))
    as [[m1 s1]|] eqn:Hl; [|unfold sample in Hs; by rewrite Hl in Hs].
  rewrite (sample_loop_sample _ _ _ _ _ _ _ _ _ _ _ Hl) in Hs. injection Hs as <- <- <-.
  apply sample_loop_bounds in Hl as [H1 H2 H3 H4]; [|by apply initial_bounds].
  pose proof (bfilter_length p_seen (prev s1)). rewrite !qsort_perm. repeat split; [done|lia| |by apply H4].
  by apply bfilter_NoDup_fmap.
Qed.

(** The displayed order does not depend on the sorting algorithm: the
    rows come out sorted by the comparator, and when no pid is listed
    twice any other sorted arrangement of them is the same list, so equal
    rates do not jitter between frames. *)
Theorem sample_order_unique (env : nat → PM → PM) (m m' : PM) (prev0 prev' : list prev_entry) rows' fuel :
  NoDup (p_pid <$> prev0) → Z.of_nat (length prev0) ≤ MAX_ROWS → 0 ≤ max_rows → good_elapsed elapsed →
  sample elapsed max_rows priming now_ns alive env fuel m prev0 = Some (m', prev', rows') →
  NoDup (r_pid <$> rows') →
  Sorted traffic_le rows' ∧ ∀ l, l ≡ₚ rows' → Sorted traffic_le l → l = rows'.
Proof.
  intros Hnd Hlen Hmax He Hs Hrows.
  destruct (sample_loop elapsed max_rows priming now_ns alive env fuel 0 0 m (mk_scan (unsee <$> prev0) []))
    as [[m1 s1]|] eqn:Hl; [|unfold sample in Hs; by rewrite Hl in Hs].
  rewrite (sample_loop_sample _ _ _ _ _ _ _ _ _ _ _ Hl) in Hs. injection Hs as <- <- <-.
  apply sample_loop_bounds in Hl as [_ _ _ H4]; [|by apply initial_bounds].
  split; [apply qsort_sorted|]. intros l Hp Hsl. symmetry.
  apply sorted_unique; [|done|done|apply qsort_sorted|done].
  rewrite qsort_perm. eapply Forall_impl; [by apply H4|]. intros r [Htx Hrx].
  by apply nonneg_not_nan, f64_add_nonneg.
Qed.
End theorems.

(** A rate below a kilobyte prints in bytes; a larger one is divided until
    it fits or the last unit is reached. *)
Lemma scale_rate_unit n : ∀ bps u,
  (u + n = 4)%nat →
  let r := scale_rate n bps u in
  (u ≤ r.2 ≤ 4)%nat ∧ (f64_geb r.1 (f64_of_Z 1024) = false ∨ r.2 = 4%nat).
Proof.
  induction n as [|n IH]; intros bps u Hu; cbn [scale_rate].
  { simpl. split; [lia|]. right. lia. }
  destruct (f64_geb bps (f64_of_Z 1024)) eqn:E; simpl; [|split; [lia|by left]].
  destruct (Nat.ltb_spec u 4); [|simpl; split; [lia|by right; lia]].
  destruct (IH (f64_div bps (f64_of_Z 1024)) (S u) ltac:(lia)) as [H1 H2]. split; [lia|done].
Qed.

(** [fmt_rate] always picks one of its five units, and the value it
    prints is below 1024 unless the unit is already the largest. *)
Theorem fmt_rate_unit (bps : f64) :
  is_Some (units !! (fmt_rate bps).2)
  ∧ (f64_geb (fmt_rate bps).1 (f64_of_Z 1024) = false ∨ units !! (fmt_rate bps).2 = Some "T"%string).
Proof.
  destruct (scale_rate_unit 4 bps 0 eq_refl) as [[_ Hu] Hs]. fold (fmt_rate bps) in Hu, Hs. split.
  - apply lookup_lt_is_Some. simpl. lia.
  - destruct Hs as [Hs|Hs]; [by left|right]. by rewrite Hs.
Qed.

(** ** Witnesses

    Three processes: 10 sent 3000 bytes since the last pass, 11 is gone and
    idle for over a minute, 12 sent nothing. *)

Definition ex_stats (tx last : Z) : proc_stats := mk_stats tx 0 1 0 0 last (str "nc").
Definition ex_map : gmap Z proc_stats :=
  {[ 10 := ex_stats 5000 (100 * 10 ^ 9); 11 := ex_stats 70 (2 * 10 ^ 9); 12 := ex_stats 8 (99 * 10 ^ 9) ]}.
Definition ex_prev : list prev_entry :=
  [mk_prev 12 8 0 0 true; mk_prev 11 70 0 0 true; mk_prev 10 2000 0 0 true].
Definition ex_alive (pid : Z) : bool := negb (pid =? 11).
Definition ex_now : Z := 101 * 10 ^ 9.
Notation ex_sample :=
  (@sample (f64_of_Z 1) MAX_ROWS false ex_now ex_alive _ (gmap_hash MAX_PROCS) frozen 16 ex_map ex_prev).

Lemma sample_exact_witness :
  ∃ m' prev' rows',
    ex_sample = Some (m', prev', rows')
    ∧ map_view (BpfMap := gmap_hash MAX_PROCS) m' = {[ 10 := ex_stats 5000 (100 * 10 ^ 9); 12 := ex_stats 8 (99 * 10 ^ 9) ]}
    ∧ r_tx_bps <$> shows rows' !! 10 = Some (f64_of_Z 3000)
    ∧ shows rows' !! 11 = None ∧ shows rows' !! 12 = None
    ∧ prevs prev' !! 10 = Some (entry_of 10 (ex_stats 5000 (100 * 10 ^ 9))) ∧ prevs prev' !! 11 = None.
Proof.
  destruct (@sample_exact _ (gmap_hash MAX_PROCS) (f64_of_Z 1) MAX_ROWS false ex_now ex_alive
    (gmap_hash_map_laws MAX_PROCS) ex_map ex_prev 16) as (m' & prev' & rows' & H1 & H2 & _ & H4 & _ & H6).
  - apply (bool_decide_unpack _). vm_compute. exact I.
  - apply (bool_decide_unpack _). vm_compute. exact I.
  - vm_compute. reflexivity.
  - vm_compute. discriminate.
  - vm_compute. discriminate.
  - vm_compute. lia.
  - exists m', prev', rows'. split; [exact H1|]. rewrite H4, H6, H2.
    split; [vm_compute; reflexivity|]. repeat split; vm_compute; reflexivity.
Defined.

Lemma sample_bounds_witness :
  match ex_sample with
  | Some (_, prev', rows') => Z.of_nat (length rows') ≤ MAX_ROWS ∧ Z.of_nat (length prev') ≤ MAX_ROWS
  | None => False
  end.
Proof.
  assert (Hs : (if ex_sample then true else false) = true) by (vm_compute; reflexivity).
  destruct ex_sample as [[[m' prev'] rows']|] eqn:E; [|discriminate].
  destruct (@sample_bounds _ (gmap_hash MAX_PROCS) (f64_of_Z 1) MAX_ROWS false ex_now ex_alive frozen
    ex_map m' ex_prev prev' rows' 16) as (H1 & H2 & _).
  - apply (bool_decide_unpack _). vm_compute. exact I.
  - vm_compute. discriminate.
  - vm_compute. discriminate.
  - split; [vm_compute; reflexivity|]. intros s. vm_compute. discriminate.
  - exact E.
  - split; assumption.
Defined.

(** Two processes with the same rate: the smaller pid comes first however
    the sort works. *)
Definition ex_tie : gmap Z proc_stats := {[ 21 := ex_stats 500 ex_now; 20 := ex_stats 500 ex_now ]}.
Notation ex_tie_sample :=
  (@sample (f64_of_Z 1) MAX_ROWS false ex_now ex_alive _ (gmap_hash MAX_PROCS) frozen 9 ex_tie []).

Lemma sample_order_unique_witness :
  match ex_tie_sample with
  | Some (_, _, rows') => r_pid <$> rows' = [20; 21] ∧ ∀ l, l ≡ₚ rows' → Sorted traffic_le l → l = rows'
  | None => False
  end.
Proof.
  assert (Hs : (if ex_tie_sample then true else false) = true) by (vm_compute; reflexivity).
  assert (Hr : match ex_tie_sample with Some (_, _, r) => r_pid <$> r | None => [] end = [20; 21]) by (vm_compute; reflexivity).
  destruct ex_tie_sample as [[[m' prev'] rows']|] eqn:E; [|discriminate].
  destruct (@sample_order_unique _ (gmap_hash MAX_PROCS) (f64_of_Z 1) MAX_ROWS false ex_now ex_alive frozen
    ex_tie m' [] prev' rows' 9) as [_ H].
  - constructor.
  - vm_compute. discriminate.
  - vm_compute. discriminate.
  - split; [vm_compute; reflexivity|]. intros s. vm_compute. discriminate.
  - exact E.
  - rewrite Hr. apply (bool_decide_unpack _). vm_compute. exact I.
  - split; [exact Hr|exact H].
Defined.
