(* ===== verification/Ids.v ===== *)
(** * Ids: the intrusion detection system of chapter 23

    Models src/23-ids: the packet tap [ids_tap] of ids.bpf.c and the rule
    engine of ids.c ([flow_get], [rule_beacon], [rule_suspicious_port],
    [rule_portscan], [handle_event]).  The engine's state is its two arrays,
    with the elements in place; alerts are values of [alert] instead
    of lines of text.

    The theorems: the tap records exactly the IPv4 TCP and UDP packets, with
    the header's fields; as long as no flow has more than 2^31
    packets, the arrays keep their shape, a flow raises each kind of alert at most once, the gap ring
    holds the latest gaps and a periodic flow is reported at its sixth packet;
    beyond that the counter of gaps overflows and the ring is left; and
    the port-scan rule agrees with a definition over the whole packet
    history. *)

From stdpp Require Import prelude gmap list strings sorting.
From Stdlib Require Import ZArith Lia SpecFloat.
From S2P Require Import Prelude.
From S2P Require Import Kernel.
From S2P Require Import Float64.

(** ** The packet tap *)

Record flow_pkt := mk_pkt {
  ts_ns : Z;
  saddr : Z;
  daddr : Z;
  sport : Z;
  dport : Z;
  len : Z;
  proto : Z;
}.

Definition ETH_P_IP : Z := 0x0800.
Definition IPPROTO_TCP : Z := 6.
Definition IPPROTO_UDP : Z := 17.
Definition ETH_HLEN : nat := 14.
Definition IP_HLEN : nat := 20.

Section tap.
  Context {S : Type} `{!Skb S} {R : Type} `{!Ringbuf R flow_pkt}.

Definition ids_tap (now : Z) (skb : S) (events : R) : Z * R :=
  let '(rc, eth) := skb_load_bytes skb 0 ETH_HLEN in
  if rc <? 0 then (0, events) else
  if negb (field 2 12 eth =? htons ETH_P_IP) then (0, events) else
  let '(rc, ip) := skb_load_bytes skb ETH_HLEN IP_HLEN in
  if rc <? 0 then (0, events) else
  let protocol := field 1 9 ip in
  if negb (protocol =? IPPROTO_TCP) && negb (protocol =? IPPROTO_UDP) then (0, events) else
  let '(rc, l4) := skb_load_bytes skb (ETH_HLEN + IP_HLEN) 4 in
  if rc <? 0 then (0, events) else
  match ringbuf_reserve events with
  | None => (0, events)
  | Some (_, events) =>
      (0, ringbuf_submit events
            (mk_pkt now (field 4 12 ip) (field 4 16 ip) (field 2 0 l4) (field 2 2 l4)
               (u16 (skb_len skb)) protocol))
  end.
End tap.

(** ** The rule engine *)

Definition MAX_FLOWS : nat := 1024.
Definition MAX_GAPS : Z := 8.
Definition BEACON_MIN_SAMPLES : Z := 5.
Definition BEACON_CV_MAX : f64 := f64_dec 10 2.
Definition BEACON_MIN_INTERVAL : f64 := f64_of_Z 1.
Definition BEACON_MAX_INTERVAL : f64 := f64_of_Z 300.
Definition MAX_SCAN_SRC : nat := 64.
Definition MAX_SCAN_PORTS : Z := 256.
Definition SCAN_WINDOW_NS : Z := 5 * 1000000000.
Definition SCAN_PORT_THRESH : Z := 20.
Definition SCAN_COOLDOWN_NS : Z := 10 * 1000000000.

Definition suspicious : list (Z * string) :=
  [(1337, "leet — common backdoor"); (4444, "Metasploit/Meterpreter default");
   (5555, "ADB / common Android RAT"); (6667, "IRC (classic botnet C2)");
   (12345, "NetBus backdoor"); (31337, "Back Orifice backdoor");
   (50050, "Cobalt Strike team server default")]%string.

(** A flow slot.  [ngaps] is an [int]: it has the range of [s32]. *)
Record flow := mk_flow {
  f_used : bool;
  f_saddr : Z;
  f_daddr : Z;
  f_dport : Z;
  f_proto : Z;
  last_ts : Z;
  gaps : list f64;
  ngaps : Z;
  beacon_alerted : bool;
  susp_alerted : bool;
}.

Record port_seen := mk_seen { port : Z; ts : Z }.

(** [seen] is the whole array, of which the first [sn] cells are in use. *)
Record scan_src := mk_scan_src {
  s_used : bool;
  s_saddr : Z;
  seen : list port_seen;
  sn : Z;
  last_alert_ts : Z;
}.

Inductive alert :=
  | Beacon (saddr daddr dport : Z) (mean jitter : f64) (callbacks : Z)
  | SuspPort (saddr daddr dport : Z) (name : string)
  | PortScan (saddr ports secs : Z).

(** The loop over a table of slots that both tables use: the index of the
    first used slot that matches, and the first free slot before it. *)
Fixpoint slot_scan {A} (used is_match : A → bool) (l : list A) (i : nat) (free_slot : option nat)
    : option nat * option nat :=
  match l with
  | [] => (None, free_slot)
  | x :: l' =>
      if negb (used x) then
        slot_scan used is_match l' (S i)
          (match free_slot with None => Some i | Some _ => free_slot end)
      else if is_match x then (Some i, free_slot)
      else slot_scan used is_match l' (S i) free_slot
  end.

Definition flow_match (p : flow_pkt) (f : flow) : bool :=
  (f_saddr f =? saddr p) && (f_daddr f =? daddr p) && (f_dport f =? dport p) && (f_proto f =? proto p).

(** A claimed slot: [gaps] keeps whatever it held. *)
Definition claim_flow (p : flow_pkt) (f : flow) : flow :=
  mk_flow true (saddr p) (daddr p) (dport p) (proto p) 0 (gaps f) 0 false false.

(** The index [flow_get] returns a pointer to, [None] for NULL, and the
    table. *)
Definition flow_get (p : flow_pkt) (flows : list flow) : option nat * list flow :=
  match slot_scan f_used (flow_match p) flows 0 None with
  | (Some i, _) => (Some i, flows)
  | (None, Some j) => (Some j, alter (claim_flow p) j flows)
  | (None, None) => (None, flows)
  end.

(** [for (i = 0; i < n; i++) acc += g(gaps[i])]. *)
Definition sum_gaps (g : f64 → f64) (n : Z) (l : list f64) : f64 :=
  foldl (λ acc x, f64_add acc (g x)) f64_zero (take (Z.to_nat n) l).

(** The statistics of the first [n] cells: the mean and the coefficient of
    variation. *)
Definition beacon_stats (n : Z) (l : list f64) : f64 * f64 :=
  let sum := sum_gaps id n l in
  let mean := f64_div sum (f64_of_Z n) in
  let var := sum_gaps (λ g, f64_mul (f64_sub g mean) (f64_sub g mean)) n l in
  let cv := if f64_gtb mean f64_zero
            then f64_div (f64_sqrt (f64_div var (f64_of_Z n))) mean
            else f64_of_Z 1 in
  (mean, cv).

(** The first half of [rule_beacon]: record the gap since the last packet.
    [ngaps] is an [int], incremented without a bound: it wraps around as the
    machine's does (C leaves the overflow undefined), and the remainder of a
    negative [ngaps] is an index before the array.  [None] is such a write
    outside [gaps]: what the program does after it is not defined. *)
Definition record_gap (f : flow) (p : flow_pkt) : option flow :=
  f ← (if last_ts f =? 0 then Some f
       else
         let gap := f64_div (f64_of_Z (ts_ns p -64 last_ts f)) (f64_of_Z (10 ^ 9)) in
         let i := Z.rem (ngaps f) MAX_GAPS in
         if i <? 0 then None else
         Some (mk_flow (f_used f) (f_saddr f) (f_daddr f) (f_dport f) (f_proto f) (last_ts f)
                 (<[Z.to_nat i := gap]> (gaps f)) (s32 (ngaps f + 1))
                 (beacon_alerted f) (susp_alerted f)));
  Some (mk_flow (f_used f) (f_saddr f) (f_daddr f) (f_dport f) (f_proto f) (ts_ns p)
          (gaps f) (ngaps f) (beacon_alerted f) (susp_alerted f)).

Definition set_beacon_alerted (f : flow) : flow :=
  mk_flow (f_used f) (f_saddr f) (f_daddr f) (f_dport f) (f_proto f) (last_ts f)
    (gaps f) (ngaps f) true (susp_alerted f).

Definition set_susp_alerted (f : flow) : flow :=
  mk_flow (f_used f) (f_saddr f) (f_daddr f) (f_dport f) (f_proto f) (last_ts f)
    (gaps f) (ngaps f) (beacon_alerted f) true.

(** The second half: judge the statistics of the ring. *)
Definition judge (f : flow) : flow * list alert :=
  let n := if ngaps f <? MAX_GAPS then ngaps f else MAX_GAPS in
  if n <? 1 then (f, []) else
  let '(mean, cv) := beacon_stats n (gaps f) in
  if beacon_alerted f || (n <? BEACON_MIN_SAMPLES) then (f, []) else
  if f64_ltb mean BEACON_MIN_INTERVAL || f64_gtb mean BEACON_MAX_INTERVAL then (f, []) else
  if f64_gtb cv BEACON_CV_MAX then (f, []) else
  (set_beacon_alerted f,
   [Beacon (f_saddr f) (f_daddr f) (ntohs (f_dport f)) mean (f64_mul cv (f64_of_Z 100)) (n + 1)]).

Definition rule_beacon (f : flow) (p : flow_pkt) : option (flow * list alert) :=
  f ← record_gap f p;
  Some (judge f).

(** The loop over the signature list. *)
Fixpoint signature (l : list (Z * string)) (dport : Z) : option string :=
  match l with
  | [] => None
  | (prt, name) :: l' => if prt =? dport then Some name else signature l' dport
  end.

Definition rule_suspicious_port (f : flow) (p : flow_pkt) : flow * list alert :=
  if susp_alerted f then (f, []) else
  let dport := ntohs (dport p) in
  match signature suspicious dport with
  | Some name => (set_susp_alerted f, [SuspPort (saddr p) (daddr p) dport name])
  | None => (f, [])
  end.

Definition claim_scan (p : flow_pkt) (s : scan_src) : scan_src :=
  mk_scan_src true (saddr p) (seen s) 0 0.

(** [p->ts_ns - seen.ts < SCAN_WINDOW_NS], in unsigned arithmetic. *)
Definition in_window (now : Z) (s : port_seen) : bool := (now -64 ts s) <? SCAN_WINDOW_NS.

(** Drop the entries older than the window, compacting the array. *)
Definition expire (now : Z) (sc : scan_src) : scan_src :=
  let '(a, w) := compact_loop (in_window now) (Z.to_nat (sn sc)) 0 0 (seen sc) in
  mk_scan_src (s_used sc) (s_saddr sc) a (Z.of_nat w) (last_alert_ts sc).

(** Record the destination port, refreshing its time when present. *)
Definition record_port (p : flow_pkt) (sc : scan_src) : scan_src :=
  match find_index (λ s, port s =? dport p) (take (Z.to_nat (sn sc)) (seen sc)) with
  | Some i =>
      mk_scan_src (s_used sc) (s_saddr sc)
        (alter (λ s, mk_seen (port s) (ts_ns p)) i (seen sc)) (sn sc) (last_alert_ts sc)
  | None =>
      if sn sc <? MAX_SCAN_PORTS then
        mk_scan_src (s_used sc) (s_saddr sc)
          (<[Z.to_nat (sn sc) := mk_seen (dport p) (ts_ns p)]> (seen sc)) (sn sc + 1) (last_alert_ts sc)
      else sc
  end.

(** The end of [rule_portscan]: alert above the threshold, not more often
    than the cool-down allows. *)
Definition check_scan (p : flow_pkt) (sc : scan_src) : scan_src * list alert :=
  if (SCAN_PORT_THRESH <? sn sc)
     && ((last_alert_ts sc =? 0) || (SCAN_COOLDOWN_NS <? (ts_ns p -64 last_alert_ts sc)))
  then (mk_scan_src (s_used sc) (s_saddr sc) (seen sc) (sn sc) (ts_ns p),
        [PortScan (saddr p) (sn sc) (SCAN_WINDOW_NS / 1000000000)])
  else (sc, []).

Definition update_scan (p : flow_pkt) (sc : scan_src) : scan_src * list alert :=
  check_scan p (record_port p (expire (ts_ns p) sc)).

Definition rule_portscan (p : flow_pkt) (scans : list scan_src) : list scan_src * list alert :=
  match slot_scan s_used (λ s, s_saddr s =? saddr p) scans 0 None with
  | (Some i, _) =>
      match scans !! i with
      | Some sc => let '(sc, al) := update_scan p sc in (<[i := sc]> scans, al)
      | None => (scans, [])
      end
  | (None, Some j) =>
      match scans !! j with
      | Some sc => let '(sc, al) := update_scan p (claim_scan p sc) in (<[j := sc]> scans, al)
      | None => (scans, [])
      end
  | (None, None) => (scans, [])
  end.

(** The engine's memory. *)
Record engine := mk_engine { flows : list flow; scans : list scan_src }.

(** The rules on the flow at index [i]; [None] after a write outside a flow's
    ring. *)
Definition flow_rules (p : flow_pkt) (i : nat) (fs : list flow) : option (list flow * list alert) :=
  match fs !! i with
  | Some f =>
      '(f, al1) ← rule_beacon f p;
      let '(f, al2) := rule_suspicious_port f p in
      Some (<[i := f]> fs, al1 ++ al2)
  | None => Some (fs, [])
  end.

Definition handle_event (e : engine) (p : flow_pkt) : option (engine * list alert) :=
  let '(f, fs) := flow_get p (flows e) in
  '(fs, al1) ← match f with Some i => flow_rules p i fs | None => Some (fs, []) end;
  let '(sc, al2) := rule_portscan p (scans e) in
  Some (mk_engine fs sc, al1 ++ al2).

(** Statically allocated tables start zeroed. *)
Definition zero_flow : flow := mk_flow false 0 0 0 0 0 (replicate (Z.to_nat MAX_GAPS) f64_zero) 0 false false.
Definition zero_scan : scan_src :=
  mk_scan_src false 0 (replicate (Z.to_nat MAX_SCAN_PORTS) (mk_seen 0 0)) 0 0.
Definition boot : engine := mk_engine (replicate MAX_FLOWS zero_flow) (replicate MAX_SCAN_SRC zero_scan).

(** Packets in order, each with the alerts it raised. *)
Fixpoint run (e : engine) (ps : list flow_pkt) : option (engine * list (flow_pkt * list alert)) :=
  match ps with
  | [] => Some (e, [])
  | p :: ps' =>
      '(e, al) ← handle_event e p;
      '(e, tr) ← run e ps';
      Some (e, (p, al) :: tr)
  end.

(** ** Tables of slots

    Both tables are used the same way: a packet's key selects the slot that
    holds it, or claims the first free one, or finds the table full; then
    the slot is updated.  Slots are never freed.  The lemmas of this section
    show that such a table of [N] slots is exactly the first [N] distinct
    keys of the packet history, in order of arrival, each with the state its
    own packets alone give it. *)

(** The distinct elements of a list, in order of first occurrence. *)
Definition firsts `{EqDecision K} (ks : list K) : list K :=
  foldl (λ acc k, if decide (k ∈ acc) then acc else acc ++ [k]) [] ks.

Lemma firsts_snoc `{EqDecision K} (ks : list K) k :
  firsts (ks ++ [k]) = if decide (k ∈ firsts ks) then firsts ks else firsts ks ++ [k].
Proof. unfold firsts. by rewrite foldl_app. Qed.

Lemma firsts_NoDup `{EqDecision K} (ks : list K) : NoDup (firsts ks).
Proof.
  induction ks as [|k ks IH] using rev_ind; [constructor|]. rewrite firsts_snoc.
  case_decide; [done|]. apply NoDup_app. split; [done|]. split; [|apply NoDup_singleton].
  by intros x Hx ->%list_elem_of_singleton.
Qed.

Lemma elem_of_firsts `{EqDecision K} (ks : list K) k : k ∈ firsts ks ↔ k ∈ ks.
Proof.
  induction ks as [|x ks IH] using rev_ind; [done|]. rewrite firsts_snoc.
  case_decide as Hx; rewrite ?elem_of_app, ?list_elem_of_singleton, IH; [|done].
  split; [by left|]. intros [H'|H']; [done|subst; by apply IH].
Qed.

(** The keys that hold a slot after a history. *)
Definition admitted `{EqDecision K} (N : nat) (ks : list K) : list K := take N (firsts ks).

Lemma admitted_NoDup `{EqDecision K} N (ks : list K) : NoDup (admitted N ks).
Proof. eapply sublist_NoDup; [apply (firsts_NoDup ks)|]. apply sublist_take. Qed.

Lemma admitted_snoc `{EqDecision K} N (ks : list K) k :
  admitted N (ks ++ [k]) =
    if decide (k ∈ admitted N ks) then admitted N ks
    else if (length (admitted N ks) <? N)%nat then admitted N ks ++ [k] else admitted N ks.
Proof.
  unfold admitted. rewrite firsts_snoc.
  destruct (decide (k ∈ firsts ks)) as [Hf|Hf].
  - case_decide as Ht; [done|]. rewrite length_take.
    destruct (Nat.ltb_spec (N `min` length (firsts ks)) N); [|done].
    exfalso. apply Ht. by rewrite take_ge by lia.
  - rewrite decide_False by (intros Ht; apply Hf; by eapply subseteq_take).
    rewrite length_take. destruct (Nat.ltb_spec (N `min` length (firsts ks)) N).
    + rewrite (take_ge (firsts ks)) by lia. apply take_ge. rewrite length_app. simpl. lia.
    + by rewrite take_app_le by lia.
Qed.

Section slots.
  Context {A : Type} (used is_match : A → bool).

Lemma slot_scan_free l i j :
  Forall (λ x, used x = false) l → slot_scan used is_match l i (Some j) = (None, Some j).
Proof. intros H. revert i. induction H as [|x l Hx _ IH]; intros i; simpl; [done|]. by rewrite Hx, IH. Qed.

(** The loop on a table whose used slots come first. *)
Lemma slot_scan_prefix us fs i :
  Forall (λ x, used x = true) us → Forall (λ x, used x = false) fs →
  slot_scan used is_match (us ++ fs) i None =
    match find_index is_match us with
    | Some j => (Some (i + j)%nat, None)
    | None => (None, match fs with [] => None | _ :: _ => Some (i + length us)%nat end)
    end.
Proof.
  intros Hu Hf. revert i. induction Hu as [|x us Hx _ IH]; intros i; simpl.
  - destruct Hf as [|x fs Hx Hf]; simpl; [done|]. rewrite Hx. simpl.
    rewrite slot_scan_free by done. by rewrite Nat.add_0_r.
  - rewrite Hx. simpl. destruct (is_match x); [by rewrite Nat.add_0_r|]. rewrite IH.
    destruct (find_index is_match us); simpl; [by rewrite Nat.add_succ_r|].
    destruct fs; [done|]. by rewrite Nat.add_succ_r.
Qed.
End slots.

Section table.
  Context {K A P B : Type} `{EqDecision K}.
  Context (used : A → bool) (key : A → K) (pk : P → K) (upd : P → A → A * list B).
  Context (fresh : K → A) (zero : A) (N : nat).
  Context (zero_unused : used zero = false).
  Context (fresh_ok : ∀ k, used (fresh k) = true ∧ key (fresh k) = k).
  Context (upd_ok : ∀ p a, used a = true → used (upd p a).1 = true ∧ key (upd p a).1 = key a).

(** One packet. *)
Definition table_step (p : P) (l : list A) : list A * list B :=
  match slot_scan used (λ a, bool_decide (key a = pk p)) l 0 None with
  | (Some i, _) =>
      match l !! i with
      | Some a => let '(a, al) := upd p a in (<[i := a]> l, al)
      | None => (l, [])
      end
  | (None, Some j) => let '(a, al) := upd p (fresh (pk p)) in (<[j := a]> l, al)
  | (None, None) => (l, [])
  end.

(** The state a key's own packets give it. *)
Definition own (k : K) (ps : list P) : A :=
  foldl (λ a p, if decide (pk p = k) then (upd p a).1 else a) (fresh k) ps.

Definition keys_of (ps : list P) : list K := admitted N (pk <$> ps).

Definition table_of (ps : list P) : list A :=
  ((λ k, own k ps) <$> keys_of ps) ++ replicate (N - length (keys_of ps)) zero.

Lemma own_snoc k ps p :
  own k (ps ++ [p]) = if decide (pk p = k) then (upd p (own k ps)).1 else own k ps.
Proof. unfold own. by rewrite foldl_app. Qed.

Lemma own_ok k ps : used (own k ps) = true ∧ key (own k ps) = k.
Proof.
  induction ps as [|p ps [IH1 IH2]] using rev_ind; [apply fresh_ok|]. rewrite own_snoc.
  case_decide; [|done]. destruct (upd_ok p _ IH1) as [H1 H2]. by rewrite H1, H2.
Qed.

(** Only a key's own packets matter. *)
Lemma own_filter k ps : own k ps = foldl (λ a p, (upd p a).1) (fresh k) (filter (λ p, pk p = k) ps).
Proof.
  induction ps as [|p ps IH] using rev_ind; [done|].
  rewrite own_snoc, filter_app, foldl_app, <- IH. rewrite filter_cons, filter_nil. by case_decide.
Qed.

Lemma find_own kp ps ks :
  find_index (λ a, bool_decide (key a = kp)) ((λ k, own k ps) <$> ks)
  = find_index (λ k, bool_decide (k = kp)) ks.
Proof. induction ks as [|k ks IH]; csimpl; [done|]. by rewrite (proj2 (own_ok k ps)), IH. Qed.

Lemma own_update ks j kp ps p :
  NoDup ks → ks !! j = Some kp → pk p = kp →
  <[j := (upd p (own kp ps)).1]> ((λ k, own k ps) <$> ks) = (λ k, own k (ps ++ [p])) <$> ks.
Proof.
  intros Hnd Hj Hp. apply list_eq. intros i. destruct (decide (j = i)) as [<-|Hne].
  - rewrite list_lookup_insert_eq by (rewrite length_fmap; by eapply lookup_lt_Some).
    rewrite list_lookup_fmap, Hj. simpl. rewrite own_snoc. by rewrite decide_True.
  - rewrite list_lookup_insert_ne by done. rewrite !list_lookup_fmap.
    destruct (ks !! i) as [k|] eqn:Hi; simpl; [|done]. rewrite own_snoc.
    rewrite decide_False; [done|]. intros Hk. apply Hne. eapply NoDup_lookup; [done|done|congruence].
Qed.

Lemma own_other (ks : list K) ps p :
  pk p ∉ ks → (λ k, own k (ps ++ [p])) <$> ks = (λ k, own k ps) <$> ks.
Proof.
  intros Hp. apply list_fmap_ext. intros i k Hk. rewrite own_snoc. rewrite decide_False; [done|].
  intros Heq. apply Hp. rewrite Heq. by eapply list_elem_of_lookup_2.
Qed.

Lemma own_unseen k ps : k ∉ pk <$> ps → own k ps = fresh k.
Proof.
  induction ps as [|q ps IH] using rev_ind; intros Hk; [done|].
  rewrite fmap_app in Hk. rewrite own_snoc, decide_False by set_solver. apply IH. set_solver.
Qed.

(** The table after one more packet, and the packet's alerts. *)
Lemma table_step_spec ps p :
  table_step p (table_of ps)
  = (table_of (ps ++ [p]),
     if decide (pk p ∈ keys_of (ps ++ [p])) then (upd p (own (pk p) ps)).2 else []).
Proof.
  unfold table_step, table_of. set (ks := keys_of ps).
  assert (Hks : NoDup ks) by apply admitted_NoDup.
  assert (Hlen : (length ks ≤ N)%nat) by (unfold ks, keys_of, admitted; rewrite length_take; lia).
  assert (Hk' : keys_of (ps ++ [p]) = if decide (pk p ∈ ks) then ks
    else if (length ks <? N)%nat then ks ++ [pk p] else ks).
  { unfold ks, keys_of. rewrite fmap_app. apply admitted_snoc. }
  rewrite Hk', slot_scan_prefix;
    [|apply Forall_fmap, Forall_forall; intros; apply own_ok|by apply Forall_replicate].
  rewrite find_own. simpl.
  destruct (find_index (λ k, bool_decide (k = pk p)) ks) as [j|] eqn:Hj.
  - apply find_index_Some in Hj as (k & Hj & ->%bool_decide_eq_true & _).
    assert (Hin : pk p ∈ ks) by (by eapply list_elem_of_lookup_2).
    rewrite !(decide_True _ _ Hin).
    assert (Hjl : (j < length ks)%nat) by (by eapply lookup_lt_Some).
    rewrite lookup_app_l by (by rewrite length_fmap). rewrite list_lookup_fmap, Hj. simpl.
    rewrite <- (own_update ks j (pk p) ps p Hks Hj eq_refl).
    destruct (upd p (own (pk p) ps)) as [a al]. simpl.
    by rewrite insert_app_l by (by rewrite length_fmap).
  - apply find_index_None in Hj.
    assert (Hnin : pk p ∉ ks).
    { intros Hin. rewrite Forall_forall in Hj. specialize (Hj _ Hin). by rewrite bool_decide_true in Hj. }
    rewrite (decide_False _ _ Hnin). rewrite length_fmap.
    destruct (Nat.ltb_spec (length ks) N) as [Hlt|Hge].
    + rewrite decide_True by set_solver.
      destruct (N - length ks)%nat as [|d] eqn:Hd; [lia|]. simpl.
      assert (Hown : own (pk p) ps = fresh (pk p)).
      { apply own_unseen. intros Hin. apply Hnin. unfold ks, keys_of, admitted in *.
        rewrite length_take in Hlt. rewrite take_ge by lia. by apply elem_of_firsts. }
      rewrite fmap_app, own_other by done. simpl. rewrite own_snoc, decide_True, Hown by done.
      destruct (upd p (fresh (pk p))) as [a al]. simpl. f_equal.
      rewrite insert_app_r_alt by (by rewrite length_fmap). rewrite length_fmap, Nat.sub_diag. simpl.
      rewrite <- app_assoc. simpl. rewrite length_app. simpl. do 3 f_equal. lia.
    + rewrite decide_False by done. replace (N - length ks)%nat with 0%nat by lia. simpl.
      by rewrite own_other.
Qed.

(** A free slot of such a table is as it was at the start. *)
Lemma table_of_free ps x : x ∈ table_of ps → used x = false → x = zero.
Proof.
  unfold table_of. rewrite elem_of_app. intros [H|H] Hx.
  - apply list_elem_of_fmap in H as (k & -> & _). destruct (own_ok k ps). congruence.
  - by apply elem_of_replicate_inv in H.
Qed.

Lemma slot_scan_bounds (is_match : A → bool) l i f :
  (slot_scan used is_match l 0 None = (Some i, f) → ∃ x, l !! i = Some x ∧ is_match x = true)
  ∧ (slot_scan used is_match l 0 None = (None, Some i) → ∃ x, l !! i = Some x ∧ used x = false).
Proof.
  assert (Hgen : ∀ l0 l' free, l = l0 ++ l' →
    (∀ j, free = Some j → ∃ x, l !! j = Some x ∧ used x = false) →
    (slot_scan used is_match l' (length l0) free = (Some i, f) → ∃ x, l !! i = Some x ∧ is_match x = true)
    ∧ (slot_scan used is_match l' (length l0) free = (None, Some i) → ∃ x, l !! i = Some x ∧ used x = false)).
  { intros l0 l'. revert l0. induction l' as [|x l' IH]; intros l0 free Hl Hfree; simpl.
    { split; [done|]. intros [= ->]. by apply Hfree. }
    assert (Hx : l !! length l0 = Some x) by (rewrite Hl; by apply list_lookup_middle).
    assert (Hl' : l = (l0 ++ [x]) ++ l') by (by rewrite <- app_assoc).
    assert (Hlen : length (l0 ++ [x]) = S (length l0)) by (rewrite length_app; simpl; lia).
    specialize (IH (l0 ++ [x])). rewrite Hlen in IH.
    destruct (used x) eqn:Hu; simpl.
    - destruct (is_match x) eqn:Hm; [|by apply IH]. split; [intros [= <- <-]; eauto|done].
    - apply IH; [done|]. intros j Hj. destruct free as [k|]; [by apply Hfree|].
      injection Hj as <-. eauto. }
  by apply (Hgen [] l None).
Qed.
End table.

(** ** The flow table *)

Definition flow_id : Type := Z * Z * Z * Z.
Definition flow_key (f : flow) : flow_id := (f_saddr f, f_daddr f, f_dport f, f_proto f).
Definition pkt_key (p : flow_pkt) : flow_id := (saddr p, daddr p, dport p, proto p).

(** A flow that has seen no packet. *)
Definition fresh_flow (k : flow_id) : flow :=
  let '(s, d, dp, pr) := k in mk_flow true s d dp pr 0 (gaps zero_flow) 0 false false.

(** The specification of the flow rules: what they do as long as no [int]
    overflows.  [count_gap] is [record_gap] with a counter that has no bound. *)
Definition count_gap (f : flow) (p : flow_pkt) : flow :=
  let f :=
    if last_ts f =? 0 then f
    else
      let gap := f64_div (f64_of_Z (ts_ns p -64 last_ts f)) (f64_of_Z (10 ^ 9)) in
      mk_flow (f_used f) (f_saddr f) (f_daddr f) (f_dport f) (f_proto f) (last_ts f)
        (<[Z.to_nat (ngaps f mod MAX_GAPS) := gap]> (gaps f)) (ngaps f + 1)
        (beacon_alerted f) (susp_alerted f)
  in
  mk_flow (f_used f) (f_saddr f) (f_daddr f) (f_dport f) (f_proto f) (ts_ns p)
    (gaps f) (ngaps f) (beacon_alerted f) (susp_alerted f).

Definition beacon_step (f : flow) (p : flow_pkt) : flow * list alert := judge (count_gap f p).

(** The two flow rules, in the order of [handle_event]. *)
Definition flow_update (p : flow_pkt) (f : flow) : flow * list alert :=
  let '(f, al1) := beacon_step f p in
  let '(f, al2) := rule_suspicious_port f p in
  (f, al1 ++ al2).

Lemma flow_match_key p f : flow_match p f = bool_decide (flow_key f = pkt_key p).
Proof.
  unfold flow_match, flow_key, pkt_key. symmetry.
  destruct (_ && _) eqn:E; [apply bool_decide_eq_true_2|apply bool_decide_eq_false_2].
  - bool_to_prop. congruence.
  - intros [= H1 H2 H3 H4]. rewrite H1, H2, H3, H4, !Z.eqb_refl in E. done.
Qed.

Lemma rule_beacon_key p f :
  f_used (beacon_step f p).1 = f_used f ∧ flow_key (beacon_step f p).1 = flow_key f
  ∧ susp_alerted (beacon_step f p).1 = susp_alerted f.
Proof.
  assert (H : f_used (count_gap f p) = f_used f ∧ flow_key (count_gap f p) = flow_key f
    ∧ susp_alerted (count_gap f p) = susp_alerted f).
  { unfold count_gap. by destruct (last_ts f =? 0). }
  revert H. unfold beacon_step, judge. generalize (count_gap f p). intros f' H.
  destruct (_ <? 1); [exact H|]. destruct (beacon_stats _ _) as [mean cv].
  destruct (beacon_alerted f' || _); [exact H|]. destruct (f64_ltb mean _ || _); [exact H|].
  destruct (f64_gtb cv _); exact H.
Qed.

Lemma rule_susp_key p f :
  f_used (rule_suspicious_port f p).1 = f_used f ∧ flow_key (rule_suspicious_port f p).1 = flow_key f
  ∧ beacon_alerted (rule_suspicious_port f p).1 = beacon_alerted f.
Proof. unfold rule_suspicious_port. destruct (susp_alerted f); [done|]. by case_match. Qed.

Lemma flow_update_ok p f :
  f_used f = true → f_used (flow_update p f).1 = true ∧ flow_key (flow_update p f).1 = flow_key f.
Proof.
  intros Hf. unfold flow_update. destruct (rule_beacon_key p f) as (H1 & H2 & _).
  destruct (beacon_step f p) as [f1 al1]. simpl in *.
  destruct (rule_susp_key p f1) as (H3 & H4 & _). destruct (rule_suspicious_port f1 p). simpl in *.
  split; congruence.
Qed.

Lemma fresh_flow_ok k : f_used (fresh_flow k) = true ∧ flow_key (fresh_flow k) = k.
Proof. by destruct k as [[[s d] dp] pr]. Qed.

Notation flow_step := (table_step f_used flow_key pkt_key flow_update fresh_flow).
Notation flow_of := (own pkt_key flow_update fresh_flow).
Notation flow_table := (table_of pkt_key flow_update fresh_flow zero_flow MAX_FLOWS).

Lemma slot_scan_ext {A} (used m1 m2 : A → bool) l i free :
  (∀ x, m1 x = m2 x) → slot_scan used m1 l i free = slot_scan used m2 l i free.
Proof. intros H. revert i free. induction l as [|x l IH]; intros; simpl; [done|]. by rewrite H, !IH. Qed.

(** As long as the counter is in range, the rule does what is specified. *)
Lemma rule_beacon_count f p :
  0 ≤ ngaps f < 2 ^ 31 - 1 → rule_beacon f p = Some (beacon_step f p).
Proof.
  intros Hn. unfold rule_beacon, beacon_step, record_gap, count_gap. destruct (last_ts f =? 0); [done|].
  rewrite Z.rem_mod_nonneg by (unfold MAX_GAPS; lia).
  pose proof (Z.mod_pos_bound (ngaps f) MAX_GAPS ltac:(done)). rewrite (proj2 (Z.ltb_ge _ _)) by lia.
  by rewrite s32_small by lia.
Qed.

Lemma flow_rules_update l i f p :
  l !! i = Some f → 0 ≤ ngaps f < 2 ^ 31 - 1 →
  flow_rules p i l = Some (let '(f, al) := flow_update p f in (<[i := f]> l, al)).
Proof.
  intros Hi Hn. unfold flow_rules, flow_update. rewrite Hi, rule_beacon_count by done. cbn.
  destruct (beacon_step f p) as [f1 al1]. by destruct (rule_suspicious_port f1 p).
Qed.

(** [flow_get] and the flow rules are one step of the flow table. *)
Lemma flow_part_step p l :
  (∀ x, x ∈ l → f_used x = false → x = zero_flow) →
  (∀ x, x ∈ l → flow_key x = pkt_key p → 0 ≤ ngaps x < 2 ^ 31 - 1) →
  (let '(f, fs) := flow_get p l in match f with Some i => flow_rules p i fs | None => Some (fs, []) end)
  = Some (flow_step p l).
Proof.
  intros Hfree Hn. unfold flow_get, table_step.
  rewrite (slot_scan_ext _ _ _ _ _ _ (flow_match_key p)).
  pose proof (slot_scan_bounds f_used (λ f, bool_decide (flow_key f = pkt_key p)) l) as Hb.
  destruct (slot_scan _ _ l 0 None) as [[i|] free].
  - destruct (proj1 (Hb i free) eq_refl) as (f & Hi & Hk%bool_decide_eq_true). rewrite Hi.
    assert (Hin : f ∈ l) by (by eapply list_elem_of_lookup_2).
    rewrite (flow_rules_update l i f p Hi (Hn f Hin Hk)). by destruct (flow_update p f).
  - destruct free as [j|]; [|done].
    destruct (proj2 (Hb j None) eq_refl) as (x & Hx & Hu).
    assert (claim_flow p x = fresh_flow (pkt_key p)) as Hc.
    { rewrite (Hfree x) by (done || by eapply list_elem_of_lookup_2). done. }
    rewrite (flow_rules_update _ j (fresh_flow (pkt_key p))); [| |cbn; lia].
    + destruct (flow_update p (fresh_flow (pkt_key p))). by rewrite insert_after_alter.
    + rewrite list_lookup_alter_eq, Hx. cbn. by rewrite Hc.
Qed.

(** ** The scan table *)

Definition fresh_scan (s : Z) : scan_src := mk_scan_src true s (seen zero_scan) 0 0.

Notation scan_step := (table_step s_used s_saddr saddr update_scan fresh_scan).
Notation scan_of := (own saddr update_scan fresh_scan).
Notation scan_table := (table_of saddr update_scan fresh_scan zero_scan MAX_SCAN_SRC).

Lemma update_scan_ok p s :
  s_used s = true → s_used (update_scan p s).1 = true ∧ s_saddr (update_scan p s).1 = s_saddr s.
Proof.
  intros Hs. unfold update_scan, check_scan, record_port, expire.
  destruct (compact_loop _ _ _ _ _) as [a w]. simpl. destruct (find_index _ _); simpl; split_ifs; done.
Qed.

Lemma fresh_scan_ok k : s_used (fresh_scan k) = true ∧ s_saddr (fresh_scan k) = k.
Proof. done. Qed.

Lemma portscan_step p l :
  (∀ x, x ∈ l → s_used x = false → x = zero_scan) → rule_portscan p l = scan_step p l.
Proof.
  intros Hfree. unfold rule_portscan, table_step.
  rewrite (slot_scan_ext _ _ (λ s, bool_decide (s_saddr s = saddr p)))
    by (intros x; symmetry; destruct (Z.eqb_spec (s_saddr x) (saddr p));
        [by apply bool_decide_eq_true_2|by apply bool_decide_eq_false_2]).
  pose proof (slot_scan_bounds s_used (λ s, bool_decide (s_saddr s = saddr p)) l) as Hb.
  destruct (slot_scan _ _ l 0 None) as [[i|] [j|]]; try done.
  destruct (proj2 (Hb j None) eq_refl) as (x & Hx & Hu). rewrite Hx.
  rewrite (Hfree x) by (done || by eapply list_elem_of_lookup_2). done.
Qed.

(** ** The counter of a flow *)

(** The packets of a flow within a history. *)
Definition of_flow (k : flow_id) (ps : list flow_pkt) : list flow_pkt :=
  filter (λ p, pkt_key p = k) ps.

(** No flow has so many packets that its counter of gaps overflows. *)
Definition few_packets (ps : list flow_pkt) : Prop :=
  ∀ k, Z.of_nat (length (of_flow k ps)) ≤ 2 ^ 31.

Definition touch (f : flow) (p : flow_pkt) : flow := (flow_update p f).1.

(** The rules that raise alerts leave the ring alone. *)
Lemma touch_ring f p :
  last_ts (touch f p) = last_ts (count_gap f p) ∧ gaps (touch f p) = gaps (count_gap f p)
  ∧ ngaps (touch f p) = ngaps (count_gap f p).
Proof.
  unfold touch, flow_update, beacon_step, judge.
  destruct (beacon_stats _ _) as [mean cv]. set (f' := count_gap f p).
  assert (Hs : ∀ g, last_ts (rule_suspicious_port g p).1 = last_ts g
    ∧ gaps (rule_suspicious_port g p).1 = gaps g ∧ ngaps (rule_suspicious_port g p).1 = ngaps g).
  { intros g. unfold rule_suspicious_port. destruct (susp_alerted g); [done|]. by case_match. }
  split_ifs; match goal with |- context [rule_suspicious_port ?g p] =>
    specialize (Hs g); by destruct (rule_suspicious_port g p) end.
Qed.

Lemma flow_of_fold k ps : flow_of k ps = foldl touch (fresh_flow k) (of_flow k ps).
Proof. apply own_filter. Qed.

(** At most one gap per packet after the first. *)
Lemma ngaps_bound k ps : 0 ≤ ngaps (flow_of k ps) ≤ Z.of_nat (length (of_flow k ps) - 1).
Proof.
  rewrite flow_of_fold. generalize (of_flow k ps). intros qs.
  assert (H : (qs = [] → last_ts (foldl touch (fresh_flow k) qs) = 0)
    ∧ 0 ≤ ngaps (foldl touch (fresh_flow k) qs) ≤ Z.of_nat (length qs - 1)); [|apply H].
  induction qs as [|q qs [IH1 IH2]] using rev_ind; [by destruct k as [[[s d] dp] pr]|].
  split; [by destruct qs|]. rewrite foldl_app, length_app. cbn [foldl length].
  destruct (touch_ring (foldl touch (fresh_flow k) qs) q) as (_ & _ & ->). unfold count_gap.
  destruct (decide (qs = [])) as [->|Hne]; [rewrite IH1 by done; cbn in *; lia|].
  assert (length qs ≠ 0%nat) by (by destruct qs). destruct (_ =? 0); cbn; lia.
Qed.

Lemma of_flow_app k ps qs : of_flow k (ps ++ qs) = of_flow k ps ++ of_flow k qs.
Proof. apply filter_app. Qed.

Lemma of_flow_self p : of_flow (pkt_key p) [p] = [p].
Proof. unfold of_flow. by rewrite filter_cons, filter_nil, decide_True. Qed.

Lemma few_app ps qs : few_packets (ps ++ qs) → few_packets ps.
Proof. intros H k. specialize (H k). rewrite of_flow_app, length_app in H. lia. Qed.

Lemma few_sublist ps qs : ps `sublist_of` qs → few_packets qs → few_packets ps.
Proof.
  intros Hs H k. specialize (H k). assert (length (of_flow k ps) ≤ length (of_flow k qs))%nat; [|lia].
  clear H. apply sublist_length. unfold of_flow. induction Hs as [|p ps qs Hs IH|p ps qs Hs IH]; [done| |].
  - rewrite !filter_cons. case_decide; [by apply sublist_skip|done].
  - rewrite filter_cons. case_decide; [by apply sublist_cons|done].
Qed.

Lemma few_short ps : Z.of_nat (length ps) ≤ 2 ^ 31 → few_packets ps.
Proof. intros H k. pose proof (length_filter (λ p, pkt_key p = k) ps). unfold of_flow. lia. Qed.

(** The counters of a table of flows are in range for one more packet. *)
Lemma table_counters ps p x :
  few_packets (ps ++ [p]) → x ∈ flow_table ps → flow_key x = pkt_key p → 0 ≤ ngaps x < 2 ^ 31 - 1.
Proof.
  intros Hf Hx Hk. unfold table_of in Hx. apply elem_of_app in Hx as [Hx|Hx].
  - apply list_elem_of_fmap in Hx as (k & -> & _).
    destruct (own_ok f_used flow_key pkt_key flow_update fresh_flow fresh_flow_ok flow_update_ok k ps) as [_ Ho].
    rewrite Ho in Hk. subst k. specialize (Hf (pkt_key p)). rewrite of_flow_app, of_flow_self, length_app in Hf.
    cbn [length] in Hf. pose proof (ngaps_bound (pkt_key p) ps). lia.
  - apply elem_of_replicate_inv in Hx as ->. cbn. lia.
Qed.

(** ** The engine is a product of independent automata *)

Definition engine_of (ps : list flow_pkt) : engine := mk_engine (flow_table ps) (scan_table ps).

(** The alerts of packet [p] after the history [ps]: those of its flow, if
    the flow holds a slot, and those of its source, if the source does. *)
Definition alerts_of (ps : list flow_pkt) (p : flow_pkt) : list alert :=
  (if decide (pkt_key p ∈ admitted MAX_FLOWS (pkt_key <$> (ps ++ [p])))
   then (flow_update p (flow_of (pkt_key p) ps)).2 else [])
  ++ (if decide (saddr p ∈ admitted MAX_SCAN_SRC (saddr <$> (ps ++ [p])))
      then (update_scan p (scan_of (saddr p) ps)).2 else []).

Lemma scan_part_step ps p :
  rule_portscan p (scan_table ps)
  = (scan_table (ps ++ [p]),
     if decide (saddr p ∈ admitted MAX_SCAN_SRC (saddr <$> (ps ++ [p])))
     then (update_scan p (scan_of (saddr p) ps)).2 else []).
Proof.
  rewrite portscan_step.
  2:{ intros x. eapply table_of_free; [apply fresh_scan_ok|apply update_scan_ok]. }
  by rewrite (table_step_spec s_used s_saddr saddr update_scan fresh_scan zero_scan MAX_SCAN_SRC
    eq_refl fresh_scan_ok update_scan_ok).
Qed.

Lemma handle_event_of ps p :
  few_packets (ps ++ [p]) → handle_event (engine_of ps) p = Some (engine_of (ps ++ [p]), alerts_of ps p).
Proof.
  intros Hfew. unfold handle_event, engine_of. cbn [flows scans].
  pose proof (flow_part_step p (flow_table ps)) as Hf.
  rewrite (table_step_spec f_used flow_key pkt_key flow_update fresh_flow zero_flow MAX_FLOWS
    eq_refl fresh_flow_ok flow_update_ok) in Hf.
  destruct (flow_get p (flow_table ps)) as [f fs]. rewrite Hf; clear Hf.
  2:{ intros x. eapply table_of_free; [apply fresh_flow_ok|apply flow_update_ok]. }
  2:{ intros x Hx. by eapply table_counters. }
  cbn [mbind option_bind]. by rewrite scan_part_step.
Qed.

Lemma boot_of : boot = engine_of [].
Proof. done. Qed.

(** The trace of a run from a history on. *)
Fixpoint trace_of (hist ps : list flow_pkt) : list (flow_pkt * list alert) :=
  match ps with
  | [] => []
  | p :: ps' => (p, alerts_of hist p) :: trace_of (hist ++ [p]) ps'
  end.

Lemma run_of hist ps :
  few_packets (hist ++ ps) → run (engine_of hist) ps = Some (engine_of (hist ++ ps), trace_of hist ps).
Proof.
  revert hist. induction ps as [|p ps IH]; intros hist Hf; cbn [run trace_of]; [by rewrite app_nil_r|].
  assert (Happ : hist ++ p :: ps = (hist ++ [p]) ++ ps) by (by rewrite <- app_assoc).
  rewrite Happ in Hf |- *. rewrite handle_event_of by (by eapply few_app).
  cbn. by rewrite IH.
Qed.

(** ** Each flow alerts at most once of a kind *)

Definition is_beacon (a : alert) : bool := match a with Beacon _ _ _ _ _ _ => true | _ => false end.
Definition is_susp (a : alert) : bool := match a with SuspPort _ _ _ _ => true | _ => false end.
Definition is_scan (a : alert) : bool := match a with PortScan _ _ _ => true | _ => false end.

(** The alerts of one kind that the packets of flow [k] raised. *)
Definition raised (kind : alert → bool) (k : flow_id) (tr : list (flow_pkt * list alert)) : list alert :=
  bfilter kind (concat (snd <$> bfilter (λ x, bool_decide (pkt_key x.1 = k)) tr)).

Lemma judge_alerts f :
  Nat.b2n (beacon_alerted (judge f).1) = (Nat.b2n (beacon_alerted f) + length (judge f).2)%nat
  ∧ Forall (λ a, is_beacon a = true) (judge f).2.
Proof.
  unfold judge. destruct (beacon_stats _ _) as [mean cv].
  split_ifs; simpl in *; (split; [|by repeat first [constructor|done]]); try lia; bool_to_prop;
    repeat match goal with H : beacon_alerted _ = false |- _ => rewrite H end; done.
Qed.

Lemma rule_beacon_alerts p f :
  Nat.b2n (beacon_alerted (beacon_step f p).1)
  = (Nat.b2n (beacon_alerted f) + length (beacon_step f p).2)%nat
  ∧ Forall (λ a, is_beacon a = true) (beacon_step f p).2.
Proof.
  unfold beacon_step. destruct (judge_alerts (count_gap f p)) as [-> ?]. split; [|done]. unfold count_gap. by destruct (last_ts f =? 0).
Qed.

Lemma rule_susp_alerts p f :
  Nat.b2n (susp_alerted (rule_suspicious_port f p).1)
  = (Nat.b2n (susp_alerted f) + length (rule_suspicious_port f p).2)%nat
  ∧ Forall (λ a, is_susp a = true) (rule_suspicious_port f p).2.
Proof.
  unfold rule_suspicious_port. destruct (susp_alerted f) eqn:E; simpl; [by rewrite E|].
  case_match; simpl; rewrite ?E; split; try done; by repeat constructor.
Qed.

Lemma update_scan_alerts p s : Forall (λ a, is_scan a = true) (update_scan p s).2.
Proof. unfold update_scan, check_scan. split_ifs; simpl; by repeat constructor. Qed.

(** A flow's flag counts the alerts of its kind. *)
Lemma flow_update_alerts p f :
  Nat.b2n (beacon_alerted (flow_update p f).1)
  = (Nat.b2n (beacon_alerted f) + length (bfilter is_beacon (flow_update p f).2))%nat
  ∧ Nat.b2n (susp_alerted (flow_update p f).1)
    = (Nat.b2n (susp_alerted f) + length (bfilter is_susp (flow_update p f).2))%nat.
Proof.
  unfold flow_update. destruct (rule_beacon_alerts p f) as [H1 H2].
  destruct (rule_beacon_key p f) as (_ & _ & H3).
  destruct (beacon_step f p) as [f1 al1]. cbn [fst snd] in *.
  destruct (rule_susp_alerts p f1) as [H4 H5]. destruct (rule_susp_key p f1) as (_ & _ & H6).
  destruct (rule_suspicious_port f1 p) as [f2 al2]. cbn [fst snd] in *.
  rewrite !bfilter_app, (bfilter_all is_beacon al1), (bfilter_all is_susp al2) by done.
  rewrite (bfilter_none is_beacon al2), (bfilter_none is_susp al1), app_nil_r, H6, H4, <- H3, H1.
  - simpl. split; lia.
  - eapply Forall_impl; [exact H2|]. by intros [].
  - eapply Forall_impl; [exact H5|]. by intros [].
Qed.

(** The alerts among [alerts_of] that come from the flow rules. *)
Lemma bfilter_alerts_of kind hist p :
  (∀ a, kind a = true → is_scan a = false) →
  (length (bfilter kind (alerts_of hist p))
   ≤ length (bfilter kind (flow_update p (flow_of (pkt_key p) hist)).2))%nat.
Proof.
  intros Hk. unfold alerts_of. rewrite bfilter_app.
  rewrite (bfilter_none kind (if decide (saddr p ∈ _) then _ else _)).
  - rewrite app_nil_r. case_decide; simpl; lia.
  - case_decide; [|constructor]. eapply Forall_impl; [apply update_scan_alerts|].
    intros a Ha. destruct (kind a) eqn:E; [|done]. apply Hk in E. congruence.
Qed.

(** A flag that counts the alerts of a kind bounds them over a whole run. *)
Lemma raised_flag kind (flag : flow → bool) k :
  (∀ a, kind a = true → is_scan a = false) →
  (∀ p f, Nat.b2n (flag (flow_update p f).1)
          = (Nat.b2n (flag f) + length (bfilter kind (flow_update p f).2))%nat) →
  ∀ ps hist, (Nat.b2n (flag (flow_of k hist)) + length (raised kind k (trace_of hist ps)) ≤ 1)%nat.
Proof.
  intros Hkind Hflag. induction ps as [|p ps IH]; intros hist; cbn [trace_of].
  { simpl. destruct (flag _); simpl; lia. }
  specialize (IH (hist ++ [p])). rewrite own_snoc in IH. unfold raised in *. simpl.
  destruct (decide (pkt_key p = k)) as [<-|Hne].
  - rewrite bool_decide_true by done. cbn [fmap list_fmap concat snd]. rewrite bfilter_app, length_app.
    pose proof (bfilter_alerts_of kind hist p Hkind). rewrite Hflag in IH. csimpl. lia.
  - rewrite bool_decide_false by done. done.
Qed.

(** ** The gap ring *)

(** The time between two packets as the engine computes it. *)
Definition gap_between (p q : flow_pkt) : f64 :=
  f64_div (f64_of_Z (ts_ns q -64 ts_ns p)) (f64_of_Z (10 ^ 9)).

(** The [j]-th gap of a packet sequence. *)
Definition gap_at (qs : list flow_pkt) (j : nat) : option f64 :=
  match qs !! j, qs !! S j with
  | Some p, Some q => Some (gap_between p q)
  | _, _ => None
  end.

Lemma gap_at_snoc_last qs p q :
  last qs = Some p → gap_at (qs ++ [q]) (length qs - 1) = Some (gap_between p q).
Proof.
  intros Hl. assert (length qs ≠ 0%nat) by (by destruct qs).
  rewrite last_lookup in Hl. unfold gap_at.
  rewrite lookup_app_l by lia. rewrite <- Nat.sub_1_r in Hl. rewrite Hl.
  replace (S (length qs - 1)) with (length qs) by lia. by rewrite list_lookup_middle.
Qed.

Lemma gap_at_snoc_old qs q j : (S j < length qs)%nat → gap_at (qs ++ [q]) j = gap_at qs j.
Proof. intros Hj. unfold gap_at. by rewrite !lookup_app_l by lia. Qed.

(** What the slot of a flow holds after its packets [qs]. *)
Record ring_ok (qs : list flow_pkt) (f : flow) : Prop := mk_ring_ok {
  ring_len : length (gaps f) = 8%nat;
  ring_last : last_ts f = default 0 (ts_ns <$> last qs);
  ring_n : ngaps f = Z.of_nat (length qs - 1);
  ring_cell j : (S j < length qs)%nat → (length qs ≤ j + 9)%nat →
    gaps f !! (j `mod` 8)%nat = gap_at qs j;
}.

Lemma ring_ok_touch qs f q :
  Forall (λ p, ts_ns p ≠ 0) qs → ring_ok qs f → ring_ok (qs ++ [q]) (touch f q).
Proof.
  intros Hts [H1 H2 H3 H4]. destruct (touch_ring f q) as (E1 & E2 & E3).
  split; rewrite ?E1, ?E2, ?E3; unfold count_gap; rewrite ?length_app, ?last_snoc; simpl.
  - destruct (last_ts f =? 0); simpl; by rewrite ?length_insert.
  - by destruct (last_ts f =? 0).
  - destruct (Z.eqb_spec (last_ts f) 0) as [H0|H0]; simpl.
    + destruct (last qs) as [p|] eqn:Hl.
      * simpl in H2. apply last_Some_elem_of in Hl. rewrite Forall_forall in Hts.
        specialize (Hts p Hl). congruence.
      * apply last_None in Hl as ->. rewrite H3. done.
    + destruct (last qs) as [p|] eqn:Hl; [|done].
      assert (length qs ≠ 0%nat) by (by destruct qs). lia.
  - intros j Hj1 Hj2. destruct (last qs) as [p|] eqn:Hl.
    2:{ apply last_None in Hl as ->. simpl in *. lia. }
    simpl in H2. assert (Hp : last_ts f ≠ 0).
    { rewrite H2. rewrite Forall_forall in Hts. apply Hts. by apply last_Some_elem_of. }
    apply Z.eqb_neq in Hp. rewrite Hp. simpl.
    assert (Hlen : length qs ≠ 0%nat) by (by destruct qs).
    assert (Hm : Z.to_nat (ngaps f mod MAX_GAPS) = ((length qs - 1) `mod` 8)%nat).
    { rewrite H3. unfold MAX_GAPS. change 8 with (Z.of_nat 8). rewrite <- Nat2Z.inj_mod. lia. }
    rewrite Hm. destruct (decide (j = length qs - 1)%nat) as [->|Hne].
    + rewrite list_lookup_insert_eq by (rewrite H1; apply Nat.mod_upper_bound; lia).
      rewrite (gap_at_snoc_last _ p) by done. unfold gap_between. by rewrite H2.
    + rewrite gap_at_snoc_old by lia. rewrite <- H4 by lia. apply list_lookup_insert_ne.
      apply not_eq_sym, mod_window_ne; lia.
Qed.

Lemma ring_ok_flow k ps :
  Forall (λ p, ts_ns p ≠ 0) ps → ring_ok (of_flow k ps) (flow_of k ps).
Proof.
  intros Hts. rewrite flow_of_fold.
  assert (Forall (λ p, ts_ns p ≠ 0) (of_flow k ps)) as Hq.
  { apply Forall_forall. intros p Hp. unfold of_flow in Hp. apply list_elem_of_filter in Hp as [_ Hp].
    rewrite Forall_forall in Hts. by apply Hts. }
  clear Hts. induction (of_flow k ps) as [|q qs IH] using rev_ind.
  { destruct k as [[[s d] dp] pr]. split; try done. intros j. simpl. lia. }
  apply Forall_app in Hq as [Hq _]. rewrite foldl_app. simpl. apply ring_ok_touch; auto.
Qed.

(** ** Periodic flows *)

(** [n] packets, [s] whole seconds apart, the first at [t0]. *)
Definition periodic (t0 s : Z) (qs : list flow_pkt) : Prop :=
  ∀ i p, qs !! i = Some p → ts_ns p = t0 + Z.of_nat i * (s * 10 ^ 9).

(** The gap of such a flow. *)
Definition period (s : Z) : f64 := f64_div (f64_of_Z (s * 10 ^ 9)) (f64_of_Z (10 ^ 9)).

(** The ring after [n] gaps of the same size. *)
Definition even_ring (s : Z) (n : nat) : list f64 :=
  replicate n (period s) ++ replicate (8 - n) f64_zero.

(** The verdict of [beacon_step] on the statistics of [n] gaps. *)
Definition looks_like_beacon (n : Z) (l : list f64) : bool :=
  let '(mean, cv) := beacon_stats n l in
  negb (f64_ltb mean BEACON_MIN_INTERVAL || f64_gtb mean BEACON_MAX_INTERVAL) && negb (f64_gtb cv BEACON_CV_MAX).

Definition whole_seconds : list Z := (λ i, Z.of_nat i) <$> seq 1 300.

(** Evaluated for every whole number of seconds the rule accepts. *)
Lemma five_even_gaps : Forall (λ s, looks_like_beacon 5 (even_ring s 5) = true) whole_seconds.
Proof. apply (bool_decide_unpack _). vm_compute. exact I. Qed.

Lemma five_even_gaps_at s : 1 ≤ s ≤ 300 → looks_like_beacon 5 (even_ring s 5) = true.
Proof.
  intros Hs. pose proof five_even_gaps as H. rewrite Forall_forall in H. apply H.
  apply list_elem_of_fmap. exists (Z.to_nat s). split; [lia|]. apply elem_of_seq. lia.
Qed.

(** The slot after [n] periodic packets. *)
Record even_flow (t0 s : Z) (n : nat) (f : flow) : Prop := mk_even_flow {
  ef_last : last_ts f = t0 + Z.of_nat (n - 1) * (s * 10 ^ 9);
  ef_n : ngaps f = Z.of_nat (n - 1);
  ef_gaps : gaps f = even_ring s (n - 1);
  ef_alerted : beacon_alerted f = bool_decide (6 ≤ n)%nat;
}.

Lemma record_gap_even t0 s n f p :
  0 < t0 → 0 < s → t0 + Z.of_nat n * (s * 10 ^ 9) < 2 ^ 64 → (1 ≤ n ≤ 5)%nat →
  even_flow t0 s n f → ts_ns p = t0 + Z.of_nat n * (s * 10 ^ 9) →
  let f' := count_gap f p in
  last_ts f' = ts_ns p ∧ ngaps f' = Z.of_nat n ∧ gaps f' = even_ring s n
  ∧ beacon_alerted f' = beacon_alerted f.
Proof.
  intros Ht0 Hs Hmax Hn [H1 H2 H3 H4] Hp. unfold count_gap.
  assert (last_ts f ≠ 0) as H0 by (rewrite H1; nia). apply Z.eqb_neq in H0. rewrite H0. simpl.
  split; [done|]. split; [rewrite H2; lia|]. split; [|done].
  assert (ts_ns p -64 last_ts f = s * 10 ^ 9) as ->.
  { rewrite Hp, H1. rewrite u64_small; [nia|]. nia. }
  fold (period s). rewrite H2, H3. destruct Hn as [Hn1 Hn2].
  do 6 (destruct n as [|n]; [done || lia|]). lia.
Qed.

Lemma flow_update_even t0 s n f p :
  0 < t0 → 1 ≤ s ≤ 300 → t0 + Z.of_nat n * (s * 10 ^ 9) < 2 ^ 64 → (1 ≤ n ≤ 5)%nat →
  even_flow t0 s n f → ts_ns p = t0 + Z.of_nat n * (s * 10 ^ 9) →
  even_flow t0 s (S n) (touch f p)
  ∧ (bfilter is_beacon (flow_update p f).2 ≠ [] ↔ n = 5%nat).
Proof.
  intros Ht0 Hs Hmax Hn Hf Hp.
  destruct (record_gap_even t0 s n f p) as (R1 & R2 & R3 & R4); try done; [lia|].
  destruct (touch_ring f p) as (T1 & T2 & T3). destruct (flow_update_alerts p f) as [HA _].
  assert (Hb : beacon_alerted (touch f p) = bool_decide (6 ≤ S n)%nat).
  { unfold touch, flow_update.
    destruct (beacon_step f p) as [f1 al1] eqn:E. destruct (rule_susp_key p f1) as (_ & _ & Hk).
    destruct (rule_suspicious_port f1 p) as [f2 al2]. cbn [fst snd] in *. rewrite Hk.
    unfold beacon_step, judge in E. rewrite R2, R3, R4 in E. rewrite (ef_alerted _ _ _ _ Hf) in E.
    rewrite bool_decide_false in E by lia. cbn [orb] in E.
    destruct (Z.ltb_spec (Z.of_nat n) MAX_GAPS) as [_|Hge]; [|unfold MAX_GAPS in Hge; lia].
    destruct (Z.ltb_spec (Z.of_nat n) 1); [lia|].
    destruct (decide (n = 5%nat)) as [->|Hne].
    - pose proof (five_even_gaps_at s Hs) as H5. unfold looks_like_beacon in H5.
      change (Z.of_nat 5) with 5 in E. destruct (beacon_stats 5 (even_ring s 5)) as [mean cv].
      apply andb_true_iff in H5 as [Ha Hc]. apply negb_true_iff in Ha, Hc. rewrite Ha, Hc in E.
      injection E as <- <-. done.
    - destruct (beacon_stats _ _) as [mean cv]. unfold BEACON_MIN_SAMPLES in E.
      destruct (Z.ltb_spec (Z.of_nat n) 5); [|lia]. injection E as <- <-. rewrite R4, (ef_alerted _ _ _ _ Hf).
      apply bool_decide_ext. lia. }
  split.
  - split; rewrite ?T1, ?T2, ?T3, ?R1, ?R2, ?R3; replace (S n - 1)%nat with n by lia; done.
  - fold (touch f p) in HA. rewrite Hb, (ef_alerted _ _ _ _ Hf) in HA.
    rewrite (bool_decide_false (6 ≤ n)%nat) in HA by lia. simpl in HA.
    destruct (bfilter is_beacon _) as [|a l]; simpl in HA.
    + split; [done|]. intros ->. done.
    + split; [|done]. intros _. destruct (decide (6 ≤ S n)%nat); [lia|].
      rewrite bool_decide_false in HA by done. done.
Qed.

(** The slot after up to six periodic packets. *)
Lemma even_flow_fold t0 s k qs :
  0 < t0 → 1 ≤ s ≤ 300 → t0 + Z.of_nat (length qs) * (s * 10 ^ 9) < 2 ^ 64 →
  periodic t0 s qs → (1 ≤ length qs ≤ 6)%nat →
  even_flow t0 s (length qs) (foldl touch (fresh_flow k) qs).
Proof.
  intros Ht0 Hs. induction qs as [|q qs IH] using rev_ind; [simpl; lia|]. intros Hmax Hper Hlen.
  rewrite foldl_app, length_app, Nat.add_1_r in *. simpl.
  assert (Hq : ts_ns q = t0 + Z.of_nat (length qs) * (s * 10 ^ 9)).
  { apply Hper. by apply list_lookup_middle. }
  destruct (decide (qs = [])) as [->|Hne].
  - simpl. destruct (touch_ring (fresh_flow k) q) as (T1 & T2 & T3).
    destruct (flow_update_alerts q (fresh_flow k)) as [HA _]. fold (touch (fresh_flow k) q) in HA.
    destruct k as [[[a b] c] d].
    split; rewrite ?T1, ?T2, ?T3; try done. unfold touch, flow_update, beacon_step. simpl.
    destruct (rule_susp_key q (count_gap (fresh_flow (a, b, c, d)) q)) as (_ & _ & Hk).
    destruct (rule_suspicious_port _ q). simpl in *. by rewrite Hk.
  - assert (length qs ≠ 0%nat) by (by destruct qs). apply flow_update_even; try done; [nia|lia|].
    apply IH; [nia| |lia]. intros i p Hi. apply Hper. rewrite lookup_app_l; [done|].
    by eapply lookup_lt_Some.
Qed.

(** ** Port scans: the window over the packet history *)

(** The time each port was last touched. *)
Definition last_touch (qs : list flow_pkt) : gmap Z Z :=
  foldl (λ m p, <[dport p := ts_ns p]> m) ∅ qs.

(** The ports touched within the window that ends at the last packet. *)
Definition window (qs : list flow_pkt) : gmap Z Z :=
  match last qs with
  | Some p => filter (λ kt, ts_ns p - kt.2 < SCAN_WINDOW_NS) (last_touch qs)
  | None => ∅
  end.

(** Packets in order of time, with times that a clock gives. *)
Definition ordered (qs : list flow_pkt) : Prop :=
  StronglySorted (λ p q, ts_ns p ≤ ts_ns q) qs ∧ Forall (λ p, 0 < ts_ns p < 2 ^ 64) qs.

Lemma last_touch_Some qs k t :
  last_touch qs !! k = Some t → ∃ q, q ∈ qs ∧ dport q = k ∧ ts_ns q = t.
Proof.
  unfold last_touch. induction qs as [|q qs IH] using rev_ind; [done|]. rewrite foldl_app. simpl.
  intros [[<- <-]|[_ H]]%lookup_insert_Some; [exists q; set_solver|].
  destruct (IH H) as (q' & ? & ? & ?). exists q'. set_solver.
Qed.

Lemma ordered_snoc qs p :
  ordered (qs ++ [p]) → ordered qs ∧ Forall (λ q, 0 < ts_ns q ≤ ts_ns p) qs ∧ 0 < ts_ns p < 2 ^ 64.
Proof.
  intros [Hs Hf]. apply Forall_app in Hf as [Hf Hp]. apply StronglySorted_app in Hs as (H1 & H2 & _).
  inversion Hp; subst. split; [done|]. split; [|done].
  apply Forall_forall. intros q Hq. rewrite Forall_forall in Hf. specialize (Hf q Hq).
  specialize (H1 q p Hq). set_solver by lia.
Qed.

Lemma window_snoc qs p :
  ordered (qs ++ [p]) →
  window (qs ++ [p])
  = <[dport p := ts_ns p]> (filter (λ kt, ts_ns p - kt.2 < SCAN_WINDOW_NS) (window qs)).
Proof.
  intros (_ & Hq & Hp)%ordered_snoc. unfold window at 1. rewrite last_snoc.
  unfold last_touch. rewrite foldl_app. cbn [foldl]. fold (last_touch qs).
  rewrite map_filter_insert_True by (simpl; unfold SCAN_WINDOW_NS; lia). f_equal.
  unfold window. destruct (last qs) as [q|] eqn:Hl.
  - rewrite map_filter_filter. apply map_filter_ext. intros k t Hk. simpl.
    apply last_Some_elem_of in Hl. rewrite Forall_forall in Hq. specialize (Hq q Hl). lia.
  - apply last_None in Hl as ->. by rewrite !map_filter_empty.
Qed.

(** The ports and times a slot holds are the map [g]. *)
Record scan_view (g : gmap Z Z) (sc : scan_src) : Prop := mk_scan_view {
  sv_len : length (seen sc) = 256%nat;
  sv_n : 0 ≤ sn sc ≤ MAX_SCAN_PORTS;
  sv_ports : NoDup (port <$> take (Z.to_nat (sn sc)) (seen sc));
  sv_map : ts <$> by_key port (take (Z.to_nat (sn sc)) (seen sc)) = g;
}.

Lemma scan_view_size g sc : scan_view g sc → sn sc = Z.of_nat (size g).
Proof.
  intros [H1 H2 H3 <-]. rewrite map_size_fmap, size_by_key by done. rewrite length_take, H1.
  unfold MAX_SCAN_PORTS in H2. lia.
Qed.

Lemma expire_view now g sc :
  scan_view g sc → (∀ k t, g !! k = Some t → 0 ≤ t ≤ now) → now < 2 ^ 64 →
  scan_view (filter (λ kt, now - kt.2 < SCAN_WINDOW_NS) g) (expire now sc)
  ∧ last_alert_ts (expire now sc) = last_alert_ts sc.
Proof.
  intros [H1 H2 H3 H4] Ht Hnow. unfold expire.
  pose proof (compact_loop_filter (in_window now) (seen sc) (Z.to_nat (sn sc))) as Hc.
  rewrite H1 in Hc. specialize (Hc ltac:(unfold MAX_SCAN_PORTS in H2; lia)).
  pose proof (compact_loop_count (in_window now) (Z.to_nat (sn sc)) 0 0 (seen sc)) as Hw.
  destruct (compact_loop _ _ _ _ _) as [a w]. destruct Hc as [Hc1 Hc2]. simpl in Hw.
  split; [|done]. split; simpl; rewrite ?Nat2Z.id, ?Hc1; [done|unfold MAX_SCAN_PORTS in *; lia| |].
  - by apply bfilter_NoDup_fmap.
  - apply map_eq. intros k. rewrite lookup_fmap, by_key_bfilter by done. rewrite map_lookup_filter, <- H4, lookup_fmap.
    destruct (by_key port _ !! k) as [x|] eqn:Hk; simpl; [|done].
    assert (Hx : 0 ≤ ts x ≤ now) by (apply (Ht k); by rewrite <- H4, lookup_fmap, Hk).
    unfold in_window. rewrite u64_small by lia.
    destruct (Z.ltb_spec (now - ts x) SCAN_WINDOW_NS);
      [by rewrite option_guard_True|by rewrite option_guard_False by lia].
Qed.

Lemma record_port_view p g sc :
  scan_view g sc → (g !! dport p = None → (size g < 256)%nat) →
  scan_view (<[dport p := ts_ns p]> g) (record_port p sc)
  ∧ last_alert_ts (record_port p sc) = last_alert_ts sc.
Proof.
  intros Hv Hsize. pose proof (scan_view_size _ _ Hv) as Hn. destruct Hv as [H1 H2 H3 H4].
  unfold record_port. set (us := take (Z.to_nat (sn sc)) (seen sc)) in *.
  pose proof (find_index_by_key port us (dport p) H3) as Hf.
  destruct (find_index _ us) as [i|].
  - destruct Hf as (x & Hi & Hx & Hk). split; [|done].
    assert (Hil : (i < Z.to_nat (sn sc))%nat).
    { apply lookup_lt_Some in Hi. unfold us in Hi. rewrite length_take in Hi. lia. }
    assert (Hseen : seen sc !! i = Some x) by (unfold us in Hi; by rewrite lookup_take_lt in Hi).
    set (x' := mk_seen (port x) (ts_ns p)).
    assert (Ha : alter (λ s, mk_seen (port s) (ts_ns p)) i (seen sc) = <[i := x']> (seen sc)).
    { apply list_eq. intros j. destruct (decide (i = j)) as [<-|].
      - rewrite list_lookup_alter_eq, Hseen, list_lookup_insert_eq; [done|by eapply lookup_lt_Some].
      - by rewrite list_lookup_alter_ne, list_lookup_insert_ne. }
    destruct (by_key_insert port us i x x' H3 Hi eq_refl) as [Hb Hkeys].
    split; simpl; rewrite ?Ha, ?length_insert; try done.
    + rewrite take_insert_lt by done. fold us. by rewrite Hkeys.
    + rewrite take_insert_lt by done. fold us. rewrite Hb, fmap_insert, H4. simpl. by rewrite Hx.
  - assert (Hg : g !! dport p = None) by (by rewrite <- H4, lookup_fmap, Hf).
    specialize (Hsize Hg). destruct (Z.ltb_spec (sn sc) MAX_SCAN_PORTS) as [Hlt|Hge];
      [|unfold MAX_SCAN_PORTS in Hge; lia].
    split; [|done].
    assert (Htake : take (Z.to_nat (sn sc + 1)) (<[Z.to_nat (sn sc) := mk_seen (dport p) (ts_ns p)]> (seen sc))
      = us ++ [mk_seen (dport p) (ts_ns p)]).
    { replace (Z.to_nat (sn sc + 1)) with (S (Z.to_nat (sn sc))) by lia.
      erewrite take_S_r by (apply list_lookup_insert_eq; lia). by rewrite take_insert_ge by lia. }
    apply by_key_None in Hf. split; simpl; rewrite ?Htake, ?length_insert; [done|lia| |].
    + rewrite fmap_app. apply NoDup_app. split; [done|]. split; [|apply NoDup_singleton].
      by intros k Hk ->%list_elem_of_singleton.
    + rewrite by_key_snoc by done. by rewrite fmap_insert, H4.
Qed.

(** The packets of a source within a history. *)
Definition of_src (s : Z) (ps : list flow_pkt) : list flow_pkt := filter (λ p, saddr p = s) ps.

(** Every window of the history has at most MAX_SCAN_PORTS ports. *)
Definition windows_fit (qs : list flow_pkt) : Prop :=
  ∀ n, (size (window (take n qs)) ≤ 256)%nat.

(** Above the threshold, and not alerted within the cool-down. *)
Definition scan_due (qs : list flow_pkt) (last_alert : Z) (p : flow_pkt) : bool :=
  (20 <? Z.of_nat (size (window qs)))
  && ((last_alert =? 0) || (SCAN_COOLDOWN_NS <? ts_ns p - last_alert)).

(** The time of the latest alert of a source, 0 for none. *)
Fixpoint last_alert_from (hist : list flow_pkt) (la : Z) (qs : list flow_pkt) : Z :=
  match qs with
  | [] => la
  | q :: qs' =>
      last_alert_from (hist ++ [q]) (if scan_due (hist ++ [q]) la q then ts_ns q else la) qs'
  end.

Definition last_alert_of (qs : list flow_pkt) : Z := last_alert_from [] 0 qs.

Lemma last_alert_from_snoc hist la qs q :
  last_alert_from hist la (qs ++ [q])
  = let la' := last_alert_from hist la qs in
    if scan_due (hist ++ qs ++ [q]) la' q then ts_ns q else la'.
Proof.
  revert hist la. induction qs as [|x qs IH]; intros hist la; [done|].
  cbn [last_alert_from app]. rewrite IH. by rewrite <- !app_assoc.
Qed.

Lemma window_times qs k t : ordered qs → window qs !! k = Some t → ∃ q, q ∈ qs ∧ ts_ns q = t.
Proof.
  intros Ho. unfold window. destruct (last qs); [|done].
  intros [Ht _]%map_lookup_filter_Some. apply last_touch_Some in Ht as (q & ? & _ & ?). eauto.
Qed.

Lemma last_alert_bounds qs p :
  ordered (qs ++ [p]) → 0 ≤ last_alert_of qs ≤ ts_ns p.
Proof.
  revert p. induction qs as [|q qs IH] using rev_ind; intros p Hp.
  { apply ordered_snoc in Hp as (_ & _ & ?). unfold last_alert_of. simpl. lia. }
  unfold last_alert_of. rewrite last_alert_from_snoc. fold (last_alert_of qs). simpl.
  apply ordered_snoc in Hp as (Ho & Hq & _). specialize (IH q Ho).
  apply Forall_app in Hq as [_ Hq]. inversion Hq; subst. destruct (scan_due _ _ _); lia.
Qed.

(** The slot after a history, and the alerts of the next packet. *)
Lemma update_scan_view qs p sc :
  ordered (qs ++ [p]) → windows_fit (qs ++ [p]) →
  scan_view (window qs) sc → last_alert_ts sc = last_alert_of qs →
  let due := scan_due (qs ++ [p]) (last_alert_of qs) p in
  scan_view (window (qs ++ [p])) (update_scan p sc).1
  ∧ last_alert_ts (update_scan p sc).1 = (if due then ts_ns p else last_alert_of qs)
  ∧ (update_scan p sc).2
    = if due then [PortScan (saddr p) (Z.of_nat (size (window (qs ++ [p])))) 5] else [].
Proof.
  intros Ho Hfit Hv Hla due. pose proof (window_snoc qs p Ho) as Hw.
  pose proof (last_alert_bounds qs p Ho) as Hlab.
  pose proof (ordered_snoc _ _ Ho) as (Ho' & Hq & Hp).
  destruct (expire_view (ts_ns p) (window qs) sc Hv) as [Hv1 Hla1]; [|lia|].
  { intros k t Ht. apply window_times in Ht as (q & Hin & <-); [|done].
    rewrite Forall_forall in Hq. specialize (Hq q Hin). lia. }
  specialize (Hfit (length (qs ++ [p]))). rewrite firstn_all in Hfit.
  destruct (record_port_view p _ _ Hv1) as [Hv2 Hla2].
  { intros Hnone. rewrite Hw, map_size_insert_None in Hfit by done. lia. }
  rewrite <- Hw in Hv2. pose proof (scan_view_size _ _ Hv2) as Hn.
  unfold update_scan, check_scan. rewrite Hla2, Hla1, Hla, Hn, u64_small by lia.
  unfold SCAN_PORT_THRESH. fold (scan_due (qs ++ [p]) (last_alert_of qs) p). fold due.
  destruct due; cbn [fst snd].
  - split; [|done]. destruct Hv2. split; simpl; rewrite <- ?Hn; done.
  - split; [done|]. split; [by rewrite Hla2, Hla1, Hla|done].
Qed.

Lemma scan_of_view s ps :
  ordered (of_src s ps) → windows_fit (of_src s ps) →
  scan_view (window (of_src s ps)) (scan_of s ps)
  ∧ last_alert_ts (scan_of s ps) = last_alert_of (of_src s ps).
Proof.
  rewrite own_filter. fold (of_src s ps).
  induction (of_src s ps) as [|q qs IH] using rev_ind; intros Ho Hfit.
  { split; [|done]. split; try done. simpl. constructor. }
  destruct IH as [IH1 IH2].
  { by apply ordered_snoc in Ho as [? _]. }
  { intros n. specialize (Hfit (n `min` length qs)%nat).
    rewrite take_app_le in Hfit by lia.
    destruct (Nat.le_ge_cases n (length qs)).
    - by rewrite Nat.min_l in Hfit by lia.
    - rewrite Nat.min_r in Hfit by lia. by rewrite !take_ge in * by lia. }
  rewrite foldl_app. cbn [foldl].
  destruct (update_scan_view qs q _ Ho Hfit IH1 IH2) as (H1 & H2 & _). split; [done|].
  rewrite H2. unfold last_alert_of. by rewrite last_alert_from_snoc.
Qed.

(** ** Known bad ports *)

Definition key_port (k : flow_id) : Z := let '(_, _, dp, _) := k in ntohs dp.

Lemma susp_flag k ps :
  susp_alerted (flow_of k ps)
  = bool_decide (of_flow k ps ≠ []) && bool_decide (is_Some (signature suspicious (key_port k))).
Proof.
  induction ps as [|p ps IH] using rev_ind; [by destruct k as [[[a b] c] d]|].
  rewrite own_snoc. unfold of_flow in *. rewrite filter_app, filter_cons, filter_nil.
  case_decide as Hk; [subst k|by rewrite app_nil_r].
  rewrite (bool_decide_true (_ ++ [p] ≠ [])) by (by destruct (filter _ _)). cbn [andb].
  unfold flow_update. destruct (rule_beacon_key p (flow_of (pkt_key p) ps)) as (_ & _ & Hs).
  destruct (beacon_step _ p) as [f1 al1]. cbn [fst] in Hs. rewrite IH in Hs. clear IH.
  unfold rule_suspicious_port. cbn [key_port pkt_key] in *.
  destruct (signature suspicious (ntohs (dport p))) as [name|].
  - rewrite (bool_decide_true (is_Some (Some name))) in * by eauto. rewrite andb_true_r in Hs.
    by destruct (susp_alerted f1) eqn:E; simpl.
  - rewrite (bool_decide_false (is_Some None)) in * by apply is_Some_None. rewrite andb_false_r in Hs.
    by rewrite Hs.
Qed.

(** ** When the beacon rule stays silent *)

Lemma no_gap_no_beacon f p :
  ngaps (count_gap f p) < 1 → bfilter is_beacon (flow_update p f).2 = [].
Proof.
  intros Hn. unfold flow_update, beacon_step, judge.
  assert ((if ngaps (count_gap f p) <? MAX_GAPS then ngaps (count_gap f p) else MAX_GAPS) <? 1 = true) as ->.
  { unfold MAX_GAPS. apply Z.ltb_lt. destruct (Z.ltb_spec (ngaps (count_gap f p)) 8); lia. }
  destruct (rule_susp_alerts p (count_gap f p)) as [_ Ha].
  destruct (rule_suspicious_port (count_gap f p) p) as [f' al]. apply bfilter_none. simpl.
  eapply Forall_impl; [exact Ha|]. by intros [].
Qed.

Lemma alerted_stays qs : ∀ f, beacon_alerted f = true → beacon_alerted (foldl touch f qs) = true.
Proof.
  induction qs as [|q qs IH]; intros f Hf; [done|]. simpl. apply IH.
  destruct (flow_update_alerts q f) as [Ha _]. fold (touch f q) in Ha. rewrite Hf in Ha.
  by destruct (beacon_alerted (touch f q)).
Qed.

Lemma alerted_silent f p : beacon_alerted f = true → bfilter is_beacon (flow_update p f).2 = [].
Proof.
  intros Hf. destruct (flow_update_alerts p f) as [Ha _]. rewrite Hf in Ha.
  destruct (bfilter is_beacon _); [done|]. destruct (beacon_alerted (flow_update p f).1); simpl in Ha; lia.
Qed.

(** ** What the run computes, through the code's own functions *)

(** The alerts packet [p] raises after the packets [ps]. *)
Definition alerts_after (ps : list flow_pkt) (p : flow_pkt) : option (list alert) :=
  '(e, _) ← run boot ps;
  snd <$> handle_event e p.

Lemma run_boot ps : few_packets ps → run boot ps = Some (engine_of ps, trace_of [] ps).
Proof. rewrite boot_of. apply (run_of [] ps). Qed.

Lemma alerts_after_of ps p : few_packets (ps ++ [p]) → alerts_after ps p = Some (alerts_of ps p).
Proof.
  intros Hf. unfold alerts_after. rewrite run_boot by (by eapply few_app). cbn. by rewrite handle_event_of.
Qed.

(** The slot of an admitted flow. *)
Lemma flow_slot k ps :
  k ∈ admitted MAX_FLOWS (pkt_key <$> ps) →
  flow_of k ps ∈ flow_table ps ∧ flow_key (flow_of k ps) = k ∧ f_used (flow_of k ps) = true.
Proof.
  intros Hk. split.
  - unfold table_of. apply elem_of_app. left. apply list_elem_of_fmap. eauto.
  - destruct (own_ok f_used flow_key pkt_key flow_update fresh_flow fresh_flow_ok flow_update_ok k ps). done.
Qed.

Lemma no_scan_in_flow p f : bfilter is_scan (flow_update p f).2 = [].
Proof.
  apply bfilter_none. unfold flow_update. destruct (rule_beacon_alerts p f) as [_ H1].
  destruct (beacon_step f p) as [f1 al1]. destruct (rule_susp_alerts p f1) as [_ H2].
  destruct (rule_suspicious_port f1 p) as [f2 al2]. simpl in *. apply Forall_app. split.
  - eapply Forall_impl; [exact H1|]. by intros [].
  - eapply Forall_impl; [exact H2|]. by intros [].
Qed.

Lemma no_scan_in_rules p i fs fs' al : flow_rules p i fs = Some (fs', al) → bfilter is_scan al = [].
Proof.
  unfold flow_rules, rule_beacon. destruct (fs !! i) as [f|]; [|by intros [= <- <-]].
  destruct (record_gap f p) as [g|]; [|done]. cbn. pose proof (judge_alerts g) as [_ H1].
  destruct (judge g) as [f1 al1]. pose proof (rule_susp_alerts p f1) as [_ H2].
  destruct (rule_suspicious_port f1 p) as [f2 al2]. intros [= _ <-].
  apply bfilter_none, Forall_app. split; [eapply Forall_impl; [exact H1|]|eapply Forall_impl; [exact H2|]]; by intros [].
Qed.

(** The scan table does not depend on what happens to the flows. *)
Lemma handle_event_scan e p e' al :
  handle_event e p = Some (e', al) →
  (scans e', bfilter is_scan al) = ((rule_portscan p (scans e)).1, bfilter is_scan (rule_portscan p (scans e)).2).
Proof.
  unfold handle_event. destruct (flow_get p (flows e)) as [f fs].
  destruct (match f with Some i => flow_rules p i fs | None => Some (fs, []) end) as [[fs1 al1]|] eqn:Hr; [|done].
  cbn. destruct (rule_portscan p (scans e)) as [sc al2]. intros [= <- <-]. cbn. rewrite bfilter_app. do 2 f_equal.
  destruct f as [i|]; [by apply no_scan_in_rules in Hr as ->|by injection Hr as <- <-].
Qed.

Lemma run_scans ps : ∀ hist e e' tr,
  scans e = scan_table hist → run e ps = Some (e', tr) → scans e' = scan_table (hist ++ ps).
Proof.
  induction ps as [|p ps IH]; intros hist e e' tr He; cbn [run].
  - intros [= <- <-]. by rewrite app_nil_r.
  - destruct (handle_event e p) as [[e1 al]|] eqn:Hh; [|done]. cbn.
    destruct (run e1 ps) as [[e2 tr2]|] eqn:Hr; [|done]. intros [= <- <-].
    apply handle_event_scan in Hh. rewrite He, scan_part_step in Hh. injection Hh as Hh _.
    assert (hist ++ p :: ps = (hist ++ [p]) ++ ps) as -> by (by rewrite <- app_assoc). by apply (IH _ e1 e2 tr2).
Qed.

(** The alerts of each kind come from one rule. *)
Lemma scan_alerts_after ps p al :
  alerts_after ps p = Some al →
  bfilter is_scan al
  = if decide (saddr p ∈ admitted MAX_SCAN_SRC (saddr <$> (ps ++ [p])))
    then (update_scan p (scan_of (saddr p) ps)).2 else [].
Proof.
  unfold alerts_after. destruct (run boot ps) as [[e tr]|] eqn:Hr; [|done]. cbn [mbind option_bind].
  destruct (handle_event e p) as [[e' al']|] eqn:Hh; [|done]. intros [= <-].
  apply handle_event_scan in Hh. rewrite (run_scans ps [] boot e tr eq_refl Hr) in Hh.
  cbn [app] in Hh. rewrite scan_part_step in Hh. injection Hh as _ ->. cbn [snd].
  case_decide; [|done]. apply bfilter_all, update_scan_alerts.
Qed.

Lemma flow_alerts_after kind ps p :
  few_packets (ps ++ [p]) → (∀ a, kind a = true → is_scan a = false) →
  ∃ al, alerts_after ps p = Some al
  ∧ bfilter kind al
    = if decide (pkt_key p ∈ admitted MAX_FLOWS (pkt_key <$> (ps ++ [p])))
      then bfilter kind (flow_update p (flow_of (pkt_key p) ps)).2 else [].
Proof.
  intros Hf Hk. eexists. split; [by apply alerts_after_of|]. unfold alerts_of. rewrite bfilter_app.
  rewrite (bfilter_none kind (if decide (saddr p ∈ _) then _ else _)).
  - rewrite app_nil_r. by case_decide.
  - case_decide; [|constructor]. eapply Forall_impl; [apply update_scan_alerts|].
    intros a Ha. destruct (kind a) eqn:E; [|done]. apply Hk in E. congruence.
Qed.

(** ** Theorems *)

(** [C6] The engine is a product of independent automata.  After any packet
    sequence in which no flow has more than 2^31 packets the flow table is
    the first 1024 distinct flows in order of arrival, each with the state
    that its own packets alone produce, the scan table is the first 64
    distinct sources likewise, all remaining slots are still zero, and every
    packet raised exactly the alerts of its own flow and its own source.  No
    write was outside an array. *)
Theorem engine_refines (ps : list flow_pkt) :
  few_packets ps →
  run boot ps
  = Some (mk_engine
      (((λ k, foldl (λ f p, (flow_update p f).1) (fresh_flow k) (of_flow k ps))
          <$> admitted MAX_FLOWS (pkt_key <$> ps))
       ++ replicate (MAX_FLOWS - length (admitted MAX_FLOWS (pkt_key <$> ps))) zero_flow)
      (((λ s, foldl (λ sc p, (update_scan p sc).1) (fresh_scan s) (of_src s ps))
          <$> admitted MAX_SCAN_SRC (saddr <$> ps))
       ++ replicate (MAX_SCAN_SRC - length (admitted MAX_SCAN_SRC (saddr <$> ps))) zero_scan),
    trace_of [] ps).
Proof.
  intros Hf. rewrite run_boot by done. do 2 f_equal. unfold engine_of, table_of. f_equal; f_equal.
  - apply list_fmap_ext. intros i k _. apply own_filter.
  - apply list_fmap_ext. intros i k _. apply own_filter.
Qed.

(** [C21] Whatever the traffic, as long as no flow has more than 2^31
    packets, the packets of one flow raise at most one beacon alert and at
    most one suspicious-port alert in total. *)
Theorem alerts_at_most_once (ps : list flow_pkt) (k : flow_id) :
  few_packets ps →
  ∃ e tr, run boot ps = Some (e, tr)
  ∧ (length (raised is_beacon k tr) ≤ 1)%nat
  ∧ (length (raised is_susp k tr) ≤ 1)%nat.
Proof.
  intros Hf. eexists _, _. split; [by apply run_boot|]. split.
  - pose proof (raised_flag is_beacon beacon_alerted k) as H. specialize (H ltac:(by intros [])).
    specialize (H (λ p f, proj1 (flow_update_alerts p f)) ps []). simpl. lia.
  - pose proof (raised_flag is_susp susp_alerted k) as H. specialize (H ltac:(by intros [])).
    specialize (H (λ p f, proj2 (flow_update_alerts p f)) ps []). simpl. lia.
Qed.

(** The ring of gaps: a flow that holds a slot has counted one gap per
    packet after its first, and its [j]-th gap, for each of the last
    eight, is in cell [j mod 8]. *)
Theorem gap_ring_latest (ps : list flow_pkt) (k : flow_id) :
  few_packets ps → Forall (λ p, ts_ns p ≠ 0) ps →
  k ∈ admitted MAX_FLOWS (pkt_key <$> ps) →
  ∃ e tr f, run boot ps = Some (e, tr) ∧ f ∈ flows e ∧ flow_key f = k
  ∧ ngaps f = Z.of_nat (length (of_flow k ps) - 1)
  ∧ ∀ j, (S j < length (of_flow k ps))%nat → (length (of_flow k ps) ≤ j + 9)%nat →
      gaps f !! (j `mod` 8)%nat = gap_at (of_flow k ps) j.
Proof.
  intros Hf Hts Hk. destruct (flow_slot k ps Hk) as (H1 & H2 & _). destruct (ring_ok_flow k ps Hts).
  eexists _, _, (flow_of k ps). split; [by apply run_boot|]. done.
Qed.

(** [C23] A flow whose packets come a whole number of seconds apart, between 1
    and 300, is reported as a beacon exactly at its sixth packet, whatever
    other traffic is mixed in, as long as no flow has more than 2^31
    packets. *)
Theorem periodic_flow_reported (ps : list flow_pkt) (p : flow_pkt) (t0 s : Z) :
  few_packets (ps ++ [p]) → 0 < t0 → 1 ≤ s ≤ 300 →
  t0 + Z.of_nat (length (of_flow (pkt_key p) (ps ++ [p]))) * (s * 10 ^ 9) < 2 ^ 64 →
  periodic t0 s (of_flow (pkt_key p) (ps ++ [p])) →
  pkt_key p ∈ admitted MAX_FLOWS (pkt_key <$> (ps ++ [p])) →
  ∃ al, alerts_after ps p = Some al
  ∧ (bfilter is_beacon al ≠ [] ↔ length (of_flow (pkt_key p) (ps ++ [p])) = 6%nat).
Proof.
  intros Hfew Ht0 Hs Hmax Hper Hadm.
  destruct (flow_alerts_after is_beacon ps p Hfew) as (al & Hal & Hb); [by intros []|].
  exists al. split; [done|]. rewrite Hb, decide_True by done. clear Hal Hb Hfew.
  set (k := pkt_key p) in *. set (qs := of_flow k ps).
  assert (Hqs : of_flow k (ps ++ [p]) = qs ++ [p]).
  { unfold k. by rewrite of_flow_app, of_flow_self. }
  rewrite Hqs, length_app, Nat.add_1_r in *. rewrite flow_of_fold. fold qs.
  assert (Hp : ts_ns p = t0 + Z.of_nat (length qs) * (s * 10 ^ 9)).
  { apply Hper. by apply list_lookup_middle. }
  assert (Hper' : ∀ n, periodic t0 s (take n qs)).
  { intros n i q Hi. apply Hper. apply lookup_take_Some in Hi as [Hi _]. rewrite lookup_app_l; [done|].
    by eapply lookup_lt_Some. }
  destruct (decide (length qs = 0)%nat) as [H0|H0].
  { apply length_zero_iff_nil in H0. rewrite H0. simpl. split; [|lia]. intros H. exfalso. apply H.
    apply no_gap_no_beacon. by destruct k as [[[a b] c] d]. }
  destruct (decide (length qs ≤ 5)%nat) as [H5|H5].
  - destruct (flow_update_even t0 s (length qs) (foldl touch (fresh_flow k) qs) p) as [_ ->];
      try done; [nia|lia| |lia].
    apply even_flow_fold; try done; [nia| |lia]. rewrite <- (firstn_all qs). apply Hper'.
  - split; [|lia]. intros H. exfalso. apply H.
    apply alerted_silent. rewrite <- (take_drop 6 qs), foldl_app. apply alerted_stays.
    assert (Hl : length (take 6 qs) = 6%nat) by (rewrite length_take; lia).
    destruct (even_flow_fold t0 s k (take 6 qs)) as [_ _ _ ->]; try done; rewrite Hl; [nia|lia|done].
Qed.

(** A suspicious-port alert is raised by the first packet of a flow that
    gets a slot, exactly when its destination port, in host order, is in the
    signature list; no later packet of the flow raises one. *)
Theorem susp_port_first_packet (ps : list flow_pkt) (p : flow_pkt) :
  few_packets (ps ++ [p]) →
  bfilter is_susp <$> alerts_after ps p
  = Some (if decide (pkt_key p ∈ admitted MAX_FLOWS (pkt_key <$> (ps ++ [p])) ∧ of_flow (pkt_key p) ps = [])
    then match signature suspicious (ntohs (dport p)) with
         | Some name => [SuspPort (saddr p) (daddr p) (ntohs (dport p)) name]
         | None => []
         end
    else []).
Proof.
  intros Hfew. destruct (flow_alerts_after is_susp ps p Hfew) as (al & -> & Hb); [by intros []|].
  cbn [fmap option_fmap option_map]. rewrite Hb. f_equal. clear Hb Hfew.
  destruct (decide (pkt_key p ∈ admitted MAX_FLOWS (pkt_key <$> (ps ++ [p])))) as [Hadm|Hadm];
    [|by rewrite decide_False by (intros [? _]; done)].
  pose proof (susp_flag (pkt_key p) ps) as Hs. cbn [key_port pkt_key] in Hs.
  unfold flow_update. destruct (rule_beacon_alerts p (flow_of (pkt_key p) ps)) as [_ Hb].
  destruct (rule_beacon_key p (flow_of (pkt_key p) ps)) as (_ & _ & Hk). rewrite Hs in Hk.
  destruct (beacon_step _ p) as [f1 al1]. cbn [fst snd] in *.
  unfold rule_suspicious_port. rewrite Hk.
  assert (Hal : bfilter is_susp al1 = []).
  { apply bfilter_none. eapply Forall_impl; [exact Hb|]. by intros []. }
  destruct (decide (of_flow (pkt_key p) ps = [])) as [H0|H0].
  - rewrite decide_True by done. rewrite (bool_decide_false (_ ≠ [])) by (intros H; by apply H).
    cbn [andb].
    destruct (signature suspicious (ntohs (dport p))); cbn [snd]; by rewrite bfilter_app, Hal.
  - rewrite decide_False by (intros [_ ?]; done). rewrite (bool_decide_true (_ ≠ [])) by done. cbn [andb].
    destruct (signature suspicious (ntohs (dport p))) as [name|].
    + rewrite bool_decide_true by eauto. cbn [snd]. by rewrite bfilter_app, Hal.
    + rewrite bool_decide_false by apply is_Some_None. cbn [snd]. by rewrite bfilter_app, Hal.
Qed.

Lemma windows_fit_snoc qs p : windows_fit (qs ++ [p]) → windows_fit qs.
Proof.
  intros Hfit n. destruct (Nat.le_ge_cases n (length qs)).
  - specialize (Hfit n). by rewrite take_app_le in Hfit.
  - specialize (Hfit (length qs)). rewrite take_app_le in Hfit by lia. by rewrite !take_ge in * by lia.
Qed.

(** [C8] The port-scan rule against the packet history.  For a source that
    holds a slot, with packets in time order and never more than 256 ports
    in a window, a packet raises a port-scan alert exactly when more than 20
    distinct ports were touched in the five seconds up to it and no alert
    was raised in the ten seconds before; the alert carries the number of
    those ports.  This holds of every run the program defines; the only
    others are those in which a flow has had more than 2^31 packets. *)
Theorem portscan_window (ps : list flow_pkt) (p : flow_pkt) :
  ordered (of_src (saddr p) (ps ++ [p])) →
  windows_fit (of_src (saddr p) (ps ++ [p])) →
  saddr p ∈ admitted MAX_SCAN_SRC (saddr <$> (ps ++ [p])) →
  match alerts_after ps p with
  | Some al =>
      bfilter is_scan al
      = if scan_due (of_src (saddr p) (ps ++ [p])) (last_alert_of (of_src (saddr p) ps)) p
        then [PortScan (saddr p) (Z.of_nat (size (window (of_src (saddr p) (ps ++ [p]))))) 5]
        else []
  | None => ¬ few_packets (ps ++ [p])
  end.
Proof.
  intros Ho Hfit Hadm.
  destruct (alerts_after ps p) as [al|] eqn:Hal; [|intros Hf; by rewrite alerts_after_of in Hal].
  rewrite (scan_alerts_after _ _ _ Hal), decide_True by done.
  assert (Hqs : of_src (saddr p) (ps ++ [p]) = of_src (saddr p) ps ++ [p]).
  { unfold of_src. by rewrite filter_app, filter_cons, filter_nil, decide_True. }
  rewrite Hqs in *. pose proof (proj1 (ordered_snoc _ _ Ho)) as Ho'.
  destruct (scan_of_view (saddr p) ps Ho') as [Hv Hla]; [by apply (windows_fit_snoc _ p)|].
  by destruct (update_scan_view _ _ _ Ho Hfit Hv Hla) as (_ & _ & ->).
Qed.

(** The alert time of a slot is the time of one of its packets. *)
Lemma update_scan_alert_ts p sc :
  last_alert_ts (update_scan p sc).1 = last_alert_ts sc ∨ last_alert_ts (update_scan p sc).1 = ts_ns p.
Proof.
  unfold update_scan, check_scan, record_port, expire.
  destruct (compact_loop _ _ _ _ _) as [a w]. simpl.
  destruct (find_index _ _); simpl; split_ifs; simpl; tauto.
Qed.

Lemma last_alert_cases qs : ∀ sc,
  let la := last_alert_ts (foldl (λ sc p, (update_scan p sc).1) sc qs) in
  la = last_alert_ts sc ∨ ∃ q, q ∈ qs ∧ la = ts_ns q.
Proof.
  induction qs as [|q qs IH]; intros sc; simpl; [by left|].
  destruct (IH (update_scan q sc).1) as [H|(r & Hr & H)]; [|right; exists r; set_solver].
  rewrite H. destruct (update_scan_alert_ts q sc) as [->| ->]; [by left|right; exists q; set_solver].
Qed.

Lemma update_scan_alerted p sc :
  (update_scan p sc).2 ≠ [] →
  last_alert_ts (update_scan p sc).1 = ts_ns p
  ∧ (last_alert_ts sc ≠ 0 → SCAN_COOLDOWN_NS < ts_ns p -64 last_alert_ts sc).
Proof.
  unfold update_scan, check_scan.
  assert (last_alert_ts (record_port p (expire (ts_ns p) sc)) = last_alert_ts sc) as ->.
  { unfold record_port, expire. destruct (compact_loop _ _ _ _ _) as [a w]. simpl.
    destruct (find_index _ _); simpl; by split_ifs. }
  destruct (_ && _) eqn:E; [|done]. intros _. simpl. split; [done|]. intros Hne.
  apply andb_true_iff in E as [_ E]. apply orb_true_iff in E as [E|E]; bool_to_prop; [done|lia].
Qed.

(** Two port-scan alerts for the same source are more than ten seconds
    apart, whatever happens between them, as long as time does not go
    backwards. *)
Theorem portscan_cooldown (ps qs : list flow_pkt) (p q : flow_pkt) (al al' : list alert) :
  saddr p = saddr q → ordered (ps ++ p :: qs ++ [q]) →
  alerts_after ps p = Some al → bfilter is_scan al ≠ [] →
  alerts_after (ps ++ p :: qs) q = Some al' → bfilter is_scan al' ≠ [] →
  SCAN_COOLDOWN_NS < ts_ns q - ts_ns p.
Proof.
  intros Hs [Hsorted Hts] Hal Hne Hal' Hne'. revert Hne Hne'.
  rewrite (scan_alerts_after _ _ _ Hal), (scan_alerts_after _ _ _ Hal').
  case_decide as H1; [|done]. case_decide as H2; [|done]. intros Hp Hq.
  apply StronglySorted_app in Hsorted as (_ & _ & Hsorted). inversion Hsorted as [|? ? Hsq Hle]; subst.
  apply StronglySorted_app in Hsq as (Hlast & _ & _).
  rewrite Forall_forall in Hle, Hts.
  assert (Hbetween : ∀ r, r ∈ qs → ts_ns p ≤ ts_ns r ≤ ts_ns q).
  { intros r Hr. split; [apply Hle; set_solver|apply (Hlast r q Hr); set_solver]. }
  assert (Hpq : ts_ns p ≤ ts_ns q) by (apply Hle; set_solver).
  assert (Hp0 : 0 < ts_ns p < 2 ^ 64) by (apply Hts; set_solver).
  assert (Hq0 : 0 < ts_ns q < 2 ^ 64) by (apply Hts; set_solver).
  apply update_scan_alerted in Hp as [Hp _].
  apply update_scan_alerted in Hq as [_ Hq].
  set (la := last_alert_ts (scan_of (saddr q) (ps ++ p :: qs))) in *.
  assert (Hla : ts_ns p ≤ la ≤ ts_ns q).
  { unfold la. rewrite own_filter, filter_app, filter_cons, decide_True, foldl_app by done. cbn [foldl].
    rewrite <- own_filter, <- Hs.
    destruct (last_alert_cases (filter (λ x, saddr x = saddr p) qs) (update_scan p (scan_of (saddr p) ps)).1)
      as [-> |(r & Hr & ->)]; [lia|].
    apply list_elem_of_filter in Hr as [_ Hr]. apply (Hbetween r Hr). }
  specialize (Hq ltac:(lia)). rewrite u64_small in Hq by lia. lia.
Qed.

(** ** The counter overflows *)

(** One packet of the flow in the first slot. *)
Lemma handle_first f rest sc p :
  f_used f = true → flow_key f = pkt_key p →
  match record_gap f p with
  | Some g => ∃ f' sc' al, handle_event (mk_engine (f :: rest) sc) p = Some (mk_engine (f' :: rest) sc', al)
      ∧ f_used f' = true ∧ flow_key f' = flow_key f ∧ ngaps f' = ngaps g ∧ last_ts f' = ts_ns p
  | None => handle_event (mk_engine (f :: rest) sc) p = None
  end.
Proof.
  intros Hu Hk. unfold handle_event, flow_get. cbn [flows scans slot_scan].
  rewrite Hu, flow_match_key, bool_decide_true by done. cbn [negb].
  unfold flow_rules, rule_beacon. cbn [lookup list_lookup].
  assert (Hg : ∀ g, record_gap f p = Some g → f_used g = true ∧ flow_key g = flow_key f ∧ last_ts g = ts_ns p).
  { intros g. unfold record_gap. destruct (last_ts f =? 0); cbn; [intros [= <-]; done|].
    destruct (_ <? 0); cbn; [done|]. by intros [= <-]. }
  destruct (record_gap f p) as [g|]; [|done]. specialize (Hg g eq_refl) as (Hu' & Hk' & Hl). cbn.
  assert (Hj : f_used (judge g).1 = true ∧ flow_key (judge g).1 = flow_key f ∧ ngaps (judge g).1 = ngaps g
    ∧ last_ts (judge g).1 = ts_ns p).
  { unfold judge. destruct (beacon_stats _ _). by split_ifs. }
  destruct (judge g) as [f1 al1]. cbn [fst] in Hj. destruct Hj as (J1 & J2 & J3 & J4).
  assert (Hs : f_used (rule_suspicious_port f1 p).1 = true ∧ flow_key (rule_suspicious_port f1 p).1 = flow_key f
    ∧ ngaps (rule_suspicious_port f1 p).1 = ngaps g ∧ last_ts (rule_suspicious_port f1 p).1 = ts_ns p).
  { unfold rule_suspicious_port. destruct (susp_alerted f1); [done|]. by case_match. }
  destruct (rule_suspicious_port f1 p) as [f2 al2]. cbn. destruct (rule_portscan p sc) as [sc' al3].
  eexists _, _, _. split; [done|exact Hs].
Qed.

Lemma run_app ps : ∀ e qs, run e (ps ++ qs) = '(e', tr) ← run e ps; '(e'', tr') ← run e' qs; Some (e'', tr ++ tr').
Proof.
  induction ps as [|p ps IH]; intros e qs; cbn [app run].
  - cbn. by destruct (run e qs) as [[? ?]|].
  - destruct (handle_event e p) as [[e1 al]|]; [|done]. cbn. rewrite IH.
    destruct (run e1 ps) as [[e2 tr]|]; [|done]. cbn. by destruct (run e2 qs) as [[? ?]|].
Qed.

Lemma admitted_one N (k : flow_id) ps :
  ps ≠ [] → Forall (λ p, pkt_key p = k) ps → admitted (S N) (pkt_key <$> ps) = [k].
Proof.
  intros Hne Hk. unfold admitted. assert (firsts (pkt_key <$> ps) = [k]) as ->; [|by rewrite take_ge by (simpl; lia)].
  induction ps as [|p ps IH] using rev_ind; [done|]. apply Forall_app in Hk as [Hk Hp].
  rewrite Forall_singleton in Hp. rewrite fmap_app. change (pkt_key <$> [p]) with [pkt_key p].
  rewrite firsts_snoc, Hp. clear Hne.
  destruct (decide (ps = [])) as [->|Hne]; [done|]. rewrite IH by done. by rewrite decide_True by set_solver.
Qed.

(** A table with one flow. *)
Lemma flow_table_one k ps :
  ps ≠ [] → Forall (λ p, pkt_key p = k) ps → ∃ rest, flow_table ps = flow_of k ps :: rest.
Proof.
  intros Hne Hk. unfold table_of, keys_of. change MAX_FLOWS with (S 1023). rewrite (admitted_one _ k) by done.
  cbn [fmap list_fmap app]. by eexists.
Qed.

(** What the counter becomes. *)
Lemma record_gap_count f p :
  last_ts f ≠ 0 →
  if Z.rem (ngaps f) MAX_GAPS <? 0 then record_gap f p = None
  else ∃ g, record_gap f p = Some g ∧ ngaps g = s32 (ngaps f + 1).
Proof.
  intros Hl. unfold record_gap. rewrite (proj2 (Z.eqb_neq _ _) Hl).
  destruct (_ <? 0); cbn; [done|]. by eexists.
Qed.

(** One more packet of the only flow. *)
Lemma one_more f rest sc p n :
  f_used f = true → flow_key f = pkt_key p → last_ts f ≠ 0 → ngaps f = n → (Z.rem n MAX_GAPS <? 0) = false →
  ∃ f' sc' al, handle_event (mk_engine (f :: rest) sc) p = Some (mk_engine (f' :: rest) sc', al)
  ∧ f_used f' = true ∧ flow_key f' = flow_key f ∧ ngaps f' = s32 (n + 1) ∧ last_ts f' = ts_ns p.
Proof.
  intros Hu Hk Hl <- Hr. pose proof (record_gap_count f p Hl) as Hg. rewrite Hr in Hg. destruct Hg as (g & Hg & Hn).
  pose proof (handle_first f rest sc p Hu Hk) as H. by rewrite Hg, Hn in H.
Qed.

(** [C20] The counter of gaps overflows.  When a flow alone has had 2^31
    packets, its counter is the largest [int]; the next packet makes it the
    smallest, and the third one after writes a gap seven cells before the
    ring: the run has no defined continuation. *)
Theorem gap_counter_overflows (ps : list flow_pkt) (a b c : flow_pkt) (k : flow_id) :
  Z.of_nat (length ps) = 2 ^ 31 →
  Forall (λ p, pkt_key p = k) (ps ++ [a; b; c]) →
  Forall (λ p, ts_ns p ≠ 0) (ps ++ [a; b; c]) →
  is_Some (run boot (ps ++ [a; b])) ∧ run boot (ps ++ [a; b; c]) = None.
Proof.
  intros Hlen Hk Hts. apply Forall_app in Hk as [Hk Hk']. apply Forall_app in Hts as [Hts Hts'].
  rewrite !Forall_cons in Hk', Hts'. destruct Hk' as (Ha & Hb & Hc & _), Hts' as (Ta & Tb & _ & _).
  assert (Hne : ps ≠ []) by (intros ->; simpl in Hlen; lia).
  assert (Hq : of_flow k ps = ps).
  { clear -Hk. unfold of_flow. induction Hk as [|p l Hp _ IH]; [done|]. by rewrite filter_cons, decide_True, IH. }
  destruct (flow_table_one k ps Hne Hk) as [rest Hfl].
  assert (Hboot : run boot ps = Some (mk_engine (flow_of k ps :: rest) (scan_table ps), trace_of [] ps)).
  { rewrite run_boot by (apply few_short; lia). unfold engine_of. by rewrite Hfl. }
  destruct (ring_ok_flow k ps Hts) as [_ Hl Hn _]. rewrite Hq in Hl, Hn.
  destruct (own_ok f_used flow_key pkt_key flow_update fresh_flow fresh_flow_ok flow_update_ok k ps) as [Hu Hkey].
  assert (Hlast : last_ts (flow_of k ps) ≠ 0).
  { rewrite Hl. destruct (last ps) as [q|] eqn:E; [|by apply last_None in E]. cbn.
    rewrite Forall_forall in Hts. apply Hts. by apply last_Some_elem_of. }
  assert (Hng : ngaps (flow_of k ps) = 2 ^ 31 - 1) by lia.
  destruct (one_more _ rest (scan_table ps) a _ Hu ltac:(congruence) Hlast Hng eq_refl) as (f1 & sc1 & al1 & E1 & Hu1 & Hk1 & Hn1 & Hl1).
  destruct (one_more f1 rest sc1 b _ Hu1 ltac:(congruence) ltac:(congruence) Hn1 eq_refl) as (f2 & sc2 & al2 & E2 & Hu2 & Hk2 & Hn2 & Hl2).
  pose proof (record_gap_count f2 c ltac:(congruence)) as Hg. rewrite Hn2 in Hg. cbn in Hg.
  pose proof (handle_first f2 rest sc2 c Hu2 ltac:(congruence)) as E3. rewrite Hg in E3.
  rewrite !run_app, Hboot. cbn [mbind option_bind run]. rewrite E1. cbn [mbind option_bind]. rewrite E2.
  cbn [mbind option_bind]. rewrite E3. by split; [eexists|].
Qed.

(** ** The tap *)

(** The frames the tap reports: Ethernet carrying IPv4 (bytes 12 and 13)
    carrying TCP or UDP (byte 23), with the first four bytes of the transport
    header present. *)
Definition tap_sees (f : list Z) : bool :=
  (38 <=? length f)%nat && (be_combine (bytes_at 12 2 f) =? ETH_P_IP)
  && ((be_combine (bytes_at 23 1 f) =? IPPROTO_TCP) || (be_combine (bytes_at 23 1 f) =? IPPROTO_UDP)).

Section tap_proof.
  Context {S : Type} `{!Skb S} {R : Type} `{!Ringbuf R flow_pkt}.
  Context `{!SkbLaws S} `{!RingbufLaws R flow_pkt}.

(** The record of a frame. *)
Definition tap_record (now : Z) (f : list Z) : flow_pkt :=
  mk_pkt now (field 4 26 f) (field 4 30 f) (field 2 34 f) (field 2 36 f) (u16 (Z.of_nat (length f))) (field 1 23 f).

Lemma ids_tap_record (now : Z) (skb : S) (r : R) :
  Forall is_byte (skb_bytes skb) →
  ids_tap now skb r
  = (0, match (if tap_sees (skb_bytes skb) then ringbuf_reserve r else None) with
        | Some (_, r') => ringbuf_submit r' (tap_record now (skb_bytes skb))
        | None => r
        end).
Proof.
  intros Hb. unfold ids_tap, tap_sees, ETH_HLEN, IP_HLEN. set (f := skb_bytes skb) in *.
  assert (Hshort : (length f < 38)%nat → (38 <=? length f)%nat = false) by (intros; by apply Nat.leb_gt).
  destruct (skb_load_cases skb 0 14) as [(Hl1 & ->)|(Hl1 & rc & b & -> & ->)]; fold f in Hl1 |- *;
    [|by rewrite Hshort by lia].
  cbn [Z.ltb]. rewrite field_bytes_at by lia.
  change (htons ETH_P_IP) with (htons (8 * 256 + 0)). rewrite field_eq_htons by (done || simpl; lia).
  change (8 * 256 + 0) with ETH_P_IP. cbn [Nat.add].
  destruct (be_combine (bytes_at 12 2 f) =? ETH_P_IP); cbn [negb]; [|by rewrite andb_false_r].
  rewrite andb_true_r.
  destruct (skb_load_cases skb 14 20) as [(Hl2 & ->)|(Hl2 & rc & b & -> & ->)]; fold f in Hl2 |- *;
    [|by rewrite Hshort by lia].
  cbn [Z.ltb]. rewrite !field_bytes_at by lia. cbn [Nat.add]. rewrite <- (field_one 23) by (done || lia).
  rewrite <- negb_orb.
  destruct ((field 1 23 f =? IPPROTO_TCP) || _); cbn [negb]; [|by rewrite andb_false_r].
  rewrite andb_true_r.
  destruct (skb_load_cases skb 34 4) as [(Hl3 & ->)|(Hl3 & rc & b & -> & ->)]; fold f in Hl3 |- *;
    [|by rewrite Hshort by lia].
  cbn [Z.ltb]. rewrite !field_bytes_at by lia. cbn [Nat.add].
  destruct (Nat.leb_spec 38 (length f)); [|lia].
  destruct (ringbuf_reserve r) as [[d r']|]; [|done]. unfold tap_record. by rewrite skb_len_bytes.
Qed.

(** The tap never keeps a packet from its destination (it returns 0) and
    submits one record for exactly the frames [tap_sees] describes, when the
    ring has room; the record's addresses and ports, swapped to host order,
    are the numbers the header's bytes spell. *)
Theorem ids_tap_exact (now : Z) (skb : S) (r : R) :
  Forall is_byte (skb_bytes skb) →
  (ids_tap now skb r).1 = 0
  ∧ match (if tap_sees (skb_bytes skb) then ringbuf_reserve r else None) with
    | None => (ids_tap now skb r).2 = r
    | Some _ =>
        ∃ e, ringbuf_records (ids_tap now skb r).2 = ringbuf_records r ++ [e]
        ∧ ts_ns e = now
        ∧ ntohl (saddr e) = be_combine (bytes_at 26 4 (skb_bytes skb))
        ∧ ntohl (daddr e) = be_combine (bytes_at 30 4 (skb_bytes skb))
        ∧ ntohs (sport e) = be_combine (bytes_at 34 2 (skb_bytes skb))
        ∧ ntohs (dport e) = be_combine (bytes_at 36 2 (skb_bytes skb))
        ∧ proto e = be_combine (bytes_at 23 1 (skb_bytes skb))
        ∧ len e = u16 (Z.of_nat (length (skb_bytes skb)))
    end.
Proof.
  intros Hb. rewrite ids_tap_record by done. split; [done|].
  destruct (tap_sees (skb_bytes skb)) eqn:Hs; [|done].
  destruct (ringbuf_reserve r) as [[d r']|] eqn:Hr; [|done].
  apply ringbuf_reserve_records in Hr. eexists. split; [simpl; by rewrite ringbuf_submit_records, Hr|].
  unfold tap_sees in Hs. apply andb_true_iff in Hs as [Hs _]. apply andb_true_iff in Hs as [Hl%Nat.leb_le _].
  cbn [ts_ns saddr daddr sport dport len proto tap_record]. split; [done|].
  rewrite !ntohl_field, !ntohs_field, field_one by (done || lia). done.
Qed.
End tap_proof.

(** ** Witnesses *)

Lemma size_window_le qs : (size (window qs) ≤ length qs)%nat.
Proof.
  transitivity (size (last_touch qs)).
  - unfold window. destruct (last qs); [apply map_size_filter|rewrite map_size_empty; apply Nat.le_0_l].
  - unfold last_touch. induction qs as [|q qs IH] using rev_ind; [done|].
    rewrite foldl_app, length_app. cbn [foldl length]. rewrite map_size_insert. case_match; simpl; lia.
Qed.

Lemma windows_fit_short qs : (length qs ≤ 256)%nat → windows_fit qs.
Proof. intros H n. pose proof (size_window_le (take n qs)). rewrite length_take in *. lia. Qed.

Fixpoint orderedb (qs : list flow_pkt) : bool :=
  match qs with
  | [] => true
  | p :: qs' =>
      (0 <? ts_ns p) && (ts_ns p <? 2 ^ 64) && forallb (λ q, ts_ns p <=? ts_ns q) qs' && orderedb qs'
  end.

Lemma orderedb_ordered qs : orderedb qs = true → ordered qs.
Proof.
  induction qs as [|p qs IH]; cbn [orderedb]; [by split; constructor|].
  intros H. bool_to_prop. destruct IH as [IH1 IH2]; [done|]. split; constructor; try done.
  match goal with H : forallb _ _ = true |- _ => rewrite forallb_forall in H; rename H into Hf end.
  apply Forall_forall. intros q Hq. apply Z.leb_le, Hf. by apply list_elem_of_In.
Qed.

(** A flow every two seconds, and a burst over 21 ports. *)
Definition ex_beat (i : nat) : flow_pkt := mk_pkt (10 ^ 9 + Z.of_nat i * (2 * 10 ^ 9)) 1 2 3 (htons 8080) 60 6.
Definition ex_probe (t : Z) (i : nat) : flow_pkt := mk_pkt (t * 10 ^ 9 + Z.of_nat i) 9 2 3 (Z.of_nat i) 60 6.

Lemma engine_refines_witness :
  run boot (ex_beat <$> seq 0 3) = Some (engine_of (ex_beat <$> seq 0 3), trace_of [] (ex_beat <$> seq 0 3)).
Proof. refine (eq_trans (engine_refines (ex_beat <$> seq 0 3) _) _); [apply few_short; discriminate|vm_compute; reflexivity]. Defined.

Lemma alerts_at_most_once_witness :
  ∃ e tr, run boot (ex_beat <$> seq 0 6) = Some (e, tr) ∧ (length (raised is_beacon (pkt_key (ex_beat 0)) tr) ≤ 1)%nat.
Proof.
  destruct (alerts_at_most_once (ex_beat <$> seq 0 6) (pkt_key (ex_beat 0))) as (e & tr & H1 & H2 & _);
    [apply few_short; discriminate|]. exists e, tr. split; [exact H1|exact H2].
Defined.

Lemma gap_counter_overflows_witness :
  run boot (replicate (Z.to_nat (2 ^ 31)) (ex_beat 0) ++ [ex_beat 0; ex_beat 0; ex_beat 0]) = None.
Proof.
  apply (gap_counter_overflows _ (ex_beat 0) (ex_beat 0) (ex_beat 0) (pkt_key (ex_beat 0))).
  - rewrite length_replicate. apply Z2Nat.id. discriminate.
  - apply Forall_app. split; [by apply Forall_replicate|by repeat constructor].
  - apply Forall_app. split; [by apply Forall_replicate|by repeat constructor].
Defined.

Lemma gap_ring_latest_witness :
  ∃ e tr f, run boot (ex_beat <$> seq 0 3) = Some (e, tr) ∧ f ∈ flows e ∧ ngaps f = 2
  ∧ gaps f !! 1%nat = Some (gap_between (ex_beat 1) (ex_beat 2)).
Proof.
  destruct (gap_ring_latest (ex_beat <$> seq 0 3) (pkt_key (ex_beat 0))) as (e & tr & f & H0 & H1 & _ & H2 & H3).
  - apply few_short. discriminate.
  - repeat constructor; discriminate.
  - apply (bool_decide_unpack _). vm_compute. exact I.
  - exists e, tr, f. split; [exact H0|]. split; [exact H1|]. split; [exact H2|].
    refine (eq_trans (H3 1%nat _ _) _); [apply Nat.ltb_lt|apply Nat.leb_le|]; vm_compute; reflexivity.
Defined.

Lemma periodic_flow_reported_witness :
  ∃ al, alerts_after (ex_beat <$> seq 0 5) (ex_beat 5) = Some al ∧ bfilter is_beacon al ≠ [].
Proof.
  destruct (periodic_flow_reported (ex_beat <$> seq 0 5) (ex_beat 5) (10 ^ 9) 2) as (al & H1 & H2).
  - apply few_short. discriminate.
  - lia.
  - lia.
  - vm_compute. reflexivity.
  - intros i p Hi. change (of_flow _ _) with (ex_beat <$> seq 0 6) in Hi.
    apply list_lookup_fmap_Some in Hi as (j & -> & Hj). apply lookup_seq in Hj as [-> _]. reflexivity.
  - apply (bool_decide_unpack _). vm_compute. exact I.
  - exists al. split; [exact H1|]. apply H2. reflexivity.
Defined.

Lemma susp_port_first_packet_witness :
  bfilter is_susp <$> alerts_after [] (mk_pkt 1 1 2 3 (htons 4444) 60 6)
  = Some [SuspPort 1 2 4444 "Metasploit/Meterpreter default"%string].
Proof.
  refine (eq_trans (susp_port_first_packet [] (mk_pkt 1 1 2 3 (htons 4444) 60 6) _) _);
    [apply few_short; discriminate|vm_compute; reflexivity].
Defined.

Lemma portscan_window_witness :
  bfilter is_scan <$> alerts_after (ex_probe 50 <$> seq 0 20) (ex_probe 50 20) = Some [PortScan 9 21 5].
Proof.
  pose proof (portscan_window (ex_probe 50 <$> seq 0 20) (ex_probe 50 20)) as H.
  destruct (alerts_after (ex_probe 50 <$> seq 0 20) (ex_probe 50 20)) as [al|].
  - cbn [fmap option_fmap option_map]. rewrite H.
    + vm_compute. reflexivity.
    + apply orderedb_ordered. vm_compute. reflexivity.
    + apply windows_fit_short. vm_compute. lia.
    + apply (bool_decide_unpack _). vm_compute. exact I.
  - exfalso. apply H.
    + apply orderedb_ordered. vm_compute. reflexivity.
    + apply windows_fit_short. vm_compute. lia.
    + apply (bool_decide_unpack _). vm_compute. exact I.
    + apply few_short. discriminate.
Defined.

Lemma portscan_cooldown_witness :
  SCAN_COOLDOWN_NS < ts_ns (ex_probe 61 20) - ts_ns (ex_probe 50 20).
Proof.
  eapply (portscan_cooldown (ex_probe 50 <$> seq 0 20) (ex_probe 61 <$> seq 0 20)).
  - reflexivity.
  - apply orderedb_ordered. vm_compute. reflexivity.
  - vm_compute. reflexivity.
  - discriminate.
  - vm_compute. reflexivity.
  - discriminate.
Defined.

(** A UDP datagram from 10.0.0.1:53 to 10.0.0.2:4444. *)
Definition ex_frame : list Z :=
  replicate 12 0 ++ [8; 0] ++ [69; 0; 0; 28; 0; 0; 0; 0; 64; 17; 0; 0; 10; 0; 0; 1; 10; 0; 0; 2]
  ++ [0; 53; 17; 92; 0; 8; 0; 0].

Lemma ids_tap_exact_witness :
  ∃ e, ringbuf_records (Ringbuf := list_ringbuf)
         (@ids_tap _ list_skb _ list_ringbuf 7 ex_frame (mk_ring [] 1 (mk_pkt 0 0 0 0 0 0 0))).2 = [e]
  ∧ ntohs (dport e) = 4444 ∧ ntohl (saddr e) = 10 * 2 ^ 24 + 1.
Proof.
  destruct (@ids_tap_exact _ list_skb _ list_ringbuf list_skb_laws list_ringbuf_laws
    7 ex_frame (mk_ring [] 1 (mk_pkt 0 0 0 0 0 0 0))) as [_ (e & H1 & _ & H2 & _ & _ & H3 & _)].
  - apply (bool_decide_unpack _). vm_compute. exact I.
  - exists e. split; [exact H1|]. split; [exact H3|exact H2].
Defined.
