(* ===== verification/Packet.v ===== *)
(** * Packet: direct packet access and per-CPU counters

    Shared by the datapath programs (chapters 17, 18 and 21).  An XDP program
    sees the bytes between [ctx->data] and [ctx->data_end]; [load] is a read
    through a pointer into them, which faults ([None]) outside the range, so
    a program whose result is never [None] reads only the packet.  Pointers
    are offsets from [ctx->data].

    [PercpuArray] is the interface of BPF_MAP_TYPE_PERCPU_ARRAY (and, with a
    single CPU, of BPF_MAP_TYPE_ARRAY). *)

From stdpp Require Import prelude gmap list strings.
From Stdlib Require Import ZArith Lia.
From S2P Require Import Prelude.
From S2P Require Import Kernel.

Definition ETH_P_IP : Z := 0x0800.
Definition ETH_P_ARP : Z := 0x0806.
Definition ETH_P_IPV6 : Z := 0x86DD.
Definition IPPROTO_ICMP : Z := 1.
Definition IPPROTO_TCP : Z := 6.
Definition IPPROTO_UDP : Z := 17.
Definition IPPROTO_ICMPV6 : Z := 58.

(** sizeof the headers of vmlinux.h. *)
Definition ETH_HLEN : nat := 14.
Definition IPHDR_LEN : nat := 20.
Definition IPV6HDR_LEN : nat := 40.
Definition UDPHDR_LEN : nat := 8.
Definition TCPHDR_LEN : nat := 20.

(** XDP actions. *)
Inductive xdp_action := XDP_DROP | XDP_PASS.

#[export] Instance xdp_action_eq_dec : EqDecision xdp_action.
Proof. solve_decision. Defined.

(** ** The default interface

    Chapters 17 and 18 have the same function: of the entries
    [if_nameindex()] returns ([None]: the call failed), the first that has a
    name other than lo, copied into a buffer of IF_NAMESIZE bytes. *)
Definition IF_NAMESIZE : nat := 16.

Fixpoint first_named (idx : list (option (list Z))) : option (list Z) :=
  match idx with
  | [] => None
  | Some name :: idx' =>
      if decide (name = str "lo") then first_named idx' else Some (take (IF_NAMESIZE - 1) name)
  | None :: idx' => first_named idx'
  end.

Definition pick_iface (idx : option (list (option (list Z)))) : list Z :=
  match idx with
  | Some idx => default (str "lo") (first_named idx)
  | None => str "lo"
  end.

(** ** Reads *)

(** A read of an [n]-byte unsigned field at offset [off]. *)
Definition load (n off : nat) (pkt : list Z) : option Z :=
  if (off + n <=? length pkt)%nat then Some (field n off pkt) else None.

(** [(void * )(data + n) > data_end]. *)
Definition past_end (n : nat) (pkt : list Z) : bool := (length pkt <? n)%nat.

Lemma load_ok n off pkt : (off + n ≤ length pkt)%nat → load n off pkt = Some (field n off pkt).
Proof. intros H. unfold load. by apply Nat.leb_le in H as ->. Qed.

Lemma past_end_false n pkt : past_end n pkt = false ↔ (n ≤ length pkt)%nat.
Proof. unfold past_end. rewrite Nat.ltb_ge. lia. Qed.

Lemma past_end_true n pkt : past_end n pkt = true ↔ (length pkt < n)%nat.
Proof. unfold past_end. apply Nat.ltb_lt. Qed.

(** The numbers in a packet, as the protocol documents define them: in
    network order. *)
Definition ethertype (pkt : list Z) : Z := be_combine (bytes_at 12 2 pkt).
Definition ip_protocol (pkt : list Z) : Z := be_combine (bytes_at 23 1 pkt).
Definition ip6_nexthdr (pkt : list Z) : Z := be_combine (bytes_at 20 1 pkt).
Definition dest_port (pkt : list Z) : Z := be_combine (bytes_at 36 2 pkt).

Lemma be_combine_range l : Forall is_byte l → 0 ≤ be_combine l < 256 ^ Z.of_nat (length l).
Proof.
  unfold be_combine. induction l as [|b l IH] using rev_ind; intros H; [simpl; lia|].
  apply Forall_app in H as [Hl Hb]. inversion_clear Hb as [|? ? Hb' _]. specialize (IH Hl).
  rewrite foldl_app, length_app. cbn [foldl length]. rewrite Nat2Z.inj_add, Z.pow_add_r by lia.
  unfold is_byte in Hb'. change (256 ^ Z.of_nat 1) with 256. nia.
Qed.

Lemma dest_port_range pkt :
  (38 ≤ length pkt)%nat → Forall is_byte pkt → 0 ≤ dest_port pkt < 65536.
Proof.
  intros Hl Hb. unfold dest_port. pose proof (be_combine_range (bytes_at 36 2 pkt)) as H.
  rewrite length_bytes_at in H by lia. apply H. by apply Forall_bytes_at.
Qed.

(** ** Per-CPU arrays *)

(** [pcpu_lookup a cpu i] is the value the program running on [cpu] finds in
    slot [i]; [pcpu_poke] is a store through that pointer; [pcpu_values] is
    the system call, one value per possible CPU. *)
Class PercpuArray (A V : Type) := {
  pcpu_lookup : A → nat → Z → option V;
  pcpu_poke : A → nat → Z → (V → V) → A;
  pcpu_values : A → Z → option (list V);
}.

(** Slots 0 to [max - 1] exist on each of [ncpu] CPUs; a store changes only
    the slot of the CPU that makes it. *)
Class PercpuArrayLaws (A V : Type) `{!PercpuArray A V} (ncpu : nat) (max : Z) : Prop := {
  pcpu_lookup_Some (a : A) (c : nat) (i : Z) :
    is_Some (pcpu_lookup a c i) ↔ (c < ncpu)%nat ∧ 0 ≤ i < max;
  pcpu_poke_same (a : A) (c : nat) (i : Z) (f : V → V) :
    pcpu_lookup (pcpu_poke a c i f) c i = f <$> pcpu_lookup a c i;
  pcpu_poke_other (a : A) (c c' : nat) (i i' : Z) (f : V → V) :
    (c, i) ≠ (c', i') → pcpu_lookup (pcpu_poke a c i f) c' i' = pcpu_lookup a c' i';
  pcpu_values_lookup (a : A) (i : Z) (l : list V) :
    pcpu_values a i = Some l → length l = ncpu ∧ ∀ c, l !! c = pcpu_lookup a c i;
  pcpu_values_Some (a : A) (i : Z) : is_Some (pcpu_values a i) ↔ 0 ≤ i < max;
}.

(** The sum over CPUs of a quantity of a slot. *)
Section sums.
  Context {A V : Type} `{!PercpuArray A V} {ncpu : nat} {max : Z} `{!PercpuArrayLaws A V ncpu max}.

Definition slot_sum (f : V → Z) (a : A) (i : Z) : Z :=
  sumZ (f <$> default [] (pcpu_values a i)).

(** A store that adds [d] to the quantity on one CPU, with wrap-around, adds
    [d] to the sum. *)
Lemma slot_sum_poke (f : V → Z) (a : A) c i g d :
  (∀ v, u64 (f (g v)) = u64 (f v + d)) → (c < ncpu)%nat → 0 ≤ i < max →
  u64 (slot_sum f (pcpu_poke a c i g) i) = u64 (slot_sum f a i + d).
Proof.
  intros Hg Hc Hi. unfold slot_sum.
  destruct (proj2 (pcpu_values_Some a i) Hi) as [l Hl].
  destruct (proj2 (pcpu_values_Some (pcpu_poke a c i g) i) Hi) as [l' Hl'].
  rewrite Hl, Hl'. simpl.
  destruct (pcpu_values_lookup _ _ _ Hl) as [Hn Hlk].
  destruct (pcpu_values_lookup _ _ _ Hl') as [Hn' Hlk'].
  destruct (proj2 (pcpu_lookup_Some a c i) (conj Hc Hi)) as [v Hv].
  assert (l' = <[c := g v]> l) as ->.
  { apply list_eq. intros j. rewrite Hlk'. destruct (decide (c = j)) as [<-|Hne].
    - rewrite pcpu_poke_same, Hv. rewrite list_lookup_insert_eq by lia. done.
    - rewrite pcpu_poke_other by congruence. by rewrite list_lookup_insert_ne, Hlk. }
  rewrite (sumZ_fmap_insert _ _ _ v) by (by rewrite Hlk).
  set (t := sumZ _). rewrite (Z.add_comm (t - f v)), (u64_congr _ (f v + d)) by apply Hg. f_equal. lia.
Qed.

Lemma slot_sum_poke_other (f : V → Z) (a : A) c i i' g :
  i ≠ i' → 0 ≤ i' < max → slot_sum f (pcpu_poke a c i g) i' = slot_sum f a i'.
Proof.
  intros Hne Hi. unfold slot_sum.
  destruct (proj2 (pcpu_values_Some a i') Hi) as [l Hl].
  destruct (proj2 (pcpu_values_Some (pcpu_poke a c i g) i') Hi) as [l' Hl'].
  rewrite Hl, Hl'. simpl. do 2 f_equal.
  destruct (pcpu_values_lookup _ _ _ Hl) as [_ Hlk].
  destruct (pcpu_values_lookup _ _ _ Hl') as [_ Hlk'].
  apply list_eq. intros j. rewrite Hlk, Hlk'. apply pcpu_poke_other. congruence.
Qed.
End sums.

(** A reference implementation: a list of slots for each CPU. *)
Definition list_pcpu (ncpu : nat) {V : Type} (max : nat) : PercpuArray (nat → Z → V) V := {|
  pcpu_lookup a c i :=
    if (c <? ncpu)%nat && (0 <=? i) && (i <? Z.of_nat max) then Some (a c i) else None;
  pcpu_poke a c i f := λ c' i', if decide ((c, i) = (c', i')) then f (a c' i') else a c' i';
  pcpu_values a i :=
    if (0 <=? i) && (i <? Z.of_nat max) then Some ((λ c, a c i) <$> seq 0 ncpu) else None;
|}.

Lemma list_pcpu_laws ncpu {V : Type} max :
  @PercpuArrayLaws (nat → Z → V) V (list_pcpu ncpu max) ncpu (Z.of_nat max).
Proof.
  split; simpl.
  - intros a c i. destruct (Nat.ltb_spec c ncpu), (Z.leb_spec 0 i), (Z.ltb_spec i (Z.of_nat max)); simpl;
      split; try (intros; lia); try (intros []; done); by eexists.
  - intros a c i f. destruct (_ && _); simpl; [|done]. by rewrite decide_True.
  - intros a c c' i i' f Hne. by rewrite decide_False.
  - intros a i l Hl. destruct (Z.leb_spec 0 i), (Z.ltb_spec i (Z.of_nat max)); simpl in Hl; try done.
    injection Hl as <-. rewrite length_fmap, length_seq. split; [done|]. intros c.
    rewrite list_lookup_fmap. simpl. rewrite andb_true_r.
    destruct (Nat.ltb_spec c ncpu).
    + rewrite lookup_seq_lt by done. done.
    + rewrite lookup_seq_ge by done. done.
  - intros a i. destruct (Z.leb_spec 0 i), (Z.ltb_spec i (Z.of_nat max)); simpl;
      split; try (intros; lia); try (intros []; done); by eexists.
Qed.
