(* ===== verification/Firewall.v ===== *)
(** * Firewall: the XDP firewall of chapter 21

    Models src/21-firewall: the program [xdp_fw] of xdpfw.bpf.c, and of
    xdpfw.c the parsing of the ports on the command line and the loop that
    installs them in the [blocklist] map.

    The theorems: the program never reads outside the packet; it drops a
    packet exactly when its TCP or UDP destination port was installed, and
    the counters are the numbers of drops; installing the parsed ports never
    fails for want of room. *)

From stdpp Require Import prelude gmap list strings.
From Stdlib Require Import ZArith Lia.
From S2P Require Import Prelude.
From S2P Require Import Kernel.
From S2P Require Import Libc.
From S2P Require Import Packet.

Definition MAX_RULES : Z := 64.

Section program.
  Context {M : Type} `{!BpfMap M Z Z}.

(** The end of the program: the rule lookup. *)
Definition apply_rule (dport : Z) (blocklist : M) : xdp_action * M :=
  match map_lookup_elem blocklist dport with
  | Some _ => (XDP_DROP, map_poke blocklist dport (λ dropped, dropped +64 1))
  | None => (XDP_PASS, blocklist)
  end.

(** [None]: a read outside the packet. *)
Definition xdp_fw (pkt : list Z) (blocklist : M) : option (xdp_action * M) :=
  if past_end ETH_HLEN pkt then Some (XDP_PASS, blocklist) else
  h_proto ← load 2 12 pkt;
  if negb (h_proto =? htons ETH_P_IP) then Some (XDP_PASS, blocklist) else
  let ip := ETH_HLEN in
  if past_end (ip + IPHDR_LEN) pkt then Some (XDP_PASS, blocklist) else
  let l4 := (ip + IPHDR_LEN)%nat in
  protocol ← load 1 (ip + 9) pkt;
  if protocol =? IPPROTO_UDP then
    if past_end (l4 + UDPHDR_LEN) pkt then Some (XDP_PASS, blocklist) else
    dest ← load 2 (l4 + 2) pkt;
    Some (apply_rule (ntohs dest) blocklist)
  else if protocol =? IPPROTO_TCP then
    if past_end (l4 + TCPHDR_LEN) pkt then Some (XDP_PASS, blocklist) else
    dest ← load 2 (l4 + 2) pkt;
    Some (apply_rule (ntohs dest) blocklist)
  else Some (XDP_PASS, blocklist).

(** Packets in order; [None] if any of them makes the program fault. *)
Fixpoint filter_packets (pkts : list (list Z)) (blocklist : M) : option (list xdp_action * M) :=
  match pkts with
  | [] => Some ([], blocklist)
  | p :: pkts' =>
      '(a, blocklist) ← xdp_fw p blocklist;
      '(l, blocklist) ← filter_packets pkts' blocklist;
      Some (a :: l, blocklist)
  end.

(** ** The loader *)

(** [for (i = 2; i < argc && nports < MAX_RULES; i++)] on the arguments from
    [argv[2]] on. *)
Fixpoint parse_ports (args : list (list Z)) (ports : list Z) : list Z :=
  match args with
  | [] => ports
  | a :: args' =>
      if Z.of_nat (length ports) <? MAX_RULES
      then parse_ports args' (ports ++ [u16 (atoi a)])
      else ports
  end.

Definition ports_of (argv : list (list Z)) : list Z :=
  let ports := parse_ports (drop 2 argv) [] in
  match ports with [] => [11111] | _ => ports end.

(** The loop that installs the rules; [None] when an update fails and the
    program cleans up and exits. *)
Fixpoint install_rules (ports : list Z) (bl : M) : option M :=
  match ports with
  | [] => Some bl
  | p :: ports' =>
      let '(rc, bl) := map_update_elem bl p 0 BPF_ANY in
      if rc =? 0 then install_rules ports' bl else None
  end.

(** The counts the status loop prints. *)
Definition drop_counts (ports : list Z) (bl : M) : list Z :=
  (λ p, default 0 (map_lookup_elem bl p)) <$> ports.
End program.

(** ** Specification *)

(** The destination port of an IPv4 TCP or UDP packet whose transport header
    is complete. *)
Definition fw_port (pkt : list Z) : option Z :=
  if negb (34 <=? length pkt)%nat then None
  else if negb (ethertype pkt =? ETH_P_IP) then None
  else if (ip_protocol pkt =? IPPROTO_UDP) && (42 <=? length pkt)%nat then Some (dest_port pkt)
  else if (ip_protocol pkt =? IPPROTO_TCP) && (54 <=? length pkt)%nat then Some (dest_port pkt)
  else None.

Definition hits (port : Z) (pkts : list (list Z)) : Z :=
  Z.of_nat (length (bfilter (λ p, bool_decide (fw_port p = Some port)) pkts)).

(** ** Lemmas *)

Section lemmas.
  Context {M : Type} `{!BpfMap M Z Z}.
  Implicit Types bl : M.

Lemma xdp_fw_port pkt bl :
  Forall is_byte pkt →
  xdp_fw pkt bl = Some match fw_port pkt with
                       | Some p => apply_rule p bl
                       | None => (XDP_PASS, bl)
                       end.
Proof.
  intros Hb. unfold xdp_fw, fw_port, ethertype, ip_protocol, dest_port, ETH_HLEN, IPHDR_LEN.
  destruct (past_end 14 pkt) eqn:H14.
  { apply past_end_true in H14. destruct (Nat.leb_spec 34 (length pkt)); [lia|done]. }
  apply past_end_false in H14. rewrite (load_ok 2 12) by lia. cbn [mbind option_bind].
  change (htons ETH_P_IP) with (htons (8 * 256 + 0)). rewrite field_eq_htons by (lia || auto with machine).
  change (8 * 256 + 0) with ETH_P_IP.
  destruct (past_end (14 + 20) pkt) eqn:H34.
  { apply past_end_true in H34. destruct (Nat.leb_spec 34 (length pkt)); [lia|]. simpl. by case_match. }
  apply past_end_false in H34. destruct (Nat.leb_spec 34 (length pkt)) as [_|]; [|lia]. cbn [negb].
  destruct (_ =? ETH_P_IP); cbn [negb]; [|done].
  cbn [Nat.add]. rewrite (load_ok 1 23) by lia. cbn [mbind option_bind]. rewrite (field_one 23) by (done || lia).
  unfold UDPHDR_LEN, TCPHDR_LEN.
  destruct (_ =? IPPROTO_UDP) eqn:Hu; cbn [andb].
  - destruct (past_end 42 pkt) eqn:H42.
    + apply past_end_true in H42. destruct (Nat.leb_spec 42 (length pkt)); [lia|].
      apply Z.eqb_eq in Hu. rewrite Hu. done.
    + apply past_end_false in H42. destruct (Nat.leb_spec 42 (length pkt)); [|lia].
      cbn [Nat.add]. rewrite (load_ok 2 36) by lia. cbn [mbind option_bind]. by rewrite ntohs_field by (done || lia).
  - destruct (_ =? IPPROTO_TCP); cbn [andb]; [|done].
    destruct (past_end 54 pkt) eqn:H54.
    + apply past_end_true in H54. destruct (Nat.leb_spec 54 (length pkt)); [lia|]. done.
    + apply past_end_false in H54. destruct (Nat.leb_spec 54 (length pkt)); [|lia].
      cbn [Nat.add]. rewrite (load_ok 2 36) by lia. cbn [mbind option_bind]. by rewrite ntohs_field by (done || lia).
Qed.

Context `{!BpfHashLaws M Z Z MAX_RULES}.

Lemma apply_rule_view p bl :
  (apply_rule p bl).1 = (if decide (is_Some (map_view bl !! p)) then XDP_DROP else XDP_PASS)
  ∧ map_view (apply_rule p bl).2 = alter (λ n, n +64 1) p (map_view bl).
Proof.
  unfold apply_rule. rewrite map_lookup_view. destruct (map_view bl !! p) eqn:E; cbn [fst snd].
  - rewrite map_poke_view. by rewrite decide_True by eauto.
  - rewrite decide_False by apply is_Some_None. split; [done|]. apply map_eq. intros j.
    destruct (decide (j = p)) as [->|]; [by rewrite lookup_alter_eq, E|by rewrite lookup_alter_ne].
Qed.

Lemma fw_port_range pkt p : Forall is_byte pkt → fw_port pkt = Some p → 0 ≤ p < 65536.
Proof.
  intros Hb. unfold fw_port.
  destruct (Nat.leb_spec 34 (length pkt)), (Nat.leb_spec 42 (length pkt)), (Nat.leb_spec 54 (length pkt));
    cbn [negb]; split_ifs; rewrite ?andb_false_r in *; try done; intros [= <-];
    apply dest_port_range; done || lia.
Qed.

(** The verdict on a packet under the rules [g]. *)
Definition verdict (g : gmap Z Z) (pkt : list Z) : xdp_action :=
  match fw_port pkt with
  | Some q => if decide (is_Some (g !! q)) then XDP_DROP else XDP_PASS
  | None => XDP_PASS
  end.

Lemma verdict_alter g q f pkt : verdict (alter f q g) pkt = verdict g pkt.
Proof.
  unfold verdict. destruct (fw_port pkt) as [p|]; [|done].
  destruct (decide (p = q)) as [->|]; [rewrite lookup_alter_eq|by rewrite lookup_alter_ne].
  by rewrite (decide_ext (is_Some (f <$> g !! q)) (is_Some (g !! q))) by (by rewrite fmap_is_Some).
Qed.

Lemma hits_cons q pkt pkts :
  hits q (pkt :: pkts) = (if decide (fw_port pkt = Some q) then 1 else 0) + hits q pkts.
Proof.
  unfold hits. cbn [bfilter]. case_decide; [rewrite bool_decide_true by done|rewrite bool_decide_false by done];
    cbn [length]; lia.
Qed.

(** The verdicts and the counters after a packet sequence. *)
Lemma filter_packets_spec pkts : ∀ bl,
  Forall (Forall is_byte) pkts →
  ∃ bl', filter_packets pkts bl = Some (verdict (map_view bl) <$> pkts, bl')
  ∧ ∀ q, match map_view bl !! q with
         | Some n => map_view bl' !! q = Some (if decide (hits q pkts = 0) then n else u64 (n + hits q pkts))
         | None => map_view bl' !! q = None
         end.
Proof.
  induction pkts as [|pkt pkts IH]; intros bl Hb; cbn [filter_packets].
  { exists bl. split; [done|]. intros q. destruct (map_view bl !! q); [|done]. done. }
  inversion_clear Hb as [|? ? Hp Hps]. rewrite xdp_fw_port by done. cbn [mbind option_bind].
  set (r := match fw_port pkt with Some p => apply_rule p bl | None => (XDP_PASS, bl) end).
  assert (Hr : r.1 = verdict (map_view bl) pkt ∧ map_view r.2
    = match fw_port pkt with Some p => alter (λ n, n +64 1) p (map_view bl) | None => map_view bl end).
  { unfold r, verdict. destruct (fw_port pkt); [apply apply_rule_view|done]. }
  destruct r as [a bl1]. cbn [fst snd] in Hr. destruct Hr as [-> Hv].
  destruct (IH bl1 Hps) as (bl' & -> & Hq). exists bl'. cbn [mbind option_bind]. split.
  - do 2 f_equal. csimpl. f_equal. apply list_fmap_ext. intros i p _. rewrite Hv.
    destruct (fw_port pkt); [apply verdict_alter|done].
  - intros q. specialize (Hq q). rewrite hits_cons. pose proof (Zle_0_nat (length
      (bfilter (λ p, bool_decide (fw_port p = Some q)) pkts))) as Hpos. fold (hits q pkts) in Hpos.
    rewrite Hv in Hq. destruct (decide (fw_port pkt = Some q)) as [Hfq|Hfq].
    + rewrite Hfq, lookup_alter_eq in Hq. destruct (map_view bl !! q) as [n|]; simpl in Hq; [|done].
      rewrite Hq. rewrite (decide_False (P := 1 + _ = 0)) by lia. case_decide as H0; f_equal.
      * rewrite H0. done.
      * rewrite u64_add_l. f_equal. lia.
    + destruct (fw_port pkt) as [p|]; [rewrite lookup_alter_ne in Hq by congruence|]; by rewrite Z.add_0_l.
Qed.

(** ** Installing rules *)

Lemma parse_ports_spec args ports :
  (length ports ≤ 64)%nat →
  parse_ports args ports = ports ++ take (64 - length ports) ((λ a, u16 (atoi a)) <$> args).
Proof.
  revert ports. induction args as [|a args IH]; intros ports Hl; cbn [parse_ports].
  { by rewrite fmap_nil, take_nil, app_nil_r. }
  unfold MAX_RULES. destruct (Z.ltb_spec (Z.of_nat (length ports)) 64).
  - rewrite IH by (rewrite length_app; simpl; lia). rewrite length_app. cbn [length].
    replace (64 - length ports)%nat with (S (64 - (length ports + 1))) by lia. csimpl.
    by rewrite <- app_assoc.
  - replace (64 - length ports)%nat with 0%nat by lia. by rewrite take_0, app_nil_r.
Qed.

Lemma ports_of_ok argv :
  (length (ports_of argv) ≤ 64)%nat ∧ ports_of argv ≠ [] ∧ Forall (λ p, 0 ≤ p < 65536) (ports_of argv).
Proof.
  unfold ports_of. rewrite parse_ports_spec by (simpl; lia). cbn [app length].
  set (l := take _ _). assert (Hl : (length l ≤ 64)%nat) by (unfold l; rewrite length_take; lia).
  assert (Hf : Forall (λ p, 0 ≤ p < 65536) l).
  { unfold l. apply Forall_take, Forall_fmap, Forall_forall. intros a _. apply u16_range. }
  destruct l; [|done]. split; [simpl; lia|]. split; [done|]. constructor; [lia|constructor].
Qed.

Lemma size_insert_le (g : gmap Z Z) k v : (size (<[k:=v]> g) ≤ S (size g))%nat.
Proof. rewrite map_size_insert. case_match; simpl; lia. Qed.

(** With room for all of them, every update succeeds. *)
Lemma install_rules_spec ports : ∀ bl,
  (size (map_view bl) + length ports ≤ 64)%nat →
  ∃ bl', install_rules ports bl = Some bl'
  ∧ ∀ q, map_view bl' !! q = if decide (q ∈ ports) then Some 0 else map_view bl !! q.
Proof.
  induction ports as [|p ports IH]; intros bl Hs; cbn [install_rules].
  { exists bl. split; [done|]. intros q. by rewrite decide_False by apply not_elem_of_nil. }
  destruct (map_update_elem bl p 0 BPF_ANY) as [rc bl1] eqn:E.
  apply hash_update_rc_view in E. unfold hash_update in E. cbn [length] in Hs.
  assert (E' : rc = 0 ∧ map_view bl1 = <[p := 0]> (map_view bl)).
  { destruct (map_view bl !! p); [by injection E|]. unfold MAX_RULES in E.
    destruct (Z.ltb_spec (Z.of_nat (size (map_view bl))) 64); [by injection E|lia]. }
  destruct E' as [-> Hv]. cbn [Z.eqb]. destruct (IH bl1) as (bl' & -> & Hq).
  { rewrite Hv. pose proof (size_insert_le (map_view bl) p 0). lia. }
  exists bl'. split; [done|]. intros q. rewrite Hq, Hv.
  destruct (decide (q = p)) as [->|Hne].
  - rewrite lookup_insert_eq. rewrite (decide_True (P := p ∈ p :: ports)) by set_solver. by case_decide.
  - rewrite lookup_insert_ne by done. by rewrite (decide_ext (q ∈ ports) (q ∈ p :: ports)) by set_solver.
Qed.
End lemmas.

(** ** Theorems *)

Section theorems.
  Context {M : Type} `{!BpfMap M Z Z}.

(** The program reads nothing outside the packet, whatever its length
    and content, and leaves the rules in place: the only change it can make
    to the map is to add one to the counter of a blocked port. *)
Theorem xdp_fw_exact `{!BpfHashLaws M Z Z MAX_RULES} (pkt : list Z) (bl : M) :
  Forall is_byte pkt →
  ∃ a bl', xdp_fw pkt bl = Some (a, bl')
  ∧ match fw_port pkt with
    | Some p =>
        0 ≤ p < 65536 ∧ map_view bl' = alter (λ n, n +64 1) p (map_view bl)
        ∧ (a = XDP_DROP ↔ is_Some (map_view bl !! p))
    | None => a = XDP_PASS ∧ bl' = bl
    end.
Proof.
  intros Hb. rewrite xdp_fw_port by done. destruct (fw_port pkt) as [p|] eqn:E.
  - destruct (apply_rule_view p bl) as [H1 H2]. destruct (apply_rule p bl) as [a bl']. cbn [fst snd] in *.
    exists a, bl'. split; [done|]. split.
    + by eapply fw_port_range.
    + split; [done|]. rewrite H1. case_decide; naive_solver.
  - by eexists _, _.
Qed.
End theorems.

Section firewall.
  Context {M : Type} `{!BpfMap M Z Z}.

(** The firewall from the command line to the counters.  Whatever the
    arguments, at most 64 ports are parsed and installing them in the empty
    map succeeds; then, over any sequence of packets, a packet is dropped
    exactly when its destination port is one of them, and the count printed
    for each port is the number of packets dropped on it. *)
Theorem firewall_end_to_end `{!BpfHashLaws M Z Z MAX_RULES}
    (argv : list (list Z)) (pkts : list (list Z)) :
  Forall (Forall is_byte) pkts →
  ∃ bl acts bl',
    install_rules (ports_of argv) (map_empty : M) = Some bl
    ∧ filter_packets pkts bl = Some (acts, bl')
    ∧ acts = (λ p, match fw_port p with
                   | Some q => if decide (q ∈ ports_of argv) then XDP_DROP else XDP_PASS
                   | None => XDP_PASS
                   end) <$> pkts
    ∧ drop_counts (ports_of argv) bl' = (λ q, u64 (hits q pkts)) <$> ports_of argv.
Proof.
  intros Hb. destruct (ports_of_ok argv) as (Hlen & _ & _).
  destruct (install_rules_spec (ports_of argv) (map_empty : M)) as (bl & Hbl & Hv).
  { rewrite map_empty_view, map_size_empty. lia. }
  destruct (filter_packets_spec pkts bl Hb) as (bl' & Hf & Hc).
  exists bl, (verdict (map_view bl) <$> pkts), bl'. split; [done|]. split; [done|].
  assert (Hv' : ∀ q, map_view bl !! q = if decide (q ∈ ports_of argv) then Some 0 else None).
  { intros q. by rewrite Hv, map_empty_view, lookup_empty. }
  split.
  - apply list_fmap_ext. intros i p _. unfold verdict. destruct (fw_port p) as [q|]; [|done].
    rewrite Hv'. destruct (decide (q ∈ ports_of argv)); [by rewrite decide_True by (by eexists)|by rewrite decide_False by apply is_Some_None].
  - unfold drop_counts. apply list_fmap_ext. intros i q Hq. specialize (Hc q).
    rewrite Hv', decide_True in Hc by (by eapply list_elem_of_lookup_2).
    rewrite map_lookup_view, Hc. simpl. case_decide as H0; [by rewrite H0|done].
Qed.
End firewall.

(** ** Witnesses *)

Definition ex_udp (hi lo : Z) : list Z :=
  replicate 12 0 ++ [8; 0; 69; 0; 0; 28; 0; 0; 0; 0; 64; 17; 0; 0; 10; 0; 0; 1; 10; 0; 0; 2; 0; 53; hi; lo; 0; 8; 0; 0].

Lemma xdp_fw_exact_witness :
  ∃ a bl', @xdp_fw _ (gmap_hash MAX_RULES) (ex_udp 43 103) {[ 11111 := 4 ]} = Some (a, bl')
  ∧ a = XDP_DROP ∧ bl' = {[ 11111 := 5 ]}.
Proof.
  destruct (@xdp_fw_exact _ (gmap_hash MAX_RULES) (gmap_hash_laws MAX_RULES) (ex_udp 43 103) {[ 11111 := 4 ]})
    as (a & bl' & H & Hp).
  - apply (bool_decide_unpack _). vm_compute. exact I.
  - change (fw_port (ex_udp 43 103)) with (Some 11111) in Hp. destruct Hp as (_ & Hv & Hd).
    exists a, bl'. split; [exact H|]. split.
    + apply Hd. eexists. reflexivity.
    + cbn [map_view gmap_hash] in Hv. rewrite Hv. vm_compute. reflexivity.
Defined.

(** xdpfw lo 11111 53, and three datagrams to ports 11111, 80 and 11111. *)
Lemma firewall_end_to_end_witness :
  ∃ bl acts bl',
    @install_rules _ (gmap_hash MAX_RULES) [11111; 53] ∅ = Some bl
    ∧ @filter_packets _ (gmap_hash MAX_RULES) [ex_udp 43 103; ex_udp 0 80; ex_udp 43 103] bl = Some (acts, bl')
    ∧ acts = [XDP_DROP; XDP_PASS; XDP_DROP]
    ∧ @drop_counts _ (gmap_hash MAX_RULES) [11111; 53] bl' = [2; 0].
Proof.
  destruct (@firewall_end_to_end _ (gmap_hash MAX_RULES) (gmap_hash_laws MAX_RULES)
    [str "xdpfw"; str "lo"; str "11111"; str " 53"] [ex_udp 43 103; ex_udp 0 80; ex_udp 43 103])
    as (bl & acts & bl' & H1 & H2 & H3 & H4).
  - apply (bool_decide_unpack _). vm_compute. exact I.
  - exists bl, acts, bl'. split; [exact H1|]. split; [exact H2|]. split; [exact H3|exact H4].
Defined.
