(* ===== verification/XdpCount.v ===== *)
(** * XdpCount: the packet counter of chapter 17

    Models src/17-xdp: [xdp_count] of xdpcount.bpf.c, the categories of
    xdpcount.h, and of xdpcount.c the choice of the interface and the sums the
    status loop prints.

    The theorems: the program never reads outside the packet and always
    passes it; on any interleaving of packets over the CPUs, the printed sum
    of a category is the number of packets of that category, and the sums
    together account for every packet. *)

From stdpp Require Import prelude gmap list strings.
From Stdlib Require Import ZArith Lia.
From S2P Require Import Prelude.
From S2P Require Import Kernel.
From S2P Require Import Packet.

Inductive pkt_cat :=
  | CAT_OTHER | CAT_TCP | CAT_UDP | CAT_ICMP | CAT_IPV4_OTHER | CAT_IPV6_OTHER | CAT_ARP.

#[export] Instance pkt_cat_eq_dec : EqDecision pkt_cat.
Proof. solve_decision. Defined.

(** The enumerator's value, which indexes the array. *)
Definition cat_index (c : pkt_cat) : Z :=
  match c with
  | CAT_OTHER => 0 | CAT_TCP => 1 | CAT_UDP => 2 | CAT_ICMP => 3
  | CAT_IPV4_OTHER => 4 | CAT_IPV6_OTHER => 5 | CAT_ARP => 6
  end.

Definition CAT_MAX : Z := 7.

Definition labels : list string :=
  ["other"; "TCP"; "UDP"; "ICMP"; "IPv4-other"; "IPv6-other"; "ARP"]%string.

(** The category the program computes before [done:]; [None]: a read outside
    the packet. *)
Definition classify (pkt : list Z) : option pkt_cat :=
  if past_end ETH_HLEN pkt then Some CAT_OTHER else
  proto ← load 2 12 pkt;
  let h_proto := ntohs proto in
  if h_proto =? ETH_P_ARP then Some CAT_ARP
  else if h_proto =? ETH_P_IP then
    if past_end (ETH_HLEN + IPHDR_LEN) pkt then Some CAT_OTHER else
    protocol ← load 1 (ETH_HLEN + 9) pkt;
    Some (if protocol =? IPPROTO_TCP then CAT_TCP
          else if protocol =? IPPROTO_UDP then CAT_UDP
          else if protocol =? IPPROTO_ICMP then CAT_ICMP
          else CAT_IPV4_OTHER)
  else if h_proto =? ETH_P_IPV6 then
    if past_end (ETH_HLEN + IPV6HDR_LEN) pkt then Some CAT_IPV6_OTHER else
    nexthdr ← load 1 (ETH_HLEN + 6) pkt;
    Some (if nexthdr =? IPPROTO_TCP then CAT_TCP
          else if nexthdr =? IPPROTO_UDP then CAT_UDP
          else if nexthdr =? IPPROTO_ICMPV6 then CAT_ICMP
          else CAT_IPV6_OTHER)
  else Some CAT_OTHER.

Section program.
  Context {A : Type} `{!PercpuArray A Z}.

Definition xdp_count (cpu : nat) (pkt : list Z) (counts : A) : option (xdp_action * A) :=
  cat ← classify pkt;
  Some (XDP_PASS,
        match pcpu_lookup counts cpu (cat_index cat) with
        | Some _ => pcpu_poke counts cpu (cat_index cat) (λ c, c +64 1)
        | None => counts
        end).

(** Packets in the order they arrive, each with the CPU that handles it. *)
Fixpoint receive (pkts : list (nat * list Z)) (counts : A) : option (list xdp_action * A) :=
  match pkts with
  | [] => Some ([], counts)
  | (cpu, p) :: pkts' =>
      '(a, counts) ← xdp_count cpu p counts;
      '(l, counts) ← receive pkts' counts;
      Some (a :: l, counts)
  end.

(** [for (i = 0; i < ncpu; i++) sum += vals[i]]. *)
Definition sum_cpus (vals : list Z) : Z := foldl (λ sum v, sum +64 v) 0 vals.

(** One round of the status loop: a label and a sum for each category. *)
Definition print_counts (counts : A) : list (string * Z) :=
  omap (λ '(i, label), vals ← pcpu_values counts (Z.of_nat i); Some (label, sum_cpus vals))
    (imap pair labels).
End program.

Definition default_iface (idx : option (list (option (list Z)))) : list Z := pick_iface idx.

(** ** Specification *)

(** The category of a packet by its header fields. *)
Definition category (pkt : list Z) : pkt_cat :=
  if negb (14 <=? length pkt)%nat then CAT_OTHER
  else if ethertype pkt =? ETH_P_ARP then CAT_ARP
  else if ethertype pkt =? ETH_P_IP then
    if negb (34 <=? length pkt)%nat then CAT_OTHER
    else if ip_protocol pkt =? IPPROTO_TCP then CAT_TCP
    else if ip_protocol pkt =? IPPROTO_UDP then CAT_UDP
    else if ip_protocol pkt =? IPPROTO_ICMP then CAT_ICMP
    else CAT_IPV4_OTHER
  else if ethertype pkt =? ETH_P_IPV6 then
    if negb (54 <=? length pkt)%nat then CAT_IPV6_OTHER
    else if ip6_nexthdr pkt =? IPPROTO_TCP then CAT_TCP
    else if ip6_nexthdr pkt =? IPPROTO_UDP then CAT_UDP
    else if ip6_nexthdr pkt =? IPPROTO_ICMPV6 then CAT_ICMP
    else CAT_IPV6_OTHER
  else CAT_OTHER.

Definition all_cats : list pkt_cat :=
  [CAT_OTHER; CAT_TCP; CAT_UDP; CAT_ICMP; CAT_IPV4_OTHER; CAT_IPV6_OTHER; CAT_ARP].

(** The number of packets of a category. *)
Definition tally (c : pkt_cat) (pkts : list (nat * list Z)) : Z :=
  Z.of_nat (length (bfilter (λ x, bool_decide (category x.2 = c)) pkts)).

(** ** Lemmas *)

Lemma classify_category pkt : Forall is_byte pkt → classify pkt = Some (category pkt).
Proof.
  intros Hb. unfold classify, category, ETH_HLEN, IPHDR_LEN, IPV6HDR_LEN. cbn [Nat.add].
  destruct (past_end 14 pkt) eqn:H14.
  { apply past_end_true in H14. destruct (Nat.leb_spec 14 (length pkt)); [lia|done]. }
  apply past_end_false in H14. destruct (Nat.leb_spec 14 (length pkt)); [|lia]. cbn [negb].
  rewrite (load_ok 2 12) by lia. cbn [mbind option_bind]. rewrite ntohs_field by (done || lia).
  fold (ethertype pkt). destruct (ethertype pkt =? ETH_P_ARP); [done|].
  destruct (ethertype pkt =? ETH_P_IP).
  - destruct (past_end 34 pkt) eqn:H34.
    + apply past_end_true in H34. by destruct (Nat.leb_spec 34 (length pkt)); [lia|].
    + apply past_end_false in H34. destruct (Nat.leb_spec 34 (length pkt)); [|lia].
      rewrite (load_ok 1 23) by lia. cbn [mbind option_bind]. by rewrite field_one by (done || lia).
  - destruct (ethertype pkt =? ETH_P_IPV6); [|done]. destruct (past_end 54 pkt) eqn:H54.
    + apply past_end_true in H54. by destruct (Nat.leb_spec 54 (length pkt)); [lia|].
    + apply past_end_false in H54. destruct (Nat.leb_spec 54 (length pkt)); [|lia].
      rewrite (load_ok 1 20) by lia. cbn [mbind option_bind]. by rewrite field_one by (done || lia).
Qed.

Lemma cat_index_range c : 0 ≤ cat_index c < CAT_MAX.
Proof. unfold CAT_MAX. destruct c; simpl; lia. Qed.

Lemma cat_index_inj c c' : cat_index c = cat_index c' → c = c'.
Proof. by destruct c, c'. Qed.

Lemma sum_cpus_sumZ l : sum_cpus l = u64 (sumZ l).
Proof.
  unfold sum_cpus. assert (H : ∀ a, foldl (λ sum v, sum +64 v) (u64 a) l = u64 (a + sumZ l)).
  { induction l as [|v l IH]; intros a; [by rewrite Z.add_0_r|]. cbn [foldl]. rewrite u64_add_l, IH.
    unfold sumZ. simpl. f_equal. lia. }
  exact (H 0).
Qed.

Section run.
  Context {A : Type} `{!PercpuArray A Z} (ncpu : nat) `{!PercpuArrayLaws A Z ncpu CAT_MAX}.
  Notation total a c := (slot_sum id (a : A) (cat_index c)).

(** One packet adds one to its category and nothing to the others. *)
Lemma xdp_count_total cpu pkt a :
  Forall is_byte pkt → (cpu < ncpu)%nat →
  ∃ a', xdp_count cpu pkt a = Some (XDP_PASS, a')
  ∧ ∀ c, u64 (total a' c) = u64 (total a c + if decide (category pkt = c) then 1 else 0).
Proof.
  intros Hb Hc. unfold xdp_count. rewrite classify_category by done. cbn [mbind option_bind].
  pose proof (cat_index_range (category pkt)) as Hi.
  destruct (proj2 (pcpu_lookup_Some a cpu (cat_index (category pkt))) (conj Hc Hi)) as [v Hv].
  rewrite Hv. eexists. split; [done|]. intros c. case_decide as Hcat.
  - rewrite <- Hcat. rewrite (slot_sum_poke id a cpu (cat_index (category pkt)) _ 1); [done| |done|done].
    intros w. apply u64_idemp.
  - rewrite (slot_sum_poke_other (ncpu := ncpu) (max := CAT_MAX)), Z.add_0_r; [done| |apply cat_index_range].
    intros H. by apply cat_index_inj in H.
Qed.

Lemma tally_cons c x pkts :
  tally c (x :: pkts) = (if decide (category x.2 = c) then 1 else 0) + tally c pkts.
Proof.
  unfold tally. cbn [bfilter]. case_decide;
    [rewrite bool_decide_true by done|rewrite bool_decide_false by done]; cbn [length]; lia.
Qed.

Lemma receive_total pkts : ∀ a,
  Forall (λ x, Forall is_byte x.2 ∧ (x.1 < ncpu)%nat) pkts →
  ∃ a', receive pkts a = Some (replicate (length pkts) XDP_PASS, a')
  ∧ ∀ c, u64 (total a' c) = u64 (total a c + tally c pkts).
Proof.
  induction pkts as [|[cpu p] pkts IH]; intros a Hf; cbn [receive].
  { exists a. split; [done|]. intros c. unfold tally. simpl. by rewrite Z.add_0_r. }
  inversion_clear Hf as [|? ? [Hb Hc] Hf']. destruct (xdp_count_total cpu p a Hb Hc) as (a1 & -> & H1).
  cbn [mbind option_bind]. destruct (IH a1 Hf') as (a' & -> & H2). exists a'.
  cbn [mbind option_bind length replicate]. split; [done|]. intros c.
  rewrite H2, (u64_congr _ _ _ (H1 c)), tally_cons. f_equal. cbn [snd]. lia.
Qed.

Lemma tally_total pkts : sumZ ((λ c, tally c pkts) <$> all_cats) = Z.of_nat (length pkts).
Proof.
  induction pkts as [|x pkts IH]; [done|]. unfold all_cats in *. cbn [fmap list_fmap] in *.
  rewrite !tally_cons. unfold sumZ in *. cbn [foldr length] in *.
  destruct (category x.2); repeat case_decide; try done; lia.
Qed.

Lemma print_counts_sums a :
  print_counts a = zip labels ((λ c, u64 (total a c)) <$> all_cats).
Proof.
  unfold print_counts, labels, all_cats. cbn [imap fmap list_fmap zip zip_with].
  assert (H : ∀ i c, cat_index c = Z.of_nat i →
    ∃ vals, pcpu_values a (Z.of_nat i) = Some vals ∧ sum_cpus vals = u64 (total a c)).
  { intros i c Hi. pose proof (cat_index_range c) as Hr. rewrite Hi in Hr.
    destruct (proj2 (pcpu_values_Some a (Z.of_nat i)) Hr) as [vals Hv]. exists vals. split; [done|].
    rewrite sum_cpus_sumZ. unfold slot_sum. rewrite Hi, Hv. simpl. by rewrite list_fmap_id. }
  destruct (H 0%nat CAT_OTHER eq_refl) as (v0 & E0 & <-).
  destruct (H 1%nat CAT_TCP eq_refl) as (v1 & E1 & <-).
  destruct (H 2%nat CAT_UDP eq_refl) as (v2 & E2 & <-).
  destruct (H 3%nat CAT_ICMP eq_refl) as (v3 & E3 & <-).
  destruct (H 4%nat CAT_IPV4_OTHER eq_refl) as (v4 & E4 & <-).
  destruct (H 5%nat CAT_IPV6_OTHER eq_refl) as (v5 & E5 & <-).
  destruct (H 6%nat CAT_ARP eq_refl) as (v6 & E6 & <-).
  cbn [omap list_omap imap Init.Nat.add compose]. rewrite E0, E1, E2, E3, E4, E5, E6. done.
Qed.
End run.

(** Counters at zero add up to zero. *)
Lemma zero_total {A} `{!PercpuArray A Z} {ncpu max} `{!PercpuArrayLaws A Z ncpu max} (a : A) i :
  (∀ c i v, pcpu_lookup a c i = Some v → v = 0) → slot_sum id a i = 0.
Proof.
  intros Hz. unfold slot_sum. destruct (pcpu_values a i) as [l|] eqn:El; [|done]. simpl.
  destruct (pcpu_values_lookup _ _ _ El) as [_ Hl].
  assert (Hall : Forall (λ v, v = 0) l).
  { apply Forall_lookup. intros j v Hj. rewrite Hl in Hj. by eapply Hz. }
  clear -Hall. induction Hall as [|v l -> _ IH]; [done|].
  change (0 + sumZ (id <$> l) = 0). rewrite Z.add_0_l. exact IH.
Qed.

(** ** Theorems *)

Section theorems.
  Context {A : Type} `{!PercpuArray A Z} (ncpu : nat).

(** From counters at zero, on any interleaving of packets over the CPUs,
    no packet makes the program read outside its bytes, every packet is
    passed on, and the sums the loader prints are, label by label, the
    numbers of packets in each category; together they count every packet. *)
Theorem xdp_count_exact `{!PercpuArrayLaws A Z ncpu CAT_MAX} (pkts : list (nat * list Z)) (a : A) :
  Forall (λ x, Forall is_byte x.2 ∧ (x.1 < ncpu)%nat) pkts →
  (∀ c i v, pcpu_lookup a c i = Some v → v = 0) →
  ∃ a', receive pkts a = Some (replicate (length pkts) XDP_PASS, a')
  ∧ print_counts a' = zip labels ((λ c, u64 (tally c pkts)) <$> all_cats)
  ∧ sumZ ((λ c, tally c pkts) <$> all_cats) = Z.of_nat (length pkts).
Proof.
  intros Hf Hz. destruct (receive_total ncpu pkts a Hf) as (a' & Hr & Ht). exists a'.
  split; [done|]. split; [|apply tally_total]. rewrite (print_counts_sums ncpu). f_equal.
  apply list_fmap_ext. intros i c _. rewrite Ht. f_equal.
  rewrite (zero_total a) by done. lia.
Qed.
End theorems.

(** ** Witness *)

(** An ARP frame on CPU 0, a UDP datagram on CPU 1 and a truncated frame. *)
Definition ex_eth (hi lo : Z) : list Z := replicate 12 0 ++ [hi; lo].
Definition ex_pkts : list (nat * list Z) :=
  [(0%nat, ex_eth 8 6); (1%nat, ex_eth 8 0 ++ replicate 9 0 ++ [17] ++ replicate 10 0); (1%nat, [1; 2; 3])].

Lemma xdp_count_exact_witness :
  ∃ a', @receive _ (list_pcpu 2 7) ex_pkts (λ _ _, 0) = Some ([XDP_PASS; XDP_PASS; XDP_PASS], a')
  ∧ @print_counts _ (list_pcpu 2 7) a'
    = [("other", 1); ("TCP", 0); ("UDP", 1); ("ICMP", 0); ("IPv4-other", 0); ("IPv6-other", 0); ("ARP", 1)]%string.
Proof.
  destruct (@xdp_count_exact _ (list_pcpu 2 7) 2 (list_pcpu_laws 2 7) ex_pkts (λ _ _, 0))
    as (a' & H1 & H2 & _).
  - apply (bool_decide_unpack _). vm_compute. exact I.
  - intros c i v. simpl. destruct (_ && _); [|discriminate]. intros H. injection H as <-. reflexivity.
  - exists a'. split; [exact H1|]. rewrite H2. vm_compute. reflexivity.
Defined.
