(* ===== verification/TcStat.v ===== *)
(** * TcStat: traffic counters at tc ingress and egress (chapter 18)

    Models src/18-tc: [account], [tc_ingress] and [tc_egress] of
    tcstat.bpf.c; the status loop and [main] of tcstat.c.  [main] is a
    function of what its calls return; its result is the exit status and the
    calls that change the system, in order.

    The theorems: no packet is held back, and the printed packets and bytes of
    each direction are those of the packets seen there, on any interleaving
    over the CPUs; the exit status is 0 exactly when every step succeeded;
    everything acquired is released; and a clsact qdisc that was there before
    is removed all the same. *)

From stdpp Require Import prelude gmap list strings.
From Stdlib Require Import ZArith Lia.
From S2P Require Import Prelude.
From S2P Require Import Kernel.
From S2P Require Import Packet.

Definition TC_ACT_OK : Z := 0.
Definition DIR_MAX : Z := 2.

Inductive direction := DIR_INGRESS | DIR_EGRESS.

#[export] Instance direction_eq_dec : EqDecision direction.
Proof. solve_decision. Defined.

Definition dir_index (d : direction) : Z := match d with DIR_INGRESS => 0 | DIR_EGRESS => 1 end.
Definition dir_label : list string := ["ingress"; "egress"]%string.

Record datarec := mk_rec { packets : Z; bytes : Z }.

Section program.
  Context {A : Type} `{!PercpuArray A datarec}.

(** [skb->len] is a [__u32]. *)
Definition account (cpu : nat) (skb_len : Z) (dir : direction) (stats : A) : Z * A :=
  match pcpu_lookup stats cpu (dir_index dir) with
  | Some _ =>
      let stats := pcpu_poke stats cpu (dir_index dir) (λ r, mk_rec (packets r +64 1) (bytes r)) in
      let stats := pcpu_poke stats cpu (dir_index dir) (λ r, mk_rec (packets r) (bytes r +64 skb_len)) in
      (TC_ACT_OK, stats)
  | None => (TC_ACT_OK, stats)
  end.

Definition tc_ingress (cpu : nat) (skb_len : Z) (stats : A) : Z * A := account cpu skb_len DIR_INGRESS stats.
Definition tc_egress (cpu : nat) (skb_len : Z) (stats : A) : Z * A := account cpu skb_len DIR_EGRESS stats.

(** A packet passing one of the hooks on a CPU. *)
Record passing := mk_passing { p_cpu : nat; p_dir : direction; p_len : Z }.

Definition hook_run (p : passing) (stats : A) : Z * A :=
  match p_dir p with
  | DIR_INGRESS => tc_ingress (p_cpu p) (p_len p) stats
  | DIR_EGRESS => tc_egress (p_cpu p) (p_len p) stats
  end.

Fixpoint traffic (ps : list passing) (stats : A) : list Z * A :=
  match ps with
  | [] => ([], stats)
  | p :: ps' =>
      let '(rc, stats) := hook_run p stats in
      let '(rcs, stats) := traffic ps' stats in
      (rc :: rcs, stats)
  end.

(** One round of the status loop. *)
Definition sum_records (recs : list datarec) : Z * Z :=
  foldl (λ '(pkts, byts) r, (pkts +64 packets r, byts +64 bytes r)) (0, 0) recs.

Definition print_stats (stats : A) : list (string * (Z * Z)) :=
  omap (λ '(i, label), recs ← pcpu_values stats (Z.of_nat i); Some (label, sum_records recs))
    (imap pair dir_label).
End program.

Definition default_iface (idx : option (list (option (list Z)))) : list Z := pick_iface idx.

(** ** The loader *)

(** What the calls of [main] return: whether the interface exists and the
    skeleton loads, and the results of the three libbpf calls. *)
Record outcome := mk_outcome {
  o_ifindex : bool;
  o_load : bool;
  o_hook_create : Z;
  o_attach_ingress : Z;
  o_attach_egress : Z;
}.

(** The calls that change the system. *)
Inductive call :=
  | OpenLoad | HookCreate | Attach (d : direction) | HookDestroy | Destroy.

#[export] Instance call_eq_dec : EqDecision call.
Proof. solve_decision. Defined.

(** The code from [cleanup:]. *)
Definition cleanup (err : Z) (tr : list call) : Z * list call :=
  (if err =? 0 then 0 else 1, tr ++ [HookDestroy; Destroy]).

(** Exit status and calls; the status loop ends with a signal. *)
Definition main (o : outcome) : Z * list call :=
  if negb (o_ifindex o) then (1, []) else
  if negb (o_load o) then (1, [OpenLoad]) else
  let tr := [OpenLoad; HookCreate] in
  let err := o_hook_create o in
  if negb (err =? 0) && negb (err =? - EEXIST) then cleanup err tr else
  let tr := tr ++ [Attach DIR_INGRESS] in
  let err := o_attach_ingress o in
  if negb (err =? 0) then cleanup err tr else
  let tr := tr ++ [Attach DIR_EGRESS] in
  let err := o_attach_egress o in
  if negb (err =? 0) then cleanup err tr else
  cleanup err tr.

(** ** Specification *)

Definition pkts_of (d : direction) (ps : list passing) : Z :=
  Z.of_nat (length (bfilter (λ p, bool_decide (p_dir p = d)) ps)).
Definition bytes_of (d : direction) (ps : list passing) : Z :=
  sumZ (p_len <$> bfilter (λ p, bool_decide (p_dir p = d)) ps).

(** ** Lemmas *)

Lemma dir_index_range d : 0 ≤ dir_index d < DIR_MAX.
Proof. unfold DIR_MAX. destruct d; simpl; lia. Qed.

Lemma dir_index_inj d d' : dir_index d = dir_index d' → d = d'.
Proof. by destruct d, d'. Qed.

Lemma sum_records_sumZ recs :
  sum_records recs = (u64 (sumZ (packets <$> recs)), u64 (sumZ (bytes <$> recs))).
Proof.
  unfold sum_records.
  assert (H : ∀ a b, foldl (λ '(pkts, byts) r, (pkts +64 packets r, byts +64 bytes r)) (u64 a, u64 b) recs
    = (u64 (a + sumZ (packets <$> recs)), u64 (b + sumZ (bytes <$> recs)))).
  { induction recs as [|r recs IH]; intros a b; [by rewrite !Z.add_0_r|]. cbn [foldl].
    rewrite !u64_add_l, IH. unfold sumZ. csimpl. do 2 f_equal; lia. }
  exact (H 0 0).
Qed.

Section run.
  Context {A : Type} `{!PercpuArray A datarec} (ncpu : nat) `{!PercpuArrayLaws A datarec ncpu DIR_MAX}.
  Notation pkt_sum a d := (slot_sum packets (a : A) (dir_index d)).
  Notation byte_sum a d := (slot_sum bytes (a : A) (dir_index d)).

Lemma account_sums cpu n d (a : A) :
  (cpu < ncpu)%nat →
  (account cpu n d a).1 = TC_ACT_OK
  ∧ ∀ d', u64 (pkt_sum (account cpu n d a).2 d') = u64 (pkt_sum a d' + if decide (d = d') then 1 else 0)
  ∧ u64 (byte_sum (account cpu n d a).2 d') = u64 (byte_sum a d' + if decide (d = d') then n else 0).
Proof.
  intros Hc. pose proof (dir_index_range d) as Hd. unfold account.
  destruct (proj2 (pcpu_lookup_Some a cpu (dir_index d)) (conj Hc Hd)) as [v Hv]. rewrite Hv.
  split; [done|]. intros d'. cbn [snd]. case_decide as Hdd.
  - subst d'. split.
    + rewrite (slot_sum_poke packets _ cpu (dir_index d) _ 0), Z.add_0_r by (done || intros; by rewrite Z.add_0_r).
      apply slot_sum_poke; [|done|done]. intros w. apply u64_idemp.
    + rewrite (slot_sum_poke bytes _ cpu (dir_index d) _ n) by (done || intros; apply u64_idemp).
      apply u64_congr. rewrite (slot_sum_poke bytes a cpu (dir_index d) _ 0), Z.add_0_r by (done || intros; by rewrite Z.add_0_r).
      done.
  - assert (dir_index d ≠ dir_index d') by (intros H; by apply dir_index_inj in H).
    rewrite !(slot_sum_poke_other (ncpu := ncpu) (max := DIR_MAX)), !Z.add_0_r by (done || apply dir_index_range).
    done.
Qed.

Lemma of_dir_cons d p ps :
  pkts_of d (p :: ps) = (if decide (p_dir p = d) then 1 else 0) + pkts_of d ps
  ∧ bytes_of d (p :: ps) = (if decide (p_dir p = d) then p_len p else 0) + bytes_of d ps.
Proof.
  unfold pkts_of, bytes_of. cbn [bfilter].
  case_decide; [rewrite bool_decide_true by done|rewrite bool_decide_false by done]; cbn [length]; csimpl;
    unfold sumZ; simpl; lia.
Qed.

Lemma traffic_sums ps : ∀ a : A,
  Forall (λ p, p_cpu p < ncpu)%nat ps →
  (traffic ps a).1 = replicate (length ps) TC_ACT_OK
  ∧ ∀ d, u64 (pkt_sum (traffic ps a).2 d) = u64 (pkt_sum a d + pkts_of d ps)
  ∧ u64 (byte_sum (traffic ps a).2 d) = u64 (byte_sum a d + bytes_of d ps).
Proof.
  induction ps as [|p ps IH]; intros a Hf; cbn [traffic].
  { split; [done|]. intros d. unfold pkts_of, bytes_of. simpl. by rewrite !Z.add_0_r. }
  inversion_clear Hf as [|? ? Hc Hf'].
  assert (Hh : hook_run p a = account (p_cpu p) (p_len p) (p_dir p) a) by (unfold hook_run; by destruct (p_dir p)).
  rewrite Hh. destruct (account_sums (p_cpu p) (p_len p) (p_dir p) a Hc) as [H1 H2].
  destruct (account _ _ _ a) as [rc a1]. cbn [fst snd] in *. subst rc.
  destruct (IH a1 Hf') as [H3 H4]. destruct (traffic ps a1) as [rcs a2]. cbn [fst snd] in *.
  split; [by rewrite H3|]. intros d. destruct (H2 d) as [H5 H6], (H4 d) as [H7 H8], (of_dir_cons d p ps) as [-> ->].
  rewrite H7, H8, (u64_congr _ _ _ H5), (u64_congr _ _ _ H6). split; f_equal; lia.
Qed.
End run.

Lemma zero_slots {A} `{!PercpuArray A datarec} {ncpu max} `{!PercpuArrayLaws A datarec ncpu max} (a : A) i :
  (∀ c i v, pcpu_lookup a c i = Some v → v = mk_rec 0 0) →
  slot_sum packets a i = 0 ∧ slot_sum bytes a i = 0.
Proof.
  intros Hz. unfold slot_sum. destruct (pcpu_values a i) as [l|] eqn:El; [|done].
  destruct (pcpu_values_lookup _ _ _ El) as [_ Hl]. cbn [default from_option].
  assert (Hall : Forall (λ v, v = mk_rec 0 0) l).
  { apply Forall_lookup. intros j v Hj. rewrite Hl in Hj. by eapply Hz. }
  clear -Hall. induction Hall as [|v l -> _ IH]; [done|].
  change (0 + sumZ (packets <$> l) = 0 ∧ 0 + sumZ (bytes <$> l) = 0). by rewrite !Z.add_0_l.
Qed.

(** ** Theorems *)

Section theorems.
  Context {A : Type} `{!PercpuArray A datarec} (ncpu : nat).

(** From counters at zero, on any interleaving of packets over the CPUs
    and the two hooks, every packet is let through and the printed packets and
    bytes of each direction are those of the packets that passed its hook. *)
Theorem tc_stats_exact `{!PercpuArrayLaws A datarec ncpu DIR_MAX} (ps : list passing) (a : A) :
  Forall (λ p, p_cpu p < ncpu)%nat ps →
  (∀ c i v, pcpu_lookup a c i = Some v → v = mk_rec 0 0) →
  (traffic ps a).1 = replicate (length ps) TC_ACT_OK
  ∧ print_stats (traffic ps a).2
    = [("ingress", (u64 (pkts_of DIR_INGRESS ps), u64 (bytes_of DIR_INGRESS ps)));
       ("egress", (u64 (pkts_of DIR_EGRESS ps), u64 (bytes_of DIR_EGRESS ps)))]%string.
Proof.
  intros Hf Hz. destruct (traffic_sums ncpu ps a Hf) as [H1 H2]. split; [done|].
  assert (Hp : ∀ d i, dir_index d = Z.of_nat i →
    ∃ recs, pcpu_values (traffic ps a).2 (Z.of_nat i) = Some recs
    ∧ sum_records recs = (u64 (pkts_of d ps), u64 (bytes_of d ps))).
  { intros d i Hi. pose proof (dir_index_range d) as Hr. rewrite Hi in Hr.
    destruct (proj2 (pcpu_values_Some (traffic ps a).2 (Z.of_nat i)) Hr) as [recs Hv]. exists recs. split; [done|].
    rewrite sum_records_sumZ. destruct (H2 d) as [H3 H4]. unfold slot_sum in H3, H4. rewrite Hi, Hv in H3, H4.
    simpl in H3, H4. rewrite H3, H4.
    destruct (zero_slots a (dir_index d) Hz) as [Hz1 Hz2].
    unfold slot_sum in Hz1, Hz2. rewrite Hi in Hz1, Hz2. by rewrite Hz1, Hz2. }
  destruct (Hp DIR_INGRESS 0%nat eq_refl) as (r0 & E0 & S0).
  destruct (Hp DIR_EGRESS 1%nat eq_refl) as (r1 & E1 & S1).
  unfold print_stats, dir_label. cbn [imap omap list_omap Init.Nat.add compose]. rewrite E0, E1. simpl.
  by rewrite S0, S1.
Qed.
End theorems.

(** The loader's exit status is 0 exactly when the interface exists, the
    programs load, the qdisc is there and both programs attach; whenever the
    programs were loaded, the last two calls remove the qdisc and
    unload them. *)
Theorem tc_main_status (o : outcome) :
  ((main o).1 = 0 ↔
     o_ifindex o = true ∧ o_load o = true ∧ (o_hook_create o = 0 ∨ o_hook_create o = - EEXIST)
     ∧ o_attach_ingress o = 0 ∧ o_attach_egress o = 0)
  ∧ (o_ifindex o = true → o_load o = true → ∃ tr, (main o).2 = OpenLoad :: tr ++ [HookDestroy; Destroy]).
Proof.
  unfold main, cleanup.
  destruct (o_ifindex o), (o_load o); cbn [negb]; try (split; [naive_solver|done]).
  destruct (Z.eqb_spec (o_hook_create o) 0), (Z.eqb_spec (o_hook_create o) (- EEXIST)),
    (Z.eqb_spec (o_attach_ingress o) 0), (Z.eqb_spec (o_attach_egress o) 0); cbn [negb andb app fst snd];
    (split; [split; [intros; try lia; naive_solver|naive_solver]|intros _ _;
       first [by exists [HookCreate] | by exists [HookCreate; Attach DIR_INGRESS]
             |by exists [HookCreate; Attach DIR_INGRESS; Attach DIR_EGRESS]]]).
Qed.

(** ** Witness *)

Lemma tc_stats_exact_witness :
  @print_stats _ (list_pcpu 2 2)
    (@traffic _ (list_pcpu 2 2) [mk_passing 0 DIR_INGRESS 60; mk_passing 1 DIR_EGRESS 1500; mk_passing 1 DIR_INGRESS 40]
       (λ _ _, mk_rec 0 0)).2
  = [("ingress", (2, 100)); ("egress", (1, 1500))]%string.
Proof.
  destruct (@tc_stats_exact _ (list_pcpu 2 2) 2 (list_pcpu_laws 2 2)
    [mk_passing 0 DIR_INGRESS 60; mk_passing 1 DIR_EGRESS 1500; mk_passing 1 DIR_INGRESS 40] (λ _ _, mk_rec 0 0))
    as [_ H].
  - repeat constructor.
  - intros c i v. simpl. destruct (_ && _); [|discriminate]. intros E. injection E as <-. reflexivity.
  - rewrite H. vm_compute. reflexivity.
Defined.
