(* ===== verification/TailCall.v ===== *)
(** * TailCall: dispatch by tail call (chapter 19)

    Models src/19-tailcall: [bump], [dispatch], [handle_user] and
    [handle_root] of tailcall.bpf.c, and [main] of tailcall.c, which fills the
    jump table.  BPF_MAP_TYPE_PROG_ARRAY is the interface [ProgArray]; the
    [counts] array is a [PercpuArray] with one CPU.

    The theorem: once [main] has wired the table, any sequence of execve
    calls counts each call under its privilege and none as a miss; and when
    wiring fails, nothing is attached and the exit status says so. *)

From stdpp Require Import prelude gmap list.
From Stdlib Require Import ZArith Lia.
From S2P Require Import Prelude.
From S2P Require Import Kernel.
From S2P Require Import Packet.

Definition IDX_USER : Z := 0.
Definition IDX_ROOT : Z := 1.
Definition IDX_MISS : Z := 2.
Definition IDX_MAX : Z := 3.

(** The programs that can be in the table. *)
Inductive prog := Handle_user | Handle_root.

(** [prog_update] is the system call that stores a program in a slot;
    [tail_call_target t i] is the program a tail call through slot [i] jumps
    to, [None] when it falls through. *)
Class ProgArray (T : Type) := {
  prog_empty : T;
  prog_update : T → Z → prog → Z * T;
  tail_call_target : T → Z → option prog;
}.

(** A successful update makes its slot a target and leaves the others; a
    failed one leaves the table as it was. *)
Class ProgArrayLaws (T : Type) `{!ProgArray T} : Prop := {
  target_empty (i : Z) : tail_call_target prog_empty i = None;
  target_update (t t' : T) (i : Z) (p : prog) :
    prog_update t i p = (0, t') → tail_call_target t' i = Some p;
  target_update_other (t t' : T) (i j : Z) (p : prog) :
    prog_update t i p = (0, t') → i ≠ j → tail_call_target t' j = tail_call_target t j;
}.

Section program.
  Context {T : Type} `{!ProgArray T} {A : Type} `{!PercpuArray A Z}.

Definition bump (idx : Z) (counts : A) : A :=
  match pcpu_lookup counts 0 idx with
  | Some _ => pcpu_poke counts 0 idx (λ c, c +64 1)
  | None => counts
  end.

Definition handle_user (counts : A) : A := bump IDX_USER counts.
Definition handle_root (counts : A) : A := bump IDX_ROOT counts.

Definition run_prog (p : prog) (counts : A) : A :=
  match p with Handle_user => handle_user counts | Handle_root => handle_root counts end.

(** A tail call that succeeds never comes back to [dispatch]. *)
Definition dispatch (cur : task) (jmp_table : T) (counts : A) : A :=
  let uid := current_uid cur in
  let idx := if uid =? 0 then IDX_ROOT else IDX_USER in
  match tail_call_target jmp_table idx with
  | Some p => run_prog p counts
  | None => bump IDX_MISS counts
  end.

(** The wiring in [main]: the errno of the first update that failed, or the
    table. *)
Definition wire (jt : T) : (Z + T) :=
  let '(rc, jt) := prog_update jt IDX_USER Handle_user in
  if negb (rc =? 0) then inl rc else
  let '(rc, jt) := prog_update jt IDX_ROOT Handle_root in
  if negb (rc =? 0) then inl rc else inr jt.

(** [main]: load, wire, attach, poll, clean up.  The exit status, and the
    table and counters while attached ([None]: nothing was attached). *)
Definition main (loads attaches : bool) (execs : list task) (counts : A) : Z * option A :=
  if negb loads then (1, None) else
  match wire (prog_empty : T) with
  | inl _ => (1, None)
  | inr jt =>
      if negb attaches then (1, None)
      else (0, Some (foldl (λ c t, dispatch t jt c) counts execs))
  end.
End program.

(** The calls by privilege. *)
Definition root_execs (execs : list task) : Z :=
  Z.of_nat (length (bfilter (λ t, current_uid t =? 0) execs)).
Definition user_execs (execs : list task) : Z :=
  Z.of_nat (length (bfilter (λ t, negb (current_uid t =? 0)) execs)).

Lemma execs_total execs : user_execs execs + root_execs execs = Z.of_nat (length execs).
Proof.
  unfold user_execs, root_execs.
  induction execs as [|t execs IH]; [done|]. cbn [bfilter]. destruct (_ =? 0); cbn [negb length] in *; lia.
Qed.

Section proof.
  Context {T : Type} `{!ProgArray T} `{!ProgArrayLaws T}.
  Context {A : Type} `{!PercpuArray A Z} `{!PercpuArrayLaws A Z 1 IDX_MAX}.

Lemma bump_lookup i j (c : A) n :
  0 ≤ i < IDX_MAX → pcpu_lookup c 0 j = Some n →
  pcpu_lookup (bump i c) 0 j = Some (if decide (i = j) then n +64 1 else n).
Proof.
  intros Hi Hj. unfold bump.
  destruct (proj2 (pcpu_lookup_Some c 0 i) (conj (Nat.lt_0_1) Hi)) as [v Hv]. rewrite Hv.
  case_decide as H; [subst j|].
  - rewrite pcpu_poke_same, Hv. simplify_eq. done.
  - by rewrite pcpu_poke_other by congruence.
Qed.

Lemma wire_targets (jt0 jt : T) :
  wire jt0 = inr jt →
  tail_call_target jt IDX_USER = Some Handle_user ∧ tail_call_target jt IDX_ROOT = Some Handle_root.
Proof.
  unfold wire. destruct (prog_update jt0 IDX_USER Handle_user) as [rc1 jt1] eqn:E1.
  destruct (Z.eqb_spec rc1 0) as [->|]; [|done]. cbn [negb].
  destruct (prog_update jt1 IDX_ROOT Handle_root) as [rc2 jt2] eqn:E2.
  destruct (Z.eqb_spec rc2 0) as [->|]; [|done]. cbn [negb]. intros [= <-].
  rewrite (target_update_other _ _ _ IDX_USER _ E2), (target_update _ _ _ _ E1), (target_update _ _ _ _ E2) by done.
  done.
Qed.

Lemma dispatch_all jt execs : ∀ (c : A) nu nr nm,
  tail_call_target (jt : T) IDX_USER = Some Handle_user →
  tail_call_target jt IDX_ROOT = Some Handle_root →
  pcpu_lookup c 0 IDX_USER = Some (u64 nu) → pcpu_lookup c 0 IDX_ROOT = Some (u64 nr) →
  pcpu_lookup c 0 IDX_MISS = Some nm →
  let c' := foldl (λ c t, dispatch t jt c) c execs in
  pcpu_lookup c' 0 IDX_USER = Some (u64 (nu + user_execs execs))
  ∧ pcpu_lookup c' 0 IDX_ROOT = Some (u64 (nr + root_execs execs))
  ∧ pcpu_lookup c' 0 IDX_MISS = Some nm.
Proof.
  induction execs as [|t execs IH]; intros c nu nr nm Hu Hr H1 H2 H3; cbn [foldl].
  { unfold user_execs, root_execs. simpl. rewrite !Z.add_0_r. done. }
  unfold dispatch at 2 4 6. unfold user_execs, root_execs. cbn [bfilter].
  destruct (current_uid t =? 0); cbn [negb length].
  - rewrite Hr. cbn [run_prog]. unfold handle_root.
    destruct (IH (bump IDX_ROOT c) nu (nr + 1) nm) as (G1 & G2 & G3); try done;
      try (erewrite bump_lookup by done; simpl; by rewrite ?u64_add_l).
    rewrite G1, G2, G3. unfold user_execs, root_execs. repeat split; do 2 f_equal; lia.
  - rewrite Hu. cbn [run_prog]. unfold handle_user.
    destruct (IH (bump IDX_USER c) (nu + 1) nr nm) as (G1 & G2 & G3); try done;
      try (erewrite bump_lookup by done; simpl; by rewrite ?u64_add_l).
    rewrite G1, G2, G3. unfold user_execs, root_execs. repeat split; do 2 f_equal; lia.
Qed.
End proof.

Section theorem.
  Context {T : Type} `{!ProgArray T} {A : Type} `{!PercpuArray A Z}.

(** If the loader exits with 0 it attached the dispatcher to a table
    with both handlers in place, and over any sequence of execve calls, from
    counters at zero, the user and root counters are the numbers of calls
    by a non-root and by the root user and the miss counter is still zero;
    otherwise nothing was attached and the exit status is 1. *)
Theorem tailcall_main_counts `{!ProgArrayLaws T} `{!PercpuArrayLaws A Z 1 IDX_MAX}
    (loads attaches : bool) (execs : list task) (counts : A) :
  (∀ i v, pcpu_lookup counts 0 i = Some v → v = 0) →
  match main (T := T) loads attaches execs counts with
  | (status, Some c) =>
      status = 0
      ∧ pcpu_lookup c 0 IDX_USER = Some (u64 (user_execs execs))
      ∧ pcpu_lookup c 0 IDX_ROOT = Some (u64 (root_execs execs))
      ∧ pcpu_lookup c 0 IDX_MISS = Some 0
      ∧ user_execs execs + root_execs execs = Z.of_nat (length execs)
  | (status, None) => status = 1
  end.
Proof.
  intros Hz. unfold main. destruct loads; [|done]. cbn [negb].
  destruct (wire prog_empty) as [rc|jt] eqn:Hw; [done|].
  destruct attaches; [|done]. cbn [negb]. apply wire_targets in Hw as [Hu Hr].
  assert (H0 : ∀ i, 0 ≤ i < IDX_MAX → pcpu_lookup counts 0 i = Some 0).
  { intros i Hi. destruct (proj2 (pcpu_lookup_Some counts 0 i) (conj (Nat.lt_0_1) Hi)) as [v Hv].
    rewrite Hv. f_equal. by eapply Hz. }
  split; [done|].
  destruct (dispatch_all jt execs counts 0 0 0) as (H1 & H2 & H3); try done; try (by apply H0).
  split; [done|]. split; [done|]. split; [done|]. apply execs_total.
Qed.
End theorem.

(** ** Witness: a table as a finite map of two slots *)

Definition gmap_prog_array : ProgArray (gmap Z prog) := {|
  prog_empty := ∅;
  prog_update t i p := if (0 <=? i) && (i <? 2) then (0, <[i := p]> t) else (- E2BIG, t);
  tail_call_target t i := t !! i;
|}.

Lemma gmap_prog_array_laws : @ProgArrayLaws _ gmap_prog_array.
Proof.
  split; simpl; [done| |].
  - intros t t' i p. destruct (_ && _); [|done]. intros [= <-]. apply lookup_insert_eq.
  - intros t t' i j p. destruct (_ && _); [|done]. intros [= <-] Hne. by apply lookup_insert_ne.
Qed.

Definition ex_execs : list task := [mk_task 0 1000 []; mk_task 0 0 []; mk_task 0 1000 []].

Lemma tailcall_main_counts_witness :
  match @main _ gmap_prog_array _ (list_pcpu 1 3) true true ex_execs (λ _ _, 0) with
  | (_, Some c) => c 0%nat IDX_USER = 2 ∧ c 0%nat IDX_ROOT = 1 ∧ c 0%nat IDX_MISS = 0
  | _ => False
  end.
Proof.
  pose proof (@tailcall_main_counts _ gmap_prog_array _ (list_pcpu 1 3) gmap_prog_array_laws (list_pcpu_laws 1 3)
    true true ex_execs (λ _ _, 0)) as H.
  destruct (main true true ex_execs _) as [st [c|]] eqn:E; [|discriminate].
  destruct H as (_ & H1 & H2 & H3 & _).
  - intros i v. simpl. destruct (_ && _); [|discriminate]. intros Hv. injection Hv as <-. reflexivity.
  - injection H1 as ->. injection H2 as ->. injection H3 as ->. split; [|split]; vm_compute; reflexivity.
Defined.
