(* ===== verification/ArgvSnoop.v ===== *)
(** * ArgvSnoop: execve with its arguments (chapter 8)

    Models src/08-argv-libbpf: [trace_execve] of execsnoop.bpf.c, which sends
    one record per argument and an end marker through the ring buffer, and
    the pending table and [handle_event] of execsnoop.c, which put the command
    line back together.  Printed lines are values of [line].

    The theorems: what the kernel side sends for a command is its first
    twenty arguments; whatever commands run concurrently, as long as the
    pids that are active together fall into different slots, every command is
    printed exactly once, with its own arguments, each cut to 127 bytes; a
    slot reacts to nothing but its own events; and when the end
    marker of a command is lost, its arguments reappear in front of those of
    the next command of the same process. *)

From stdpp Require Import prelude gmap list strings.
From Stdlib Require Import ZArith Lia.
From S2P Require Import Prelude.
From S2P Require Import Kernel.

Definition MAXARGS : nat := 20.
Definition ARGSIZE : nat := 128.
Definition TABLE_SIZE : Z := 4096.

Inductive event_type := EVENT_ARG | EVENT_RET.

Record event := mk_event {
  e_pid : Z;
  e_uid : Z;
  e_comm : list Z;
  e_type : event_type;
  e_arg : list Z;
}.

(** ** The kernel side *)

Section kernel.
  Context `{!UserMem} {R : Type} `{!Ringbuf R event}.
  (** [argp i] is what reading the [i]-th pointer of the argument vector
      leaves in [argp], initialised to NULL. *)
  Variable argp : nat → Z.

(** [for (i = 0; i < MAXARGS; i++)]; the flag is false after the
    [return 0] of a full ring. *)
Fixpoint send_args (n i : nat) (pid uid : Z) (cm : list Z) (events : R) : bool * R :=
  match n with
  | O => (true, events)
  | S n' =>
      if argp i =? 0 then (true, events) else
      match ringbuf_reserve events with
      | None => (false, events)
      | Some (e, events) =>
          let arg := (probe_read_user_str (argp i) ARGSIZE (e_arg e)).2 in
          send_args n' (S i) pid uid cm (ringbuf_submit events (mk_event pid uid cm EVENT_ARG arg))
      end
  end.

Definition trace_execve (cur : task) (events : R) : R :=
  let pid := current_pid cur in
  let uid := current_uid cur in
  let '(more, events) := send_args MAXARGS 0 pid uid (comm cur) events in
  if negb more then events else
  match ringbuf_reserve events with
  | None => events
  | Some (ret, events) =>
      ringbuf_submit events (mk_event pid uid (comm cur) EVENT_RET (<[0%nat := 0]> (e_arg ret)))
  end.

(** Whether the ring has room for all the records of the command. *)
Definition trace_ready (cur : task) (events : R) : bool :=
  let '(more, events) := send_args MAXARGS 0 (current_pid cur) (current_uid cur) (comm cur) events in
  more && ring_ready events.

(** A command has at most MAXARGS + 1 records. *)
Lemma send_args_room `{!RingReader R} {slots} `{!RingReaderLaws R event slots} n : ∀ i pid uid cm (r : R),
  (ring_unread (send_args n i pid uid cm r).2 ≤ ring_unread r + n)%nat
  ∧ ((ring_unread r + n ≤ slots)%nat → (send_args n i pid uid cm r).1 = true).
Proof.
  induction n as [|n IH]; intros i pid uid cm r; cbn [send_args]; [split; [cbn; lia|done]|].
  destruct (argp i =? 0); [split; [cbn; lia|done]|]. pose proof (ring_room (slots := slots) r) as Hroom. unfold ring_ready in Hroom.
  destruct (ringbuf_reserve r) as [[e r']|] eqn:Hr; [|split; [cbn; lia|intros ?; by specialize (Hroom ltac:(lia))]].
  set (r1 := ringbuf_submit r' _). destruct (IH (S i) pid uid cm r1) as [I1 I2].
  assert (Hu : (ring_unread r1 ≤ S (ring_unread r))%nat).
  { etrans; [apply (ring_submit_unread (slots := slots))|by eapply (ring_reserve_unread (slots := slots))]. }
  split; [lia|]. intros Hl. apply I2. lia.
Qed.

Lemma trace_room `{!RingReader R} {slots} `{!RingReaderLaws R event slots} (cur : task) (r : R) :
  (ring_unread (trace_execve cur r) ≤ ring_unread r + S MAXARGS)%nat
  ∧ ((ring_unread r + S MAXARGS ≤ slots)%nat → trace_ready cur r = true).
Proof.
  unfold trace_execve, trace_ready.
  destruct (send_args_room MAXARGS 0 (current_pid cur) (current_uid cur) (comm cur) r) as [H1 H2].
  destruct (send_args _ _ _ _ _ r) as [more r1]. cbn [fst snd] in *. split.
  - destruct more; cbn [negb]; [|lia]. destruct (ringbuf_reserve r1) as [[e r2]|] eqn:Hr; [|lia].
    pose proof (ring_reserve_unread (slots := slots) _ _ _ Hr). etrans; [apply (ring_submit_unread (slots := slots))|lia].
  - intros Hl. rewrite H2 by lia. apply (ring_room (slots := slots)). lia.
Qed.
End kernel.

(** ** The pending table *)

Record pending := mk_pending {
  active : bool;
  p_pid : Z;
  p_uid : Z;
  p_comm : list Z;
  p_argv : list (list Z);
  argc : nat;
}.

Definition zero_pending : pending :=
  mk_pending false 0 0 (replicate 16 0) (replicate MAXARGS (replicate ARGSIZE 0)) 0.

(** [strncpy(dst, src, n)]: the string, then NUL bytes up to [n]. *)
Definition strncpy (n : nat) (src : list Z) : list Z :=
  take n (cstr src ++ replicate n 0).

(** A printed line: pid, uid, comm and the arguments. *)
Record line := mk_line { l_pid : Z; l_uid : Z; l_comm : list Z; l_args : list (list Z) }.

Definition get_slot (pid : Z) : nat := Z.to_nat (pid mod TABLE_SIZE).

(** The EVENT_ARG branch on the slot. *)
Definition add_arg (e : event) (p : pending) : pending :=
  let p :=
    if negb (active p) || negb (p_pid p =? e_pid e)
    then mk_pending true (e_pid e) (e_uid e) (e_comm e) (p_argv zero_pending) 0
    else p in
  if (argc p <? MAXARGS)%nat
  then mk_pending (active p) (p_pid p) (p_uid p) (p_comm p)
         (<[argc p := strncpy (ARGSIZE - 1) (e_arg e) ++ [0]]> (p_argv p)) (S (argc p))
  else p.

(** The EVENT_RET branch. *)
Definition end_cmd (e : event) (p : pending) : pending * list line :=
  if negb (active p) || negb (p_pid p =? e_pid e) then (p, [])
  else (mk_pending false (p_pid p) (p_uid p) (p_comm p) (p_argv p) (argc p),
        [mk_line (p_pid p) (p_uid p) (cstr (p_comm p)) (cstr <$> take (argc p) (p_argv p))]).

Definition handle_slot (e : event) (p : pending) : pending * list line :=
  match e_type e with
  | EVENT_ARG => (add_arg e p, [])
  | EVENT_RET => end_cmd e p
  end.

Definition handle_event (e : event) (table : list pending) : list pending * list line :=
  match table !! get_slot (e_pid e) with
  | Some p => let '(p, out) := handle_slot e p in (<[get_slot (e_pid e) := p]> table, out)
  | None => (table, [])
  end.

(** Events in order, each with the lines it made the program print. *)
Fixpoint consume (evs : list event) (table : list pending) : list pending * list (event * list line) :=
  match evs with
  | [] => (table, [])
  | e :: evs' =>
      let '(table, out) := handle_event e table in
      let '(table, outs) := consume evs' table in
      (table, (e, out) :: outs)
  end.

Definition empty_table : list pending := replicate (Z.to_nat TABLE_SIZE) zero_pending.

(** ** Specification *)

(** A command: who runs it and its argument strings. *)
Record command := mk_command { c_pid : Z; c_uid : Z; c_comm : list Z; c_args : list (list Z) }.

(** An argument record: the first 127 bytes, a NUL, and whatever follows. *)
Definition arg_record (a rec : list Z) : Prop := cstr rec = take (ARGSIZE - 1) a.

(** The records of a command, in order. *)
Definition command_events (c : command) (evs : list event) : Prop :=
  ∃ recs last, evs = ((λ r, mk_event (c_pid c) (c_uid c) (c_comm c) EVENT_ARG r) <$> recs)
                     ++ [mk_event (c_pid c) (c_uid c) (c_comm c) EVENT_RET last]
  ∧ Forall2 arg_record (take MAXARGS (c_args c)) recs.

(** The line a command should give. *)
Definition command_line (c : command) : line :=
  mk_line (c_pid c) (c_uid c) (cstr (c_comm c)) (take (ARGSIZE - 1) <$> take MAXARGS (c_args c)).

(** The lines printed for events of slot [s]. *)
Definition slot_lines (s : nat) (outs : list (event * list line)) : list line :=
  concat (snd <$> bfilter (λ x, (get_slot (e_pid x.1) =? s)%nat) outs).

(** ** Slots are independent *)

(** A slot fed its own events only. *)
Fixpoint run_slot (evs : list event) (p : pending) : pending * list line :=
  match evs with
  | [] => (p, [])
  | e :: evs' =>
      let '(p, out) := handle_slot e p in
      let '(p, outs) := run_slot evs' p in
      (p, out ++ outs)
  end.

Definition in_slot (s : nat) (e : event) : bool := (get_slot (e_pid e) =? s)%nat.

Lemma run_slot_app evs1 evs2 p :
  run_slot (evs1 ++ evs2) p
  = let '(p, o1) := run_slot evs1 p in let '(p, o2) := run_slot evs2 p in (p, o1 ++ o2).
Proof.
  revert p. induction evs1 as [|e evs1 IH]; intros p; cbn [run_slot app].
  { by destruct (run_slot evs2 p). }
  destruct (handle_slot e p) as [p1 out]. rewrite IH. destruct (run_slot evs1 p1) as [p2 o1].
  destruct (run_slot evs2 p2). by rewrite app_assoc.
Qed.

Lemma consume_slot s evs : ∀ table p,
  table !! s = Some p →
  (consume evs table).1 !! s = Some (run_slot (bfilter (in_slot s) evs) p).1
  ∧ slot_lines s (consume evs table).2 = (run_slot (bfilter (in_slot s) evs) p).2.
Proof.
  induction evs as [|e evs IH]; intros table p Hs; cbn [consume bfilter]; [done|].
  unfold handle_event. destruct (in_slot s e) eqn:Hin; unfold in_slot in Hin;
    [apply Nat.eqb_eq in Hin as Heq|apply Nat.eqb_neq in Hin as Hne].
  - rewrite Heq, Hs. cbn [run_slot]. destruct (handle_slot e p) as [p1 out].
    destruct (IH (<[s := p1]> table) p1) as [IH1 IH2].
    { apply list_lookup_insert_eq. by eapply lookup_lt_Some. }
    destruct (consume evs _) as [t' outs]. cbn [fst snd] in *. rewrite IH1.
    unfold slot_lines in *. cbn [bfilter fst]. rewrite Hin. cbn [fmap list_fmap concat snd].
    destruct (run_slot _ p1). cbn [fst snd] in *. split; [done|]. f_equal. exact IH2.
  - destruct (table !! get_slot (e_pid e)) as [q|] eqn:Hq.
    + destruct (handle_slot e q) as [q1 out].
      destruct (IH (<[get_slot (e_pid e) := q1]> table) p) as [IH1 IH2].
      { by rewrite list_lookup_insert_ne. }
      destruct (consume evs _) as [t' outs]. cbn [fst snd] in *. split; [done|].
      unfold slot_lines in *. cbn [bfilter fst]. by rewrite Hin.
    + destruct (IH table p Hs) as [IH1 IH2]. destruct (consume evs table) as [t' outs].
      cbn [fst snd] in *. split; [done|]. unfold slot_lines in *. cbn [bfilter fst].
      by apply Nat.eqb_neq in Hne as ->.
Qed.

(** ** One command through its slot *)

Lemma cstr_strncpy n src : cstr (strncpy n src ++ [0]) = take n (cstr src).
Proof.
  unfold strncpy. pose proof (cstr_nonzero src) as Hnz. set (s := cstr src) in *.
  rewrite take_app, take_replicate. rewrite <- app_assoc.
  destruct (Nat.min (n - length s) n) as [|k]; simpl; apply cstr_app_nul; by apply Forall_take.
Qed.

(** The slot in the middle of command [c], after the arguments [done]. *)
Record mid (c : command) (args : list (list Z)) (p : pending) : Prop := mk_mid {
  mid_active : active p = true;
  mid_pid : p_pid p = c_pid c;
  mid_uid : p_uid p = c_uid c;
  mid_comm : p_comm p = c_comm c;
  mid_argc : argc p = length args;
  mid_len : length (p_argv p) = MAXARGS;
  mid_argv : cstr <$> take (argc p) (p_argv p) = take (ARGSIZE - 1) <$> args;
}.

Definition arg_event (c : command) (r : list Z) : event :=
  mk_event (c_pid c) (c_uid c) (c_comm c) EVENT_ARG r.

(** Storing one more argument. *)
Lemma store_arg c args p a r :
  mid c args p → (length args < MAXARGS)%nat → arg_record a r →
  mid c (args ++ [a]) (add_arg (arg_event c r) p).
Proof.
  intros [H1 H2 H3 H4 H5 H6 H7] Hl Ha. unfold add_arg. rewrite H1, H2. cbn [arg_event e_pid negb orb].
  rewrite Z.eqb_refl. cbn [negb]. rewrite H5. apply Nat.ltb_lt in Hl as Hlt. rewrite Hlt.
  split; simpl; try done.
  - by rewrite length_app, Nat.add_1_r.
  - by rewrite length_insert.
  - erewrite take_S_r by (apply list_lookup_insert_eq; lia). rewrite take_insert_ge by lia.
    rewrite !fmap_app. cbn [fmap list_fmap]. rewrite cstr_strncpy. unfold arg_record in Ha. rewrite Ha, take_take.
    rewrite <- H5, H7. by rewrite Nat.min_id.
Qed.

(** The first argument claims a slot that is free or another process's. *)
Lemma first_arg c p a r :
  active p = false ∨ p_pid p ≠ c_pid c → arg_record a r → mid c [a] (add_arg (arg_event c r) p).
Proof.
  intros Hp Ha.
  assert (Hc : negb (active p) || negb (p_pid p =? c_pid c) = true).
  { destruct Hp as [->|Hp]; [done|]. apply Z.eqb_neq in Hp as ->. by rewrite orb_true_r. }
  set (p0 := mk_pending true (c_pid c) (c_uid c) (c_comm c) (p_argv zero_pending) 0).
  assert (add_arg (arg_event c r) p = add_arg (arg_event c r) p0) as ->.
  { unfold add_arg. cbn [arg_event e_pid]. rewrite Hc. cbn [p0 active p_pid negb orb].
    rewrite Z.eqb_refl. done. }
  apply (store_arg c [] p0); [|unfold MAXARGS; simpl; lia|done]. by split.
Qed.

Lemma more_args c recs : ∀ args args' p,
  mid c args p → (length args + length args' ≤ MAXARGS)%nat → Forall2 arg_record args' recs →
  (run_slot (arg_event c <$> recs) p).2 = [] ∧ mid c (args ++ args') (run_slot (arg_event c <$> recs) p).1.
Proof.
  induction recs as [|r recs IH]; intros args args' p Hm Hl Hf; inversion Hf; subst; csimpl.
  { by rewrite app_nil_r. }
  cbn [run_slot handle_slot arg_event e_type length] in *. fold (arg_event c r).
  destruct (IH (args ++ [x]) l (add_arg (arg_event c r) p)) as [I1 I2].
  { apply store_arg; [done|lia|done]. } { rewrite length_app. simpl. lia. } { done. }
  destruct (run_slot _ (add_arg _ p)) as [q o]. cbn [fst snd] in *. subst o.
  split; [done|]. by rewrite <- app_assoc in I2.
Qed.

(** A whole command prints its line and frees the slot. *)
Lemma run_command c evs p :
  command_events c evs → c_args c ≠ [] → active p = false ∨ p_pid p ≠ c_pid c →
  (run_slot evs p).2 = [command_line c] ∧ active (run_slot evs p).1 = false.
Proof.
  intros (recs & lst & -> & Hf) Hne Hp. rewrite run_slot_app. fold (arg_event c).
  destruct (c_args c) as [|a args] eqn:Hargs; [done|]. rewrite firstn_cons in Hf || simpl in Hf.
  inversion Hf as [|? r ? recs' Ha Hf' Heq1 Heq2]; subst.
  change ((λ r, mk_event (c_pid c) (c_uid c) (c_comm c) EVENT_ARG r)) with (arg_event c).
  rewrite fmap_cons. cbn [run_slot].
  change (handle_slot (arg_event c r) p) with (add_arg (arg_event c r) p, [] : list line).
  destruct (more_args c recs' [a] (take 19 args) (add_arg (arg_event c r) p)) as [H1 H2].
  { by apply first_arg. } { pose proof (length_take args 19) as Hl19. unfold MAXARGS. cbn [length]. lia. } { done. }
  destruct (run_slot (arg_event c <$> recs') _) as [q o]. cbn [fst snd app] in *. subst o.
  cbn [run_slot handle_slot e_type]. unfold end_cmd. cbn [e_pid].
  rewrite (mid_active _ _ _ H2), (mid_pid _ _ _ H2), Z.eqb_refl. cbn [negb orb app fst snd active].
  split; [|done]. unfold command_line. rewrite (mid_uid _ _ _ H2), (mid_comm _ _ _ H2), (mid_argv _ _ _ H2), Hargs.
  done.
Qed.

Lemma run_commands cs : ∀ evss p,
  Forall2 command_events cs evss → Forall (λ c, c_args c ≠ []) cs → active p = false →
  (run_slot (concat evss) p).2 = command_line <$> cs.
Proof.
  induction cs as [|c cs IH]; intros evss p Hf Hne Hp; inversion Hf as [|? evs ? evss' Hc Hf']; subst; [done|].
  inversion_clear Hne. cbn [concat]. rewrite run_slot_app.
  destruct (run_command c evs p) as [H1 H2]; [done|done|by left|].
  destruct (run_slot evs p) as [q o]. cbn [fst snd] in *. subst o.
  specialize (IH evss' q Hf' ltac:(done) H2). destruct (run_slot (concat evss') q). cbn [snd] in *.
  by rewrite IH.
Qed.

(** ** What the kernel side sends *)

Section sent.
  Context `{!UserMem} `{!UserMemLaws} {R : Type} `{!Ringbuf R event} `{!RingbufLaws R event}.
  Variables (argp : nat → Z) (args : list (list Z)) (c : command).

(** [args] are the strings of the argument vector, up to its NULL. *)
Definition is_vector : Prop :=
  (∀ i s, args !! i = Some s → argp i ≠ 0 ∧ user_str (argp i) = Some s)
  ∧ (argp (length args) = 0 ∨ (MAXARGS ≤ length args)%nat).

(** A reserved record has room for ARGSIZE bytes. *)
Definition arg_room : Prop :=
  ∀ (r r' : R) e, ringbuf_reserve r = Some (e, r') → length (e_arg e) = ARGSIZE.

Lemma read_arg a s dst :
  user_str a = Some s → length dst = ARGSIZE →
  arg_record s (probe_read_user_str a ARGSIZE dst).2.
Proof.
  intros Hs Hl. apply probe_read_user_str_cstr; [done|unfold ARGSIZE; lia|done].
Qed.

Lemma send_args_spec n : ∀ i (r : R),
  is_vector → arg_room → (i + n = MAXARGS)%nat → (i ≤ length args)%nat →
  ∃ k recs,
    ringbuf_records (send_args argp n i (c_pid c) (c_uid c) (c_comm c) r).2
      = ringbuf_records r ++ (arg_event c <$> recs)
    ∧ Forall2 arg_record (take k (take n (drop i args))) recs
    ∧ ((send_args argp n i (c_pid c) (c_uid c) (c_comm c) r).1 = true → k = n).
Proof.
  induction n as [|n IH]; intros i r [Hv Hend] Hroom Hi Hle; cbn [send_args].
  { exists 0%nat, []. csimpl. rewrite app_nil_r. done. }
  destruct (Z.eqb_spec (argp i) 0) as [K0|K0].
  { exists (S n), []. csimpl. rewrite app_nil_r. split; [done|]. split; [|done].
    destruct (args !! i) as [s|] eqn:Hs; [by apply Hv in Hs as [? _]|].
    apply lookup_ge_None in Hs. rewrite drop_ge, take_nil by lia. constructor. }
  assert (Hlt : (i < length args)%nat).
  { destruct (decide (i = length args)) as [->|]; [destruct Hend; [done|lia]|lia]. }
  destruct (lookup_lt_is_Some_2 args i Hlt) as [s Hs]. destruct (Hv i s Hs) as [_ Hu].
  destruct (ringbuf_reserve r) as [[e r1]|] eqn:Hr.
  - destruct (IH (S i) (ringbuf_submit r1 (arg_event c (probe_read_user_str (argp i) ARGSIZE (e_arg e)).2)))
      as (k & recs & K1 & K2 & K3); [done|done|lia|lia|].
    exists (S k), ((probe_read_user_str (argp i) ARGSIZE (e_arg e)).2 :: recs).
    rewrite (drop_S args s i Hs). cbn [take firstn]. split; [|split].
    + unfold arg_event in K1 at 1. rewrite K1, ringbuf_submit_records, (ringbuf_reserve_records _ _ _ Hr).
      csimpl. by rewrite <- app_assoc.
    + constructor; [|done]. eapply read_arg; [done|]. by eapply Hroom.
    + intros Ht. f_equal. by apply K3.
  - exists 0%nat, []. csimpl. rewrite app_nil_r. split; [done|]. by split; [constructor|].
Qed.
End sent.

(** Records for the arguments that were not sent. *)
Lemma complete_records args k recs :
  Forall (Forall (λ b, b ≠ 0)) args → Forall2 arg_record (take k args) recs →
  ∃ rest, Forall2 arg_record args (recs ++ rest).
Proof.
  intros Hnz Hf. exists ((λ a, take (ARGSIZE - 1) a ++ [0]) <$> drop k args).
  rewrite <- (take_drop k args) at 1. apply Forall2_app; [done|].
  apply (Forall_drop _ k) in Hnz. induction Hnz as [|a l Ha _ IH]; csimpl; constructor; [|done].
  unfold arg_record. by apply cstr_app_nul, Forall_take.
Qed.

(** Arguments of another command of the same process are appended. *)
Lemma same_slot_args c1 c2 recs : ∀ args args' p,
  c_pid c1 = c_pid c2 → mid c1 args p → (length args + length args' ≤ MAXARGS)%nat →
  Forall2 arg_record args' recs →
  (run_slot (arg_event c2 <$> recs) p).2 = [] ∧ mid c1 (args ++ args') (run_slot (arg_event c2 <$> recs) p).1.
Proof.
  intros args args' p Hpid Hm Hl Hf.
  assert (Heq : run_slot (arg_event c2 <$> recs) p = run_slot (arg_event c1 <$> recs) p).
  { destruct Hm as [Ha Hp _ _ _ _ _]. clear Hl Hf. revert p Ha Hp.
    induction recs as [|r recs IH]; intros p Ha Hp; [done|]. rewrite !fmap_cons. cbn [run_slot].
    change (handle_slot (arg_event c2 r) p) with (add_arg (arg_event c2 r) p, [] : list line).
    change (handle_slot (arg_event c1 r) p) with (add_arg (arg_event c1 r) p, [] : list line).
    assert (add_arg (arg_event c2 r) p = add_arg (arg_event c1 r) p) as ->.
    { unfold add_arg. cbn [arg_event e_pid e_arg]. rewrite Ha, Hp, <- Hpid, !Z.eqb_refl. done. }
    rewrite IH; [done| |]; unfold add_arg; cbn [arg_event e_pid]; rewrite Ha, Hp, Z.eqb_refl; cbn [negb orb];
      destruct (_ <? _)%nat; done. }
  rewrite Heq. by apply more_args.
Qed.

(** ** Theorems *)

Section theorems.
  Context `{!UserMem} {R : Type} `{!Ringbuf R event}.

(** What one execve adds to the ring buffer is the beginning of the
    records of the command: one per argument, of the first twenty, each with
    the first 127 bytes of the string, then the end marker; all of
    them when the ring has room for them. *)
Theorem trace_execve_sends `{!UserMemLaws} `{!RingbufLaws R event}
    (cur : task) (argp : nat → Z) (args : list (list Z)) (r : R) :
  is_vector argp args → arg_room (R := R) →
  ∃ full sent,
    command_events (mk_command (current_pid cur) (current_uid cur) (comm cur) args) full
    ∧ ringbuf_records (trace_execve argp cur r) = ringbuf_records r ++ sent
    ∧ sent `prefix_of` full
    ∧ (trace_ready argp cur r = true → sent = full).
Proof.
  intros Hv Hroom. set (c := mk_command (current_pid cur) (current_uid cur) (comm cur) args).
  destruct (send_args_spec argp args c MAXARGS 0 r) as (k & recs & K1 & K2 & K3); [done|done|done|lia|].
  assert (Hnz : Forall (Forall (λ b, b ≠ 0)) (take MAXARGS args)).
  { apply Forall_take, Forall_lookup. intros i s Hs. destruct Hv as [Hv _].
    by apply Hv in Hs as [_ Hs%user_str_nonzero]. }
  rewrite drop_0 in K2. destruct (complete_records _ _ _ Hnz K2) as [rest Hfull].
  unfold trace_execve, trace_ready, ring_ready. change (current_pid cur) with (c_pid c). change (current_uid cur) with (c_uid c).
  change (comm cur) with (c_comm c).
  destruct (send_args argp MAXARGS 0 _ _ _ r) as [more r1]. cbn [fst snd] in *.
  destruct more; cbn [negb].
  - rewrite (K3 eq_refl), take_take, Nat.min_id in K2.
    destruct (ringbuf_reserve r1) as [[e r2]|] eqn:Hr.
    + eexists _, _. split; [exists recs; eexists; split; [reflexivity|exact K2]|].
      rewrite ringbuf_submit_records, (ringbuf_reserve_records _ _ _ Hr), K1, <- app_assoc. split; [done|]. done.
    + eexists _, (arg_event c <$> recs). split; [exists recs, []; split; [reflexivity|exact K2]|].
      split; [done|]. split; [by apply prefix_app_r|]. done.
  - eexists _, (arg_event c <$> recs). split; [exists (recs ++ rest), []; split; [reflexivity|exact Hfull]|].
    split; [done|]. split.
    + rewrite fmap_app, <- app_assoc. by apply prefix_app_r.
    + done.
Qed.
End theorems.

(** Reassembly: however the records of different slots interleave, if
    those of slot [s] are the records of commands that follow one
    another, then exactly those commands are printed for the slot, in order,
    each on one line with its own arguments. *)
Theorem argv_reassembly (s : nat) (evs : list event) (cs : list command) (evss : list (list event)) :
  (s < 4096)%nat →
  bfilter (in_slot s) evs = concat evss →
  Forall2 command_events cs evss → Forall (λ c, c_args c ≠ []) cs →
  slot_lines s (consume evs empty_table).2 = command_line <$> cs.
Proof.
  intros Hs Hevs Hf Hne.
  destruct (consume_slot s evs empty_table zero_pending) as [_ ->].
  { unfold empty_table. by apply lookup_replicate_2. }
  rewrite Hevs. by apply run_commands.
Qed.

(** A lost end marker: when the records of one command arrive without
    it, the next command of the same process is printed with the arguments of
    both, under the first one's uid and name. *)
Theorem lost_end_marker_merges (c1 c2 : command) (evs1 evs2 : list event) (recs1 : list (list Z)) (p : pending) :
  c_pid c1 = c_pid c2 → c_args c1 ≠ [] →
  (length (c_args c1) + length (c_args c2) ≤ MAXARGS)%nat →
  Forall2 arg_record (c_args c1) recs1 → evs1 = arg_event c1 <$> recs1 →
  command_events c2 evs2 → active p = false →
  (run_slot (evs1 ++ evs2) p).2
  = [mk_line (c_pid c1) (c_uid c1) (cstr (c_comm c1)) (take (ARGSIZE - 1) <$> c_args c1 ++ c_args c2)].
Proof.
  intros Hpid Hne Hlen Hf1 -> (recs2 & lst & -> & Hf2) Hp.
  rewrite take_ge in Hf2 by lia. change (λ r, mk_event _ _ _ EVENT_ARG r) with (arg_event c2).
  destruct (c_args c1) as [|a args] eqn:Ha; [done|]. inversion Hf1 as [|? r ? recs Hr Hf' E1 E2]; subst.
  rewrite !run_slot_app, fmap_cons. cbn [run_slot].
  change (handle_slot (arg_event c1 r) p) with (add_arg (arg_event c1 r) p, [] : list line).
  destruct (more_args c1 recs [a] args (add_arg (arg_event c1 r) p)) as [H1 H2].
  { apply first_arg; [by left|done]. } { simpl in *. lia. } { done. }
  destruct (run_slot (arg_event c1 <$> recs) _) as [q o]. cbn [fst snd app] in *. subst o.
  destruct (same_slot_args c1 c2 recs2 (a :: args) (c_args c2) q Hpid H2) as [H3 H4]; [simpl in *; lia|done|].
  rewrite run_slot_app. destruct (run_slot (arg_event c2 <$> recs2) q) as [q' o]. cbn [fst snd app] in *. subst o.
  cbn [run_slot handle_slot e_type]. unfold end_cmd. cbn [e_pid].
  rewrite (mid_active _ _ _ H4), (mid_pid _ _ _ H4), <- Hpid, Z.eqb_refl. cbn [negb orb app snd].
  by rewrite (mid_uid _ _ _ H4), (mid_comm _ _ _ H4), (mid_argv _ _ _ H4).
Qed.

(** ** Witnesses *)

(** ls -l by process 5000, whose argument vector is at addresses 16 and 32. *)
Definition ex_mem : gmap Z (list Z) := {[ 16 := str "ls" ++ [0]; 32 := str "-l" ++ [0] ]}.
Definition ex_argp (i : nat) : Z := match i with 0%nat => 16 | 1%nat => 32 | _ => 0 end.
Definition ex_cur : task := mk_task (5000 * 2 ^ 32 + 5000) 1000 (str "bash" ++ replicate 12 0).
Definition ex_dirt : event := mk_event 9 9 [] EVENT_ARG (replicate 128 7).

Lemma trace_execve_sends_witness :
  ∃ full sent,
    command_events (mk_command (current_pid ex_cur) (current_uid ex_cur) (comm ex_cur) [str "ls"; str "-l"]) full
    ∧ ringbuf_records (Ringbuf := const_ringbuf ex_dirt)
        (@trace_execve (gmap_user_mem ex_mem) _ (const_ringbuf ex_dirt) ex_argp ex_cur ([], 3%nat)) = sent
    ∧ sent `prefix_of` full.
Proof.
  destruct (@trace_execve_sends (gmap_user_mem ex_mem) _ (const_ringbuf ex_dirt) (gmap_user_mem_laws ex_mem)
    (const_ringbuf_laws ex_dirt) ex_cur ex_argp [str "ls"; str "-l"] ([], 3%nat)) as (full & sent & H1 & H2 & H3 & _).
  - split.
    + intros [|[|i]] s Hs; [| |discriminate]; injection Hs as <-; split; [discriminate| |discriminate|]; reflexivity.
    + left. reflexivity.
  - intros [l [|n]] r' e He; [discriminate|]. injection He as <- <-. reflexivity.
  - exists full, sent. split; [exact H1|]. split; [exact H2|exact H3].
Defined.

Definition ex_ls : command := mk_command 5000 1000 (str "bash" ++ replicate 12 0) [str "ls"; str "-l"].
Definition ex_id : command := mk_command 7001 0 (str "sh" ++ replicate 14 0) [str "id"].
Definition ex_ret (c : command) : event := mk_event (c_pid c) (c_uid c) (c_comm c) EVENT_RET [].

(** Two commands whose records interleave. *)
Lemma argv_reassembly_witness :
  slot_lines 904 (consume [arg_event ex_ls (str "ls" ++ [0]); arg_event ex_id (str "id" ++ [0]); ex_ret ex_id;
                           arg_event ex_ls (str "-l" ++ [0]); ex_ret ex_ls] empty_table).2
  = [mk_line 5000 1000 (str "bash") [str "ls"; str "-l"]].
Proof.
  apply (argv_reassembly 904 _ [ex_ls]
    [[arg_event ex_ls (str "ls" ++ [0]); arg_event ex_ls (str "-l" ++ [0]); ex_ret ex_ls]]).
  - lia.
  - vm_compute. reflexivity.
  - constructor; [|constructor]. exists [str "ls" ++ [0]; str "-l" ++ [0]], []. split; [reflexivity|].
    repeat constructor.
  - constructor; [discriminate|constructor].
Defined.

Lemma lost_end_marker_merges_witness :
  (run_slot ([arg_event ex_ls (str "ls" ++ [0]); arg_event ex_ls (str "-l" ++ [0])]
             ++ [arg_event ex_ls (str "id" ++ [0]); ex_ret ex_ls]) zero_pending).2
  = [mk_line 5000 1000 (str "bash") [str "ls"; str "-l"; str "id"]].
Proof.
  apply (lost_end_marker_merges ex_ls (mk_command 5000 1000 (str "bash" ++ replicate 12 0) [str "id"]) _ _
    [str "ls" ++ [0]; str "-l" ++ [0]]).
  - reflexivity.
  - discriminate.
  - simpl. unfold MAXARGS. lia.
  - repeat constructor.
  - reflexivity.
  - exists [str "id" ++ [0]], []. split; [reflexivity|]. repeat constructor.
  - reflexivity.
Defined.
