(* ===== verification/Loader.v ===== *)
(** * Loader: the main function of the ring-buffer programs

    Chapters 7 to 13 have the same [main]: load the skeleton, attach, create
    the ring buffer, poll until a signal, clean up.  [snoop_main] is that
    function over what its calls return; chapters 15 and 20 are variations of
    it, and [snoop_mains] lists all but that of chapter 15, which may
    return a variable it has not set.  The result is the exit status and
    the calls that acquire or release something, in order.

    The theorems: the exit status by cases, with the case where it hides a
    failure; and that whatever was acquired is released exactly once. *)

From stdpp Require Import prelude list.
From Stdlib Require Import ZArith Lia.
From S2P Require Import Prelude.
From S2P Require Import Kernel.

(** What the calls return.  [polls] are the results of [ring_buffer__poll],
    in order, until [stop] is set. *)
Record outcome := mk_outcome {
  loads : bool;
  attach_rc : Z;
  ring_ok : bool;
  polls : list Z;
}.

Inductive call := OpenLoad | Attach | RingNew | RingFree | LinkDestroy | Destroy.

#[export] Instance call_eq_dec : EqDecision call.
Proof. solve_decision. Defined.

(** [while (!stop)]: the value of [err] after the loop. *)
Fixpoint poll_loop (polls : list Z) (err : Z) : Z :=
  match polls with
  | [] => err
  | rc :: polls' =>
      if rc =? - EINTR then 0
      else if rc <? 0 then rc
      else poll_loop polls' rc
  end.

(** [return err < 0 ? 1 : 0]. *)
Definition exit_status (err : Z) : Z := if err <? 0 then 1 else 0.

Definition snoop_main (o : outcome) : Z * list call :=
  if negb (loads o) then (1, [OpenLoad]) else
  let err := attach_rc o in
  if negb (err =? 0) then (exit_status err, [OpenLoad; Attach; Destroy]) else
  if negb (ring_ok o) then
    let err := 1 in
    (exit_status err, [OpenLoad; Attach; RingNew; Destroy])
  else
    let err := poll_loop (polls o) err in
    (exit_status err, [OpenLoad; Attach; RingNew; RingFree; Destroy]).

(** Chapter 7's, chapter 8's, ... [main]. *)
Definition main_07 (o : outcome) : Z * list call := snoop_main o.
Definition main_08 (o : outcome) : Z * list call := snoop_main o.
Definition main_09 (o : outcome) : Z * list call := snoop_main o.
Definition main_10 (o : outcome) : Z * list call := snoop_main o.
Definition main_11 (o : outcome) : Z * list call := snoop_main o.
Definition main_12 (o : outcome) : Z * list call := snoop_main o.
Definition main_13 (o : outcome) : Z * list call := snoop_main o.

(** Chapter 20 first checks that the BPF LSM is active, and exits with 0
    when it is not. *)
Definition main_20 (lsm_active : bool) (o : outcome) : Z * list call :=
  if negb lsm_active then (0, []) else snoop_main o.

(** Chapter 15 attaches the probe itself ([attach_rc] is zero or [-errno]),
    and releases the ring buffer and the link on every path, which does
    nothing for the ones that are still NULL.  Its [err] is not initialised:
    [garbage] is what it holds before the first poll. *)
Definition main_15 (garbage : Z) (o : outcome) : Z * list call :=
  if negb (loads o) then (1, [OpenLoad]) else
  let err := attach_rc o in
  if negb (err =? 0) then (exit_status err, [OpenLoad; Attach; Destroy]) else
  if negb (ring_ok o) then
    let err := 1 in
    (exit_status err, [OpenLoad; Attach; RingNew; LinkDestroy; Destroy])
  else
    let err := poll_loop (polls o) garbage in
    (exit_status err, [OpenLoad; Attach; RingNew; RingFree; LinkDestroy; Destroy]).

Definition snoop_mains : list (outcome → Z * list call) :=
  [main_07; main_08; main_09; main_10; main_11; main_12; main_13; main_20 true].

(** The poll results before the first one that ends the loop are
    non-negative. *)
Definition poll_fails (l : list Z) : Prop :=
  ∃ l1 rc l2, l = l1 ++ rc :: l2 ∧ Forall (λ r, 0 ≤ r) l1 ∧ rc < 0 ∧ rc ≠ - EINTR.

Lemma poll_loop_fails l : ∀ err, 0 ≤ err → poll_loop l err < 0 ↔ poll_fails l.
Proof.
  induction l as [|rc l IH]; intros err Herr; cbn [poll_loop].
  { split; [lia|]. intros ([|] & ? & ? & [=] & _). }
  destruct (Z.eqb_spec rc (- EINTR)) as [->|He].
  { split; [lia|]. intros ([|x l1] & y & l2 & Heq & Hf & Hn & Hne); simplify_eq/=.
    inversion Hf; subst. unfold EINTR in *. lia. }
  destruct (Z.ltb_spec rc 0).
  - split; [|done]. intros _. exists [], rc, l. split; [done|]. split; [constructor|]. done.
  - rewrite IH by done. split.
    + intros (l1 & x & l2 & -> & Hf & Hn & Hne). exists (rc :: l1), x, l2. split; [done|]. split; [by constructor|]. done.
    + intros ([|y l1] & x & l2 & Heq & Hf & Hn & Hne); simplify_eq/=; [lia|]. inversion Hf; subst.
      by exists l1, x, l2.
Qed.

Definition status_at (main : outcome → Z * list call) (o : outcome) : Prop :=
  ((main o).1 = 0 ∨ (main o).1 = 1)
  ∧ ((main o).1 = 1 ↔
       loads o = false ∨ (loads o = true ∧ attach_rc o < 0)
       ∨ (loads o = true ∧ attach_rc o = 0 ∧ ring_ok o = true ∧ poll_fails (polls o))).

Definition status_ok (main : outcome → Z * list call) : Prop := ∀ o, status_at main o.

Definition releases_ok (main : outcome → Z * list call) : Prop := ∀ o,
  let tr := (main o).2 in
  length (bfilter (λ c, bool_decide (c = Destroy)) tr) = Nat.b2n (loads o)
  ∧ (loads o = true → last tr = Some Destroy)
  ∧ (RingFree ∈ tr ↔ RingNew ∈ tr ∧ ring_ok o = true).

Lemma snoop_main_cases : status_ok snoop_main.
Proof.
  intros o. unfold status_at, snoop_main, exit_status. destruct (loads o); cbn [negb fst]; [|naive_solver].
  destruct (Z.eqb_spec (attach_rc o) 0) as [H0|H0]; cbn [negb fst].
  - destruct (ring_ok o); cbn [negb fst].
    + pose proof (poll_loop_fails (polls o) (attach_rc o) ltac:(lia)) as Hp.
      destruct (Z.ltb_spec (poll_loop (polls o) (attach_rc o)) 0); (split; [tauto|]); split.
      * intros _. right. right. repeat split; try done. by apply Hp.
      * done.
      * done.
      * intros [?|[[_ ?]|(_ & _ & _ & Hf)]]; [done|lia|]. apply Hp in Hf. lia.
    + simpl. split; [tauto|]. split; [done|]. intros [?|[[_ ?]|(_ & _ & ? & _)]]; [done|lia|done].
  - destruct (Z.ltb_spec (attach_rc o) 0); (split; [tauto|]); split.
    + intros _. right. left. done.
    + done.
    + done.
    + intros [?|[[_ ?]|(_ & ? & _)]]; [done|lia|done].
Qed.

(** The status of chapter 15 is computed the same way, once it has polled. *)
Lemma main_15_status g o : polls o ≠ [] → (main_15 g o).1 = (snoop_main o).1.
Proof. intros Hp. unfold main_15, snoop_main. destruct (polls o); [done|]. by repeat case_match. Qed.

Ltac releases :=
  intros o; destruct (loads o), (ring_ok o); cbn [negb snd];
    destruct (Z.eqb_spec (attach_rc o) 0); cbn [negb snd]; (split; [done|]); (split; [done|]); set_solver.

Lemma snoop_main_trace : releases_ok snoop_main.
Proof. unfold releases_ok, snoop_main. releases. Qed.

Lemma main_15_trace g : releases_ok (main_15 g).
Proof. unfold releases_ok, main_15. releases. Qed.

(** [C40] In the ring-buffer loaders the exit status is 1 exactly when the
    programs do not load, the attachment returns an error, or polling the
    ring buffer ends with an error other than EINTR; in chapter 15 as well if
    it has polled at least once, and otherwise its status is that of an
    uninitialised variable.  In particular a ring buffer that cannot be
    created is reported on standard error and yet gives exit status 0. *)
Theorem snoop_main_status :
  Forall status_ok snoop_mains
  ∧ (∀ g o, polls o ≠ [] → status_at (main_15 g) o)
  ∧ ∀ g, (main_15 g (mk_outcome true 0 true [])).1 = exit_status g.
Proof.
  pose proof snoop_main_cases as Hs. split; [unfold snoop_mains; by rewrite !Forall_cons|]. split; [|done].
  intros g o Hp. unfold status_at. rewrite main_15_status by done. apply Hs.
Qed.

(** In all of them, whatever fails, the skeleton is destroyed exactly once if
    it was loaded, as the last call, and the ring buffer is freed if and
    only if it was created. *)
Theorem snoop_main_releases : Forall releases_ok snoop_mains ∧ ∀ g, releases_ok (main_15 g).
Proof. pose proof snoop_main_trace. split; [unfold snoop_mains; by rewrite !Forall_cons|apply main_15_trace]. Qed.
