(* ===== verification/OpenCount.v ===== *)
(** * OpenCount: opens per user (chapter 16)

    Models src/16-bpftool/opencount.bpf.c: [count_open], sequentially and as
    steps that interleave on several CPUs (the lookup, the atomic addition
    and the insertion are one step each).

    The theorems: run one after the other, the calls are counted exactly;
    interleaved, the counter of a user is the number of calls less the
    insertions that lost the race for a new user, and there is an execution
    where one is lost. *)

From stdpp Require Import prelude gmap list relations.
From Stdlib Require Import ZArith Lia.
From S2P Require Import Prelude.
From S2P Require Import Kernel.

Definition MAX_UIDS : Z := 1024.

Section program.
  Context {M : Type} `{!BpfMap M Z Z}.

Definition count_open (cur : task) (open_count : M) : M :=
  let uid := current_uid cur in
  match map_lookup_elem open_count uid with
  | Some _ => map_poke open_count uid (λ cnt, cnt +64 1)
  | None => (map_update_elem open_count uid 1 BPF_NOEXIST).2
  end.

(** ** The steps of [count_open] on a CPU *)

(** [Done counted]: whether the call made it into the counter. *)
Inductive pc := Lookup | Add | Insert | Done (counted : bool).

Record cpu := mk_cpu { c_uid : Z; c_pc : pc }.

Definition cpu_step (m : M) (c : cpu) : option (M * cpu) :=
  match c_pc c with
  | Lookup =>
      match map_lookup_elem m (c_uid c) with
      | Some _ => Some (m, mk_cpu (c_uid c) Add)
      | None => Some (m, mk_cpu (c_uid c) Insert)
      end
  | Add => Some (map_poke m (c_uid c) (λ cnt, cnt +64 1), mk_cpu (c_uid c) (Done true))
  | Insert =>
      let '(rc, m) := map_update_elem m (c_uid c) 1 BPF_NOEXIST in
      Some (m, mk_cpu (c_uid c) (Done (rc =? 0)))
  | Done _ => None
  end.

Inductive step : M * list cpu → M * list cpu → Prop :=
  | step_cpu m m' cpus i c c' :
      cpus !! i = Some c → cpu_step m c = Some (m', c') →
      step (m, cpus) (m', <[i := c']> cpus).

(** A call runs alone as [count_open] does. *)
Definition start (uid : Z) : cpu := mk_cpu uid Lookup.
End program.

(** ** Specification *)

Definition opens (u : Z) (ts : list task) : Z :=
  Z.of_nat (length (bfilter (λ t, current_uid t =? u) ts)).

(** Calls of user [u] among the CPUs: all, counted and lost ones. *)
Definition is_of (u : Z) (c : cpu) : bool := c_uid c =? u.
Definition is_counted (u : Z) (c : cpu) : bool :=
  is_of u c && match c_pc c with Done true => true | _ => false end.
Definition is_lost (u : Z) (c : cpu) : bool :=
  is_of u c && match c_pc c with Done false => true | _ => false end.
Definition finished (c : cpu) : Prop := ∃ b, c_pc c = Done b.
Definition count_if (p : cpu → bool) (l : list cpu) : Z := sumZ ((λ c, Z.b2z (p c)) <$> l).

Section proof.
  Context {M : Type} `{!BpfMap M Z Z} `{!BpfHashLaws M Z Z MAX_UIDS}.
  Notation value m u := (default 0 (map_view (m : M) !! (u : Z))).

(** *** One after the other *)

Lemma count_open_view cur (m : M) :
  is_Some (map_view m !! current_uid cur) ∨ Z.of_nat (size (map_view m)) < MAX_UIDS →
  map_view (count_open cur m)
  = <[current_uid cur := default 1 ((λ n, n +64 1) <$> map_view m !! current_uid cur)]> (map_view m).
Proof.
  intros Hroom. unfold count_open. rewrite map_lookup_view.
  destruct (map_view m !! current_uid cur) as [n|] eqn:E.
  - rewrite map_poke_view. apply map_eq. intros j. destruct (decide (j = current_uid cur)) as [->|].
    + rewrite lookup_alter_eq, lookup_insert_eq, E. done.
    + by rewrite lookup_alter_ne, lookup_insert_ne.
  - destruct Hroom as [[]|Hroom]; [congruence|].
    destruct (map_update_elem m (current_uid cur) 1 BPF_NOEXIST) as [rc m'] eqn:Hu.
    apply hash_update_rc_view in Hu. unfold hash_update in Hu. rewrite E in Hu.
    apply Z.ltb_lt in Hroom. rewrite Hroom in Hu. injection Hu as _ Hv. cbn [snd]. by rewrite Hv.
Qed.

Lemma opens_snoc u ts t : opens u (ts ++ [t]) = opens u ts + Z.b2z (current_uid t =? u).
Proof.
  unfold opens. rewrite bfilter_app, length_app. simpl. destruct (_ =? u); simpl; lia.
Qed.

Lemma counts_exact ts :
  Z.of_nat (size (list_to_set (current_uid <$> ts) : gset Z)) ≤ MAX_UIDS →
  ∀ u, map_view (foldl (λ m t, count_open t m) (map_empty : M) ts) !! u
       = if decide (u ∈ current_uid <$> ts) then Some (u64 (opens u ts)) else None.
Proof.
  induction ts as [|t ts IH] using rev_ind; intros Hs u.
  { cbn [foldl]. by rewrite map_empty_view, lookup_empty. }
  rewrite foldl_app, fmap_app in *. cbn [foldl fmap list_fmap] in *.
  set (m := foldl (λ m t, count_open t m) map_empty ts) in *.
  set (D := list_to_set (current_uid <$> ts) : gset Z) in *.
  rewrite list_to_set_app_L in Hs. cbn [list_to_set] in Hs. rewrite union_empty_r_L in Hs. fold D in Hs.
  assert (HD : Z.of_nat (size D) ≤ MAX_UIDS).
  { assert (size D ≤ size (D ∪ {[current_uid t]}))%nat by (apply subseteq_size; set_solver). lia. }
  specialize (IH HD).
  assert (Hdom : dom (map_view m) = D).
  { apply set_eq. intros k. rewrite elem_of_dom, IH. unfold D. rewrite elem_of_list_to_set.
    case_decide; [split; [done|by eexists]|]. split; [by intros []|done]. }
  rewrite count_open_view.
  2:{ destruct (decide (current_uid t ∈ D)) as [Hin|Hnin].
      - left. by rewrite <- Hdom, elem_of_dom in Hin.
      - right. rewrite <- size_dom, Hdom.
        rewrite size_union, size_singleton in Hs by set_solver. lia. }
  destruct (decide (u = current_uid t)) as [->|Hne].
  - rewrite lookup_insert_eq, IH, (decide_True (P := _ ∈ _ ++ _)) by set_solver.
    rewrite opens_snoc, Z.eqb_refl. cbn [Z.b2z]. case_decide as Hin; cbn [fmap option_fmap option_map default].
    + by rewrite u64_add_l.
    + assert (opens (current_uid t) ts = 0) as ->; [|done]. unfold opens.
      rewrite bfilter_none; [done|]. apply Forall_forall. intros x Hx. apply Z.eqb_neq. intros Heq.
      apply Hin. rewrite <- Heq. by apply list_elem_of_fmap_2.
  - rewrite lookup_insert_ne, IH, opens_snoc by done.
    assert (current_uid t =? u = false) as -> by (by apply Z.eqb_neq). cbn [Z.b2z]. rewrite Z.add_0_r.
    rewrite (decide_ext (u ∈ current_uid <$> ts) (u ∈ (current_uid <$> ts) ++ [current_uid t])); [done|].
    set_solver.
Qed.

(** *** Interleaved *)

Lemma count_if_insert p (cpus : list cpu) i c c' :
  cpus !! i = Some c → count_if p (<[i := c']> cpus) = count_if p cpus - Z.b2z (p c) + Z.b2z (p c').
Proof. intros Hi. unfold count_if. by rewrite (sumZ_fmap_insert _ _ _ c). Qed.

(** The rows only appear and grow. *)
Record race_inv (m0 : M) (s : M * list cpu) : Prop := mk_race_inv {
  ri_value u : u64 (value s.1 u) = u64 (value m0 u + count_if (is_counted u) s.2);
  ri_present u : is_Some (map_view m0 !! u) → is_Some (map_view s.1 !! u);
  ri_add i c : s.2 !! i = Some c → c_pc c = Add → is_Some (map_view s.1 !! c_uid c);
  ri_insert i c : s.2 !! i = Some c → c_pc c = Insert ∨ c_pc c = Done false →
    map_view m0 !! c_uid c = None;
}.

(** What one step does to the rows, to the counted calls and to the phase. *)
Lemma cpu_step_effect (m m' : M) c c' :
  cpu_step m c = Some (m', c') → (c_pc c = Add → is_Some (map_view m !! c_uid c)) →
  c_uid c' = c_uid c
  ∧ (∀ u, u64 (value m' u) = u64 (value m u + (Z.b2z (is_counted u c') - Z.b2z (is_counted u c))))
  ∧ (∀ u, is_Some (map_view m !! u) → is_Some (map_view m' !! u))
  ∧ (c_pc c' = Add → is_Some (map_view m' !! c_uid c))
  ∧ (c_pc c' = Insert → map_view m !! c_uid c = None)
  ∧ (c_pc c' = Done false → c_pc c = Insert).
Proof.
  destruct c as [uid [| | |b]]; unfold cpu_step; cbn [c_pc c_uid]; intros Hs Hadd; [| | |done].
  - rewrite map_lookup_view in Hs. destruct (map_view m !! uid) as [n|] eqn:E; injection Hs as <- <-;
      cbn [c_pc c_uid]; unfold is_counted; cbn [c_pc];
      (split; [done|]); (split; [intros u; rewrite !andb_false_r; f_equal; lia|]); repeat split; try done.
  - injection Hs as <- <-. destruct (Hadd eq_refl) as [n Hn]. cbn [c_pc c_uid]. rewrite map_poke_view.
    split; [done|]. split; [|repeat split; try done].
    + intros u. unfold is_counted, is_of. cbn [c_pc c_uid]. rewrite andb_true_r, andb_false_r.
      destruct (Z.eqb_spec uid u) as [->|]; cbn [Z.b2z].
      * rewrite lookup_alter_eq, Hn. simpl. rewrite u64_idemp. f_equal; lia.
      * rewrite lookup_alter_ne by done. f_equal. lia.
    + intros u. destruct (decide (u = uid)) as [->|].
      * rewrite lookup_alter_eq. by rewrite fmap_is_Some.
      * by rewrite lookup_alter_ne.
  - destruct (map_update_elem m uid 1 BPF_NOEXIST) as [rc m1] eqn:Hu. injection Hs as <- <-.
    apply hash_update_rc_view in Hu. unfold hash_update in Hu. cbn [c_pc c_uid].
    assert (Hcase : (rc <> 0 ∧ map_view m1 = map_view m)
      ∨ (rc = 0 ∧ map_view m !! uid = None ∧ map_view m1 = <[uid := 1]> (map_view m))).
    { destruct (map_view m !! uid); [left; by injection Hu as -> ->|].
      destruct (_ <? MAX_UIDS); [right|left]; by injection Hu as -> ->. }
    destruct Hcase as [[Hrc Hv]|(-> & Hn & Hv)]; rewrite Hv.
    + assert (rc =? 0 = false) as -> by (by apply Z.eqb_neq).
      split; [done|]. split; [|repeat split; done]. intros u. unfold is_counted. cbn [c_pc].
      rewrite !andb_false_r. f_equal. lia.
    + split; [done|]. split; [|repeat split; try done].
      * intros u. unfold is_counted, is_of. cbn [c_pc c_uid Z.eqb]. rewrite andb_true_r, andb_false_r.
        destruct (Z.eqb_spec uid u) as [->|]; cbn [Z.b2z].
        -- rewrite lookup_insert_eq, Hn. done.
        -- rewrite lookup_insert_ne by done. f_equal. lia.
      * intros u Hsome. destruct (decide (u = uid)) as [->|]; [rewrite lookup_insert_eq; by eexists|].
        by rewrite lookup_insert_ne.
Qed.

Lemma race_inv_step m0 s s' : race_inv m0 s → step s s' → race_inv m0 s'.
Proof.
  intros [H1 H2 H3 H4] Hst. destruct Hst as [m m' cpus i c c' Hi Hc]. cbn [fst snd] in *.
  destruct (cpu_step_effect m m' c c' Hc (H3 i c Hi)) as (E0 & E1 & E2 & E3 & E4 & E5).
  split; cbn [fst snd].
  - intros u. rewrite E1, (count_if_insert _ _ _ c) by done.
    rewrite (u64_congr _ _ _ (H1 u)). f_equal. lia.
  - intros u Hu. by apply E2, H2.
  - intros j d Hj Hd. destruct (decide (i = j)) as [<-|Hne].
    + rewrite list_lookup_insert_eq in Hj by (by eapply lookup_lt_Some). injection Hj as <-.
      rewrite E0. by apply E3.
    + rewrite list_lookup_insert_ne in Hj by done. apply E2. by eapply H3.
  - intros j d Hj Hd. destruct (decide (i = j)) as [<-|Hne].
    + rewrite list_lookup_insert_eq in Hj by (by eapply lookup_lt_Some). injection Hj as <-. rewrite E0.
      destruct Hd as [Hd|Hd]; [|apply E5 in Hd; apply (H4 i c Hi); by left].
      apply E4 in Hd. destruct (map_view m0 !! c_uid c) eqn:E; [|done].
      destruct (H2 (c_uid c)) as [v Hv]; [by eexists|]. congruence.
    + rewrite list_lookup_insert_ne in Hj by done. by apply (H4 j d Hj).
Qed.

Lemma race_inv_start m0 uids : race_inv m0 (m0, start <$> uids).
Proof.
  assert (Hs : ∀ i c, (start <$> uids) !! i = Some c → c_pc c = Lookup).
  { intros i c Hi. apply list_lookup_fmap_Some in Hi as (u & -> & _). done. }
  split; cbn [fst snd].
  - intros u. assert (count_if (is_counted u) (start <$> uids) = 0) as ->; [|by rewrite Z.add_0_r].
    unfold count_if. clear Hs. induction uids as [|x l IH]; [done|]. csimpl. unfold sumZ in *. cbn [foldr] in *.
    unfold is_counted at 1. cbn [start c_pc]. rewrite andb_false_r. simpl. exact IH.
  - done.
  - intros i c Hi. by rewrite (Hs i c Hi).
  - intros i c Hi. rewrite (Hs i c Hi). by intros [].
Qed.

Lemma race_inv_reach m0 s s' : rtc step s s' → race_inv m0 s → race_inv m0 s'.
Proof. induction 1; eauto using race_inv_step. Qed.

(** Steps change neither the number of calls nor their users. *)
Lemma step_uids s s' : rtc step s s' → c_uid <$> s'.2 = c_uid <$> s.2.
Proof.
  induction 1 as [s|s1 s2 s3 Hst _ IH]; [done|]. rewrite IH. destruct Hst as [m m' cpus i c c' Hi Hc].
  cbn [snd]. rewrite list_fmap_insert. apply list_insert_id. rewrite list_lookup_fmap, Hi. simpl. f_equal.
  destruct c as [uid [| | |]]; unfold cpu_step in Hc; cbn [c_pc c_uid] in *; repeat case_match; by simplify_eq.
Qed.

Lemma count_split u (cpus : list cpu) :
  Forall finished cpus →
  count_if (is_counted u) cpus = count_if (is_of u) cpus - count_if (is_lost u) cpus.
Proof.
  unfold count_if. induction 1 as [|c l [b Hb] _ IH]; [done|]. csimpl. unfold sumZ in *. cbn [foldr].
  rewrite IH. unfold is_counted, is_lost. rewrite Hb. destruct (is_of u c), b; simpl; lia.
Qed.

Lemma count_of_uids u (cpus : list cpu) uids :
  c_uid <$> cpus = uids → count_if (is_of u) cpus = sumZ ((λ x, Z.b2z (x =? u)) <$> uids).
Proof. intros <-. unfold count_if. by rewrite <- list_fmap_compose. Qed.
End proof.

(** ** Theorems *)

Section theorems.
  Context {M : Type} `{!BpfMap M Z Z}.

(** Calls that run one after the other are counted exactly: after any
    sequence of opens by at most 1024 users, each user who opened anything
    has the number of its opens, modulo 2^64, and nobody else has a row. *)
Theorem open_count_exact `{!BpfHashLaws M Z Z MAX_UIDS} (ts : list task) (u : Z) :
  Z.of_nat (size (list_to_set (current_uid <$> ts) : gset Z)) ≤ MAX_UIDS →
  map_lookup_elem (foldl (λ m t, count_open t m) (map_empty : M) ts) u
  = if decide (u ∈ current_uid <$> ts) then Some (u64 (opens u ts)) else None.
Proof. intros Hs. rewrite map_lookup_view. by apply counts_exact. Qed.

(** [C37] Concurrent calls: in every execution in which all calls have
    finished, the counter of a user grew by the number of its calls less
    those whose insertion was refused; no call is lost for a user who already
    had a row. *)
Theorem open_count_race `{!BpfHashLaws M Z Z MAX_UIDS} (m m' : M) (uids : list Z) (cpus : list cpu) (u : Z) :
  rtc step (m, start <$> uids) (m', cpus) → Forall finished cpus →
  let lost := count_if (is_lost u) cpus in
  u64 (default 0 (map_lookup_elem m' u))
  = u64 (default 0 (map_lookup_elem m u) + sumZ ((λ x, Z.b2z (x =? u)) <$> uids) - lost)
  ∧ (is_Some (map_lookup_elem m u) → lost = 0).
Proof.
  intros Hr Hf. pose proof (race_inv_reach m _ _ Hr (race_inv_start m uids)) as [H1 _ _ H4].
  cbn [fst snd] in *. rewrite !map_lookup_view. split.
  - rewrite H1, count_split, (count_of_uids u cpus uids) by (done || (pose proof (step_uids _ _ Hr) as Hu;
      cbn [snd] in Hu; rewrite Hu, <- list_fmap_compose; apply list_fmap_id)). f_equal. lia.
  - intros Hsome. unfold count_if. cut (Forall (λ c, is_lost u c = false) cpus).
    { clear. induction 1 as [|c l Hc _ IH]; [done|]. csimpl. unfold sumZ in *. cbn [foldr]. rewrite Hc, IH. done. }
    apply Forall_lookup. intros i c Hi. unfold is_lost, is_of.
    destruct (Z.eqb_spec (c_uid c) u) as [<-|]; [|done]. simpl.
    destruct (c_pc c) as [| | |[|]] eqn:E; try done.
    specialize (H4 i c Hi (or_intror E)). rewrite H4 in Hsome. by destruct Hsome.
Qed.
End theorems.

(** The race does lose counts: two simultaneous first opens of a user
    can end with a counter of 1. *)
Theorem open_count_loses :
  ∃ m cpus,
    rtc (@step _ (gmap_hash MAX_UIDS)) ((∅ : gmap Z Z), [start 1000; start 1000]) (m, cpus)
    ∧ Forall finished cpus ∧ (m : gmap Z Z) !! 1000 = Some 1.
Proof.
  exists {[ 1000 := 1 ]}, [mk_cpu 1000 (Done true); mk_cpu 1000 (Done false)]. split.
  - eapply rtc_l; [by exact (@step_cpu _ (gmap_hash MAX_UIDS) ∅ ∅ [start 1000; start 1000] 0%nat
      (start 1000) (mk_cpu 1000 Insert) eq_refl eq_refl)|].
    eapply rtc_l; [by exact (@step_cpu _ (gmap_hash MAX_UIDS) ∅ ∅ [mk_cpu 1000 Insert; start 1000] 1%nat
      (start 1000) (mk_cpu 1000 Insert) eq_refl eq_refl)|].
    eapply rtc_l; [by exact (@step_cpu _ (gmap_hash MAX_UIDS) ∅ {[ 1000 := 1 ]}
      [mk_cpu 1000 Insert; mk_cpu 1000 Insert] 0%nat (mk_cpu 1000 Insert) (mk_cpu 1000 (Done true)) eq_refl eq_refl)|].
    eapply rtc_l; [by exact (@step_cpu _ (gmap_hash MAX_UIDS) {[ 1000 := 1 ]} {[ 1000 := 1 ]}
      [mk_cpu 1000 (Done true); mk_cpu 1000 Insert] 1%nat (mk_cpu 1000 Insert) (mk_cpu 1000 (Done false)) eq_refl eq_refl)|].
    apply rtc_refl.
  - split; [|done]. repeat constructor; by eexists.
Qed.

(** ** Witnesses *)

Definition ex_tasks : list task := [mk_task 0 1000 []; mk_task 0 0 []; mk_task 0 1000 []].

Lemma open_count_exact_witness :
  @map_lookup_elem _ _ _ _ _ (gmap_hash MAX_UIDS)
    (foldl (λ m t, @count_open _ (gmap_hash MAX_UIDS) t m)
      (@map_empty _ _ _ _ _ (gmap_hash MAX_UIDS)) ex_tasks) 1000 = Some 2.
Proof.
  rewrite (@open_count_exact _ (gmap_hash MAX_UIDS) (gmap_hash_laws MAX_UIDS) ex_tasks 1000).
  - vm_compute. reflexivity.
  - vm_compute. discriminate.
Defined.

Lemma open_count_race_witness :
  u64 (default 0 (@map_lookup_elem _ _ _ _ _ (gmap_hash MAX_UIDS) ({[ 7 := 4 ]} : gmap Z Z) 7)) = u64 (3 + 1 - 0).
Proof.
  destruct (@open_count_race _ (gmap_hash MAX_UIDS) (gmap_hash_laws MAX_UIDS) {[ 7 := 3 ]} {[ 7 := 4 ]}
    [7] [mk_cpu 7 (Done true)] 7) as [H _].
  - eapply rtc_l; [exact (@step_cpu _ (gmap_hash MAX_UIDS) {[ 7 := 3 ]} {[ 7 := 3 ]} [start 7] 0%nat
      (start 7) (mk_cpu 7 Add) eq_refl eq_refl)|].
    eapply rtc_l; [exact (@step_cpu _ (gmap_hash MAX_UIDS) {[ 7 := 3 ]} {[ 7 := 4 ]} [mk_cpu 7 Add] 0%nat
      (mk_cpu 7 Add) (mk_cpu 7 (Done true)) eq_refl eq_refl)|].
    apply rtc_refl.
  - constructor; [eexists; reflexivity|constructor].
  - exact H.
Defined.
