(* ===== verification/Inet.v ===== *)
(** * Inet: addresses as text

    [inet_ntop] of glibc for IPv4 and IPv6 (the longest run of zeros
    becomes "::", and an address that embeds an IPv4 address ends in dotted
    form), and [fmt_endpoint], which src/12-tcpstates/tcpstates.c and
    src/13-tcplife/tcplife.c share word for word.

    The results: the text fits the buffers of both programs, and it can
    be read back, so that it names one address and one port. *)

From stdpp Require Import prelude list strings.
From Stdlib Require Import ZArith Lia.
From S2P Require Import Prelude.
From S2P Require Import Kernel.
From S2P Require Import Libc.
From S2P Require Import Printf.

Definition AF_INET : Z := 2.
Definition AF_INET6 : Z := 10.
Definition INET_ADDRSTRLEN : nat := 16.
Definition INET6_ADDRSTRLEN : nat := 46.

(** ** [inet_ntop] *)

Definition quad (a b c d : Z) : list Z :=
  dec a ++ str "." ++ dec b ++ str "." ++ dec c ++ str "." ++ dec d.

(** [None]: a read past the end of the address, or a text that does not fit
    the size. *)
Definition sized (size : nat) (s : list Z) : option (list Z) := if (length s <? size)%nat then Some s else None.

Definition inet_ntop4 (size : nat) (addr : list Z) : option (list Z) :=
  match addr with a :: b :: c :: d :: _ => sized size (quad a b c d) | _ => None end.

Fixpoint words (n : nat) (addr : list Z) : option (list Z) :=
  match n, addr with
  | O, _ => Some []
  | S n, hi :: lo :: addr => ws ← words n addr; Some (hi * 256 + lo :: ws)
  | S _, _ => None
  end.

(** The longer of two runs; the earlier one when they are equally long. *)
Definition longer (cur best : option (nat * nat)) : option (nat * nat) :=
  match cur, best with
  | None, _ => best
  | Some _, None => cur
  | Some (_, cl), Some (_, bl) => if (bl <? cl)%nat then cur else best
  end.

(** The loop over the words that looks for the best run of zeros. *)
Fixpoint runs (i : nat) (zeros : list bool) (cur best : option (nat * nat)) : option (nat * nat) :=
  match zeros with
  | [] => longer cur best
  | z :: zeros' =>
      if z : bool
      then runs (S i) zeros' (match cur with None => Some (i, 1%nat) | Some (b, l) => Some (b, S l) end) best
      else runs (S i) zeros' None (longer cur best)
  end.

Definition best_run (zeros : list bool) : option (nat * nat) :=
  match runs 0 zeros None None with
  | Some (b, l) => if (l <? 2)%nat then None else Some (b, l)
  | None => None
  end.

Definition in_run (best : option (nat * nat)) (i : nat) : bool :=
  match best with Some (b, l) => (b <=? i)%nat && (i <? b + l)%nat | None => false end.
Definition at_run (best : option (nat * nat)) (i : nat) : bool :=
  match best with Some (b, _) => (i =? b)%nat | None => false end.
Definition to_end (best : option (nat * nat)) : bool :=
  match best with Some (b, l) => (b + l =? 8)%nat | None => false end.

(** The loop that writes the words; [v4] is the dotted end when the address
    embeds an IPv4 address. *)
Fixpoint emit (best : option (nat * nat)) (v4 : option (list Z)) (i : nat) (ws : list Z) : list Z :=
  match ws with
  | [] => []
  | w :: ws' =>
      if in_run best i then (if at_run best i then str ":" else []) ++ emit best v4 (S i) ws'
      else
        (if (i =? 0)%nat then [] else str ":") ++
        match (if (i =? 6)%nat then v4 else None) with
        | Some q => q
        | None => hex w ++ emit best v4 (S i) ws'
        end
  end.

Definition embeds_v4 (best : option (nat * nat)) (ws : list Z) : bool :=
  match best with
  | Some (b, l) => (b =? 0)%nat && ((l =? 6)%nat || ((l =? 5)%nat && (default 0 (ws !! 5%nat) =? 65535)))
  | None => false
  end.

Definition v6_text (ws : list Z) (tail : list Z) : list Z :=
  let best := best_run ((λ w, w =? 0) <$> ws) in
  let v4 := if embeds_v4 best ws then match tail with [a; b; c; d] => Some (quad a b c d) | _ => None end else None in
  emit best v4 0 ws ++ (if to_end best then str ":" else []).

Definition inet_ntop6 (size : nat) (addr : list Z) : option (list Z) :=
  ws ← words 8 addr;
  sized size (v6_text ws (take 4 (drop 12 addr))).

Definition inet_ntop (family : Z) (addr : list Z) (size : nat) : option (list Z) :=
  if family =? AF_INET then inet_ntop4 size addr
  else if family =? AF_INET6 then inet_ntop6 size addr
  else None.

(** ** [fmt_endpoint] *)

(** [None] when [inet_ntop] fails and [ip] is left uninitialised. *)
Definition fmt_endpoint (buflen : nat) (family : Z) (addr : list Z) (port : Z) : option (list Z) :=
  ip ← inet_ntop family addr INET6_ADDRSTRLEN;
  Some (snprintf buflen
    (if family =? AF_INET6 then str "[" ++ ip ++ str "]:" ++ dec port else ip ++ str ":" ++ dec port)).

(** ** Reading the text *)

Fixpoint split_on (c : Z) (s : list Z) : list (list Z) :=
  match s with
  | [] => [[]]
  | x :: s' =>
      if x =? c then [] :: split_on c s'
      else match split_on c s' with t :: ts => (x :: t) :: ts | [] => [[x]] end
  end.

Definition is_nil (t : list Z) : bool := match t with [] => true | _ => false end.
Definition has (c : Z) (t : list Z) : bool := existsb (Z.eqb c) t.
Definition read (base : Z) (t : list Z) : Z := (digits base 0 t).1.
#[global] Arguments read : simpl never.

(** The words of one group between colons. *)
Definition group (t : list Z) : list Z :=
  if has 46 t then
    match split_on 46 t with
    | [a; b; c; d] => [read 10 a * 256 + read 10 b; read 10 c * 256 + read 10 d]
    | _ => []
    end
  else [read 16 t].

(** The groups before the first empty one, and the others. *)
Fixpoint break_nil (ts : list (list Z)) : list (list Z) * list (list Z) :=
  match ts with
  | [] => ([], [])
  | t :: ts' => if is_nil t then ([], ts') else let '(a, b) := break_nil ts' in (t :: a, b)
  end.

Definition read_v6 (s : list Z) : list Z :=
  let '(before, after) := break_nil (split_on 58 s) in
  let before := mjoin (group <$> before) in
  let after := mjoin (group <$> bfilter (λ t, negb (is_nil t)) after) in
  before ++ replicate (8 - length before - length after) 0 ++ after.

Definition read_v4 (s : list Z) : list Z := read 10 <$> split_on 46 s.

(** ** Lemmas *)

Lemma split_on_plain c s : has c s = false → split_on c s = [s].
Proof.
  induction s as [|x s IH]; cbn; [done|]. intros [Hx Hs]%orb_false_iff. rewrite Z.eqb_sym, Hx, IH by done. done.
Qed.

Lemma split_on_cons c t s : has c t = false → split_on c (t ++ c :: s) = t :: split_on c s.
Proof.
  induction t as [|x t IH]; cbn [app]; intros Ht.
  - cbn. by rewrite Z.eqb_refl.
  - cbn in Ht. apply orb_false_iff in Ht as [Hx Ht]. cbn [split_on]. rewrite Z.eqb_sym, Hx, IH by done. done.
Qed.

(** Numbers have no dots and no colons. *)
Lemma numeral_has base n c : 2 ≤ base ≤ 16 → 0 ≤ n → digit c = 99 → has c (numeral base n) = false.
Proof.
  intros Hb Hn Hc. pose proof (numeral_digits base Hb n Hn) as Hd. unfold has.
  induction Hd as [|x s Hx _ IH]; cbn; [done|]. rewrite IH, orb_false_r.
  apply Z.eqb_neq. intros <-. lia.
Qed.

Lemma dec_has n c : 0 ≤ n → digit c = 99 → has c (dec n) = false.
Proof. apply numeral_has. lia. Qed.

Lemma hex_has n c : 0 ≤ n → digit c = 99 → has c (hex n) = false.
Proof. apply numeral_has. lia. Qed.

Lemma read_dec n : 0 ≤ n → read 10 (dec n) = n.
Proof. intros Hn. unfold read, dec. by rewrite numeral_value by lia. Qed.

Lemma read_hex n : 0 ≤ n → read 16 (hex n) = n.
Proof. intros Hn. unfold read, hex. by rewrite numeral_value by lia. Qed.

Lemma is_nil_hex n : is_nil (hex n) = false.
Proof. unfold is_nil. pose proof (numeral_nonempty 16 n). unfold hex. by destruct (numeral 16 n). Qed.

Lemma has_app c s t : has c (s ++ t) = has c s || has c t.
Proof. unfold has. by rewrite existsb_app. Qed.

Section quads.
  Context (a b c d : Z) (Ha : 0 ≤ a) (Hb : 0 ≤ b) (Hc : 0 ≤ c) (Hd : 0 ≤ d).

Lemma split_quad : split_on 46 (quad a b c d) = [dec a; dec b; dec c; dec d].
Proof.
  unfold quad. change (str ".") with [46]. cbn [app].
  rewrite !split_on_cons by (by apply dec_has). by rewrite split_on_plain by (by apply dec_has).
Qed.

Lemma read_quad : read_v4 (quad a b c d) = [a; b; c; d].
Proof. unfold read_v4. rewrite split_quad. cbn. by rewrite !read_dec. Qed.

Lemma quad_has x : x ≠ 46 → digit x = 99 → has x (quad a b c d) = false.
Proof.
  intros Hx Hx'. unfold quad. rewrite !has_app, !dec_has by done. change (has x (str ".")) with ((x =? 46) || false).
  apply Z.eqb_neq in Hx. by rewrite Hx.
Qed.

Lemma is_nil_quad : is_nil (quad a b c d) = false.
Proof. unfold quad. pose proof (numeral_nonempty 10 a). unfold dec at 1. by destruct (numeral 10 a). Qed.

Lemma quad_dot : has 46 (quad a b c d) = true.
Proof. unfold quad. rewrite !has_app. cbn. by rewrite !orb_true_r. Qed.

Lemma group_quad : group (quad a b c d) = [a * 256 + b; c * 256 + d].
Proof. unfold group. rewrite quad_dot, split_quad, !read_dec by done. done. Qed.

Lemma length_quad : a < 256 → b < 256 → c < 256 → d < 256 → (length (quad a b c d) ≤ 15)%nat.
Proof.
  intros. assert (Hl : ∀ x, 0 ≤ x → x < 256 → (length (dec x) ≤ 3)%nat).
  { intros x Hx Hx'. apply numeral_length; lia. }
  unfold quad. rewrite !length_app. change (length (str ".")) with 1%nat.
  pose proof (Hl a). pose proof (Hl b). pose proof (Hl c). pose proof (Hl d). lia.
Qed.
End quads.

Lemma group_hex w : 0 ≤ w → group (hex w) = [w].
Proof. intros Hw. unfold group. rewrite hex_has, read_hex by done. done. Qed.

(** The best run is a run of zeros; there are 256 patterns of zeros. *)
Lemma best_run_zeros z0 z1 z2 z3 z4 z5 z6 z7 :
  let zs := [z0; z1; z2; z3; z4; z5; z6; z7] in
  match best_run zs with
  | Some (b, l) => (2 <=? l)%nat && (b + l <=? 8)%nat && forallb id (take l (drop b zs)) = true
  | None => True
  end.
Proof. destruct z0, z1, z2, z3, z4, z5, z6, z7; vm_compute; exact eq_refl || exact I. Qed.

(** Text with a known run of zeros: write it, split it, read the groups. *)
Ltac read_back :=
  lazymatch goal with |- context [embeds_v4 ?x ?y] =>
    let v := eval cbn -[Z.eqb] in (embeds_v4 x y) in change (embeds_v4 x y) with v end;
  repeat match goal with H : (_ =? 65535) = _ |- _ => rewrite ?H; clear H end;
  cbn [emit in_run at_run to_end Nat.leb Nat.ltb Nat.eqb Nat.add andb app];
  change (str ":") with [58]; rewrite ?app_nil_r; unfold read_v6; repeat (rewrite <- app_assoc); cbn [app];
  repeat first
    [ rewrite split_on_cons by (by apply hex_has)
    | rewrite split_on_plain by (first [by apply hex_has | apply quad_has; lia || done])
    | progress cbn [split_on Z.eqb Pos.eqb] ];
  repeat (progress (cbn [break_nil is_nil bfilter negb]; rewrite ?is_nil_hex, ?is_nil_quad));
  cbn; rewrite ?group_hex, ?group_quad by lia; done.

Section v6.
  Context (w0 w1 w2 w3 w4 w5 a b c d : Z).
  Context (H0 : 0 ≤ w0) (H1 : 0 ≤ w1) (H2 : 0 ≤ w2) (H3 : 0 ≤ w3) (H4 : 0 ≤ w4) (H5 : 0 ≤ w5).
  Context (Ha : 0 ≤ a < 256) (Hb : 0 ≤ b < 256) (Hc : 0 ≤ c < 256) (Hd : 0 ≤ d < 256).
  Notation ws := [w0; w1; w2; w3; w4; w5; a * 256 + b; c * 256 + d].

(** Reading what [emit] wrote, for a run of zeros at [p] of length [l]. *)
Lemma read_v6_text : read_v6 (v6_text ws [a; b; c; d]) = ws.
Proof.
  unfold v6_text. cbv zeta.
  assert (H6 : 0 ≤ a * 256 + b) by lia. assert (H7 : 0 ≤ c * 256 + d) by lia.
  pose proof (best_run_zeros (w0 =? 0) (w1 =? 0) (w2 =? 0) (w3 =? 0) (w4 =? 0) (w5 =? 0)
    (a * 256 + b =? 0) (c * 256 + d =? 0)) as Hz.
  cbv zeta in Hz. cbn [fmap list_fmap] in *. 
  destruct (best_run _) as [[p l]|]; [|by read_back].
  apply andb_true_iff in Hz as [[Hl%Nat.leb_le Hp%Nat.leb_le]%andb_true_iff Hf].
  assert (p ≤ 6)%nat as Hp' by lia. assert (l ≤ 8)%nat as Hl' by lia. destruct (w5 =? 65535) eqn:E5.
  all: repeat (destruct p as [|p]; [|try lia]); try lia; repeat (destruct l as [|l]; [try lia|try lia]); try lia.
  all: cbn in Hf; repeat apply andb_true_iff in Hf as [?%Z.eqb_eq Hf]; subst; try discriminate.
  all: try (replace (a * 256 + b) with 0 by lia); try (replace (c * 256 + d) with 0 by lia).
  all: by read_back.
Qed.
End v6.

(** ** Endpoints *)

Definition v6_bytes (ws : list Z) : list Z := mjoin ((λ w, [w / 256; w mod 256]) <$> ws).

(** Family, address and port of a text. *)
Definition read_endpoint (s : list Z) : option (Z * list Z * Z) :=
  match s with
  | 91 :: s' =>
      match split_on 93 s' with
      | [ip; 58 :: port] => Some (AF_INET6, v6_bytes (read_v6 ip), read 10 port)
      | _ => None
      end
  | _ =>
      match split_on 58 s with
      | [ip; port] => Some (AF_INET, read_v4 ip, read 10 port)
      | _ => None
      end
  end.

(** A byte that is part of no address. *)
Lemma emit_has x best v4 ws : ∀ i,
  x ≠ 58 → digit x = 99 → Forall (λ w, 0 ≤ w) ws → (∀ q, v4 = Some q → has x q = false) →
  has x (emit best v4 i ws) = false.
Proof.
  intros i Hx Hd Hw Hq. assert (Hc : has x (str ":") = false).
  { change (has x (str ":")) with ((x =? 58) || false). apply Z.eqb_neq in Hx. by rewrite Hx. }
  revert i. induction Hw as [|w ws Hw _ IH]; intros i; cbn [emit]; [done|].
  destruct (in_run best i); rewrite has_app.
  - rewrite IH, orb_false_r. by destruct (at_run best i).
  - assert (has x (if (i =? 0)%nat then [] else str ":") = false) as -> by (by destruct (i =? 0)%nat).
    destruct (i =? 6)%nat; [destruct v4 as [q|]; [by apply Hq|]|]; rewrite has_app, IH, hex_has; done.
Qed.

(** Five characters for each word after the first. *)
Lemma emit_length best ws i :
  Forall (λ w, 0 ≤ w < 65536) ws → (length (emit best None (S i) ws) ≤ 5 * length ws)%nat.
Proof.
  intros Hw. revert i. induction Hw as [|w ws Hw _ IH]; intros i; cbn [emit length]; [lia|]. specialize (IH (S i)).
  assert (length (hex w) ≤ 4)%nat by (apply numeral_length; lia).
  assert ((if (S i =? 6)%nat then @None (list Z) else None) = None) as -> by (by destruct (S i =? 6)%nat).
  cbn [Nat.eqb]. change (str ":") with [58].
  destruct (in_run best (S i)), (at_run best (S i)); rewrite ?length_app; cbn [length app]; lia.
Qed.

Lemma v6_length w0 w1 w2 w3 w4 w5 a b c d :
  let ws := [w0; w1; w2; w3; w4; w5; a * 256 + b; c * 256 + d] in
  Forall (λ w, 0 ≤ w < 65536) ws → is_byte a → is_byte b → is_byte c → is_byte d →
  (length (v6_text ws [a; b; c; d]) ≤ 40)%nat.
Proof.
  intros ws. unfold is_byte. intros Hw Ha Hb Hc Hd. unfold v6_text. rewrite length_app. subst ws. cbv zeta.
  destruct (embeds_v4 _ _) eqn:He.
  - pose proof (length_quad a b c d ltac:(lia) ltac:(lia) ltac:(lia) ltac:(lia) ltac:(lia) ltac:(lia) ltac:(lia) ltac:(lia)).
    destruct (best_run _) as [[p l]|]; [|done]. unfold embeds_v4 in He.
    apply andb_true_iff in He as [->%Nat.eqb_eq [->%Nat.eqb_eq|[->%Nat.eqb_eq _]%andb_true_iff]%orb_true_iff].
    + cbn. lia.
    + do 5 (apply Forall_cons in Hw as [_ Hw]). apply Forall_cons in Hw as [Hw _].
      assert (length (hex w5) ≤ 4)%nat by (apply numeral_length; lia). cbn. rewrite length_app. cbn. lia.
  - set (best := best_run _). apply Forall_cons in Hw as [Hw0 Hw].
    pose proof (emit_length best _ 0 Hw) as Hl. cbn [length] in Hl.
    assert (length (hex w0) ≤ 4)%nat by (apply numeral_length; lia).
    clearbody best. revert Hl. generalize [w1; w2; w3; w4; w5; a * 256 + b; c * 256 + d]. intros l Hl.
    cbn [emit Nat.eqb]. change (str ":") with [58].
    destruct (to_end best), (in_run best 0), (at_run best 0); cbn [app]; rewrite ?length_app; cbn [length]; lia.
Qed.

Lemma word_hi hi lo : 0 ≤ lo < 256 → (hi * 256 + lo) / 256 = hi.
Proof. intros. rewrite Z.div_add_l, Z.div_small; lia. Qed.

Lemma word_lo hi lo : 0 ≤ lo < 256 → (hi * 256 + lo) mod 256 = lo.
Proof. intros. rewrite Z.add_comm, Z.mod_add, Z.mod_small; lia. Qed.

Lemma addr_words addr :
  length addr = 16%nat → Forall is_byte addr →
  ∃ ws a b c d w0 w1 w2 w3 w4 w5,
    words 8 addr = Some ws ∧ take 4 (drop 12 addr) = [a; b; c; d]
    ∧ ws = [w0; w1; w2; w3; w4; w5; a * 256 + b; c * 256 + d]
    ∧ Forall (λ w, 0 ≤ w < 65536) ws ∧ (is_byte a ∧ is_byte b ∧ is_byte c ∧ is_byte d)
    ∧ v6_bytes ws = addr.
Proof.
  intros Hlen Hbytes. do 16 (destruct addr as [|? addr]; [done|]). destruct addr; [|done].
  repeat (apply Forall_cons in Hbytes as [? Hbytes]). unfold is_byte in *.
  do 11 eexists. cbn [words mbind option_bind take drop].
  split; [reflexivity|]. split; [reflexivity|]. split; [reflexivity|]. split; [|split].
  - repeat (constructor; [lia|]). constructor.
  - done.
  - unfold v6_bytes. cbn [fmap list_fmap mjoin list_join app].
    repeat (rewrite (word_hi _ _) by done; rewrite (word_lo _ _) by done). done.
Qed.

(** The text of an IPv4 address. *)
Lemma v4_ntop a b c d rest :
  is_byte a → is_byte b → is_byte c → is_byte d →
  inet_ntop AF_INET (a :: b :: c :: d :: rest) INET6_ADDRSTRLEN = Some (quad a b c d)
  ∧ (length (quad a b c d) ≤ 15)%nat ∧ read_v4 (quad a b c d) = [a; b; c; d].
Proof.
  unfold is_byte. intros Ha Hb Hc Hd.
  pose proof (length_quad a b c d ltac:(lia) ltac:(lia) ltac:(lia) ltac:(lia) ltac:(lia) ltac:(lia) ltac:(lia) ltac:(lia)) as Hq.
  split; [|split; [done|apply read_quad; lia]].
  unfold inet_ntop, inet_ntop4, sized. cbn [Z.eqb AF_INET Pos.eqb].
  destruct (Nat.ltb_spec (length (quad a b c d)) INET6_ADDRSTRLEN) as [|H]; [done|unfold INET6_ADDRSTRLEN in H; lia].
Qed.

Lemma endpoint_v4 a b c d rest port :
  is_byte a → is_byte b → is_byte c → is_byte d → 0 ≤ port < 65536 →
  ∃ s, fmt_endpoint (INET6_ADDRSTRLEN + 10) AF_INET (a :: b :: c :: d :: rest) port = Some s
  ∧ (length s ≤ 48)%nat ∧ read_endpoint s = Some (AF_INET, [a; b; c; d], port).
Proof.
  intros Ha Hb Hc Hd Hp. destruct (v4_ntop a b c d rest Ha Hb Hc Hd) as (Ht & Hq & Hr). unfold is_byte in *.
  assert (length (dec port) ≤ 5)%nat as Hpl by (apply numeral_length; lia).
  exists (quad a b c d ++ str ":" ++ dec port). split; [|split].
  - unfold fmt_endpoint. rewrite Ht. cbn [mbind option_bind Z.eqb AF_INET AF_INET6 Pos.eqb].
    rewrite snprintf_fits; [done|]. rewrite !length_app. unfold INET6_ADDRSTRLEN.
    change (length (str ":")) with 1%nat. lia.
  - rewrite !length_app. change (length (str ":")) with 1%nat. lia.
  - change (str ":") with [58]. cbn [app]. unfold read_endpoint.
    assert (Hs : split_on 58 (quad a b c d ++ 58 :: dec port) = [quad a b c d; dec port]).
    { rewrite split_on_cons by (apply quad_has; lia || done). by rewrite split_on_plain by (apply dec_has; lia || done). }
    assert (Hhd : ∀ s', quad a b c d ++ 58 :: dec port ≠ 91 :: s').
    { intros s' E. assert (has 91 (quad a b c d ++ 58 :: dec port) = true) as Hh by (by rewrite E).
      rewrite has_app, quad_has in Hh by (lia || done). change (has 91 (dec port) = true) in Hh.
      rewrite dec_has in Hh; lia || done. }
    rewrite Hs, Hr, read_dec by lia.
    repeat case_match; simplify_eq; try done; by destruct (Hhd l).
Qed.

(** The text of an IPv6 address. *)
Lemma v6_ntop addr :
  length addr = 16%nat → Forall is_byte addr →
  ∃ t, inet_ntop AF_INET6 addr INET6_ADDRSTRLEN = Some t
  ∧ (length t ≤ 40)%nat ∧ v6_bytes (read_v6 t) = addr ∧ has 93 t = false.
Proof.
  intros Hlen Hb. destruct (addr_words addr Hlen Hb) as (ws & a & b & c & d & w0 & w1 & w2 & w3 & w4 & w5 &
    Hws & Htl & -> & Hr & (Ha & Hb' & Hc & Hd) & Hv).
  pose proof (v6_length _ _ _ _ _ _ a b c d Hr Ha Hb' Hc Hd) as Hl. cbv zeta in Hl. set (t := v6_text _ _) in Hl.
  exists t. split; [|split; [done|split]].
  - unfold inet_ntop, inet_ntop6. cbn [Z.eqb AF_INET AF_INET6 Pos.eqb]. rewrite Hws, Htl. cbn [mbind option_bind].
    fold t. unfold sized.
    destruct (Nat.ltb_spec (length t) INET6_ADDRSTRLEN) as [|H]; [done|unfold INET6_ADDRSTRLEN in H; lia].
  - unfold t. rewrite read_v6_text; [done|..]; unfold is_byte in *; repeat (apply Forall_cons in Hr as [? Hr]); lia.
  - unfold t, v6_text. cbv zeta. rewrite has_app, emit_has; [by destruct (to_end _)|done|done| |].
    + eapply Forall_impl; [exact Hr|]. cbn. lia.
    + intros q Hq. destruct (embeds_v4 _ _); [|done]. injection Hq as <-. unfold is_byte in *. apply quad_has; lia || done.
Qed.

Lemma endpoint_v6 addr port :
  length addr = 16%nat → Forall is_byte addr → 0 ≤ port < 65536 →
  ∃ s, fmt_endpoint (INET6_ADDRSTRLEN + 10) AF_INET6 addr port = Some s
  ∧ (length s ≤ 48)%nat ∧ read_endpoint s = Some (AF_INET6, addr, port).
Proof.
  intros Hlen Hb Hp. destruct (v6_ntop addr Hlen Hb) as (t & Ht & Hl & Hr & Hh).
  assert (length (dec port) ≤ 5)%nat as Hpl by (apply numeral_length; lia).
  assert (Hlen' : (length (str "[" ++ t ++ str "]:" ++ dec port) ≤ 48)%nat).
  { rewrite !length_app. change (length (str "[")) with 1%nat. change (length (str "]:")) with 2%nat. lia. }
  exists (str "[" ++ t ++ str "]:" ++ dec port). split; [|split; [done|]].
  - unfold fmt_endpoint. rewrite Ht. cbn [mbind option_bind Z.eqb AF_INET6 Pos.eqb].
    rewrite snprintf_fits; [done|]. unfold INET6_ADDRSTRLEN. lia.
  - change (str "[") with [91]. change (str "]:") with [93; 58]. cbn [app read_endpoint].
    rewrite split_on_cons by done. rewrite split_on_plain; [|cbn; apply dec_has; lia || done].
    by rewrite read_dec, Hr by lia.
Qed.

(** The bytes of the address a family has. *)
Definition addr_len (family : Z) : nat := if family =? AF_INET then 4%nat else 16%nat.

Lemma endpoint_ok family addr port :
  family = AF_INET ∨ family = AF_INET6 →
  length addr = 16%nat → Forall is_byte addr → 0 ≤ port < 65536 →
  ∃ s, fmt_endpoint (INET6_ADDRSTRLEN + 10) family addr port = Some s
  ∧ (length s ≤ 48)%nat ∧ read_endpoint s = Some (family, take (addr_len family) addr, port).
Proof.
  intros [->| ->] Hlen Hb Hp.
  - do 4 (destruct addr as [|? addr]; [done|]). repeat (apply Forall_cons in Hb as [? Hb]). by apply endpoint_v4.
  - destruct (endpoint_v6 addr port Hlen Hb Hp) as (s & Hs & Hl & Hr). exists s. split; [done|]. split; [done|].
    cbn. by rewrite take_ge by lia.
Qed.

(** ** Theorem *)

(** [C32] The text of an endpoint is unambiguous.  For both families, every
    address and every port, [inet_ntop] succeeds, the text has at most 48
    characters, so it fits the buffer of INET6_ADDRSTRLEN + 10 bytes uncut and
    the column of the table, and family, address and port can be read back
    from it: the colons of an IPv6 address do not blur into the port. *)
Theorem endpoint_roundtrip (family : Z) (addr : list Z) (port : Z) :
  family = AF_INET ∨ family = AF_INET6 →
  length addr = 16%nat → Forall is_byte addr → 0 ≤ port < 65536 →
  ∃ s, fmt_endpoint (INET6_ADDRSTRLEN + 10) family addr port = Some s
  ∧ (length s ≤ 48)%nat ∧ read_endpoint s = Some (family, take (addr_len family) addr, port).
Proof. apply endpoint_ok. Qed.

(** ** Witness *)

(** [2001:db8::1]:443. *)
Definition ex_v6 : list Z := [32; 1; 13; 184; 0; 0; 0; 0; 0; 0; 0; 0; 0; 0; 0; 1].

Lemma endpoint_roundtrip_witness :
  fmt_endpoint 56 AF_INET6 ex_v6 443 = Some (str "[2001:db8::1]:443")
  ∧ read_endpoint (str "[2001:db8::1]:443") = Some (AF_INET6, ex_v6, 443).
Proof.
  destruct (endpoint_roundtrip AF_INET6 ex_v6 443) as (s & Hs & _ & Hr).
  - right. reflexivity.
  - reflexivity.
  - apply (bool_decide_unpack _). vm_compute. exact I.
  - lia.
  - assert (Ht : fmt_endpoint 56 AF_INET6 ex_v6 443 = Some (str "[2001:db8::1]:443")) by (vm_compute; reflexivity).
    split; [exact Ht|]. change (INET6_ADDRSTRLEN + 10)%nat with 56%nat in Hs. rewrite Ht in Hs.
    injection Hs as <-. exact Hr.
Defined.
