(* ===== verification/IdsBeacon.v ===== *)
(** * IdsBeacon: the beacon rule as a function of the history (chapter 23)

    [rule_beacon] of src/23-ids/ids.c keeps the gaps between the packets of a
    flow in a ring of eight, and computes their mean and coefficient of
    variation whenever a packet comes.  This file states what that amounts
    to: [suspicious qs] judges the packets [qs] of a flow, by the last gaps
    between them.

    The theorem: whatever traffic is mixed in, as long as no flow has more
    than 2^31 packets (the counter of gaps is an [int]), a packet raises a beacon
    alert exactly when the flow looks like a beacon with it and did not
    before, and the alert carries the statistics of those gaps. *)

From stdpp Require Import prelude gmap list strings.
From Stdlib Require Import ZArith Lia.
From S2P Require Import Prelude.
From S2P Require Import Kernel.
From S2P Require Import Float64.
From S2P Require Import Ids.

(** ** Specification *)

(** Of [m] gaps, the last one that belongs into cell [i] of the ring. *)
Definition cell (m i : nat) : nat := i + 8 * ((m - 1 - i) / 8).

(** The last gaps, eight at most, in the order of the ring. *)
Definition latest (qs : list flow_pkt) : list f64 :=
  let m := (length qs - 1)%nat in omap (λ i, gap_at qs (cell m i)) (seq 0 (m `min` 8)).

(** The mean and the variation, if they are those of a beacon. *)
Definition suspicious (qs : list flow_pkt) : option (f64 * f64) :=
  let n := Z.of_nat ((length qs - 1) `min` 8) in
  let '(mean, cv) := beacon_stats n (latest qs) in
  if n <? BEACON_MIN_SAMPLES then None
  else if f64_ltb mean BEACON_MIN_INTERVAL || f64_gtb mean BEACON_MAX_INTERVAL then None
  else if f64_gtb cv BEACON_CV_MAX then None
  else Some (mean, cv).

(** Whether the flow has looked like a beacon at some packet. *)
Definition ever (qs : list flow_pkt) : bool :=
  existsb (λ i, bool_decide (is_Some (suspicious (take i qs)))) (seq 0 (S (length qs))).

(** The alert of packet [p] of a flow after its packets [qs]. *)
Definition beacon_alert (qs : list flow_pkt) (p : flow_pkt) : list alert :=
  match suspicious (qs ++ [p]) with
  | Some (mean, cv) =>
      if ever qs then []
      else [Beacon (saddr p) (daddr p) (ntohs (dport p)) mean (f64_mul cv (f64_of_Z 100)) (Z.of_nat (length qs `min` 8) + 1)]
  | None => []
  end.

(** ** The ring holds the last gaps *)

Lemma cell_spec m i : (i < m)%nat → (i < 8)%nat → (cell m i < m)%nat ∧ (m ≤ cell m i + 8)%nat ∧ (cell m i `mod` 8)%nat = i.
Proof.
  intros Hi H8. unfold cell. pose proof (Nat.div_mod_eq (m - 1 - i) 8) as Hd.
  pose proof (Nat.mod_upper_bound (m - 1 - i) 8) as Hm. specialize (Hm ltac:(done)). split; [lia|]. split; [lia|].
  rewrite Nat.mul_comm, Nat.Div0.mod_add. by apply Nat.mod_small.
Qed.

Lemma gap_at_some qs j : (S j < length qs)%nat → is_Some (gap_at qs j).
Proof.
  intros Hj. unfold gap_at. destruct (lookup_lt_is_Some_2 qs j ltac:(lia)) as [p ->].
  destruct (lookup_lt_is_Some_2 qs (S j) Hj) as [q ->]. by eexists.
Qed.

Lemma omap_all {A B} (f : A → option B) (l : list A) (k : list B) :
  length l = length k → (∀ i x, l !! i = Some x → f x = k !! i) → omap f l = k.
Proof.
  revert k. induction l as [|x l IH]; intros [|y k] Hl Hf; [done..|]. cbn. rewrite (Hf 0%nat x eq_refl). cbn. f_equal.
  apply IH; [by injection Hl|]. intros i. apply (Hf (S i)).
Qed.

Lemma ring_latest qs f :
  ring_ok qs f → latest qs = take ((length qs - 1) `min` 8) (gaps f).
Proof.
  intros [Hl _ _ Hc]. unfold latest. assert (∃ m, m = length qs - 1)%nat as [m Hm] by eauto. rewrite <- Hm. apply omap_all.
  - rewrite length_seq, length_take, Hl. lia.
  - intros i x Hx. apply lookup_seq in Hx as [-> Hi]. rewrite Nat.add_0_l, lookup_take_lt by lia.
    destruct (cell_spec m i) as (H1 & H2 & H3); [lia|lia|]. rewrite <- Hc by lia. by rewrite H3.
Qed.

Lemma stats_take (n : nat) l : beacon_stats (Z.of_nat n) (take n l) = beacon_stats (Z.of_nat n) l.
Proof. unfold beacon_stats, sum_gaps. by rewrite Nat2Z.id, take_take, Nat.min_id. Qed.

(** ** The rule on the history *)

Lemma ever_snoc qs q : ever (qs ++ [q]) = ever qs || bool_decide (is_Some (suspicious (qs ++ [q]))).
Proof.
  unfold ever. rewrite length_app, Nat.add_1_r, (seq_S (S (length qs)) 0), existsb_app. cbn [existsb Nat.add].
  rewrite orb_false_r. rewrite (take_ge (qs ++ [q])) by (rewrite length_app; simpl; lia). f_equal.
  assert (He : ∀ l, Forall (λ i, (i ≤ length qs)%nat) l →
    existsb (λ i, bool_decide (is_Some (suspicious (take i (qs ++ [q]))))) l
    = existsb (λ i, bool_decide (is_Some (suspicious (take i qs)))) l).
  { intros l. induction 1 as [|i l Hi _ IH]; [done|]. cbn [existsb]. by rewrite IH, take_app_le. }
  apply He, Forall_forall. intros i Hi%elem_of_seq. lia.
Qed.

(** What the slot of flow [k] knows after the packets [qs]. *)
Record judged (k : flow_id) (qs : list flow_pkt) (f : flow) : Prop := mk_judged {
  jd_key : flow_key f = k;
  jd_ring : ring_ok qs f;
  jd_alerted : beacon_alerted f = ever qs;
}.

(** The rule, in terms of the ring it leaves. *)
Lemma rule_beacon_history k qs f p :
  pkt_key p = k → Forall (λ p, ts_ns p ≠ 0) qs → judged k qs f →
  (beacon_step f p).2 = beacon_alert qs p ∧ beacon_alerted (beacon_step f p).1 = ever (qs ++ [p]).
Proof.
  intros Hk Hts [Hkey Hring Hal]. pose proof (ring_ok_touch qs f p Hts Hring) as Hr.
  destruct (touch_ring f p) as (_ & Hg & Hn). pose proof (ring_latest _ _ Hr) as Hl. pose proof (ring_n _ _ Hr) as Hrn.
  rewrite Hg in Hl. rewrite Hn in Hrn.
  assert (Hf : flow_key (count_gap f p) = k ∧ beacon_alerted (count_gap f p) = ever qs).
  { rewrite <- Hkey, <- Hal. unfold count_gap. by destruct (last_ts f =? 0). }
  rewrite ever_snoc. unfold beacon_alert. clear Hg Hn Hr Hring Hkey Hal.
  assert (Hlen : (length (qs ++ [p]) - 1 = length qs)%nat) by (rewrite length_app; simpl; lia).
  unfold beacon_step, judge, suspicious. rewrite Hl, Hlen in *. clear Hl. destruct Hf as [Hkey Hal].
  set (f' := count_gap f p) in *. clearbody f'. rewrite Hrn, Hal.
  assert (Hmin : (if Z.of_nat (length qs) <? MAX_GAPS then Z.of_nat (length qs) else MAX_GAPS) = Z.of_nat (length qs `min` 8)).
  { unfold MAX_GAPS. destruct (Z.ltb_spec (Z.of_nat (length qs)) 8); lia. }
  rewrite Hmin. set (n := (length qs `min` 8)%nat).
  rewrite stats_take.
  destruct (beacon_stats (Z.of_nat n) (gaps f')) as [mean cv].
  assert (Hid : f_saddr f' = saddr p ∧ f_daddr f' = daddr p ∧ f_dport f' = dport p).
  { rewrite <- Hk in Hkey. unfold flow_key, pkt_key in Hkey. by injection Hkey. }
  destruct Hid as (-> & -> & ->). unfold BEACON_MIN_SAMPLES.
  destruct (Z.ltb_spec (Z.of_nat n) 1); [destruct (Z.ltb_spec (Z.of_nat n) 5); [|lia]|].
  { cbn. by rewrite Hal, orb_false_r. }
  destruct (Z.of_nat n <? 5); [rewrite orb_true_r; cbn; by rewrite Hal, orb_false_r|].
  destruct (f64_ltb mean BEACON_MIN_INTERVAL || f64_gtb mean BEACON_MAX_INTERVAL), (f64_gtb cv BEACON_CV_MAX), (ever qs);
    cbn; by rewrite ?Hal.
Qed.

Lemma touch_judged k qs f p :
  pkt_key p = k → f_used f = true → Forall (λ p, ts_ns p ≠ 0) qs → judged k qs f →
  judged k (qs ++ [p]) (touch f p) ∧ bfilter is_beacon (flow_update p f).2 = beacon_alert qs p.
Proof.
  intros Hk Hu Hts Hj. destruct (rule_beacon_history k qs f p Hk Hts Hj) as [Hal Hflag].
  destruct (flow_update_ok p f Hu) as [_ Hkey]. destruct (rule_beacon_alerts p f) as [_ Hb]. split.
  - split; [by rewrite <- (jd_key _ _ _ Hj)|by apply ring_ok_touch, jd_ring with k|].
    rewrite <- Hflag. unfold touch, flow_update. destruct (beacon_step f p) as [f1 al1].
    destruct (rule_susp_key p f1) as (_ & _ & Hs). by destruct (rule_suspicious_port f1 p).
  - rewrite <- Hal. unfold flow_update. destruct (beacon_step f p) as [f1 al1]. cbn [fst snd] in Hb.
    destruct (rule_susp_alerts p f1) as [_ Hs]. destruct (rule_suspicious_port f1 p) as [f2 al2]. cbn [fst snd] in *.
    rewrite bfilter_app, (bfilter_all is_beacon al1), (bfilter_none is_beacon al2), app_nil_r by
      (done || (eapply Forall_impl; [exact Hs|by intros []])). done.
Qed.

Lemma flow_judged k ps : Forall (λ p, ts_ns p ≠ 0) ps → judged k (of_flow k ps) (flow_of k ps) ∧ f_used (flow_of k ps) = true.
Proof.
  intros Hts. rewrite flow_of_fold.
  assert (Hq : Forall (λ p, ts_ns p ≠ 0 ∧ pkt_key p = k) (of_flow k ps)).
  { apply Forall_forall. intros p [Hk Hp]%list_elem_of_filter. rewrite Forall_forall in Hts. auto. }
  clear Hts. induction (of_flow k ps) as [|q qs IH] using rev_ind.
  { destruct k as [[[a b] c] d]. split; [|done]. split; [done| |reflexivity]. split; try done. intros j. simpl. lia. }
  apply Forall_app in Hq as [Hq Hk]. rewrite Forall_singleton in Hk. destruct Hk as [_ Hk]. destruct (IH Hq) as [Hj Hu].
  rewrite foldl_app. cbn [foldl]. split; [|by apply flow_update_ok].
  apply touch_judged; try done. eapply Forall_impl; [exact Hq|]. by intros ? [].
Qed.

(** ** Theorem *)

(** [C22] The beacon rule as a function of the history.  After any packets
    [ps], a packet [p] of a flow that has a slot raises a beacon alert exactly
    when the last gaps between the packets of its flow, [p] included, look
    like a beacon, at least five of them and at most eight, and never did
    before; the alert has the mean and the variation of those gaps.  A flow
    without a slot raises none.  What other flows do does not matter, as
    long as no flow has more than 2^31 packets. *)
Theorem beacon_exact (ps : list flow_pkt) (p : flow_pkt) :
  few_packets (ps ++ [p]) → Forall (λ p, ts_ns p ≠ 0) ps →
  bfilter is_beacon <$> alerts_after ps p
  = Some (if decide (pkt_key p ∈ admitted MAX_FLOWS (pkt_key <$> (ps ++ [p])))
          then beacon_alert (of_flow (pkt_key p) ps) p else []).
Proof.
  intros Hfew Hts. destruct (flow_alerts_after is_beacon ps p Hfew) as (al & -> & Hb); [by intros []|].
  cbn [fmap option_fmap option_map]. rewrite Hb. f_equal. case_decide; [|done].
  destruct (flow_judged (pkt_key p) ps Hts) as [Hj Hu]. apply (touch_judged (pkt_key p)); try done.
  apply Forall_forall. intros q [_ Hq]%list_elem_of_filter. rewrite Forall_forall in Hts. auto.
Qed.

(** ** Witness *)

(** Six packets, two seconds apart, and one of another flow in between. *)
Lemma beacon_exact_witness :
  bfilter is_beacon <$> alerts_after ((ex_beat <$> seq 0 3) ++ [ex_probe 50 1] ++ (ex_beat <$> seq 3 2)) (ex_beat 5)
  = Some (beacon_alert (ex_beat <$> seq 0 5) (ex_beat 5))
  ∧ beacon_alert (ex_beat <$> seq 0 5) (ex_beat 5) ≠ [].
Proof.
  split; [|vm_compute; discriminate].
  rewrite (beacon_exact ((ex_beat <$> seq 0 3) ++ [ex_probe 50 1] ++ (ex_beat <$> seq 3 2)) (ex_beat 5)).
  - vm_compute. reflexivity.
  - apply few_short. discriminate.
  - apply (bool_decide_unpack _). vm_compute. exact I.
Defined.
