(* ===== verification/IdsText.v ===== *)
(** * IdsText: the alerts as lines of output (chapter 23)

    [ip4] and [alert] of src/23-ids/ids.c with the formats of the three
    calls, and the line IDS_DEBUG prints.  The theorem: every alert is
    printed, and its addresses and its port can be read from the line. *)

From stdpp Require Import prelude list strings.
From Stdlib Require Import ZArith Lia.
From S2P Require Import Prelude.
From S2P Require Import Kernel.
From S2P Require Import Float64.
From S2P Require Import Libc.
From S2P Require Import Printf.
From S2P Require Import Inet.
From S2P Require Import Ids.

(** The four bytes of an address in memory, on a little-endian machine. *)
Definition addr_bytes (a : Z) : list Z := [a mod 256; (a / 256) mod 256; (a / 65536) mod 256; (a / 16777216) mod 256].

(** [None]: the buffer of INET_ADDRSTRLEN bytes is too small. *)
Definition ip4 (net_addr : Z) : option (list Z) := inet_ntop4 INET_ADDRSTRLEN (addr_bytes net_addr).

(** [ts], the rule and the text of the format. *)
Definition alert_line (ts rule text : list Z) : list Z :=
  str "[" ++ ts ++ str "] ALERT " ++ rpad 9 rule ++ str " " ++ text ++ [10].

Definition endpoint4 (daddr : list Z) (port : Z) : list Z := daddr ++ str ":" ++ dec port.

(** What the calls of [alert] print at the time [ts]. *)
Definition alert_text (ts : list Z) (a : alert) : option (list Z) :=
  match a with
  | Beacon saddr daddr dport mean jitter callbacks =>
      s ← ip4 saddr; d ← ip4 daddr;
      Some (alert_line ts (str "beacon")
        (s ++ str " -> " ++ endpoint4 d dport ++ str "  interval~" ++ fmt_f 1 mean ++ str "s jitter " ++
         fmt_f 1 jitter ++ str "% (" ++ sdec callbacks ++ str " callbacks)"))
  | SuspPort saddr daddr dport name =>
      s ← ip4 saddr; d ← ip4 daddr;
      Some (alert_line ts (str "susp-port")
        (s ++ str " -> " ++ endpoint4 d dport ++ str "  (" ++ str name ++ str ")"))
  | PortScan saddr ports secs =>
      s ← ip4 saddr;
      Some (alert_line ts (str "portscan")
        (s ++ str " scanned " ++ sdec ports ++ str " distinct ports within " ++ dec secs ++ str "s"))
  end.

(** The line of [rule_beacon] under IDS_DEBUG, with the [n] gaps seen. *)
Definition debug_text (f : flow) (n : Z) (mean cv : f64) : option (list Z) :=
  s ← ip4 (f_saddr f); d ← ip4 (f_daddr f);
  Some (str "[dbg] beacon-flow " ++ s ++ str " -> " ++ endpoint4 d (ntohs (f_dport f)) ++ str "  samples=" ++ sdec n ++
    str " mean=" ++ fmt_f 2 mean ++ str "s cv=" ++ fmt_f 0 (f64_mul cv (f64_of_Z 100)) ++ str "%" ++ [10]).

(** ** Lemmas *)

Lemma ip4_ok a : ∃ s, ip4 a = Some s ∧ read_v4 s = addr_bytes a ∧ has 32 s = false ∧ has 58 s = false.
Proof.
  assert (Hm : ∀ x, 0 ≤ x mod 256 < 256) by (intros x; apply Z.mod_pos_bound; lia).
  unfold ip4, inet_ntop4, addr_bytes, sized.
  pose proof (Hm a). pose proof (Hm (a / 256)). pose proof (Hm (a / 65536)). pose proof (Hm (a / 16777216)).
  set (q := quad _ _ _ _). assert (length q ≤ 15)%nat by (apply length_quad; lia).
  destruct (Nat.ltb_spec (length q) INET_ADDRSTRLEN) as [_|Hl]; [|unfold INET_ADDRSTRLEN in Hl; lia].
  exists q. split; [done|]. split; [apply read_quad; lia|]. split; apply quad_has; lia || done.
Qed.

(** ** Theorem *)

(** The words of a line. *)
Definition line_words (s : list Z) : list (list Z) := split_on 32 s.

(** The addresses an alert is about. *)
Definition alert_src (a : alert) : Z := match a with Beacon s _ _ _ _ _ | SuspPort s _ _ _ | PortScan s _ _ => s end.

(** The column at which the text starts: after the time, in brackets, and
    the rule. *)
Definition text_col (ts : list Z) : nat := length (alert_line ts (str "susp-port") []) - 1.

(** Every alert is printed on a line of its own whose text starts at the
    same column whatever the rule, with the source address first; for the
    two rules that concern a flow, the destination and its port follow the
    arrow. *)
Theorem alert_readable (ts : list Z) (a : alert) :
  ∃ line s rest,
    alert_text ts a = Some line
    ∧ drop (text_col ts) line = s ++ 32 :: rest ∧ read_v4 s = addr_bytes (alert_src a)
    ∧ match a with
      | Beacon _ daddr dport _ _ _ | SuspPort _ daddr dport _ =>
          0 ≤ dport →
          ∃ d tl, rest = str "-> " ++ d ++ 32 :: tl
            ∧ match split_on 58 d with
              | [ip; port] => read_v4 ip = addr_bytes daddr ∧ read 10 port = dport
              | _ => False
              end
      | PortScan _ _ _ => True
      end.
Proof.
  assert (Hcol : ∀ rule text, (length rule ≤ 9)%nat → drop (text_col ts) (alert_line ts rule text) = text ++ [10]).
  { intros rule text Hr. unfold text_col, alert_line. rewrite !app_assoc.
    rewrite !length_app, !length_rpad. change (length (str "susp-port")) with 9%nat.
    rewrite <- (app_assoc _ text [10]). apply drop_app_length'. rewrite !length_app, !length_rpad. cbn. lia. }
  assert (Hend : ∀ daddr dport, 0 ≤ dport → ∃ d, ip4 daddr = Some d ∧ match split_on 58 (endpoint4 d dport) with
      | [ip; port] => read_v4 ip = addr_bytes daddr ∧ read 10 port = dport
      | _ => False
      end).
  { intros daddr dport Hp. destruct (ip4_ok daddr) as (d & Hd & Hr & _ & Hc). exists d. split; [done|].
    unfold endpoint4. change (str ":") with [58]. cbn [app].
    rewrite split_on_cons by done. rewrite split_on_plain by (by apply dec_has). by rewrite read_dec. }
  destruct a as [sa da dp mean jit cb|sa da dp name|sa n secs]; cbn [alert_text alert_src];
    destruct (ip4_ok sa) as (s & -> & Hs & _); cbn [mbind option_bind].
  - destruct (ip4_ok da) as (d & Hd & _). rewrite Hd. cbn [mbind option_bind]. eexists _, s, _. split; [done|].
    rewrite Hcol by (cbn; lia). rewrite <- !app_assoc. split; [by cbn|]. split; [done|]. intros Hp.
    destruct (Hend da dp Hp) as (d' & Hd' & He). rewrite Hd in Hd'. injection Hd' as <-. eexists (endpoint4 d dp), _.
    split; [|exact He]. unfold endpoint4. rewrite <- !app_assoc. reflexivity.
  - destruct (ip4_ok da) as (d & Hd & _). rewrite Hd. cbn [mbind option_bind]. eexists _, s, _. split; [done|].
    rewrite Hcol by (cbn; lia). rewrite <- !app_assoc. split; [by cbn|]. split; [done|]. intros Hp.
    destruct (Hend da dp Hp) as (d' & Hd' & He). rewrite Hd in Hd'. injection Hd' as <-. eexists (endpoint4 d dp), _.
    split; [|exact He]. unfold endpoint4. rewrite <- !app_assoc. reflexivity.
  - eexists _, s, _. split; [done|]. rewrite Hcol by (cbn; lia). rewrite <- !app_assoc. split; [by cbn|]. done.
Qed.
