(* ===== verification/TcpSock.v ===== *)
(** * TcpSock: sockets and their state transitions (chapters 12 and 13)

    What src/12-tcpstates/tcpstates.bpf.c and src/13-tcplife/tcplife.bpf.c
    read of [struct sock] and [struct tcp_sock], the copying of the
    addresses into an event, and histories of calls of [tcp_set_state].  A
    socket address names one connection from the transition after its last
    TCP_CLOSE on: [epoch] is the transitions of that connection so far. *)

From stdpp Require Import prelude gmap list.
From Stdlib Require Import ZArith Lia.
From S2P Require Import Prelude.
From S2P Require Import Kernel.

Definition AF_INET : Z := 2.
Definition AF_INET6 : Z := 10.

(** The state values of the kernel's enum (net/tcp_states.h). *)
Definition TCP_ESTABLISHED : Z := 1.
Definition TCP_SYN_SENT : Z := 2.
Definition TCP_SYN_RECV : Z := 3.
Definition TCP_FIN_WAIT1 : Z := 4.
Definition TCP_CLOSE : Z := 7.
Definition TCP_LAST_ACK : Z := 9.

(** The fields of the socket that are read; addresses are bytes in memory
    order, [skc_dport] is the 16-bit number as loaded. *)
Record sock := mk_sock {
  sk_addr : Z;
  skc_family : Z;
  skc_state : Z;
  skc_num : Z;
  skc_dport : Z;
  skc_rcv_saddr : list Z;
  skc_daddr : list Z;
  skc_v6_rcv_saddr : list Z;
  skc_v6_daddr : list Z;
  bytes_acked : Z;
  bytes_received : Z;
  total_retrans : Z;
  srtt_us : Z;
}.

Definition is_ip (sk : sock) : bool := (skc_family sk =? AF_INET) || (skc_family sk =? AF_INET6).

(** [memcpy] of [src] to the front of [dst]: the rest of [dst] stays. *)
Definition copy_front (src dst : list Z) : list Z := src ++ drop (length src) dst.

(** The two addresses of an event whose memory held [s0] and [d0]. *)
Definition copy_addrs (sk : sock) (s0 d0 : list Z) : list Z * list Z :=
  if skc_family sk =? AF_INET
  then (copy_front (skc_rcv_saddr sk) s0, copy_front (skc_daddr sk) d0)
  else (copy_front (skc_v6_rcv_saddr sk) s0, copy_front (skc_v6_daddr sk) d0).

(** A call of [tcp_set_state]: the socket, the new state, the clock and the
    task on the CPU. *)
Record transition := mk_tr { t_sk : sock; t_state : Z; t_now : Z; t_cur : task }.

(** ** Histories *)

(** Whether [t] is a transition of the IP socket at address [id]. *)
Definition concerns (id : Z) (t : transition) : bool := is_ip (t_sk t) && (sk_addr (t_sk t) =? id).

Definition extend (id : Z) (acc : list transition) (t : transition) : list transition :=
  if concerns id t then if t_state t =? TCP_CLOSE then [] else acc ++ [t] else acc.

(** The transitions of the connection at [id] since its last TCP_CLOSE. *)
Definition epoch (id : Z) (h : list transition) : list transition := foldl (extend id) [] h.

Lemma epoch_snoc id h t : epoch id (h ++ [t]) = extend id (epoch id h) t.
Proof. unfold epoch. by rewrite foldl_app. Qed.

Lemma epoch_elem id h t : t ∈ epoch id h → t ∈ h ∧ concerns id t = true ∧ t_state t ≠ TCP_CLOSE.
Proof.
  induction h as [|u h IH] using rev_ind; [by intros ?%not_elem_of_nil|]. rewrite epoch_snoc. unfold extend.
  destruct (concerns id u) eqn:Ec; [destruct (Z.eqb_spec (t_state u) TCP_CLOSE); [by intros ?%not_elem_of_nil|]|].
  - rewrite elem_of_app, list_elem_of_singleton. intros [Ht| ->]; set_solver.
  - set_solver.
Qed.

Lemma concerns_spec id t : concerns id t = true ↔ is_ip (t_sk t) = true ∧ sk_addr (t_sk t) = id.
Proof. unfold concerns. by rewrite andb_true_iff, Z.eqb_eq. Qed.

Lemma last_Some_elem {A} (l : list A) x : last l = Some x → x ∈ l.
Proof. intros (l' & ->)%last_Some. set_solver. Qed.

(** The addresses are the socket's: whole for IPv6; for IPv4 four bytes, and
    the twelve others keep what the event's memory held. *)
Lemma copy_front_take src dst : take (length src) (copy_front src dst) = src.
Proof. unfold copy_front. by rewrite take_app_length. Qed.

Lemma copy_front_full src dst : length dst = length src → copy_front src dst = src.
Proof. intros Hl. unfold copy_front. rewrite drop_ge by lia. by rewrite app_nil_r. Qed.
