(* ===== verification/TcpStates.v ===== *)
(** * TcpStates: every transition with the time in the old state (chapter 12)

    Models src/12-tcpstates/tcpstates.bpf.c ([handle_set_state] with its LRU
    map of timestamps) and the line that tcpstates.c prints for an event.
    The theorems: each transition of an IP socket is reported with the time
    since the previous transition of the same connection, and never with the
    time of an earlier connection that had the same socket address; and the
    line is a row of the table from which the event can be read. *)

From stdpp Require Import prelude gmap list strings.
From Stdlib Require Import ZArith Lia.
From S2P Require Import Prelude.
From S2P Require Import Kernel.
From S2P Require Import Float64.
From S2P Require Import Printf.
From S2P Require Import Inet.
From S2P Require Import TcpSock.

Definition MAX_SOCKS : Z := 10240.

Record event := mk_event {
  e_skaddr : Z; e_span_us : Z; e_pid : Z; e_oldstate : Z; e_newstate : Z;
  e_family : Z; e_sport : Z; e_dport : Z; e_has_span : Z;
  e_saddr : list Z; e_daddr : list Z; e_comm : list Z;
}.

Section program.
  Context {M R : Type} `{!BpfMap M Z Z} `{!Ringbuf R event}.

Record kstate := mk_kstate { timestamps : M; events : R }.

Definition init (r : R) : kstate := mk_kstate map_empty r.

Definition handle_set_state (t : transition) (s : kstate) : kstate :=
  let '(mk_tr sk state now cur) := t in
  if negb (is_ip sk) then s else
  let id := sk_addr sk in
  let '(span_us, has_span) :=
    match map_lookup_elem (timestamps s) id with
    | Some prev => ((now -64 prev) / 1000, 1)
    | None => (0, 0)
    end in
  let ts :=
    if state =? TCP_CLOSE then (map_delete_elem (timestamps s) id).2
    else (map_update_elem (timestamps s) id now BPF_ANY).2 in
  match ringbuf_reserve (events s) with
  | None => mk_kstate ts (events s)
  | Some (e, r) =>
      let '(saddr, daddr) := copy_addrs sk (e_saddr e) (e_daddr e) in
      mk_kstate ts (ringbuf_submit r
        (mk_event id span_us (current_pid cur) (skc_state sk) state (skc_family sk)
           (skc_num sk) (ntohs (skc_dport sk)) has_span saddr daddr (comm cur)))
  end.

Definition run (h : list transition) (s : kstate) : kstate := foldl (λ s t, handle_set_state t s) s h.
End program.
Arguments kstate : clear implicits.

(** The name of a state. *)
Definition tcp_state_name (s : Z) : string :=
  let names := ["?"; "ESTABLISHED"; "SYN_SENT"; "SYN_RECV"; "FIN_WAIT1"; "FIN_WAIT2"; "TIME_WAIT"; "CLOSE";
    "CLOSE_WAIT"; "LAST_ACK"; "LISTEN"; "CLOSING"; "NEW_SYN_RECV"; "BOUND_INACTIVE"]%string in
  if (1 <=? s) && (s <=? 13) then default "?"%string (names !! Z.to_nat s) else "?"%string.

(** The MS column: a dash, or milliseconds in a buffer of 16 bytes. *)
Definition span_text (e : event) : list Z :=
  if negb (e_has_span e =? 0)
  then snprintf 16 (fmt_f 3 (f64_div (f64_of_Z (e_span_us e)) (f64_of_Z 1000)))
  else snprintf 16 (str "-").

(** The line for an event; [None] if an address buffer was not filled. *)
Definition handle_event (e : event) : option (list Z) :=
  src ← fmt_endpoint (INET6_ADDRSTRLEN + 10) (e_family e) (e_saddr e) (e_sport e);
  dst ← fmt_endpoint (INET6_ADDRSTRLEN + 10) (e_family e) (e_daddr e) (e_dport e);
  Some (rpad 18 (hex (e_skaddr e)) ++ str " " ++ rpad 7 (dec (e_pid e)) ++ str " " ++ rpad 16 (cstr (e_comm e)) ++ str " " ++
    rpad 4 (str (if e_family e =? AF_INET then "IPv4" else "IPv6")) ++ str " " ++
    rpad 48 src ++ str " " ++ rpad 48 dst ++ str " " ++
    rpad 14 (str (tcp_state_name (e_oldstate e))) ++ str " " ++ rpad 2 (str "->") ++ str " " ++
    rpad 14 (str (tcp_state_name (e_newstate e))) ++ str " " ++ lpad 10 (span_text e) ++ [10]).

Section proof.
  Context {M R : Type} `{!BpfMap M Z Z} `{!Ringbuf R event} `{!BpfLruLaws M Z Z MAX_SOCKS} `{!RingbufLaws R event}.
  Implicit Types (s : kstate M R) (t : transition).

(** What one call does to the timestamps, whether or not the ring has room. *)
Lemma handle_timestamps t s :
  timestamps (handle_set_state t s)
  = if is_ip (t_sk t)
    then if t_state t =? TCP_CLOSE then (map_delete_elem (timestamps s) (sk_addr (t_sk t))).2
         else (map_update_elem (timestamps s) (sk_addr (t_sk t)) (t_now t) BPF_ANY).2
    else timestamps s.
Proof.
  destruct t as [sk state now cur]. unfold handle_set_state. cbn [t_sk t_state t_now].
  destruct (is_ip sk); simpl; [|done]. repeat case_match; simplify_eq; done.
Qed.

(** The time since the transition before [t], if the map has it. *)
Definition span_of t s : option Z :=
  (λ prev, (t_now t -64 prev) / 1000) <$> map_lookup_elem (timestamps s) (sk_addr (t_sk t)).

(** The event of [t], in memory that held the addresses [s0] and [d0]. *)
Definition tr_event t (span : option Z) (s0 d0 : list Z) : event :=
  let '(sa, da) := copy_addrs (t_sk t) s0 d0 in
  mk_event (sk_addr (t_sk t)) (default 0 span) (current_pid (t_cur t)) (skc_state (t_sk t)) (t_state t)
    (skc_family (t_sk t)) (skc_num (t_sk t)) (ntohs (skc_dport (t_sk t))) (if span then 1 else 0) sa da (comm (t_cur t)).

(** What one call does to the ring. *)
Lemma handle_records t s :
  ringbuf_records (events (handle_set_state t s))
  = if is_ip (t_sk t)
    then match ringbuf_reserve (events s) with
         | Some (d, _) => ringbuf_records (events s) ++ [tr_event t (span_of t s) (e_saddr d) (e_daddr d)]
         | None => ringbuf_records (events s)
         end
    else ringbuf_records (events s).
Proof.
  destruct t as [sk state now cur]. unfold handle_set_state, span_of, tr_event. cbn [t_sk t_state t_now t_cur].
  destruct (is_ip sk); cbn [negb]; [|done].
  destruct (ringbuf_reserve (events s)) as [[d r]|] eqn:Hr; [|by destruct (map_lookup_elem _ _)].
  destruct (copy_addrs sk _ _) as [sa da], (map_lookup_elem (timestamps s) (sk_addr sk)); cbn [events];
    by rewrite ringbuf_submit_records, (ringbuf_reserve_records _ _ _ Hr).
Qed.

Definition ts_inv (h : list transition) (m : M) : Prop :=
  ∀ id, map_view m !! id = None ∨ ∃ p, last (epoch id h) = Some p ∧ map_view m !! id = Some (t_now p).

Lemma ts_inv_step h t s :
  ts_inv h (timestamps s) → ts_inv (h ++ [t]) (timestamps (handle_set_state t s)).
Proof.
  intros Hi id. rewrite handle_timestamps, epoch_snoc. unfold extend, concerns.
  destruct (is_ip (t_sk t)); simpl; [|apply Hi].
  destruct (Z.eqb_spec (sk_addr (t_sk t)) id) as [->|Hne]; destruct (t_state t =? TCP_CLOSE).
  - left. rewrite map_delete_view. apply lookup_delete_eq.
  - right. exists t. rewrite last_snoc. split; [done|]. apply lru_update_self. by left.
  - rewrite map_delete_view, lookup_delete_ne by done. apply Hi.
  - destruct (lru_update_other (timestamps s) (sk_addr (t_sk t)) id (t_now t) BPF_ANY) as [-> | ->];
      [done|apply Hi|by left].
Qed.

Lemma ts_inv_run h r : ts_inv h (timestamps (run h (init r) : kstate M R)).
Proof.
  induction h as [|t h IH] using rev_ind.
  - intros id. left. cbn. by rewrite map_empty_view, lookup_empty.
  - unfold run. rewrite foldl_app. by apply ts_inv_step.
Qed.
End proof.

(** ** Theorems *)

(** What the event of transition [t] says, apart from the time. *)
Record describes (t : transition) (e : event) : Prop := mk_describes {
  d_sock : e_skaddr e = sk_addr (t_sk t);
  d_states : e_oldstate e = skc_state (t_sk t) ∧ e_newstate e = t_state t;
  d_ports : e_sport e = skc_num (t_sk t) ∧ e_dport e = ntohs (skc_dport (t_sk t));
  d_family : e_family e = skc_family (t_sk t);
  d_task : e_pid e = current_pid (t_cur t) ∧ e_comm e = comm (t_cur t);
  d_v4 : skc_family (t_sk t) = AF_INET →
    take (length (skc_rcv_saddr (t_sk t))) (e_saddr e) = skc_rcv_saddr (t_sk t)
    ∧ take (length (skc_daddr (t_sk t))) (e_daddr e) = skc_daddr (t_sk t);
  d_v6 : skc_family (t_sk t) = AF_INET6 →
    take (length (skc_v6_rcv_saddr (t_sk t))) (e_saddr e) = skc_v6_rcv_saddr (t_sk t)
    ∧ take (length (skc_v6_daddr (t_sk t))) (e_daddr e) = skc_v6_daddr (t_sk t);
}.

Lemma tr_event_describes t span s0 d0 : describes t (tr_event t span s0 d0).
Proof.
  unfold tr_event, copy_addrs. destruct (skc_family (t_sk t) =? AF_INET) eqn:Hf; split; cbn; auto; intros Hf';
    rewrite ?copy_front_take; try done; rewrite Hf' in Hf; done.
Qed.

Section theorems.
  Context {M R : Type} `{!BpfMap M Z Z} `{!Ringbuf R event}.

(** After any transitions [h], a transition of an IP socket for which
    the ring has room submits one event that describes it.  Its time is that
    since the previous transition [p] of the same connection; there is none
    when this is the first transition since the address was last closed, or
    when the map evicted the timestamp in between, which cannot happen when
    [p] was the last transition of all. *)
Theorem transition_reported `{!BpfLruLaws M Z Z MAX_SOCKS} `{!RingbufLaws R event}
    (h : list transition) (t : transition) (r : R) :
  let s := run h (init r) : kstate M R in
  let previous := last (epoch (sk_addr (t_sk t)) h) in
  is_ip (t_sk t) = true → is_Some (ringbuf_reserve (events s)) →
  ∃ e, ringbuf_records (events (handle_set_state t s)) = ringbuf_records (events s) ++ [e]
    ∧ describes t e
    ∧ ((e_has_span e = 0 ∧ e_span_us e = 0)
       ∨ ∃ p, previous = Some p ∧ e_has_span e = 1 ∧ e_span_us e = (t_now t -64 t_now p) / 1000)
    ∧ (∀ p, last h = Some p → previous = Some p → e_has_span e = 1).
Proof.
  intros s previous Hip [[d r'] Hres]. pose proof (ts_inv_run h r (sk_addr (t_sk t))) as Hts. fold s previous in Hts.
  assert (Hlast : ∀ p, last h = Some p → previous = Some p → is_Some (map_view (timestamps s) !! sk_addr (t_sk t))).
  { intros p Hp Hprev. apply last_Some in Hp as [h' ->].
    destruct (epoch_elem _ _ _ (last_Some_elem _ _ Hprev)) as (_ & Hc & Hcl). apply concerns_spec in Hc as [Hcp Hc].
    unfold s, run. rewrite foldl_app. cbn [foldl]. rewrite handle_timestamps, Hcp.
    apply Z.eqb_neq in Hcl. rewrite Hcl, Hc. rewrite lru_update_self by (by left). by eexists. }
  rewrite handle_records, Hip, Hres. eexists. split; [done|]. split; [apply tr_event_describes|].
  unfold tr_event, span_of. rewrite map_lookup_view. destruct (copy_addrs _ _ _) as [sa da]. cbn [e_has_span e_span_us].
  destruct (map_view (timestamps s) !! sk_addr (t_sk t)) as [prev|] eqn:Ev; cbn.
  - split; [|done]. right. destruct Hts as [?|(p & Hp & Hv)]; [done|]. exists p. simplify_eq. done.
  - split; [by left|]. intros p Hp Hprev. destruct (Hlast p Hp Hprev) as [? Hx]. done.
Qed.
End theorems.

(** The values a record can have: its fields' types, a process id below
    10^7 (the kernel's limit is 4194304), and a terminated name. *)
Record event_ok (e : event) : Prop := mk_event_ok {
  ok_family : e_family e = AF_INET ∨ e_family e = AF_INET6;
  ok_saddr : length (e_saddr e) = 16%nat ∧ Forall is_byte (e_saddr e);
  ok_daddr : length (e_daddr e) = 16%nat ∧ Forall is_byte (e_daddr e);
  ok_ports : 0 ≤ e_sport e < 65536 ∧ 0 ≤ e_dport e < 65536;
  ok_skaddr : 0 ≤ e_skaddr e < 2 ^ 64;
  ok_pid : 0 ≤ e_pid e < 10 ^ 7;
  ok_comm : (length (cstr (e_comm e)) ≤ 16)%nat;
}.

Lemma tcp_state_name_length s : (length (str (tcp_state_name s)) ≤ 14)%nat.
Proof.
  unfold tcp_state_name. set (names := _ :: _).
  assert (Hn : Forall (λ n, (length (str n) ≤ 14)%nat) names) by (apply (bool_decide_unpack _); vm_compute; exact I).
  destruct (_ && _); [|cbn; lia]. destruct (names !! Z.to_nat s) as [n|] eqn:E; [|cbn; lia].
  exact (proj1 (Forall_lookup _ _) Hn _ _ E).
Qed.

(** The line printed for an event is a row of the table: whatever the
    event, its columns start at the same places, none is cut or pushed to
    the right, and the two endpoint columns hold texts from which the
    addresses and ports of the event can be read back. *)
Theorem row_columns (e : event) :
  event_ok e →
  ∃ line src dst, handle_event e = Some line
  ∧ columns [18; 7; 16; 4; 48; 48; 14; 2; 14]%nat line
    = [ rpad 18 (hex (e_skaddr e)); rpad 7 (dec (e_pid e)); rpad 16 (cstr (e_comm e));
        rpad 4 (str (if e_family e =? AF_INET then "IPv4" else "IPv6"));
        rpad 48 src; rpad 48 dst;
        rpad 14 (str (tcp_state_name (e_oldstate e))); str "->"; rpad 14 (str (tcp_state_name (e_newstate e)));
        lpad 10 (span_text e) ++ [10] ]
  ∧ read_endpoint src = Some (e_family e, take (addr_len (e_family e)) (e_saddr e), e_sport e)
  ∧ read_endpoint dst = Some (e_family e, take (addr_len (e_family e)) (e_daddr e), e_dport e).
Proof.
  intros [Hf [Hs1 Hs2] [Hd1 Hd2] [Hp1 Hp2] Hsk Hpid Hcomm].
  destruct (endpoint_ok _ _ _ Hf Hs1 Hs2 Hp1) as (src & Hsrc & Hsl & Hsr).
  destruct (endpoint_ok _ _ _ Hf Hd1 Hd2 Hp2) as (dst & Hdst & Hdl & Hdr).
  eexists _, src, dst. split; [unfold handle_event; rewrite Hsrc, Hdst; reflexivity|]. split; [|done].
  assert (length (hex (e_skaddr e)) ≤ 18)%nat by (apply numeral_length; lia).
  assert (length (dec (e_pid e)) ≤ 7)%nat by (apply numeral_length; lia).
  rewrite !columns_pad; [done|..]; auto using tcp_state_name_length.
  by destruct (_ =? AF_INET); vm_compute; lia.
Qed.

(** ** Witnesses *)

Definition ex_sock (st : Z) : sock := mk_sock 4096 AF_INET st 4242 20480 [10; 0; 0; 1] [10; 0; 0; 2] [] [] 0 0 0 0.
Definition ex_task : task := mk_task (7 * 2 ^ 32) 0 [99; 117; 114; 108].
Definition ex_h : list transition := [mk_tr (ex_sock 7) TCP_SYN_SENT 1000000 ex_task].
Definition ex_t : transition := mk_tr (ex_sock 2) TCP_ESTABLISHED 26000000 ex_task.
Definition ex_dirt : event := mk_event 0 0 0 0 0 0 0 0 0 (replicate 16 255) (replicate 16 255) [].

(** The handshake took 25 ms. *)
Lemma transition_reported_witness :
  let s := @run _ _ (gmap_lru MAX_SOCKS) (const_ringbuf ex_dirt) ex_h
    (@init _ _ (gmap_lru MAX_SOCKS) ([], 4%nat)) in
  ∃ e, (events (@handle_set_state _ _ (gmap_lru MAX_SOCKS) (const_ringbuf ex_dirt) ex_t s)).1
    = (events s).1 ++ [e] ∧ e_has_span e = 1 ∧ e_span_us e = 25000.
Proof.
  destruct (@transition_reported _ _ (gmap_lru MAX_SOCKS) (const_ringbuf ex_dirt) (gmap_lru_laws MAX_SOCKS)
    (const_ringbuf_laws ex_dirt) ex_h ex_t ([], 4%nat)) as (e & He & _ & Hsp & Hl).
  - reflexivity.
  - eexists. reflexivity.
  - exists e. split; [exact He|]. specialize (Hl _ eq_refl eq_refl). split; [exact Hl|].
    destruct Hsp as [[H0 _]|(p & Hp & _ & Hs)]; [rewrite H0 in Hl; discriminate|].
    rewrite Hs. injection Hp as <-. reflexivity.
Defined.

(** A transition over IPv6, of which the time is not known. *)
Definition ex_event : event :=
  mk_event (255 * 2 ^ 40) 0 4194304 2 1 AF_INET6 51820 443 0 (replicate 15 0 ++ [1]) ex_v6 (str "curl" ++ replicate 12 0).

Lemma row_columns_witness :
  ∃ line, handle_event ex_event = Some line
  ∧ columns [18; 7; 16; 4; 48; 48; 14; 2; 14]%nat line
    = [ str "ff0000000000      "; str "4194304"; str "curl            "; str "IPv6";
        rpad 48 (str "[::1]:51820"); rpad 48 (str "[2001:db8::1]:443");
        str "SYN_SENT      "; str "->"; str "ESTABLISHED   "; str "         -" ++ [10] ].
Proof.
  destruct (row_columns ex_event) as (line & src & dst & Hl & Hc & _).
  - apply mk_event_ok.
    + right. reflexivity.
    + split; [reflexivity|]. apply (bool_decide_unpack _). vm_compute. exact I.
    + split; [reflexivity|]. apply (bool_decide_unpack _). vm_compute. exact I.
    + cbn. lia.
    + cbn. lia.
    + cbn. lia.
    + apply Nat.leb_le. vm_compute. reflexivity.
  - exists line. split; [exact Hl|]. vm_compute in Hl. injection Hl as <-. vm_compute. reflexivity.
Defined.
