(* ===== verification/TcpLife.v ===== *)
(** * TcpLife: one summary per connection (chapter 13)

    Models src/13-tcplife/tcplife.bpf.c ([handle_set_state] with its two LRU
    maps) and the line that tcplife.c prints for a summary.  The theorems: a
    summary is submitted only when a connection that was seen opening closes,
    spans the time from an opening transition of that connection, and names the task that last drove it through SYN_SENT
    or LAST_ACK; and the case in which a connection that did neither is
    attributed to the previous user of its socket address. *)

From stdpp Require Import prelude gmap list strings.
From Stdlib Require Import ZArith Lia.
From S2P Require Import Prelude.
From S2P Require Import Kernel.
From S2P Require Import Float64.
From S2P Require Import Printf.
From S2P Require Import Inet.
From S2P Require Import TcpSock.

Definition MAX_SOCKS : Z := 10240.

Record ident := mk_ident { i_pid : Z; i_comm : list Z }.

Record event := mk_event {
  e_skaddr : Z; e_tx_b : Z; e_rx_b : Z; e_span_us : Z;
  e_pid : Z; e_srtt_us : Z; e_total_retrans : Z;
  e_family : Z; e_sport : Z; e_dport : Z;
  e_saddr : list Z; e_daddr : list Z; e_comm : list Z;
}.

(** The task on the CPU, as both branches of the program read it. *)
Definition who (cur : task) : ident := mk_ident (current_pid cur) (comm cur).

(** The event of a closing socket, written into the reserved record [e]. *)
Definition summary (e : event) (sk : sock) (birth now : Z) (w : ident) : event :=
  let '(saddr, daddr) := copy_addrs sk (e_saddr e) (e_daddr e) in
  mk_event (sk_addr sk) (bytes_acked sk) (bytes_received sk) ((now -64 birth) / 1000)
    (i_pid w) (Z.shiftr (srtt_us sk) 3) (total_retrans sk)
    (skc_family sk) (skc_num sk) (ntohs (skc_dport sk)) saddr daddr (i_comm w).

Section program.
  Context {MB MI R : Type} `{!BpfMap MB Z Z} `{!BpfMap MI Z ident} `{!Ringbuf R event}.

Record kstate := mk_kstate { births : MB; idents : MI; events : R }.

Definition init (r : R) : kstate := mk_kstate map_empty map_empty r.

(** The label [cleanup]. *)
Definition cleanup (id : Z) (s : kstate) : kstate :=
  mk_kstate (map_delete_elem (births s) id).2 (map_delete_elem (idents s) id).2 (events s).

(** The stamps taken on the way, before the early return. *)
Definition stamp (t : transition) (s : kstate) : kstate :=
  let '(mk_tr sk state now cur) := t in
  let id := sk_addr sk in
  mk_kstate
    (if state <? TCP_FIN_WAIT1 then (map_update_elem (births s) id now BPF_NOEXIST).2 else births s)
    (if (state =? TCP_SYN_SENT) || (state =? TCP_LAST_ACK)
     then (map_update_elem (idents s) id (who cur) BPF_ANY).2 else idents s)
    (events s).

Definition handle_set_state (t : transition) (s : kstate) : kstate :=
  let '(mk_tr sk state now cur) := t in
  if negb (is_ip sk) then s else
  let id := sk_addr sk in
  let s := stamp t s in
  if negb (state =? TCP_CLOSE) then s else
  match map_lookup_elem (births s) id with
  | None => s
  | Some birth =>
      match ringbuf_reserve (events s) with
      | None => cleanup id s
      | Some (e, r) =>
          let w := match map_lookup_elem (idents s) id with Some w => w | None => who cur end in
          cleanup id (mk_kstate (births s) (idents s) (ringbuf_submit r (summary e sk birth now w)))
      end
  end.

Definition run (h : list transition) (s : kstate) : kstate := foldl (λ s t, handle_set_state t s) s h.
End program.
Arguments kstate : clear implicits.

(** A counter in another unit. *)
Definition in_units (n unit : Z) : f64 := f64_div (f64_of_Z n) (f64_of_Z unit).

(** The line for a summary; [None] if an address buffer was not filled. *)
Definition handle_event (e : event) : option (list Z) :=
  src ← fmt_endpoint (INET6_ADDRSTRLEN + 10) (e_family e) (e_saddr e) (e_sport e);
  dst ← fmt_endpoint (INET6_ADDRSTRLEN + 10) (e_family e) (e_daddr e) (e_dport e);
  Some (rpad 7 (dec (e_pid e)) ++ str " " ++ rpad 16 (cstr (e_comm e)) ++ str " " ++
    rpad 4 (str (if e_family e =? AF_INET then "IPv4" else "IPv6")) ++ str " " ++
    rpad 48 src ++ str " " ++ rpad 48 dst ++ str " " ++
    lpad 9 (fmt_f 1 (in_units (e_tx_b e) 1024)) ++ str " " ++ lpad 9 (fmt_f 1 (in_units (e_rx_b e) 1024)) ++ str " " ++
    lpad 8 (fmt_f 2 (in_units (e_srtt_us e) 1000)) ++ str " " ++ lpad 5 (dec (e_total_retrans e)) ++ str " " ++
    lpad 10 (fmt_f 2 (in_units (e_span_us e) 1000)) ++ [10]).

(** ** Specification *)

(** Transitions that open a connection, and those whose task is recorded. *)
Definition opens (t : transition) : bool := t_state t <? TCP_FIN_WAIT1.
Definition captures (t : transition) : bool := (t_state t =? TCP_SYN_SENT) || (t_state t =? TCP_LAST_ACK).

Definition opening (id : Z) (h : list transition) : list transition := bfilter opens (epoch id h).
Definition captured (id : Z) (h : list transition) : option transition := last (bfilter captures (epoch id h)).

Section proof.
  Context {MB MI R : Type} `{!BpfMap MB Z Z} `{!BpfMap MI Z ident} `{!Ringbuf R event}.
  Context `{!BpfLruLaws MB Z Z MAX_SOCKS} `{!BpfLruLaws MI Z ident MAX_SOCKS} `{!RingbufLaws R event}.
  Implicit Types (s : kstate MB MI R) (t : transition).

(** A row of [births] is the time of an opening transition of the current
    connection. *)
Definition births_inv (h : list transition) (m : MB) : Prop :=
  ∀ id b, map_view m !! id = Some b → ∃ p, p ∈ opening id h ∧ b = t_now p.

(** A row of [idents] is the task last captured for the current connection,
    or for an earlier one when this connection has captured none. *)
Definition idents_inv (h : list transition) (m : MI) : Prop :=
  ∀ id w, map_view m !! id = Some w →
    match captured id h with
    | Some c => w = who (t_cur c)
    | None => ∃ c, c ∈ h ∧ concerns id c = true ∧ captures c = true ∧ w = who (t_cur c)
    end.

(** The rows after a call, for a socket: first what [stamp] did, then the
    clean-up at TCP_CLOSE when the birth is known. *)
Lemma handle_births t s id :
  is_ip (t_sk t) = true →
  map_view (births (handle_set_state t s)) !! id
  = if (t_state t =? TCP_CLOSE) && bool_decide (id = sk_addr (t_sk t)) then None
    else map_view (births (stamp t s)) !! id.
Proof.
  destruct t as [sk state now cur]. intros Hip. cbn [t_sk] in Hip. unfold handle_set_state. rewrite Hip. cbn [negb t_sk t_state].
  destruct (state =? TCP_CLOSE); cbn [negb andb]; [|done]. rewrite map_lookup_view.
  destruct (map_view (births _) !! sk_addr sk) eqn:Eb.
  - destruct (ringbuf_reserve _) as [[e r]|]; cbn [cleanup births]; rewrite map_delete_view; case_bool_decide as Hd;
      subst; by rewrite ?lookup_delete_eq, ?lookup_delete_ne by congruence.
  - case_bool_decide; by subst.
Qed.

Lemma handle_idents t s id w :
  map_view (idents (handle_set_state t s)) !! id = Some w →
  map_view (idents (if is_ip (t_sk t) then stamp t s else s)) !! id = Some w.
Proof.
  destruct t as [sk state now cur]. unfold handle_set_state. cbn [t_sk].
  destruct (is_ip sk); cbn [negb]; [|done]. destruct (state =? TCP_CLOSE); cbn [negb]; [|done].
  destruct (map_lookup_elem _ _); [|done].
  destruct (ringbuf_reserve _) as [[e r]|]; cbn [cleanup idents]; rewrite map_delete_view;
    by intros [_ ?]%lookup_delete_Some.
Qed.

Lemma opening_snoc id h t :
  opening id (h ++ [t])
  = if concerns id t then
      if t_state t =? TCP_CLOSE then [] else opening id h ++ (if opens t then [t] else [])
    else opening id h.
Proof.
  unfold opening. rewrite epoch_snoc. unfold extend. destruct (concerns id t); [|done].
  destruct (t_state t =? TCP_CLOSE); [done|]. rewrite bfilter_app. simpl. by destruct (opens t).
Qed.

Lemma captured_snoc id h t :
  captured id (h ++ [t])
  = if concerns id t then
      if t_state t =? TCP_CLOSE then None else if captures t then Some t else captured id h
    else captured id h.
Proof.
  unfold captured. rewrite epoch_snoc. unfold extend. destruct (concerns id t); [|done].
  destruct (t_state t =? TCP_CLOSE); [done|]. rewrite bfilter_app. simpl. destruct (captures t).
  - by rewrite last_snoc.
  - by rewrite app_nil_r.
Qed.

Lemma stamp_births t s id b :
  map_view (births (stamp t s)) !! id = Some b →
  map_view (births s) !! id = Some b ∨ (opens t = true ∧ id = sk_addr (t_sk t) ∧ b = t_now t).
Proof.
  destruct t as [sk state now cur]. unfold stamp, opens. cbn [births t_state t_now t_sk].
  destruct (state <? TCP_FIN_WAIT1); [|by left]. intros Hb. destruct (decide (id = sk_addr sk)) as [->|Hne].
  - destruct (map_view (births s) !! sk_addr sk) as [b'|] eqn:E.
    + rewrite lru_update_noexist in Hb by (rewrite E; by eexists). left. congruence.
    + rewrite lru_update_self in Hb by (by right). right. split_and!; congruence.
  - left. destruct (lru_update_other (births s) (sk_addr sk) id now BPF_NOEXIST) as [Hx|Hx]; [done| |];
      rewrite Hx in Hb; done.
Qed.

Lemma stamp_idents t s id w :
  map_view (idents (stamp t s)) !! id = Some w →
  if captures t && bool_decide (id = sk_addr (t_sk t)) then w = who (t_cur t)
  else map_view (idents s) !! id = Some w.
Proof.
  destruct t as [sk state now cur]. unfold stamp, captures. cbn [idents t_state t_cur t_sk].
  destruct (_ || _); cbn [andb]; [|done]. intros Hw. case_bool_decide as Hid.
  - subst id. rewrite lru_update_self in Hw by (by left). congruence.
  - destruct (lru_update_other (idents s) (sk_addr sk) id (who cur) BPF_ANY) as [Hx|Hx]; [done| |];
      rewrite Hx in Hw; done.
Qed.

Lemma births_inv_step h t s :
  births_inv h (births s) → births_inv (h ++ [t]) (births (handle_set_state t s)).
Proof.
  intros Hi id b Hb. rewrite opening_snoc. unfold concerns. destruct (is_ip (t_sk t)) eqn:Hip.
  2:{ cbn [andb]. apply Hi. by destruct t as [sk ? ? ?]; unfold handle_set_state in Hb; cbn [t_sk] in Hip; rewrite Hip in Hb. }
  rewrite handle_births in Hb by done. cbn [andb]. rewrite (Z.eqb_sym (sk_addr _)).
  destruct (t_state t =? TCP_CLOSE) eqn:Ecl; cbn [andb] in Hb.
  - case_bool_decide as Hid; [done|]. apply Z.eqb_neq in Hid. rewrite Hid.
    apply stamp_births in Hb as [Hb|(_ & -> & _)]; [by apply Hi|]. by rewrite Z.eqb_refl in Hid.
  - apply stamp_births in Hb as [Hb|(Ho & -> & ->)].
    + destruct (Hi id b Hb) as (p & Hp & ->). exists p. split; [|done]. destruct (id =? _); set_solver.
    + exists t. rewrite Z.eqb_refl, Ho. split; [set_solver|done].
Qed.

Lemma idents_inv_step h t s :
  idents_inv h (idents s) → idents_inv (h ++ [t]) (idents (handle_set_state t s)).
Proof.
  intros Hi id w Hw%handle_idents. rewrite captured_snoc.
  assert (Hold : map_view (idents s) !! id = Some w → ∃ c, c ∈ h ++ [t] ∧ concerns id c = true ∧ captures c = true ∧ w = who (t_cur c)).
  { intros Hs. specialize (Hi id w Hs). unfold captured in Hi. destruct (last _) as [c|] eqn:El.
    - apply last_Some_elem, elem_of_bfilter in El as [Hc Hin]. destruct (epoch_elem _ _ _ Hin) as (? & ? & ?).
      exists c. set_solver.
    - destruct Hi as (c & ? & ?). exists c. set_solver. }
  assert (Hmono : map_view (idents s) !! id = Some w → match captured id h with
      | Some c => w = who (t_cur c)
      | None => ∃ c, c ∈ h ++ [t] ∧ concerns id c = true ∧ captures c = true ∧ w = who (t_cur c) end).
  { intros Hs. specialize (Hi id w Hs). destruct (captured id h); [done|]. by apply Hold. }
  unfold concerns at 1. destruct (is_ip (t_sk t)) eqn:Hip; cbn [andb]; [|by apply Hmono].
  apply stamp_idents in Hw. rewrite (Z.eqb_sym (sk_addr _)). destruct (captures t) eqn:Ec; cbn [andb] in Hw.
  - case_bool_decide as Hid; [|apply Z.eqb_neq in Hid; rewrite Hid; by apply Hmono].
    subst id. rewrite Z.eqb_refl. destruct (t_state t =? TCP_CLOSE) eqn:Ecl; [|done].
    exfalso. apply Z.eqb_eq in Ecl. unfold captures in Ec. by rewrite Ecl in Ec.
  - destruct (id =? sk_addr (t_sk t)); [|by apply Hmono]. destruct (t_state t =? TCP_CLOSE); [by apply Hold|by apply Hmono].
Qed.

Lemma inv_run h r :
  births_inv h (births (run h (init r) : kstate MB MI R)) ∧ idents_inv h (idents (run h (init r) : kstate MB MI R)).
Proof.
  induction h as [|t h [IH1 IH2]] using rev_ind.
  - split; intros id ? Hx; cbn in Hx; by rewrite map_empty_view, lookup_empty in Hx.
  - unfold run. rewrite foldl_app. split; [by apply births_inv_step|by apply idents_inv_step].
Qed.

Lemma stamp_close t s : t_state t = TCP_CLOSE → stamp t s = s.
Proof. destruct t as [sk state now cur], s. cbn [t_state]. by intros ->. Qed.

(** What one call does to the ring. *)
Lemma life_records t s :
  ringbuf_records (events (handle_set_state t s))
  = if is_ip (t_sk t) && (t_state t =? TCP_CLOSE)
    then match map_lookup_elem (births s) (sk_addr (t_sk t)), ringbuf_reserve (events s) with
         | Some b, Some (d, _) =>
             ringbuf_records (events s)
             ++ [summary d (t_sk t) b (t_now t) (default (who (t_cur t)) (map_lookup_elem (idents s) (sk_addr (t_sk t))))]
         | _, _ => ringbuf_records (events s)
         end
    else ringbuf_records (events s).
Proof.
  pose proof (stamp_close t s) as Hst. destruct t as [sk state now cur]. unfold handle_set_state. cbn [t_sk t_state t_now t_cur] in *.
  destruct (is_ip sk); cbn [negb andb]; [|done]. destruct (Z.eqb_spec state TCP_CLOSE) as [->|]; cbn [negb]; [|done].
  rewrite Hst by done. destruct (map_lookup_elem (births s) (sk_addr sk)); [|done].
  destruct (ringbuf_reserve (events s)) as [[d r]|] eqn:Hr; [|done]. cbn [cleanup events].
  rewrite ringbuf_submit_records, (ringbuf_reserve_records _ _ _ Hr).
  by destruct (map_lookup_elem (idents s) (sk_addr sk)).
Qed.

(** Only a close submits anything. *)
Lemma handle_open_quiet t s :
  is_ip (t_sk t) = false ∨ t_state t ≠ TCP_CLOSE → events (handle_set_state t s) = events s.
Proof.
  destruct t as [sk state now cur]. unfold handle_set_state. cbn [t_sk t_state]. intros [Hip|Hc].
  - by rewrite Hip.
  - destruct (is_ip sk); [|done]. cbn [negb]. by destruct (Z.eqb_spec state TCP_CLOSE).
Qed.
End proof.

(** ** Theorems *)

(** The summary [e] of the connection that closes with [t], was opened by
    [p] and is attributed to [w]. *)
Record reports (t p : transition) (w : ident) (e : event) : Prop := mk_reports {
  r_sock : e_skaddr e = sk_addr (t_sk t) ∧ e_family e = skc_family (t_sk t);
  r_span : e_span_us e = (t_now t -64 t_now p) / 1000;
  r_owner : mk_ident (e_pid e) (e_comm e) = w;
  r_ports : e_sport e = skc_num (t_sk t) ∧ e_dport e = ntohs (skc_dport (t_sk t));
  r_bytes : e_tx_b e = bytes_acked (t_sk t) ∧ e_rx_b e = bytes_received (t_sk t);
  r_rtt : e_srtt_us e = srtt_us (t_sk t) / 8 ∧ e_total_retrans e = total_retrans (t_sk t);
  r_addrs :
    if skc_family (t_sk t) =? AF_INET
    then take (length (skc_rcv_saddr (t_sk t))) (e_saddr e) = skc_rcv_saddr (t_sk t)
         ∧ take (length (skc_daddr (t_sk t))) (e_daddr e) = skc_daddr (t_sk t)
    else take (length (skc_v6_rcv_saddr (t_sk t))) (e_saddr e) = skc_v6_rcv_saddr (t_sk t)
         ∧ take (length (skc_v6_daddr (t_sk t))) (e_daddr e) = skc_v6_daddr (t_sk t);
}.

Lemma summary_reports d t p w : reports t p w (summary d (t_sk t) (t_now p) (t_now t) w).
Proof.
  unfold summary. destruct (copy_addrs _ _ _) as [sa da] eqn:E. unfold copy_addrs in E. split; simpl; auto.
  - by destruct w.
  - split; [|done]. by rewrite Z.shiftr_div_pow2.
  - destruct (skc_family (t_sk t) =? AF_INET); injection E as <- <-; by rewrite !copy_front_take.
Qed.

Section theorems.
  Context {MB MI R : Type} `{!BpfMap MB Z Z} `{!BpfMap MI Z ident} `{!Ringbuf R event}.

(** After any transitions [h], the close of an IP socket leaves no birth
    for it.  If the connection was not seen opening, nothing is submitted.
    Otherwise, unless the map evicted the birth or the ring is full, one
    summary is: it reports an opening transition [p] of this connection (not
    of an earlier one at the same address) and is attributed to the task of
    the last SYN_SENT or LAST_ACK of this connection when that row is still
    there.  Any other transition submits nothing. *)
Theorem life_summary `{!BpfLruLaws MB Z Z MAX_SOCKS} `{!BpfLruLaws MI Z ident MAX_SOCKS} `{!RingbufLaws R event}
    (h : list transition) (t : transition) (r : R) :
  let s := run h (init r) : kstate MB MI R in
  let s' := handle_set_state t s in
  let id := sk_addr (t_sk t) in
  is_ip (t_sk t) = true → t_state t = TCP_CLOSE →
  map_lookup_elem (births s') id = None
  ∧ (opening id h = [] → events s' = events s)
  ∧ match map_lookup_elem (births s) id, ringbuf_reserve (events s) with
    | Some _, Some _ =>
        ∃ e p w, ringbuf_records (events s') = ringbuf_records (events s) ++ [e]
          ∧ p ∈ opening id h ∧ reports t p w e
          ∧ match map_lookup_elem (idents s) id, captured id h with
            | None, _ => w = who (t_cur t)
            | Some _, Some c => w = who (t_cur c)
            | Some _, None => ∃ c, c ∈ h ∧ concerns id c = true ∧ captures c = true ∧ w = who (t_cur c)
            end
    | _, _ => events s' = events s
    end.
Proof.
  intros s s' id Hip Hcl. destruct (inv_run h r) as [Hb Hi]. fold s in Hb, Hi.
  pose proof (stamp_close t s Hcl) as Hst.
  split; [|split].
  - rewrite map_lookup_view. unfold s'. rewrite handle_births, Hcl by done. by rewrite bool_decide_eq_true_2.
  - intros Ho. unfold s', handle_set_state. destruct t as [sk state now cur]. cbn [t_sk t_state] in *.
    rewrite Hip, Hcl. cbn [negb Z.eqb]. subst state. rewrite Hst, map_lookup_view.
    destruct (map_view (births s) !! sk_addr sk) as [b|] eqn:Eb; [|done].
    destruct (Hb _ _ Eb) as (p & Hp & _). unfold id in Ho. rewrite Ho in Hp. by apply not_elem_of_nil in Hp.
  - rewrite !map_lookup_view. destruct (map_view (births s) !! id) as [b|] eqn:Eb.
    2:{ unfold s', handle_set_state. destruct t as [sk state now cur]. cbn [t_sk t_state] in *.
        rewrite Hip. subst state. rewrite Hst, map_lookup_view. cbn [negb Z.eqb]. unfold id in Eb. by rewrite Eb. }
    destruct (Hb _ _ Eb) as (p & Hp & ->). specialize (Hi id). unfold s', handle_set_state.
    destruct t as [sk state now cur]. cbn [t_sk t_state t_cur] in *. rewrite Hip. subst state. rewrite Hst, !map_lookup_view.
    change (sk_addr sk) with id. rewrite Eb. cbn [negb Z.eqb].
    destruct (ringbuf_reserve (events s)) as [[d r']|] eqn:Er; [|done]. rewrite Z.eqb_refl. cbn [negb cleanup events].
    rewrite ringbuf_submit_records, (ringbuf_reserve_records _ _ _ Er).
    destruct (map_view (idents s) !! id) as [w|] eqn:Ew.
    + eexists _, p, w. split; [done|]. split; [done|].
      split; [apply (summary_reports d (mk_tr sk TCP_CLOSE now cur))|]. by apply Hi.
    + eexists _, p, (who cur). split; [done|]. split; [done|].
      split; [apply (summary_reports d (mk_tr sk TCP_CLOSE now cur))|]. done.
Qed.
End theorems.

(** The line of a summary is a row of the table up to the counters, and its
    endpoints can be read back. *)
Lemma life_columns (e : event) :
  e_family e = AF_INET ∨ e_family e = AF_INET6 →
  length (e_saddr e) = 16%nat → Forall is_byte (e_saddr e) → 0 ≤ e_sport e < 65536 →
  length (e_daddr e) = 16%nat → Forall is_byte (e_daddr e) → 0 ≤ e_dport e < 65536 →
  0 ≤ e_pid e < 10 ^ 7 → (length (cstr (e_comm e)) ≤ 16)%nat →
  ∃ line src dst rest, handle_event e = Some line
  ∧ columns [7; 16; 4; 48; 48]%nat line
    = [ rpad 7 (dec (e_pid e)); rpad 16 (cstr (e_comm e));
        rpad 4 (str (if e_family e =? AF_INET then "IPv4" else "IPv6")); rpad 48 src; rpad 48 dst; rest ]
  ∧ read_endpoint src = Some (e_family e, take (addr_len (e_family e)) (e_saddr e), e_sport e)
  ∧ read_endpoint dst = Some (e_family e, take (addr_len (e_family e)) (e_daddr e), e_dport e).
Proof.
  intros Hf Hs1 Hs2 Hp1 Hd1 Hd2 Hp2 Hpid Hcomm.
  destruct (endpoint_ok _ _ _ Hf Hs1 Hs2 Hp1) as (src & Hsrc & Hsl & Hsr).
  destruct (endpoint_ok _ _ _ Hf Hd1 Hd2 Hp2) as (dst & Hdst & Hdl & Hdr).
  eexists _, src, dst, _. split; [unfold handle_event; rewrite Hsrc, Hdst; reflexivity|]. split; [|done].
  assert (length (dec (e_pid e)) ≤ 7)%nat by (apply numeral_length; lia).
  rewrite !columns_pad; [done|done|done| |done|done]. by destruct (_ =? AF_INET); vm_compute; lia.
Qed.

(** ** Witnesses *)

Definition ex_sock (st : Z) : sock :=
  mk_sock 4096 AF_INET st 4242 20480 [10; 0; 0; 1] [10; 0; 0; 2] [] [] 1500 9000 1 80000.
Definition ex_curl : task := mk_task (7 * 2 ^ 32) 0 [99; 117; 114; 108].
Definition ex_nginx : task := mk_task (8 * 2 ^ 32) 0 [110; 103; 105; 110; 120].
Definition ex_swapper : task := mk_task 0 0 [115].
Definition ex_dirt : event := mk_event 0 0 0 0 0 0 0 0 0 0 (replicate 16 255) (replicate 16 255) [].

Notation ex_run h := (@run _ _ _ (gmap_lru MAX_SOCKS) (gmap_lru MAX_SOCKS) (const_ringbuf ex_dirt) h
  (@init _ _ _ (gmap_lru MAX_SOCKS) (gmap_lru MAX_SOCKS) ([], 4%nat))).

Definition ex_h : list transition :=
  [mk_tr (ex_sock 7) TCP_SYN_SENT 1000000 ex_curl; mk_tr (ex_sock 2) TCP_ESTABLISHED 26000000 ex_swapper;
   mk_tr (ex_sock 1) TCP_FIN_WAIT1 90000000 ex_curl].
Definition ex_t : transition := mk_tr (ex_sock 5) TCP_CLOSE 101000000 ex_swapper.

(** A connection of curl that lived for 100 ms and was closed in softirq. *)
Lemma life_summary_witness :
  ∃ e, (events (@handle_set_state _ _ _ (gmap_lru MAX_SOCKS) (gmap_lru MAX_SOCKS) (const_ringbuf ex_dirt)
      ex_t (ex_run ex_h))).1 = [e]
    ∧ mk_ident (e_pid e) (e_comm e) = who ex_curl.
Proof.
  destruct (@life_summary _ _ _ (gmap_lru MAX_SOCKS) (gmap_lru MAX_SOCKS) (const_ringbuf ex_dirt)
    (gmap_lru_laws MAX_SOCKS) (gmap_lru_laws MAX_SOCKS) (const_ringbuf_laws ex_dirt) ex_h ex_t ([], 4%nat)) as (_ & _ & H).
  - reflexivity.
  - reflexivity.
  - destruct H as (e & p & w & He & _ & Hr & Hw). exists e. split; [exact He|].
    destruct Hr as [_ _ Ho _ _ _ _]. rewrite Ho. exact Hw.
Defined.

(** A close that finds no birth does not remove the identity: when a
    connection of nginx that was open before the program was attached closes
    passively, and a passive connection that never reaches LAST_ACK then
    gets the same socket address, its summary is attributed to nginx. *)
Theorem stale_identity :
  let h := [mk_tr (ex_sock 8) TCP_LAST_ACK 1000 ex_nginx; mk_tr (ex_sock 9) TCP_CLOSE 2000 ex_swapper;
            mk_tr (ex_sock 3) TCP_ESTABLISHED 5000 ex_swapper; mk_tr (ex_sock 1) TCP_FIN_WAIT1 8000 ex_curl;
            mk_tr (ex_sock 5) TCP_CLOSE 9000 ex_swapper] in
  ∃ e, (events (ex_run h)).1 = [e] ∧ e_span_us e = 4 ∧ mk_ident (e_pid e) (e_comm e) = who ex_nginx
    ∧ Forall (λ t, who (t_cur t) ≠ who ex_nginx) (epoch 4096 (take 4 h)).
Proof.
  eexists. split; [vm_compute; reflexivity|]. split; [reflexivity|]. split; [vm_compute; reflexivity|].
  cbn. repeat constructor; by intros [=].
Qed.
