(* ===== verification/Stash.v ===== *)
(** * Stash: pairing the entry and the exit of a system call

    Chapters 10 (openat) and 11 (connect) save the arguments of a call in a
    hash map under the process id when it enters the kernel, and combine
    them with the result when it returns.  This file has that pattern as a
    specification ([stash_enter], [stash_exit]) and what it promises:
    [pending], the arguments saved by the last entry of the process since
    its last exit, is what the map holds.  [OpenSnoop] and [NetSnoop] show
    that the programs are instances of the pattern. *)

From stdpp Require Import prelude gmap list.
From Stdlib Require Import ZArith Lia.
From S2P Require Import Prelude.
From S2P Require Import Kernel.

Definition MAX_STASH : Z := 10240.

(** The two maps of such a program. *)
Record kstate (M R : Type) := mk_kstate { stash : M; events : R }.
Arguments mk_kstate {M R} _ _.
Arguments stash {M R} _.
Arguments events {M R} _.

(** A call of one of the hooks: an entry with what it saves, if anything,
    and an exit with how it fills the reserved record. *)
Inductive call (V E : Type) :=
  | Enter (pid : Z) (saved : option V)
  | Exit (pid : Z) (fill : V → E → E).
Arguments Enter {V E} _ _.
Arguments Exit {V E} _ _.

Definition call_pid {V E} (c : call V E) : Z := match c with Enter p _ => p | Exit p _ => p end.

Section pattern.
  Context {M V R E : Type} `{!BpfMap M Z V} `{!Ringbuf R E}.

Definition stash_enter (pid : Z) (saved : option V) (s : kstate M R) : kstate M R :=
  match saved with
  | Some v => mk_kstate (map_update_elem (stash s) pid v BPF_ANY).2 (events s)
  | None => s
  end.

Definition stash_exit (pid : Z) (fill : V → E → E) (s : kstate M R) : kstate M R :=
  match map_lookup_elem (stash s) pid with
  | None => s
  | Some v =>
      match ringbuf_reserve (events s) with
      | None => mk_kstate (map_delete_elem (stash s) pid).2 (events s)
      | Some (e, r) => mk_kstate (map_delete_elem (stash s) pid).2 (ringbuf_submit r (fill v e))
      end
  end.

Definition do_call (s : kstate M R) (c : call V E) : kstate M R :=
  match c with Enter p v => stash_enter p v s | Exit p f => stash_exit p f s end.

Definition run (cs : list (call V E)) (s : kstate M R) : kstate M R := foldl do_call s cs.
End pattern.

(** What is saved for [pid] after the calls. *)
Definition pending_step {V E} (pid : Z) (acc : option V) (c : call V E) : option V :=
  if call_pid c =? pid then match c with Enter _ (Some v) => Some v | Enter _ None => acc | Exit _ _ => None end
  else acc.

Definition pending {V E} (pid : Z) (cs : list (call V E)) : option V := foldl (pending_step pid) None cs.

(** The processes of a history. *)
Definition pids {V E} (cs : list (call V E)) : gset Z := list_to_set (call_pid <$> cs).

Section proof.
  Context {M V R E : Type} `{!BpfMap M Z V} `{!Ringbuf R E} `{!BpfHashLaws M Z V MAX_STASH}.
  Implicit Types (s : kstate M R) (cs : list (call V E)).

Lemma pending_snoc pid cs c : pending pid (cs ++ [c]) = pending_step pid (pending pid cs) c.
Proof. unfold pending. by rewrite foldl_app. Qed.

Lemma pending_pids pid cs : is_Some (pending pid cs) → pid ∈ pids cs.
Proof.
  induction cs as [|c cs IH] using rev_ind; [by intros []|]. rewrite pending_snoc. unfold pending_step, pids in *.
  rewrite fmap_app, list_to_set_app_L. destruct (Z.eqb_spec (call_pid c) pid) as [<-|]; set_solver.
Qed.

(** What is pending was saved by an entry of the process. *)
Lemma pending_entered pid cs v : pending pid cs = Some v → Enter pid (Some v) ∈ cs.
Proof.
  induction cs as [|c cs IH] using rev_ind; [done|]. rewrite pending_snoc, elem_of_app, list_elem_of_singleton.
  unfold pending_step. destruct (Z.eqb_spec (call_pid c) pid) as [<-|]; [|by left; apply IH].
  destruct c as [p [w|]|p f]; [intros [= ->]; by right|by left; apply IH|done].
Qed.

(** Calls of other processes do not change what is pending. *)
Lemma pending_others pid cs1 cs2 :
  Forall (λ c, call_pid c ≠ pid) cs2 → pending pid (cs1 ++ cs2) = pending pid cs1.
Proof.
  intros Hf. unfold pending. rewrite foldl_app. induction Hf as [|c l Hc _ IH] in cs1 |- *; [done|]. cbn [foldl].
  unfold pending_step at 2. apply Z.eqb_neq in Hc. rewrite Hc. apply IH.
Qed.

Lemma stash_exit_view pid fill s p :
  map_view (stash (stash_exit pid fill s)) !! p
  = if p =? pid then None else map_view (stash s) !! p.
Proof.
  unfold stash_exit. rewrite map_lookup_view.
  destruct (map_view (stash s) !! pid) eqn:Ex; [destruct (ringbuf_reserve _) as [[]|]; cbn [stash];
    rewrite map_delete_view|]; destruct (Z.eqb_spec p pid) as [->|]; by rewrite ?lookup_delete_eq, ?lookup_delete_ne.
Qed.

(** The map holds what is pending. *)
Definition holds s cs : Prop := ∀ p, map_view (stash s) !! p = pending p cs.

Lemma pids_snoc cs c : pids (cs ++ [c]) = pids cs ∪ {[call_pid c]}.
Proof. unfold pids. rewrite fmap_app, list_to_set_app_L. set_solver. Qed.

(** While there is room for every process, each call keeps it so. *)
Lemma holds_call s cs c :
  holds s cs → Z.of_nat (size (pids (cs ++ [c]))) ≤ MAX_STASH → holds (do_call s c) (cs ++ [c]).
Proof.
  intros IH Hs p. rewrite pids_snoc in Hs. rewrite pending_snoc.
  unfold pending_step. rewrite (Z.eqb_sym (call_pid c)). destruct c as [pid [v|]|pid fill]; cbn [do_call stash_enter stash call_pid] in *.
  - destruct (map_update_elem (stash s) pid v BPF_ANY) as [rc m'] eqn:Hu. apply hash_update_rc_view in Hu. cbn [snd].
    assert (map_view m' = <[pid := v]> (map_view (stash s))) as ->.
    { unfold hash_update in Hu. destruct (map_view (stash s) !! pid) eqn:Ex; [congruence|].
      assert (Hlt : Z.of_nat (size (map_view (stash s))) < MAX_STASH).
      { assert (Hsub : dom (map_view (stash s)) ⊆ pids cs).
        { intros k Hk%elem_of_dom. rewrite IH in Hk. by apply pending_pids in Hk. }
        assert (Hnin : pid ∉ dom (map_view (stash s))) by (by apply not_elem_of_dom).
        rewrite <- size_dom. assert (size (dom (map_view (stash s)) ∪ {[pid]} : gset Z) ≤ size (pids cs ∪ {[pid]}))%nat
          by (apply subseteq_size; set_solver).
        rewrite size_union, size_singleton in H by set_solver. lia. }
      apply Z.ltb_lt in Hlt. rewrite Hlt in Hu. congruence. }
    destruct (Z.eqb_spec p pid) as [->|Hne]; [by rewrite lookup_insert_eq|]. by rewrite lookup_insert_ne.
  - rewrite IH. by destruct (p =? pid).
  - rewrite stash_exit_view. destruct (p =? pid); [done|apply IH].
Qed.

(** With room for every process the map is exactly what is pending. *)
Lemma stash_exact cs s0 :
  map_view (stash s0) = ∅ → Z.of_nat (size (pids cs)) ≤ MAX_STASH → holds (run cs s0) cs.
Proof.
  intros H0. induction cs as [|c cs IH] using rev_ind; intros Hs.
  { intros p. cbn. by rewrite H0, lookup_empty. }
  unfold run in *. rewrite foldl_app. apply holds_call; [|done]. apply IH. rewrite pids_snoc in Hs.
  assert (size (pids cs) ≤ size (pids cs ∪ {[call_pid c]}))%nat by (apply subseteq_size; set_solver). lia.
Qed.

(** Without any bound a row is what is pending, or is missing because the
    map was full. *)
Lemma stash_safe cs s0 :
  map_view (stash s0) = ∅ →
  ∀ p, map_view (stash (run cs s0)) !! p = None ∨ map_view (stash (run cs s0)) !! p = pending p cs.
Proof.
  intros H0. induction cs as [|c cs IH] using rev_ind; intros p.
  { left. cbn. by rewrite H0, lookup_empty. }
  unfold run in *. rewrite foldl_app, pending_snoc. cbn [foldl]. set (s := foldl do_call s0 cs) in *.
  unfold pending_step. rewrite (Z.eqb_sym (call_pid c)). destruct c as [pid [v|]|pid fill]; cbn [do_call stash_enter stash call_pid] in *.
  - destruct (map_update_elem (stash s) pid v BPF_ANY) as [rc m'] eqn:Hu. apply hash_update_rc_view in Hu. cbn [snd].
    assert (map_view m' = <[pid := v]> (map_view (stash s)) ∨ (map_view m' = map_view (stash s) ∧ map_view (stash s) !! pid = None)) as [Hm|[Hm Hn]].
    { unfold hash_update in Hu. destruct (map_view (stash s) !! pid); [left; congruence|].
      destruct (_ <? MAX_STASH); [left|right]; split_and?; congruence. }
    + rewrite Hm. destruct (Z.eqb_spec p pid) as [->|Hne]; [right; by rewrite lookup_insert_eq|]. by rewrite lookup_insert_ne.
    + rewrite Hm. destruct (Z.eqb_spec p pid) as [->|Hne]; [by left|apply IH].
  - destruct (p =? pid); apply IH.
  - rewrite stash_exit_view. destruct (p =? pid); [by left|apply IH].
Qed.

(** An exit with something pending and room in the ring submits one record
    and clears the row; with nothing saved it does nothing. *)
Lemma stash_exit_submits `{!RingbufLaws R E} pid fill s v :
  map_view (stash s) !! pid = Some v → is_Some (ringbuf_reserve (events s)) →
  ∃ d, ringbuf_records (events (stash_exit pid fill s)) = ringbuf_records (events s) ++ [fill v d].
Proof.
  intros Hv [[d r] Hr]. exists d. unfold stash_exit. rewrite map_lookup_view, Hv, Hr. cbn [events].
  rewrite ringbuf_submit_records. by rewrite (ringbuf_reserve_records _ _ _ Hr).
Qed.

Lemma stash_exit_silent pid fill s :
  map_view (stash s) !! pid = None → stash_exit pid fill s = s.
Proof. intros Hv. unfold stash_exit. by rewrite map_lookup_view, Hv. Qed.

(** What a call adds to the ring, from a map that holds what is pending: the
    record of a return with something pending, if the ring has room. *)
Lemma call_records `{!RingbufLaws R E} s cs c :
  holds s cs →
  ringbuf_records (events (do_call s c)) = ringbuf_records (events s)
  ∧ (is_Some (ringbuf_reserve (events s)) → match c with Exit pid _ => pending pid cs = None | Enter _ _ => True end)
  ∨ match c with
    | Exit pid fill =>
        ∃ v d, pending pid cs = Some v
        ∧ ringbuf_records (events (do_call s c)) = ringbuf_records (events s) ++ [fill v d]
        ∧ ring_ready (events s) = true
    | Enter _ _ => False
    end.
Proof.
  intros Hh. destruct c as [pid [v|]|pid fill]; [by left|by left|]. cbn [do_call].
  destruct (pending pid cs) as [v|] eqn:Hv; rewrite <- (Hh pid) in Hv; [|left; by rewrite stash_exit_silent].
  destruct (ringbuf_reserve (events s)) as [x|] eqn:Hr.
  - right. destruct (stash_exit_submits pid fill s v Hv ltac:(by rewrite Hr)) as [d Hd]. exists v, d. unfold ring_ready. by rewrite Hr.
  - left. split; [|by intros []]. unfold stash_exit. by rewrite map_lookup_view, Hv, Hr.
Qed.
End proof.
