(* ===== verification/OpenSnoop.v ===== *)
(** * OpenSnoop: file names at execve and openat (chapters 7, 9 and 10)

    Models [trace_execve] of src/07-libbpf/execsnoop.bpf.c, [trace_openat] of
    src/09-openat/opensnoop.bpf.c, [trace_enter] and [trace_exit] of
    src/10-openat-ret/opensnoop.bpf.c, and [decode_flags] and
    [handle_event] of the loaders; a printed line is a value of [row].

    The theorems: the hooks of chapters 7 and 9 submit one record per call
    while the ring has room, with the name cut to 255 bytes; chapter 10
    reports a call with its own flags, name and result when the process makes
    no other openat meanwhile; and the letters of a flags column say exactly
    which flags are set. *)

From stdpp Require Import prelude gmap list strings.
From Stdlib Require Import ZArith Lia.
From S2P Require Import Prelude.
From S2P Require Import Kernel.
From S2P Require Import Stash.

Definition FNAME_LEN : nat := 256.
Definition O_ACCMODE : Z := 3.
Definition O_RDONLY : Z := 0.
Definition O_WRONLY : Z := 1.
Definition O_RDWR : Z := 2.
Definition O_CREAT : Z := 64.
Definition O_TRUNC : Z := 512.

(** The events of chapters 7, 9 and 10. *)
Record exec_event := mk_exec_event { x_pid : Z; x_uid : Z; x_comm : list Z; x_filename : list Z }.
Record open_event := mk_open_event {
  o_pid : Z; o_uid : Z; o_comm : list Z; o_flags : Z; o_filename : list Z }.
Record event := mk_event {
  e_pid : Z; e_uid : Z; e_comm : list Z; e_flags : Z; e_ret : Z; e_filename : list Z }.

(** What chapter 10 saves at the entry. *)
Record entry_t := mk_entry { flags : Z; filename : list Z }.

(** ** The hooks *)

Section hooks.
  Context `{!UserMem}.

Definition trace_execve {R} `{!Ringbuf R exec_event} (cur : task) (arg0 : Z) (events : R) : R :=
  match ringbuf_reserve events with
  | None => events
  | Some (e, events) =>
      ringbuf_submit events (mk_exec_event (current_pid cur) (current_uid cur) (comm cur)
        (probe_read_user_str arg0 FNAME_LEN (x_filename e)).2)
  end.

Definition trace_openat {R} `{!Ringbuf R open_event} (cur : task) (arg1 arg2 : Z) (events : R) : R :=
  match ringbuf_reserve events with
  | None => events
  | Some (e, events) =>
      ringbuf_submit events (mk_open_event (current_pid cur) (current_uid cur) (comm cur) (s32 arg2)
        (probe_read_user_str arg1 FNAME_LEN (o_filename e)).2)
  end.

Context {M R : Type} `{!BpfMap M Z entry_t} `{!Ringbuf R event}.

Definition trace_enter (cur : task) (arg1 arg2 : Z) (s : kstate M R) : kstate M R :=
  let pid := current_pid cur in
  let e := mk_entry (s32 arg2) (probe_read_user_str arg1 FNAME_LEN (replicate FNAME_LEN 0)).2 in
  mk_kstate (map_update_elem (stash s) pid e BPF_ANY).2 (events s).

Definition trace_exit (cur : task) (ret : Z) (s : kstate M R) : kstate M R :=
  let pid := current_pid cur in
  match map_lookup_elem (stash s) pid with
  | None => s
  | Some ep =>
      match ringbuf_reserve (events s) with
      | None => mk_kstate (map_delete_elem (stash s) pid).2 (events s)
      | Some (out, r) =>
          let out := mk_event pid (current_uid cur) (comm cur) (flags ep) ret (filename ep) in
          let m := (map_delete_elem (stash s) pid).2 in
          mk_kstate m (ringbuf_submit r out)
      end
  end.

(** A sequence of hooks of chapter 10. *)
Inductive hook := HEnter (cur : task) (arg1 arg2 : Z) | HExit (cur : task) (ret : Z).

Definition fire (s : kstate M R) (h : hook) : kstate M R :=
  match h with
  | HEnter cur a f => trace_enter cur a f s
  | HExit cur ret => trace_exit cur ret s
  end.
End hooks.

(** ** Printing *)

(** [snprintf(buf, 8, "%s%s%s", ...)]: at most seven characters. *)
Definition decode_flags (fl : Z) : list Z :=
  let m := Z.land fl O_ACCMODE in
  let acc :=
    if m =? O_RDONLY then str "r" else if m =? O_WRONLY then str "w"
    else if m =? O_RDWR then str "rw" else str "?" in
  take 7 (acc ++ (if negb (Z.land fl O_CREAT =? 0) then str "c" else [])
              ++ (if negb (Z.land fl O_TRUNC =? 0) then str "t" else [])).

Record row := mk_row { r_pid : Z; r_uid : Z; r_comm : list Z; r_ret : Z; r_flags : list Z; r_filename : list Z }.

Definition handle_event (e : event) : row :=
  mk_row (e_pid e) (e_uid e) (cstr (e_comm e)) (e_ret e) (decode_flags (e_flags e)) (cstr (e_filename e)).

(** ** The pattern of [Stash] *)

Definition hook_pid (h : hook) : Z :=
  match h with HEnter cur _ _ => current_pid cur | HExit cur _ => current_pid cur end.

Section proof.
  Context `{!UserMem} {M R : Type} `{!BpfMap M Z entry_t} `{!Ringbuf R event}.

Definition call_of (h : hook) : call entry_t event :=
  match h with
  | HEnter cur a f =>
      Enter (current_pid cur) (Some (mk_entry (s32 f) (probe_read_user_str a FNAME_LEN (replicate FNAME_LEN 0)).2))
  | HExit cur ret =>
      Exit (current_pid cur) (λ ep _, mk_event (current_pid cur) (current_uid cur) (comm cur) (flags ep) ret (filename ep))
  end.

(** The hooks refine the pattern. *)
Lemma fire_pattern (s : kstate M R) h : fire s h = do_call s (call_of h).
Proof. by destruct h. Qed.

Lemma fires_pattern hs (s : kstate M R) : foldl fire s hs = run (call_of <$> hs) s.
Proof. revert s. induction hs as [|h hs IH]; intros s; [done|]. cbn [foldl]. rewrite IH. by rewrite fire_pattern. Qed.

Lemma call_of_pid h : call_pid (call_of h) = hook_pid h.
Proof. by destruct h. Qed.
End proof.

(** [a] read into a buffer of FNAME_LEN bytes. *)
Definition shown_name (s : list Z) : list Z := take (FNAME_LEN - 1) s.

(** ** Theorems *)

Section theorems.
  Context `{!UserMem} {M R RX RO : Type}.
  Context `{!BpfMap M Z entry_t} `{!Ringbuf R event} `{!Ringbuf RX exec_event} `{!Ringbuf RO open_event}.

(** The execve hook (chapter 7) and the openat hook (chapter 9): with a
    free record in the ring each call submits exactly one event, which has
    the task's pid, uid and name, the flags as a 32-bit int and the file name
    cut to 255 bytes; with a full ring nothing changes. *)
Theorem name_reported `{!UserMemLaws} `{!RingbufLaws RX exec_event} `{!RingbufLaws RO open_event}
    (cur : task) (a fl : Z) (name : list Z) (rx : RX) (ro : RO) :
  user_str a = Some name →
  (∀ d r', ringbuf_reserve rx = Some (d, r') → length (x_filename d) = FNAME_LEN) →
  (∀ d r', ringbuf_reserve ro = Some (d, r') → length (o_filename d) = FNAME_LEN) →
  match ringbuf_reserve rx with
  | None => trace_execve cur a rx = rx
  | Some _ => ∃ e, ringbuf_records (trace_execve cur a rx) = ringbuf_records rx ++ [e]
      ∧ x_pid e = current_pid cur ∧ x_uid e = current_uid cur ∧ x_comm e = comm cur
      ∧ cstr (x_filename e) = shown_name name
  end
  ∧ match ringbuf_reserve ro with
    | None => trace_openat cur a fl ro = ro
    | Some _ => ∃ e, ringbuf_records (trace_openat cur a fl ro) = ringbuf_records ro ++ [e]
        ∧ o_pid e = current_pid cur ∧ o_uid e = current_uid cur ∧ o_comm e = comm cur
        ∧ o_flags e = s32 fl ∧ cstr (o_filename e) = shown_name name
    end.
Proof.
  intros Hs Hx Ho. split.
  - unfold trace_execve. destruct (ringbuf_reserve rx) as [[d r']|] eqn:E; [|done]. eexists.
    split; [rewrite ringbuf_submit_records; f_equal; by eapply ringbuf_reserve_records|]. cbn.
    split_and!; try done. apply probe_read_user_str_cstr; [done|unfold FNAME_LEN; lia|by eapply Hx].
  - unfold trace_openat. destruct (ringbuf_reserve ro) as [[d r']|] eqn:E; [|done]. eexists.
    split; [rewrite ringbuf_submit_records; f_equal; by eapply ringbuf_reserve_records|]. cbn.
    split_and!; try done. apply probe_read_user_str_cstr; [done|unfold FNAME_LEN; lia|by eapply Ho].
Qed.

(** An openat that returns is reported (chapter 10) with the flags and
    the name it entered with and the result it returned, when no other
    openat of the same process entered or returned in between, whatever the
    other processes do; then nothing is saved for the process any more, and
    a second exit without an entry reports nothing. *)
Theorem open_reported `{!UserMemLaws} `{!BpfHashLaws M Z entry_t MAX_STASH} `{!RingbufLaws R event}
    (r : R) (hs1 hs2 : list hook) (cur cur' : task) (a fl ret : Z) (name : list Z) :
  let hs := hs1 ++ HEnter cur a fl :: hs2 in
  let s := foldl fire (mk_kstate (map_empty : M) r) hs in
  let s' := trace_exit cur' ret s in
  current_pid cur' = current_pid cur →
  Forall (λ h, hook_pid h ≠ current_pid cur) hs2 →
  user_str a = Some name →
  Z.of_nat (size (list_to_set (hook_pid <$> hs) : gset Z)) ≤ MAX_STASH →
  is_Some (ringbuf_reserve (events s)) →
  (∃ e, ringbuf_records (events s') = ringbuf_records (events s) ++ [e]
    ∧ handle_event e = mk_row (current_pid cur) (current_uid cur') (cstr (comm cur')) ret
        (decode_flags (s32 fl)) (shown_name name))
  ∧ ∀ ret', trace_exit cur' ret' s' = s'.
Proof.
  intros hs s s' Hpid Hoth Hname Hsize Hroom.
  assert (Hv : map_view (stash s) !! current_pid cur
    = Some (mk_entry (s32 fl) (probe_read_user_str a FNAME_LEN (replicate FNAME_LEN 0)).2)).
  { unfold s. rewrite fires_pattern, stash_exact.
    - unfold hs. rewrite fmap_app. cbn [fmap list_fmap]. rewrite cons_middle, app_assoc, pending_others, pending_snoc.
      + unfold pending_step. cbn [call_of call_pid]. by rewrite Z.eqb_refl.
      + apply Forall_fmap. eapply Forall_impl; [exact Hoth|]. intros h. cbn. by rewrite call_of_pid.
    - cbn. apply map_empty_view.
    - unfold pids. rewrite <- list_fmap_compose. rewrite (list_fmap_ext _ hook_pid); [exact Hsize|].
      intros ? h _. by apply call_of_pid. }
  assert (Hs' : s' = stash_exit (current_pid cur) (λ ep _,
    mk_event (current_pid cur) (current_uid cur') (comm cur') (flags ep) ret (filename ep)) s).
  { unfold s', trace_exit, stash_exit. by rewrite Hpid. }
  split.
  - destruct (stash_exit_submits (current_pid cur) (λ ep _, mk_event (current_pid cur) (current_uid cur')
      (comm cur') (flags ep) ret (filename ep)) s _ Hv Hroom) as [d Hd].
    eexists. rewrite Hs', Hd. split; [done|].
    unfold handle_event. cbn [e_pid e_uid e_comm e_flags e_ret e_filename flags filename]. f_equal.
    apply probe_read_user_str_cstr; [done|unfold FNAME_LEN; lia|apply length_replicate].
  - intros ret'. unfold trace_exit at 1. rewrite Hpid, map_lookup_view, Hs', stash_exit_view.
    by rewrite Z.eqb_refl.
Qed.
End theorems.

(** A mask of one bit is a test of that bit. *)
Lemma land_bit fl k : 0 ≤ k → negb (Z.land fl (2 ^ k) =? 0) = Z.testbit fl k.
Proof.
  intros Hk. destruct (Z.eqb_spec (Z.land fl (2 ^ k)) 0) as [H0|H0]; simpl.
  - symmetry. pose proof (f_equal (λ z, Z.testbit z k) H0) as Hb. cbn in Hb.
    rewrite Z.land_spec, Z.pow2_bits_true, andb_true_r, Z.bits_0 in Hb by done. done.
  - destruct (Z.testbit fl k) eqn:Hb; [done|]. exfalso. apply H0, Z.bits_inj'. intros n Hn.
    rewrite Z.land_spec, Z.bits_0. destruct (Z.eq_dec n k) as [->|Hne].
    + by rewrite Hb.
    + by rewrite Z.pow2_bits_false, andb_false_r by lia.
Qed.

(** The flags column: the letter r is there exactly for O_RDONLY and
    O_RDWR, w exactly for O_WRONLY and O_RDWR, c exactly when bit 6 (O_CREAT)
    is set and t exactly when bit 9 (O_TRUNC) is; nothing is cut off. *)
Theorem decode_flags_exact (fl : Z) :
  (str "r" ⊆ decode_flags fl ↔ fl mod 4 = O_RDONLY ∨ fl mod 4 = O_RDWR)
  ∧ (str "w" ⊆ decode_flags fl ↔ fl mod 4 = O_WRONLY ∨ fl mod 4 = O_RDWR)
  ∧ (str "c" ⊆ decode_flags fl ↔ Z.testbit fl 6 = true)
  ∧ (str "t" ⊆ decode_flags fl ↔ Z.testbit fl 9 = true)
  ∧ (length (decode_flags fl) ≤ 4)%nat.
Proof.
  unfold decode_flags. change O_CREAT with (2 ^ 6). change O_TRUNC with (2 ^ 9). rewrite !land_bit by lia.
  change O_ACCMODE with (Z.ones 2). rewrite Z.land_ones by lia. change (2 ^ 2) with 4.
  pose proof (Z.mod_pos_bound fl 4 ltac:(lia)) as Hm.
  assert (fl mod 4 = 0 ∨ fl mod 4 = 1 ∨ fl mod 4 = 2 ∨ fl mod 4 = 3) as Hc by lia.
  unfold O_RDONLY, O_WRONLY, O_RDWR. clear Hm.
  destruct (Z.testbit fl 6), (Z.testbit fl 9); destruct Hc as [->|[->|[->| ->]]]; cbn;
    split_and!; try lia; split; intros H; (try lia); (try done); (try set_solver).
Qed.

(** ** Witnesses *)

Definition ex_cur : task := mk_task (42 * 2 ^ 32 + 42) 1000 (str "vim" ++ replicate 13 0).
Definition ex_other : task := mk_task (43 * 2 ^ 32 + 43) 0 (str "sh" ++ replicate 14 0).
Definition ex_mem : UserMem := gmap_user_mem {[ 4096 := str "/etc/passwd" ++ [0]; 8192 := str "/tmp" ++ [0] ]}.
Definition ex_dirt_x : exec_event := mk_exec_event 0 0 [] (replicate FNAME_LEN 7).
Definition ex_dirt_o : open_event := mk_open_event 0 0 [] 0 (replicate FNAME_LEN 7).
Definition ex_dirt : event := mk_event 0 0 [] 0 0 (replicate FNAME_LEN 7).

Lemma name_reported_witness :
  ∃ x o,
    (@trace_execve ex_mem _ (const_ringbuf ex_dirt_x) ex_cur 4096 ([], 1%nat)).1 = [x]
    ∧ (@trace_openat ex_mem _ (const_ringbuf ex_dirt_o) ex_cur 4096 577 ([], 1%nat)).1 = [o]
    ∧ cstr (x_filename x) = str "/etc/passwd" ∧ o_flags o = 577.
Proof.
  destruct (@name_reported ex_mem _ _ (const_ringbuf ex_dirt_x) (const_ringbuf ex_dirt_o)
    (gmap_user_mem_laws _) (const_ringbuf_laws _) (const_ringbuf_laws _)
    ex_cur 4096 577 (str "/etc/passwd") ([], 1%nat) ([], 1%nat)) as [(x & Hx & _ & _ & _ & Hf) (o & Ho & _ & _ & _ & Hfl & _)].
  - reflexivity.
  - intros d r' [= <- <-]. reflexivity.
  - intros d r' [= <- <-]. reflexivity.
  - exists x, o. split; [exact Hx|]. split; [exact Ho|]. split; [exact Hf|]. rewrite Hfl. reflexivity.
Defined.

Notation ex_state hs := (foldl (@fire ex_mem _ _ (gmap_hash MAX_STASH) (const_ringbuf ex_dirt))
  (mk_kstate (@map_empty _ _ _ _ _ (gmap_hash MAX_STASH)) ([], 4%nat)) hs).

(** vim opens a file while a shell opens another. *)
Lemma open_reported_witness :
  ∃ e, (events (@trace_exit _ _ (gmap_hash MAX_STASH) (const_ringbuf ex_dirt) ex_cur 3
      (ex_state [HEnter ex_other 8192 0; HEnter ex_cur 4096 577; HExit ex_other 5]))).1
    = (events (ex_state [HEnter ex_other 8192 0; HEnter ex_cur 4096 577; HExit ex_other 5])).1 ++ [e]
    ∧ handle_event e = mk_row (current_pid ex_cur) (current_uid ex_cur) (str "vim") 3 (str "wct") (str "/etc/passwd").
Proof.
  destruct (@open_reported ex_mem _ _ (gmap_hash MAX_STASH) (const_ringbuf ex_dirt)
    (gmap_user_mem_laws _) (gmap_hash_laws MAX_STASH) (const_ringbuf_laws _) ([], 4%nat)
    [HEnter ex_other 8192 0] [HExit ex_other 5] ex_cur ex_cur 4096 577 3 (str "/etc/passwd")) as [(e & He & Hr) _].
  - reflexivity.
  - constructor; [vm_compute; discriminate|constructor].
  - reflexivity.
  - vm_compute. discriminate.
  - vm_compute. eexists. reflexivity.
  - exists e. split; [exact He|]. rewrite Hr. reflexivity.
Defined.
