(* ===== verification/NetSnoop.v ===== *)
(** * NetSnoop: connect and its result (chapter 11)

    Models src/11-connect: [trace_enter] and [trace_exit] of netsnoop.bpf.c
    and [handle_event] of netsnoop.c up to the bytes given to [inet_ntop]; the
    text of the line is in Rows.

    The theorems: a connect to an IPv4 or IPv6 address is reported with the
    port and the address of its sockaddr, and after the two conversions of
    the byte order [inet_ntop] gets the address bytes as they were; other
    families are not reported; and a filtered connect on one thread can make
    the report of another thread's connect carry the wrong result. *)

From stdpp Require Import prelude gmap list strings.
From Stdlib Require Import ZArith Lia.
From S2P Require Import Prelude.
From S2P Require Import Kernel.
From S2P Require Import Stash.

Definition AF_INET : Z := 2.
Definition AF_INET6 : Z := 10.
Definition ADDR_BUF : nat := 128.

Record event := mk_event {
  e_pid : Z; e_uid : Z; e_comm : list Z; e_family : Z; e_addr4 : Z; e_addr6 : list Z; e_port : Z; e_ret : Z }.

(** [*(__u16 * )buf.bytes]. *)
Definition family_of (buf : list Z) : Z := field 2 0 buf.

Section hooks.
  Context `{!UserBytes} {M R : Type} `{!BpfMap M Z (list Z)} `{!Ringbuf R event}.

Definition trace_enter (cur : task) (uaddr : Z) (s : kstate M R) : kstate M R :=
  let pid := current_pid cur in
  if uaddr =? 0 then s else
  let buf := (probe_read_user uaddr ADDR_BUF (replicate ADDR_BUF 0)).2 in
  let family := family_of buf in
  if negb (family =? AF_INET) && negb (family =? AF_INET6) then s
  else mk_kstate (map_update_elem (stash s) pid buf BPF_ANY).2 (events s).

(** Filling the record [e] at the exit. *)
Definition fill_event (cur : task) (ret : Z) (saved : list Z) (e : event) : event :=
  let pid := current_pid cur in
  let family := family_of saved in
  if family =? AF_INET then
    let nport := field 2 2 saved in
    let naddr := field 4 4 saved in
    mk_event pid (current_uid cur) (comm cur) family (ntohl naddr) (e_addr6 e) (ntohs nport) (s32 ret)
  else
    let nport := field 2 2 saved in
    mk_event pid (current_uid cur) (comm cur) family (e_addr4 e) (bytes_at 8 16 saved) (ntohs nport) (s32 ret).

Definition trace_exit (cur : task) (ret : Z) (s : kstate M R) : kstate M R :=
  let pid := current_pid cur in
  match map_lookup_elem (stash s) pid with
  | None => s
  | Some saved =>
      match ringbuf_reserve (events s) with
      | None => mk_kstate (map_delete_elem (stash s) pid).2 (events s)
      | Some (e, r) =>
          let m := (map_delete_elem (stash s) pid).2 in
          mk_kstate m (ringbuf_submit r (fill_event cur ret saved e))
      end
  end.

Inductive hook := HEnter (cur : task) (uaddr : Z) | HExit (cur : task) (ret : Z).

Definition fire (s : kstate M R) (h : hook) : kstate M R :=
  match h with HEnter cur a => trace_enter cur a s | HExit cur ret => trace_exit cur ret s end.
End hooks.

(** A printed row; [w_addr] is the memory [inet_ntop] reads. *)
Record row := mk_row {
  w_pid : Z; w_uid : Z; w_comm : list Z; w_af : string; w_addr : list Z; w_port : Z; w_status : string; w_ret : Z }.

Definition handle_event (e : event) : row :=
  let addr := if e_family e =? AF_INET then le_split 4 (htonl (e_addr4 e)) else e_addr6 e in
  let status := if e_ret e =? 0 then "ok" else if e_ret e =? -115 then "inprogress" else "err" in
  mk_row (e_pid e) (e_uid e) (cstr (e_comm e)) (if e_family e =? AF_INET then "IPv4" else "IPv6")
    addr (e_port e) status (e_ret e).

(** ** The pattern of [Stash] *)

Definition hook_pid (h : hook) : Z := match h with HEnter cur _ => current_pid cur | HExit cur _ => current_pid cur end.

(** What an entry saves. *)
Definition saved_by `{!UserBytes} (uaddr : Z) : option (list Z) :=
  if uaddr =? 0 then None else
  let buf := (probe_read_user uaddr ADDR_BUF (replicate ADDR_BUF 0)).2 in
  if (family_of buf =? AF_INET) || (family_of buf =? AF_INET6) then Some buf else None.

Section proof.
  Context `{!UserBytes} {M R : Type} `{!BpfMap M Z (list Z)} `{!Ringbuf R event}.

Definition call_of (h : hook) : call (list Z) event :=
  match h with
  | HEnter cur a => Enter (current_pid cur) (saved_by a)
  | HExit cur ret => Exit (current_pid cur) (fill_event cur ret)
  end.

Lemma connect_pattern (s : kstate M R) h : fire s h = do_call s (call_of h).
Proof.
  destruct h as [cur a|cur ret]; [|done]. cbn [fire call_of do_call]. unfold trace_enter, saved_by.
  destruct (a =? 0); [done|]. by destruct (_ =? AF_INET), (_ =? AF_INET6).
Qed.

Lemma connects_pattern hs (s : kstate M R) : foldl fire s hs = run (call_of <$> hs) s.
Proof. revert s. induction hs as [|h hs IH]; intros s; [done|]. cbn [foldl]. by rewrite IH, connect_pattern. Qed.

Lemma connect_call_pid h : call_pid (call_of h) = hook_pid h.
Proof. by destruct h. Qed.
End proof.

(** The address [inet_ntop] gets for an IPv4 sockaddr. *)
Lemma addr4_back b :
  Forall is_byte b → (8 ≤ length b)%nat → le_split 4 (htonl (ntohl (field 4 4 b))) = bytes_at 4 4 b.
Proof.
  intros Hb Hl. unfold field. pose proof (length_bytes_at 4 4 b ltac:(lia)) as Hlen.
  pose proof (Forall_bytes_at _ 4 4 b Hb) as Hf.
  destruct (bytes_at 4 4 b) as [|x [|y [|z [|w [|]]]]]; try done.
  rewrite !Forall_cons in Hf. destruct Hf as (? & ? & ? & ? & _). by apply le_split_swap_back.
Qed.

(** ** Theorems *)

(** The destination a sockaddr [b] of the two families spells: address
    family, address bytes and port. *)
Definition port_of (b : list Z) : Z := be_combine (bytes_at 2 2 b).
Definition addr_of (b : list Z) : list Z := if family_of b =? AF_INET then bytes_at 4 4 b else bytes_at 8 16 b.

(** The row for the sockaddr [b]. *)
Definition connect_row (cur : task) (ret : Z) (b : list Z) : row :=
  mk_row (current_pid cur) (current_uid cur) (cstr (comm cur))
    (if family_of b =? AF_INET then "IPv4" else "IPv6") (addr_of b) (port_of b)
    (if s32 ret =? 0 then "ok" else if s32 ret =? -115 then "inprogress" else "err") (s32 ret).

(** It does not depend on what the record held before. *)
Lemma fill_event_row cur ret b d :
  Forall is_byte b → length b = ADDR_BUF → handle_event (fill_event cur ret b d) = connect_row cur ret b.
Proof.
  intros Hb Hlen.
  assert (Hport : ntohs (field 2 2 b) = port_of b).
  { rewrite ntohs_field by (done || (unfold ADDR_BUF in Hlen; lia)). done. }
  unfold connect_row, fill_event, handle_event, addr_of. destruct (family_of b =? AF_INET) eqn:Ef;
    cbn [e_pid e_uid e_comm e_family e_addr4 e_addr6 e_port e_ret]; rewrite Ef, Hport; [|done].
  rewrite addr4_back by (done || (unfold ADDR_BUF in Hlen; lia)). done.
Qed.

Section theorems.
  Context `{!UserBytes} {M R : Type} `{!BpfMap M Z (list Z)} `{!Ringbuf R event}.

(** A connect whose sockaddr [b] can be read (all 128 bytes of it) and
    is IPv4 or IPv6 is reported when it returns, if the process has no other
    connect in between: the row has the port and the very address bytes of
    the sockaddr, and the result as a 32-bit int. *)
Theorem connect_reported `{!UserBytesLaws} `{!BpfHashLaws M Z (list Z) MAX_STASH} `{!RingbufLaws R event}
    (r : R) (hs1 hs2 : list hook) (cur cur' : task) (uaddr ret : Z) (b : list Z) :
  let hs := hs1 ++ HEnter cur uaddr :: hs2 in
  let s := foldl fire (mk_kstate (map_empty : M) r) hs in
  current_pid cur' = current_pid cur →
  Forall (λ h, hook_pid h ≠ current_pid cur) hs2 →
  uaddr ≠ 0 → user_bytes uaddr ADDR_BUF = Some b →
  family_of b = AF_INET ∨ family_of b = AF_INET6 →
  Z.of_nat (size (list_to_set (hook_pid <$> hs) : gset Z)) ≤ MAX_STASH →
  is_Some (ringbuf_reserve (events s)) →
  ∃ e, ringbuf_records (events (trace_exit cur' ret s)) = ringbuf_records (events s) ++ [e]
    ∧ handle_event e = mk_row (current_pid cur) (current_uid cur') (cstr (comm cur'))
        (if family_of b =? AF_INET then "IPv4" else "IPv6") (addr_of b) (port_of b)
        (if s32 ret =? 0 then "ok" else if s32 ret =? -115 then "inprogress" else "err") (s32 ret).
Proof.
  intros hs s Hpid Hoth Hnz Hb Hfam Hsize Hroom.
  destruct (user_bytes_length _ _ _ Hb) as [Hlen Hbytes].
  assert (Hsv : saved_by uaddr = Some b).
  { unfold saved_by. apply Z.eqb_neq in Hnz. rewrite Hnz, (probe_read_user_ok _ _ _ b Hb). cbn [snd].
    by destruct Hfam as [-> | ->]. }
  assert (Hv : map_view (stash s) !! current_pid cur = Some b).
  { unfold s. rewrite connects_pattern, stash_exact.
    - unfold hs. rewrite fmap_app. cbn [fmap list_fmap]. rewrite cons_middle, app_assoc, pending_others, pending_snoc.
      + unfold pending_step. cbn [call_of call_pid]. by rewrite Z.eqb_refl, Hsv.
      + apply Forall_fmap. eapply Forall_impl; [exact Hoth|]. intros h. cbn. by rewrite connect_call_pid.
    - cbn. apply map_empty_view.
    - unfold pids. rewrite <- list_fmap_compose. rewrite (list_fmap_ext _ hook_pid); [exact Hsize|].
      intros ? h _. by apply connect_call_pid. }
  destruct (stash_exit_submits (current_pid cur) (fill_event cur' ret) s b Hv Hroom) as [d Hd].
  exists (fill_event cur' ret b d). split.
  { rewrite <- Hd. unfold trace_exit, stash_exit. by rewrite Hpid. }
  rewrite fill_event_row by done. unfold connect_row. by rewrite Hpid.
Qed.

(** A connect of another family, or with a null address, changes
    nothing; and its return is silent when no other connect of the process
    is pending. *)
Theorem connect_filtered `{!UserBytesLaws} `{!BpfHashLaws M Z (list Z) MAX_STASH}
    (s : kstate M R) (cur : task) (uaddr ret : Z) (b : list Z) :
  user_bytes uaddr ADDR_BUF = Some b →
  uaddr = 0 ∨ (family_of b ≠ AF_INET ∧ family_of b ≠ AF_INET6) →
  map_lookup_elem (stash s) (current_pid cur) = None →
  trace_enter cur uaddr s = s ∧ trace_exit cur ret (trace_enter cur uaddr s) = s.
Proof.
  intros Hb Hf Hn. assert (He : trace_enter cur uaddr s = s).
  { unfold trace_enter. destruct (Z.eqb_spec uaddr 0); [done|]. rewrite (probe_read_user_ok _ _ _ b Hb). cbn [snd].
    destruct Hf as [?|[H1%Z.eqb_neq H2%Z.eqb_neq]]; [done|]. by rewrite H1, H2. }
  split; [done|]. rewrite He. unfold trace_exit. by rewrite Hn.
Qed.
End theorems.

(** ** Witnesses *)

(** sockaddrs at 4096 (IPv4, 10.0.0.2 port 443) and 8192 (a Unix socket). *)
Definition ex_in : list Z := [2; 0; 1; 187; 10; 0; 0; 2] ++ replicate 120 0.
Definition ex_un : list Z := [1; 0; 47; 120] ++ replicate 124 0.
Definition ex_mem : UserBytes := gmap_user_bytes {[ (4096, 128%nat) := ex_in; (8192, 128%nat) := ex_un ]}.
Definition ex_cur : task := mk_task (42 * 2 ^ 32 + 42) 1000 (str "curl" ++ replicate 12 0).
(** Another thread of the same process. *)
Definition ex_thread : task := mk_task (42 * 2 ^ 32 + 43) 1000 (str "curl" ++ replicate 12 0).
Definition ex_dirt : event := mk_event 0 0 [] 0 99 (replicate 16 7) 0 0.

Notation ex_fire hs := (foldl (@fire ex_mem _ _ (gmap_hash MAX_STASH) (const_ringbuf ex_dirt))
  (mk_kstate (@map_empty _ _ _ _ _ (gmap_hash MAX_STASH)) ([], 4%nat)) hs).

Lemma connect_reported_witness :
  ∃ e, (events (@trace_exit _ _ (gmap_hash MAX_STASH) (const_ringbuf ex_dirt) ex_cur (-115)
      (ex_fire [HEnter ex_cur 4096]))).1 = [e]
    ∧ handle_event e = mk_row (current_pid ex_cur) (current_uid ex_cur) (str "curl") "IPv4" [10; 0; 0; 2] 443
        "inprogress" (-115).
Proof.
  destruct (@connect_reported ex_mem _ _ (gmap_hash MAX_STASH) (const_ringbuf ex_dirt) (gmap_user_bytes_laws _)
    (gmap_hash_laws MAX_STASH) (const_ringbuf_laws _) ([], 4%nat) [] [] ex_cur ex_cur 4096 (-115) ex_in) as (e & He & Hr).
  - reflexivity.
  - constructor.
  - discriminate.
  - vm_compute. reflexivity.
  - left. reflexivity.
  - vm_compute. discriminate.
  - vm_compute. eexists. reflexivity.
  - exists e. split; [exact He|]. rewrite Hr. reflexivity.
Defined.

Lemma connect_filtered_witness :
  @trace_enter ex_mem _ _ (gmap_hash MAX_STASH) ex_cur 8192 (mk_kstate ∅ ([] : list event, 4%nat))
  = mk_kstate ∅ ([] : list event, 4%nat).
Proof.
  destruct (@connect_filtered ex_mem _ _ (gmap_hash MAX_STASH) (const_ringbuf ex_dirt) (gmap_user_bytes_laws _)
    (gmap_hash_laws MAX_STASH) (mk_kstate ∅ ([], 4%nat)) ex_cur 8192 0 ex_un) as [H _].
  - vm_compute. reflexivity.
  - right. split; discriminate.
  - reflexivity.
  - exact H.
Defined.

(** The map is keyed by process, so a filtered connect on another thread
    takes the saved address: while a connect to 10.0.0.2:443 is under way,
    the same process connects a Unix socket; the only row printed says the
    IPv4 connect succeeded, although it returns -ECONNREFUSED. *)
Theorem filtered_connect_steals :
  handle_event <$> (events (ex_fire [HEnter ex_cur 4096; HEnter ex_thread 8192; HExit ex_thread 0; HExit ex_cur (-111)])).1
  = [mk_row 42 1000 (str "curl") "IPv4" [10; 0; 0; 2] 443 "ok" 0].
Proof. vm_compute. reflexivity. Qed.
