(* ===== verification/VerifierLab.v ===== *)
(** * VerifierLab: the verifier's log and the corrected programs (chapter 14)

    Models src/14-verifier: [print_log_tail] of verifier.c, the flow of
    [load_only] and [main] with the loads as a parameter, and the three
    corrected programs of verifier.bpf.c.  Pointers into the log are offsets,
    and the array [ring] starts out with arbitrary contents.

    The theorems: what is printed of the log is its last n non-blank lines,
    for logs of any number of lines; a run makes the six loads in order and
    prints the log exactly of the rejected programs; and the corrected
    programs stay within their buffer, bound their loop and leave an absent
    key alone. *)

From stdpp Require Import prelude gmap list strings.
From Stdlib Require Import ZArith Lia.
From S2P Require Import Prelude.
From S2P Require Import Kernel.

(** ** print_log_tail *)

Definition NL : Z := 10.
Definition char_at (log : list Z) (p : nat) : Z := default 0 (log !! p).

(** The state of the loop over the log: [ring], [count] and [line]. *)
Record scanner := mk_scanner { ring : list nat; count : nat; line : nat }.

Definition scan_char (n : nat) (log : list Z) (s : scanner) (p : nat) : scanner :=
  if (char_at log p =? NL) || (char_at log p =? 0) then
    let '(r, c) :=
      if (line s <? p)%nat
      then (<[(count s `mod` n)%nat := line s]> (ring s), S (count s))
      else (ring s, count s) in
    mk_scanner r c (p + 1)
  else s.

(** [for (p = log; p <= log + len; p++)]. *)
Definition scan_log (n : nat) (log : list Z) (garbage : list nat) : scanner :=
  foldl (scan_char n log) (mk_scanner garbage 0 0) (seq 0 (S (length log))).

(** The text printed for a line that starts at [s]. *)
Definition text_at (log : list Z) (s : nat) : list Z :=
  let rest := drop s log in
  let l := match find_index (λ c, c =? NL) rest with Some e => e | None => length rest end in
  take l rest.

(** [None] is the message that there is no log. *)
Definition print_log_tail (log : list Z) (n : Z) (garbage : list nat) : option (list (list Z)) :=
  let log := cstr log in
  match log with
  | [] => None
  | _ =>
      let n := if n <? 1 then 1 else n in
      let n := if 64 <? n then 64 else n in
      let n := Z.to_nat n in
      let s := scan_log n log garbage in
      let shown := if (count s <? n)%nat then count s else n in
      let start := if (count s <? n)%nat then 0%nat else (count s `mod` n)%nat in
      Some ((λ i, text_at log (default 0%nat (ring s !! ((start + i) `mod` n)%nat))) <$> seq 0 shown)
  end.

(** ** load_only and main *)

Record lesson := mk_lesson { title : string; bad : string; good : string; fix_ : string }.

Definition lessons : list lesson :=
  [mk_lesson "Unchecked map lookup (possible NULL dereference)" "bad_null_deref" "good_null_deref"
     "bpf_map_lookup_elem may return NULL; test it before dereferencing.";
   mk_lesson "Unbounded loop (termination not provable)" "bad_unbounded_loop" "good_bounded_loop"
     "Bound the loop with a compile-time constant (or use bpf_loop()).";
   mk_lesson "Out-of-bounds access (unbounded array index)" "bad_oob_index" "good_oob_index"
     "Constrain the index to the buffer size (mask with a constant)."]%string.

(** The programs of the object. *)
Definition programs : list string :=
  ["bad_null_deref"; "good_null_deref"; "bad_unbounded_loop"; "good_bounded_loop"; "bad_oob_index";
   "good_oob_index"]%string.

(** What is printed, without the fixed texts. *)
Inductive output :=
  | Title (i : nat) (t : string)
  | Rejected (prog : string) (err : Z) (log : option (list (list Z)))
  | Accepted (prog : string)
  | Fix (f : string)
  | Corrected (prog : string) (ok : bool).

Section run.
  (** libbpf: opening the object for a program ([Some errno] when it fails),
      and loading it with exactly the named programs, which gives the result
      and the log. *)
  Variable open_opts : string → option Z.
  Variable object_load : list string → Z * list Z.
  Variable garbage : list nat.

(** The result and the log buffer after the call, which held [logbuf]. *)
Definition load_only (only : string) (want_log : bool) (logbuf : list Z) : Z * list Z :=
  let logbuf := if want_log then 0 :: drop 1 logbuf else logbuf in
  match open_opts only with
  | Some errno => (- errno, logbuf)
  | None =>
      let '(err, log) := object_load (bfilter (λ p, String.eqb p only) programs) in
      (err, if want_log then log else logbuf)
  end.

Fixpoint run_lessons (i : nat) (ls : list lesson) (logbuf : list Z) : list output :=
  match ls with
  | [] => []
  | l :: ls' =>
      let '(err, logbuf) := load_only (bad l) true logbuf in
      let first := if negb (err =? 0) then Rejected (bad l) err (print_log_tail logbuf 12 garbage) else Accepted (bad l) in
      let '(err2, logbuf) := load_only (good l) false logbuf in
      Title i (title l) :: first :: Fix (fix_ l) :: Corrected (good l) (err2 =? 0) :: run_lessons (S i) ls' logbuf
  end.

Definition main (logbuf : list Z) : Z * list output := (0, run_lessons 1 lessons logbuf).
End run.

(** ** The corrected programs *)

Definition good_null_deref {M} `{!BpfMap M Z Z} (counts : M) : Z * M :=
  match map_lookup_elem counts 0 with
  | None => (0, counts)
  | Some _ => (0, map_poke counts 0 (λ v, v +64 1))
  end.

(** [for (i = 0; i < 64; i++) cnt += i], with the number of iterations. *)
Fixpoint bounded_loop (fuel : nat) (i cnt : Z) (iters : nat) : option (Z * nat) :=
  match fuel with
  | O => None
  | S fuel => if i <? 64 then bounded_loop fuel (i + 1) (s32 (cnt + i)) (S iters) else Some (cnt, iters)
  end.
Definition good_bounded_loop : option (Z * nat) := bounded_loop 65 0 0 0.

(** A store out of the buffer is [None]. *)
Definition good_oob_index (random : Z) : option Z :=
  let buf := replicate 16 0 in
  let i := Z.to_nat (Z.land (u32 random) 15) in
  if (i <? length buf)%nat then Some (default 0 (<[i := 1]> buf !! 0%nat)) else None.

(** ** Specification *)

(** The lines of a text, and those that are not blank. *)
Definition split_lines (l : list Z) : list (list Z) := split_by (λ c, c =? NL) l.

Definition not_blank (l : list Z) : bool := match l with [] => false | _ => true end.
Definition log_lines (log : list Z) : list (list Z) := bfilter not_blank (split_lines log).

(** The last [n] elements. *)
Definition last_n {A} (n : nat) (l : list A) : list A := drop (length l - n) l.

(** ** The loop *)

Lemma no_newline seg : Forall (λ c, c ≠ NL) seg → Forall (λ c, (c =? NL) = false) seg.
Proof. intros Hs. eapply Forall_impl; [exact Hs|]. intros c. apply Z.eqb_neq. Qed.

Lemma split_seg seg r :
  Forall (λ c, c ≠ NL) seg → split_lines (seg ++ NL :: r) = seg :: split_lines r.
Proof. intros Hs%no_newline. by apply split_by_seg. Qed.

Lemma split_last seg : Forall (λ c, c ≠ NL) seg → split_lines seg = [seg].
Proof. intros Hs%no_newline. by apply split_by_last. Qed.

Lemma find_nl seg r :
  Forall (λ c, c ≠ NL) seg →
  find_index (λ c, c =? NL) (seg ++ r) = match r with c :: _ => if c =? NL then Some (length seg) else find_index (λ c, c =? NL) (seg ++ r) | [] => None end.
Proof.
  induction 1 as [|c seg Hc _ IH]; cbn [app find_index length].
  - destruct r as [|c r]; [done|]. cbn [find_index]. by destruct (c =? NL).
  - apply Z.eqb_neq in Hc. rewrite Hc, IH. destruct r as [|d r]; [done|]. by destruct (d =? NL).
Qed.

Lemma text_at_seg log s seg r :
  Forall (λ c, c ≠ NL) seg → drop s log = seg ++ NL :: r → text_at log s = seg.
Proof.
  intros Hseg Hd. unfold text_at. rewrite Hd, find_nl by done. by rewrite Z.eqb_refl, take_app_length.
Qed.

Lemma text_at_last log s seg :
  Forall (λ c, c ≠ NL) seg → drop s log = seg → text_at log s = seg.
Proof.
  intros Hseg Hd. unfold text_at. rewrite Hd. rewrite <- (app_nil_r seg) at 1. rewrite find_nl by done.
  by rewrite firstn_all.
Qed.

(** After the positions before [p]: the starts of the non-blank lines that
    ended are in the ring, and the rest of the lines starts at [line]. *)
Record scanned (n : nat) (log : list Z) (p : nat) (starts : list nat) (s : scanner) : Prop := mk_scanned {
  sc_ring : ring_latest n (ring s) starts;
  sc_len : length (ring s) = 64%nat;
  sc_count : count s = length starts;
  sc_line : (line s ≤ p)%nat;
  sc_seg : Forall (λ c, c ≠ NL) (take (p - line s) (drop (line s) log));
  sc_lines : (text_at log <$> starts) ++ log_lines (drop (line s) log) = log_lines log;
}.

(** A line with the text [seg] ends at [p]. *)
Lemma scanned_end n log p starts s seg :
  (0 < n ≤ 64)%nat → scanned n log p starts s →
  (char_at log p =? NL) || (char_at log p =? 0) = true →
  length seg = (p - line s)%nat → text_at log (line s) = seg →
  log_lines (drop (line s) log) = bfilter not_blank [seg] ++ log_lines (drop (S p) log) →
  ∃ starts', scanned n log (S p) starts' (scan_char n log s p).
Proof.
  intros Hn [H1 H2 H3 H4 H5 H6] Hend Hlen Htext Hlines. unfold scan_char. rewrite Hend.
  assert (Hnext : Forall (λ c, c ≠ NL) (take (S p - (p + 1)) (drop (p + 1) log))).
  { by replace (S p - (p + 1))%nat with 0%nat by lia. }
  replace (S p) with (p + 1)%nat in Hlines by lia.
  destruct (Nat.ltb_spec (line s) p).
  - exists (starts ++ [line s]). split; cbn [ring count line]; try done; try lia.
    + rewrite H3. apply ring_latest_push; [lia|lia|done].
    + by rewrite length_insert.
    + rewrite length_app. simpl. lia.
    + rewrite <- H6, Hlines, fmap_app. cbn [fmap list_fmap]. rewrite Htext, <- app_assoc. f_equal. f_equal.
      cbn [bfilter not_blank]. destruct seg; [simpl in Hlen; lia|done].
  - exists starts. split; cbn [ring count line]; try done; try lia.
    rewrite <- H6, Hlines. f_equal. cbn [bfilter]. destruct seg; [done|simpl in Hlen; lia].
Qed.

Lemma take_S_drop (log : list Z) l p c :
  (l ≤ p)%nat → log !! p = Some c →
  take (S p - l) (drop l log) = take (p - l) (drop l log) ++ [c].
Proof.
  intros Hl Hp. replace (S p - l)%nat with (S (p - l)) by lia. apply take_S_r. rewrite lookup_drop.
  by replace (l + (p - l))%nat with p by lia.
Qed.

Lemma scanned_step n log p starts s :
  (0 < n ≤ 64)%nat → Forall (λ c, c ≠ 0) log → (p ≤ length log)%nat → scanned n log p starts s →
  ∃ starts', scanned n log (S p) starts' (scan_char n log s p).
Proof.
  intros Hn Hnz Hp Hs. pose proof Hs as [H1 H2 H3 H4 H5 H6]. set (seg := take (p - line s) (drop (line s) log)) in *.
  assert (Hlen : length seg = (p - line s)%nat) by (unfold seg; rewrite length_take, length_drop; lia).
  destruct (decide (p = length log)) as [->|Hne].
  - assert (Hd : drop (line s) log = seg) by (unfold seg; rewrite take_ge; [done|rewrite length_drop; lia]).
    apply (scanned_end n log _ starts s seg); try done.
    + unfold char_at. rewrite lookup_ge_None_2 by lia. done.
    + by apply text_at_last.
    + unfold log_lines. rewrite Hd, split_last by done. rewrite (drop_ge log) by lia. by rewrite app_nil_r.
  - destruct (lookup_lt_is_Some_2 log p) as [c Hc]; [lia|].
    assert (Hd : drop (line s) log = seg ++ c :: drop (S p) log).
    { unfold seg. rewrite <- (take_drop (p - line s) (drop (line s) log)) at 1. f_equal. rewrite drop_drop.
      replace (line s + (p - line s))%nat with p by lia. by apply drop_S. }
    destruct (decide (c = NL)) as [->|Hnl].
    + apply (scanned_end n log p starts s seg); try done.
      * unfold char_at. rewrite Hc. done.
      * by eapply text_at_seg.
      * unfold log_lines. rewrite Hd, split_seg by done. cbn [bfilter]. by destruct seg.
    + exists starts. unfold scan_char, char_at. rewrite Hc. change (default 0 (Some c)) with c.
      assert (c ≠ 0) as Hc0 by (by eapply (Forall_lookup_1 (λ c, c ≠ 0))).
      apply Z.eqb_neq in Hnl as Hb1. apply Z.eqb_neq in Hc0. rewrite Hb1, Hc0. cbn [orb].
      split; try done; [lia|]. rewrite (take_S_drop _ _ _ c) by done. by apply Forall_app_2; [|constructor].
Qed.

Lemma scanned_log n log garbage :
  (0 < n ≤ 64)%nat → Forall (λ c, c ≠ 0) log → length garbage = 64%nat →
  ∃ starts, scanned n log (S (length log)) starts (scan_log n log garbage).
Proof.
  intros Hn Hnz Hg. unfold scan_log. cut (∀ k, (k ≤ S (length log))%nat →
    ∃ starts, scanned n log k starts (foldl (scan_char n log) (mk_scanner garbage 0 0) (seq 0 k))).
  { intros Hk. by apply Hk. }
  induction k as [|k IH]; intros Hk.
  - exists []. split; cbn; try done.
  - destruct IH as [starts IH]; [lia|]. rewrite seq_S, foldl_app. cbn [foldl Nat.add].
    eapply scanned_step; [done|done|lia|exact IH].
Qed.

(** The loop that prints reads the kept starts in order. *)
Lemma read_tail {A} n ring (starts : list nat) (f : nat → A) :
  (0 < n)%nat → ring_latest n ring starts →
  let c := length starts in
  (λ i, f (default 0%nat (ring !! (((if (c <? n)%nat then 0 else c `mod` n) + i) `mod` n)%nat)))
    <$> seq 0 (if (c <? n)%nat then c else n)
  = last_n n (f <$> starts).
Proof.
  intros Hn Hr c. apply list_eq. intros i. unfold last_n. rewrite list_lookup_fmap, lookup_drop, list_lookup_fmap, length_fmap.
  assert (Hm : (if (c <? n)%nat then c else n) = Nat.min c n) by (destruct (Nat.ltb_spec c n); lia).
  rewrite Hm. destruct (decide (i < Nat.min c n)%nat) as [Hi|Hi].
  - rewrite lookup_seq_lt by lia. cbn [fmap option_fmap option_map Nat.add]. unfold c. rewrite ring_latest_read by done.
    fold c. destruct (lookup_lt_is_Some_2 starts (c - n + i)) as [x Hx]; [unfold c in *; lia|]. by rewrite Hx.
  - rewrite lookup_seq_ge by lia. cbn. symmetry. apply fmap_None. apply lookup_ge_None_2. unfold c in *. lia.
Qed.

(** The NUL at the end closes the last line. *)
Lemma scan_log_line n log garbage : line (scan_log n log garbage) = S (length log).
Proof.
  unfold scan_log. rewrite seq_S, foldl_app. cbn [foldl Nat.add]. set (s := foldl _ _ _). unfold scan_char, char_at.
  rewrite lookup_ge_None_2 by lia. change (default 0 None) with 0. cbn [Z.eqb orb NL].
  destruct (line s <? length log)%nat; cbn [line]; lia.
Qed.

(** ** Theorems *)

(** [C38] What is printed of a verifier log is its last n lines that are not
    blank, in order, with n forced into 1..64, however many lines the log
    has and whatever the array held before; an empty log is announced as
    such. *)
Theorem log_tail_exact (log : list Z) (n : Z) (garbage : list nat) :
  length garbage = 64%nat →
  print_log_tail log n garbage
  = if bool_decide (cstr log = []) then None
    else Some (last_n (Z.to_nat (Z.max 1 (Z.min 64 n))) (log_lines (cstr log))).
Proof.
  intros Hg. unfold print_log_tail. destruct (cstr log) as [|c0 l0] eqn:El; [done|]. rewrite <- El.
  rewrite bool_decide_eq_false_2 by congruence. f_equal.
  set (k := Z.to_nat (if 64 <? (if n <? 1 then 1 else n) then 64 else (if n <? 1 then 1 else n))).
  assert (Hk : k = Z.to_nat (Z.max 1 (Z.min 64 n))).
  { unfold k. f_equal. destruct (Z.ltb_spec n 1); destruct (Z.ltb_spec 64 1); try lia; destruct (Z.ltb_spec 64 n); lia. }
  assert (Hk' : (0 < k ≤ 64)%nat) by lia. rewrite <- Hk.
  destruct (scanned_log k (cstr log) garbage Hk' (cstr_nonzero log) Hg) as [starts [H1 H2 H3 H4 H5 H6]].
  rewrite H3. rewrite (read_tail k (ring _) starts (text_at (cstr log))) by (done || lia). f_equal.
  rewrite <- H6. assert (Hnil : log_lines (drop (line (scan_log k (cstr log) garbage)) (cstr log)) = []).
  { rewrite scan_log_line, drop_ge by lia. done. }
  by rewrite Hnil, app_nil_r.
Qed.

(** A run of the lab loads each program on its own.  When the object
    opens, the verdict printed for a broken program is that of its own load,
    and a rejection comes with the tail of the log of that very load, although
    the six loads share one log buffer; the exit status is 0 in any case. *)
Theorem lab_report (object_load : list string → Z * list Z) (garbage : list nat) (logbuf : list Z) :
  let verdict (p : string) :=
    let '(err, log) := object_load [p] in
    if err =? 0 then Accepted p else Rejected p err (print_log_tail log 12 garbage) in
  let report (i : nat) (l : lesson) :=
    [Title i (title l); verdict (bad l); Fix (fix_ l); Corrected (good l) ((object_load [good l]).1 =? 0)] in
  main (λ _, None) object_load garbage logbuf = (0, concat (imap (λ i, report (S i)) lessons)).
Proof.
  unfold main, lessons. cbn [run_lessons]. unfold load_only. cbn.
  destruct (object_load ["bad_null_deref"]) as [e1 l1], (object_load ["good_null_deref"]) as [e2 l2],
    (object_load ["bad_unbounded_loop"]) as [e3 l3], (object_load ["good_bounded_loop"]) as [e4 l4],
    (object_load ["bad_oob_index"]) as [e5 l5], (object_load ["good_oob_index"]) as [e6 l6].
  cbn [fst]. by destruct (e1 =? 0), (e3 =? 0), (e5 =? 0).
Qed.

(** The corrected programs are safe: the lookup of an absent key leaves
    the map alone and a present one is incremented modulo 2^64, the loop ends
    after exactly 64 iterations with the sum of its indices, and the masked
    index never leaves the buffer, whatever the random number. *)
Theorem corrected_safe {M} `{!BpfMap M Z Z} `{!BpfMapLaws M Z Z} (counts : M) (random : Z) :
  map_view (good_null_deref counts).2 = alter (λ v, u64 (v + 1)) 0 (map_view counts)
  ∧ good_bounded_loop = Some (2016, 64%nat)
  ∧ is_Some (good_oob_index random).
Proof.
  split; [|split].
  - unfold good_null_deref. rewrite map_lookup_view. destruct (map_view counts !! 0) eqn:E; cbn [snd].
    + apply map_poke_view.
    + symmetry. apply map_eq. intros j. destruct (decide (j = 0)) as [->|]; [rewrite lookup_alter_eq, E; done|].
      by rewrite lookup_alter_ne.
  - vm_compute. reflexivity.
  - unfold good_oob_index. change 15 with (Z.ones 4). rewrite Z.land_ones by lia.
    pose proof (Z.mod_pos_bound (u32 random) (2 ^ 4) ltac:(lia)) as Hm. rewrite length_replicate.
    destruct (Nat.ltb_spec (Z.to_nat (u32 random mod 2 ^ 4)) 16); [by eexists|lia].
Qed.

(** ** Witnesses *)

Lemma log_tail_exact_witness :
  print_log_tail (str "a" ++ [10; 10] ++ str "b" ++ [10] ++ str "c" ++ [0]) 2 (replicate 64 9%nat)
  = Some [str "b"; str "c"].
Proof. rewrite (log_tail_exact _ 2 (replicate 64 9%nat) eq_refl). reflexivity. Defined.

Lemma corrected_safe_witness :
  (@good_null_deref _ (gmap_hash 1) ({[ 0 := 4 ]} : gmap Z Z)).2 = {[ 0 := 5 ]}.
Proof.
  destruct (@corrected_safe _ (gmap_hash 1) (gmap_hash_map_laws 1) {[ 0 := 4 ]} 0) as [H _].
  cbn in H. etransitivity; [exact H|]. reflexivity.
Defined.
