(* ===== verification/ExecGuard.v ===== *)
(** * ExecGuard: auditing execution with an LSM hook (chapter 20)

    Models src/20-lsm: [exec_check] of execguard.bpf.c, and [bpf_lsm_active]
    and [handle_event] of execguard.c, with fgets and strtok on the contents
    of /sys/kernel/security/lsm.  [main] is in [Loader].

    The theorems: the hook never changes a verdict and records exactly the
    executions it saw allowed while the ring has room; and the prerequisite
    holds exactly when bpf is an entry of the comma-separated list. *)

From stdpp Require Import prelude gmap list strings.
From Stdlib Require Import ZArith Lia.
From S2P Require Import Prelude.
From S2P Require Import Kernel.

Definition PATH_MAX_LEN : nat := 256.

Record event := mk_event { e_pid : Z; e_verdict : Z; e_comm : list Z; e_filename : list Z }.

(** [UserMem] is the interface of reading strings; here the address space is
    the kernel's. *)
Definition exec_check `{!UserMem} {R} `{!Ringbuf R event} (cur : task) (bprm_filename ret : Z) (events : R) : Z * R :=
  if negb (ret =? 0) then (ret, events) else
  match ringbuf_reserve events with
  | None => (0, events)
  | Some (e, events) =>
      let filename := (probe_read_user_str bprm_filename PATH_MAX_LEN (e_filename e)).2 in
      (0, ringbuf_submit events (mk_event (current_pid cur) 0 (comm cur) filename))
  end.

(** ** bpf_lsm_active *)

Definition NL : Z := 10.
Definition COMMA : Z := 44.

(** [fgets(buf, n, f)] on a file with the given contents: up to [n - 1]
    bytes, ending after a newline. *)
Fixpoint fgets (n : nat) (file : list Z) : list Z :=
  match n, file with
  | S (S n' as m), c :: file' => if c =? NL then [c] else c :: fgets m file'
  | _, _ => []
  end.

Definition is_delim (c : Z) : bool := (c =? COMMA) || (c =? NL).

(** [strtok]: the delimiters in front are skipped, the token is what is in
    front of the next one. *)
Fixpoint skip_delims (s : list Z) : list Z :=
  match s with
  | c :: s' => if is_delim c then skip_delims s' else s
  | [] => []
  end.

Fixpoint token (s : list Z) : list Z * list Z :=
  match s with
  | [] => ([], [])
  | c :: s' => if is_delim c then ([], s') else let '(t, rest) := token s' in (c :: t, rest)
  end.

(** The loop over the tokens; [fuel] of the length of the string is enough
    since each token consumes at least one byte. *)
Fixpoint find_bpf (fuel : nat) (s : list Z) (found : bool) : bool :=
  match fuel with
  | O => found
  | S fuel =>
      match skip_delims s with
      | [] => found
      | s => let '(tok, rest) := token s in find_bpf fuel rest (if bool_decide (tok = str "bpf") then true else found)
      end
  end.

(** [None]: the file cannot be opened. *)
Definition bpf_lsm_active (file : option (list Z)) : bool :=
  match file with
  | None => false
  | Some file =>
      match fgets 256 file with
      | [] => false
      | line => let tmp := take 255 (cstr line) in find_bpf (S (length tmp)) tmp false
      end
  end.

(** ** Printing *)
Record row := mk_row { r_pid : Z; r_verdict : string; r_comm : list Z; r_filename : list Z }.

Definition handle_event (e : event) : row :=
  mk_row (e_pid e) (if e_verdict e =? 0 then "allow" else "DENY") (cstr (e_comm e)) (cstr (e_filename e)).

(** ** The loop over the tokens *)

Lemma token_spec s :
  Forall (λ c, is_delim c = false) (token s).1
  ∧ (s = (token s).1 ∧ (token s).2 = [] ∨ ∃ d, is_delim d = true ∧ s = (token s).1 ++ d :: (token s).2).
Proof.
  induction s as [|c s [IH1 IH2]]; [by split; [constructor|left]|]. cbn [token]. destruct (is_delim c) eqn:Ec.
  - split; [constructor|]. right. by exists c.
  - destruct (token s) as [t rest]. cbn [fst snd] in *. split; [by constructor|].
    destruct IH2 as [[-> ->]|(d & Hd & ->)]; [by left|]. right. by exists d.
Qed.

(** The non-empty entries of a string are its token and those of the rest. *)
Lemma token_entries s x :
  x ≠ [] → x ∈ split_by is_delim s ↔ x = (token s).1 ∨ x ∈ split_by is_delim (token s).2.
Proof.
  intros Hx. destruct (token_spec s) as [Hf [[Hs Hr]|(d & Hd & Hs)]]; rewrite Hs at 1.
  - rewrite split_by_last, Hr by done. cbn. set_solver.
  - rewrite split_by_seg by done. set_solver.
Qed.

Lemma skip_entries s x : x ≠ [] → x ∈ split_by is_delim (skip_delims s) ↔ x ∈ split_by is_delim s.
Proof.
  intros Hx. induction s as [|c s IH]; [done|]. cbn [skip_delims]. destruct (is_delim c) eqn:Ec; [|done].
  rewrite IH. cbn [split_by]. rewrite Ec. set_solver.
Qed.

Lemma skip_length s : (length (skip_delims s) ≤ length s)%nat.
Proof. induction s as [|c s IH]; [done|]. cbn. destruct (is_delim c); simpl; lia. Qed.

Lemma token_length s : s ≠ [] → (length (token s).2 < length s)%nat.
Proof.
  intros Hs. destruct (token_spec s) as [_ [[_ ->]|(d & _ & Heq)]].
  - destruct s; simpl; [done|lia].
  - rewrite Heq at 2. rewrite length_app. simpl. lia.
Qed.

Lemma find_bpf_entries fuel : ∀ s found,
  (length s < fuel)%nat →
  find_bpf fuel s found = found || bool_decide (str "bpf" ∈ split_by is_delim s).
Proof.
  induction fuel as [|fuel IH]; intros s found Hl; [lia|]. cbn [find_bpf].
  assert (Hb : str "bpf" ≠ []) by done. pose proof (skip_entries s _ Hb) as Hsk. pose proof (skip_length s) as Hlen.
  rewrite <- (bool_decide_ext _ _ Hsk).
  destruct (skip_delims s) as [|c s'] eqn:Es.
  { rewrite bool_decide_eq_false_2 by (cbn; set_solver). by rewrite orb_false_r. }
  pose proof (token_entries (c :: s') _ Hb) as Ht. pose proof (token_length (c :: s') ltac:(done)) as Htl.
  destruct (token (c :: s')) as [tok rest]. cbn [fst snd] in *. rewrite IH by (cbn [length] in *; lia).
  rewrite (bool_decide_ext _ _ Ht), (bool_decide_or (str "bpf" = tok)).
  rewrite (bool_decide_ext (tok = str "bpf") (str "bpf" = tok)) by (split; by intros ->).
  case_bool_decide; [by rewrite !orb_true_r|done].
Qed.

(** What [fgets] reads of a first line that fits. *)
Lemma fgets_line n line tail :
  Forall (λ c, c ≠ NL) line → (length line < n)%nat → (tail = [] ∨ ∃ rest, tail = NL :: rest) →
  fgets n (line ++ tail) = line ++ (if (length line <? n - 1)%nat then take 1 tail else []).
Proof.
  intros Hl. revert n. induction Hl as [|c line Hc _ IH]; intros n Hn Ht.
  - destruct n as [|[|n]]; [simpl in Hn; lia|by destruct tail|]. destruct Ht as [->|[rest ->]]; done.
  - destruct n as [|[|n]]; [lia|simpl in Hn; lia|]. cbn [app].
    change (fgets (S (S n)) (c :: (line ++ tail))) with (if c =? NL then [c] else c :: fgets (S n) (line ++ tail)).
    apply Z.eqb_neq in Hc. rewrite Hc.
    rewrite IH by (simpl in Hn; done || lia). cbn [length]. do 2 f_equal.
    replace (S (length line) <? S (S n) - 1)%nat with (length line <? S n - 1)%nat; [done|].
    destruct (Nat.ltb_spec (length line) (S n - 1)), (Nat.ltb_spec (S (length line)) (S (S n) - 1)); lia.
Qed.

Lemma comma_entries line :
  Forall (λ c, c ≠ NL) line → split_by is_delim line = split_by (λ c, c =? COMMA) line.
Proof.
  induction 1 as [|c line Hc _ IH]; [done|]. cbn [split_by]. unfold is_delim at 1. apply Z.eqb_neq in Hc.
  by rewrite Hc, orb_false_r, IH.
Qed.

(** A newline at the end adds an empty entry at most. *)
Lemma entries_newline line x :
  x ≠ [] → x ∈ split_by is_delim (line ++ [NL]) ↔ x ∈ split_by is_delim line.
Proof.
  intros Hx. revert x Hx. cut (split_by is_delim (line ++ [NL]) = split_by is_delim line ++ [[]]).
  { intros -> x Hx. set_solver. }
  induction line as [|c line IH]; [done|]. cbn [app split_by]. rewrite IH. destruct (is_delim c); [done|].
  destruct (split_by is_delim line) as [|y ys] eqn:E; [|done]. exfalso. clear -E. destruct line as [|d l]; [done|].
  cbn in E. destruct (is_delim d); [done|]. by destruct (split_by is_delim l).
Qed.

(** ** Theorems *)

(** [C39] The loader goes on exactly when bpf is one of the comma-separated
    entries of the first line of the list of active LSMs (of at most 255
    bytes); an entry that merely contains bpf does not count.  A file that
    cannot be opened counts as a list without it. *)
Theorem lsm_active_exact (line tail : list Z) :
  Forall (λ c, c ≠ NL ∧ c ≠ 0) line → (length line ≤ 255)%nat → (tail = [] ∨ ∃ rest, tail = NL :: rest) →
  bpf_lsm_active (Some (line ++ tail)) = bool_decide (str "bpf" ∈ split_by (λ c, c =? COMMA) line)
  ∧ bpf_lsm_active None = false.
Proof.
  intros Hl Hlen Ht. split; [|done]. apply Forall_and in Hl as [Hnl Hnz]. unfold bpf_lsm_active.
  rewrite fgets_line by (done || lia). rewrite <- comma_entries by done.
  set (nl := if (length line <? 256 - 1)%nat then take 1 tail else []).
  assert (Hnlc : nl = [] ∨ (nl = [NL] ∧ (length line < 255)%nat)).
  { unfold nl. destruct (Nat.ltb_spec (length line) (256 - 1)); [|by left]. destruct Ht as [->|[rest ->]]; [by left|].
    right. split; [done|lia]. }
  assert (Hb : str "bpf" ≠ []) by done.
  destruct (line ++ nl) as [|c0 l0] eqn:El.
  { apply app_nil in El as [-> _]. rewrite bool_decide_eq_false_2; [done|]. cbn. set_solver. }
  rewrite <- El. assert (Hc : cstr (line ++ nl) = line ++ nl).
  { rewrite <- (app_nil_r (line ++ nl)) at 1. assert (Hz : Forall (λ b, b ≠ 0) (line ++ nl)).
    { apply Forall_app. split; [done|]. destruct Hnlc as [->|[-> _]]; [constructor|]. by repeat constructor. }
    clear -Hz. induction Hz as [|c l Hc _ IH]; [done|]. cbn. apply Z.eqb_neq in Hc. by rewrite Hc, IH. }
  rewrite Hc, take_ge by (rewrite length_app; destruct Hnlc as [->|[-> ?]]; simpl; lia).
  rewrite find_bpf_entries by lia. cbn [orb]. destruct Hnlc as [->|[-> _]]; [by rewrite app_nil_r|].
  apply bool_decide_ext. by apply entries_newline.
Qed.

(** The hook hands every verdict on unchanged: it denies nothing that
    was allowed and allows nothing that was denied.  An execution that was
    allowed so far is recorded when the ring has room, with its path cut to
    255 bytes and shown as allowed; a denied one is not recorded. *)
Theorem exec_check_neutral `{!UserMem} `{!UserMemLaws} {R} `{!Ringbuf R event} `{!RingbufLaws R event}
    (cur : task) (filename ret : Z) (path : list Z) (r : R) :
  user_str filename = Some path →
  (∀ d r', ringbuf_reserve r = Some (d, r') → length (e_filename d) = PATH_MAX_LEN) →
  let '(verdict, r') := exec_check cur filename ret r in
  verdict = ret
  ∧ if (ret =? 0) && bool_decide (is_Some (ringbuf_reserve r))
    then ∃ e, ringbuf_records r' = ringbuf_records r ++ [e]
      ∧ handle_event e = mk_row (current_pid cur) "allow" (cstr (comm cur)) (take 255 path)
    else r' = r.
Proof.
  intros Hp Hroom. unfold exec_check. destruct (Z.eqb_spec ret 0) as [->|Hr]; cbn [negb andb]; [|done].
  destruct (ringbuf_reserve r) as [[d r1]|] eqn:E.
  - split; [done|]. rewrite bool_decide_eq_true_2 by (by eexists). eexists.
    split; [rewrite ringbuf_submit_records; f_equal; by eapply ringbuf_reserve_records|].
    unfold handle_event. cbn [e_pid e_verdict e_comm e_filename Z.eqb]. f_equal.
    apply (probe_read_user_str_cstr _ PATH_MAX_LEN); [done|unfold PATH_MAX_LEN; lia|by eapply Hroom].
  - rewrite bool_decide_eq_false_2 by (by intros []). done.
Qed.

(** ** Witnesses *)

Lemma lsm_active_exact_witness :
  bpf_lsm_active (Some (str "lockdown,bpf,yama" ++ [10])) = true
  ∧ bpf_lsm_active (Some (str "lockdown,ebpf" ++ [])) = false.
Proof.
  split.
  - rewrite (proj1 (lsm_active_exact (str "lockdown,bpf,yama") [10]
      ltac:(cbn; repeat constructor; discriminate) ltac:(cbn; lia) (or_intror (ex_intro _ [] eq_refl)))).
    vm_compute. reflexivity.
  - rewrite (proj1 (lsm_active_exact (str "lockdown,ebpf") []
      ltac:(cbn; repeat constructor; discriminate) ltac:(cbn; lia) (or_introl eq_refl))).
    vm_compute. reflexivity.
Defined.

Definition ex_cur : task := mk_task (42 * 2 ^ 32) 0 (str "sh" ++ replicate 14 0).
Definition ex_mem : UserMem := gmap_user_mem {[ 4096 := str "/bin/ls" ++ [0] ]}.
Definition ex_dirt : event := mk_event 0 0 [] (replicate PATH_MAX_LEN 7).

Lemma exec_check_neutral_witness :
  (@exec_check ex_mem _ (const_ringbuf ex_dirt) ex_cur 4096 0 ([], 3%nat)).1 = 0
  ∧ (@exec_check ex_mem _ (const_ringbuf ex_dirt) ex_cur 4096 (-1) ([], 3%nat)).1 = -1.
Proof.
  split.
  - exact (proj1 (@exec_check_neutral ex_mem (gmap_user_mem_laws _) _ (const_ringbuf ex_dirt) (const_ringbuf_laws _)
      ex_cur 4096 0 (str "/bin/ls") ([], 3%nat) eq_refl ltac:(intros d r' [= <- <-]; reflexivity))).
  - exact (proj1 (@exec_check_neutral ex_mem (gmap_user_mem_laws _) _ (const_ringbuf ex_dirt) (const_ringbuf_laws _)
      ex_cur 4096 (-1) (str "/bin/ls") ([], 3%nat) eq_refl ltac:(intros d r' [= <- <-]; reflexivity))).
Defined.
