(* ===== verification/Keyring.v ===== *)
(** * Keyring: detecting payloads staged in keys (chapter 26)

    Models src/26-keyring-detect: the two hooks of keyring_snoop.bpf.c, the
    decision of [handle_event] and the parsing of the threshold in
    keyring_snoop.c ([strtoull] is in Libc), and the LSM stub of
    keyring_snoop.lsm.bpf.c.

    The theorems: a key is flagged exactly when the kernel creates a user or
    big_key key of at least the threshold; a threshold argument is accepted
    exactly when it is a number that fits, written in decimal, octal or
    hexadecimal, and a minus sign is accepted and wraps around. *)

From stdpp Require Import prelude gmap list strings.
From Stdlib Require Import ZArith Lia.
From S2P Require Import Prelude.
From S2P Require Import Kernel.
From S2P Require Import Libc.

Definition TYPE_LEN : nat := 16.
Definition DESC_LEN : nat := 64.

Record key_event := mk_event {
  ts_ns : Z; k_pid : Z; k_uid : Z; datalen : Z; source : Z; k_comm : list Z; k_type : list Z; k_desc : list Z }.

(** [fill_ids]. *)
Definition fill_ids (cur : task) (now : Z) (e : key_event) : key_event :=
  mk_event now (current_pid cur) (current_uid cur) (datalen e) (source e) (comm cur) (k_type e) (k_desc e).

Section hooks.
  (** Reading strings from kernel memory and from user memory. *)
  Context (KM UM : UserMem) {R : Type} `{!Ringbuf R key_event}.

(** [if (p) bpf_core_read_str(dst, n, p)]. *)
Definition read_if (p : Z) (n : nat) (dst : list Z) : list Z :=
  if p =? 0 then dst else (@probe_read_user_str KM p n dst).2.

Definition on_key_create (cur : task) (now type description plen : Z) (events : R) : R :=
  match ringbuf_reserve events with
  | None => events
  | Some (e, events) =>
      let e := fill_ids cur now e in
      let t := <[0%nat := 0]> (k_type e) in
      let d := <[0%nat := 0]> (k_desc e) in
      ringbuf_submit events (mk_event (ts_ns e) (k_pid e) (k_uid e) (u64 plen) 0 (k_comm e)
        (read_if type TYPE_LEN t) (read_if description DESC_LEN d))
  end.

Definition on_sys_add_key (cur : task) (now arg0 arg1 arg3 : Z) (events : R) : R :=
  match ringbuf_reserve events with
  | None => events
  | Some (e, events) =>
      let e := fill_ids cur now e in
      let t := <[0%nat := 0]> (k_type e) in
      let d := <[0%nat := 0]> (k_desc e) in
      ringbuf_submit events (mk_event (ts_ns e) (k_pid e) (k_uid e) (u64 arg3) 1 (k_comm e)
        (@probe_read_user_str UM arg0 TYPE_LEN t).2 (@probe_read_user_str UM arg1 DESC_LEN d).2)
  end.
End hooks.

(** The LSM stub: the verdict of the earlier modules. *)
Definition key_alloc_guard (ret : Z) : Z := if negb (ret =? 0) then ret else 0.

(** ** User space *)

(** [strcmp(a, b) == 0]. *)
Definition streq (a : list Z) (b : string) : bool := bool_decide (cstr a = str b).

Definition is_stageable_type (t : list Z) : bool := streq t "user" || streq t "big_key".

Definition suspicious (suspicious_bytes : Z) (e : key_event) : bool :=
  (source e =? 0) && is_stageable_type (k_type e) && (suspicious_bytes <=? datalen e).

Record row := mk_row {
  r_src : string; r_pid : Z; r_uid : Z; r_type : list Z; r_len : Z; r_desc : list Z; r_flag : bool }.

Definition handle_event (suspicious_bytes : Z) (e : key_event) : row :=
  mk_row (if source e =? 0 then "fentry" else "tracep") (k_pid e) (k_uid e)
    (if default 0 (k_type e !! 0%nat) =? 0 then str "-" else cstr (k_type e)) (datalen e)
    (if default 0 (k_desc e !! 0%nat) =? 0 then str "-" else cstr (k_desc e))
    (suspicious suspicious_bytes e).

(** The argument of [main]: the threshold, or [None] for the usage message. *)
Definition parse_threshold (arg : option (list Z)) : option Z :=
  match arg with
  | None => Some 4096
  | Some s =>
      match strtoull s with
      | None => None
      | Some (v, rest, erange) =>
          if negb (bool_decide (rest = [])) || erange then None else Some v
      end
  end.

(** ** Lemmas *)

Lemma first_char l : (default 0 (l !! 0%nat) =? 0) = bool_decide (cstr l = []).
Proof. destruct l as [|c l]; [done|]. cbn. by destruct (c =? 0). Qed.

Lemma take_eq_short {A} (n : nat) (l k : list A) : (length k < n)%nat → take n l = k ↔ l = k.
Proof.
  intros Hk. split; intros H; [|rewrite H; apply take_ge; lia].
  destruct (Nat.le_gt_cases (length l) n); [by rewrite take_ge in H|].
  exfalso. assert (length (take n l) = length k) as Hl by congruence. rewrite length_take in Hl. lia.
Qed.

Lemma stageable_read t s :
  cstr t = take (TYPE_LEN - 1) s →
  is_stageable_type t = bool_decide (s = str "user" ∨ s = str "big_key").
Proof.
  intros Ht. unfold is_stageable_type, streq. rewrite Ht. apply eq_true_iff_eq.
  rewrite orb_true_iff, !bool_decide_eq_true. by rewrite !take_eq_short by (cbn; lia).
Qed.

(** The value of a digit string. *)
Definition value (base : Z) (s : list Z) : Z := foldl (λ acc c, acc * base + digit c) 0 s.

Lemma digits_all base s acc :
  Forall (λ c, digit c < base) s → digits base acc s = (foldl (λ acc c, acc * base + digit c) acc s, []).
Proof.
  intros Hs. revert acc. induction Hs as [|c s Hc _ IH]; intros acc; [done|]. cbn [digits foldl].
  apply Z.ltb_lt in Hc. by rewrite Hc.
Qed.

Lemma digit_not_sign c : digit c < 16 → is_space c = false ∧ c ≠ 45 ∧ c ≠ 43 ∧ c ≠ 120 ∧ c ≠ 88.
Proof.
  unfold digit, is_space. intros H.
  assert (48 ≤ c ≤ 57 ∨ 97 ≤ c ≤ 102 ∨ 65 ≤ c ≤ 70) as Hc.
  { destruct (Z.leb_spec 48 c), (Z.leb_spec c 57), (Z.leb_spec 97 c), (Z.leb_spec c 122), (Z.leb_spec 65 c),
      (Z.leb_spec c 90); cbn [andb] in H; lia. }
  destruct (Z.eqb_spec c 32), (Z.leb_spec 9 c), (Z.leb_spec c 13); cbn [orb andb]; repeat split; lia.
Qed.

(** The three ways to write a number. *)
Inductive notation := Decimal | Octal | Hex.
Definition base_of (n : notation) : Z := match n with Decimal => 10 | Octal => 8 | Hex => 16 end.
Definition prefix_of (n : notation) : list Z := match n with Decimal => [] | Octal => str "0" | Hex => str "0x" end.

(** A numeral: digits of its base, at least one, and in decimal not starting
    with a zero, which would make it octal. *)
Definition numeral (n : notation) (s : list Z) : Prop :=
  s ≠ [] ∧ Forall (λ c, digit c < base_of n) s ∧ (n = Decimal → head s ≠ Some 48).

Lemma base_of_16 n : base_of n ≤ 16.
Proof. by destruct n. Qed.

Lemma base_prefix_numeral n s :
  numeral n s →
  ∃ s', base_prefix (prefix_of n ++ s) = (base_of n, s') ∧ Forall (λ c, digit c < base_of n) s' ∧ s' ≠ []
    ∧ value (base_of n) s' = value (base_of n) s.
Proof.
  intros (Hne & Hs & Hz). destruct s as [|c s]; [done|]. pose proof (Forall_inv Hs) as Hc.
  destruct n; cbn [prefix_of base_of str app] in *.
  - exists (c :: s). split; [|done]. specialize (Hz eq_refl). unfold base_prefix.
    repeat case_match; simplify_eq; done.
  - exists (48 :: c :: s). cbn in Hc. destruct (digit_not_sign c ltac:(lia)) as (_ & _ & _ & H1%Z.eqb_neq & H2%Z.eqb_neq).
    split; [|split; [|split; [done|]]].
    + cbn. destruct s; [done|]. by rewrite H1, H2.
    + constructor; [done|]. exact Hs.
    + done.
  - exists (c :: s). split; [|done]. cbn. cbn in Hc. apply Z.ltb_lt in Hc. by rewrite Hc.
Qed.

(** No numeral starts with white space or a sign. *)
Lemma numeral_head n s c rest :
  numeral n s → prefix_of n ++ s = c :: rest → is_space c = false ∧ c ≠ 45 ∧ c ≠ 43.
Proof.
  intros (Hne & Hs & _) Heq. destruct n; cbn in Heq; simplify_eq; try done.
  pose proof (Forall_inv Hs) as Hc. cbn in Hc. destruct (digit_not_sign c ltac:(lia)) as (? & ? & ? & _). done.
Qed.

Lemma strtoull_numeral n (minus : bool) s :
  numeral n s →
  strtoull ((if minus then str "-" else []) ++ prefix_of n ++ s)
  = if ULLONG_MAX <? value (base_of n) s then Some (ULLONG_MAX, [], true)
    else Some (if minus then u64 (- value (base_of n) s) else value (base_of n) s, [], false).
Proof.
  intros Hn. destruct (base_prefix_numeral n s Hn) as (s' & Hb & Hd & Hne & Hv). unfold strtoull.
  assert (Hhead : ∃ c rest, prefix_of n ++ s = c :: rest).
  { destruct Hn as (Hs & _). destruct s; [done|]. destruct n; by do 2 eexists. }
  destruct Hhead as (c & rest & Hcr). destruct (numeral_head n s c rest Hn Hcr) as (Hsp & Hm & Hp).
  assert (Hrest : ∀ neg : bool, (let '(base, s3) := base_prefix (prefix_of n ++ s) in
    match s3 with
    | d :: _ => if digit d <? base then
        let '(v, rest) := digits base 0 s3 in
        if ULLONG_MAX <? v then Some (ULLONG_MAX, rest, true) else Some (if neg then u64 (- v) else v, rest, false)
      else None
    | [] => None
    end) = if ULLONG_MAX <? value (base_of n) s then Some (ULLONG_MAX, [], true)
      else Some (if neg then u64 (- value (base_of n) s) else value (base_of n) s, [], false)).
  { intros neg. rewrite Hb. destruct s' as [|d s']; [done|]. pose proof (Forall_inv Hd) as Hd0. cbn in Hd0.
    apply Z.ltb_lt in Hd0. rewrite Hd0, digits_all by done. fold (value (base_of n) (d :: s')). by rewrite Hv. }
  destruct minus; cbn [str app].
  - cbn [skip_space is_space]. apply (Hrest true).
  - rewrite Hcr in *. cbn [skip_space]. rewrite Hsp.
    assert (sign (c :: rest) = (false, c :: rest)) as ->.
    { unfold sign. repeat case_match; simplify_eq; done. }
    apply (Hrest false).
Qed.

(** Both records of a key. *)
Lemma staged_rows (KM UM : UserMem) `{!@UserMemLaws KM} {R} `{!Ringbuf R key_event} `{!RingbufLaws R key_event}
    (thr : Z) (cur : task) (now type desc plen : Z) (tn dn : list Z) (r : R) :
  type ≠ 0 → desc ≠ 0 → @user_str KM type = Some tn → @user_str KM desc = Some dn →
  (∀ d r', ringbuf_reserve r = Some (d, r') → length (k_type d) = TYPE_LEN ∧ length (k_desc d) = DESC_LEN) →
  is_Some (ringbuf_reserve r) →
  let dash (s : list Z) := if bool_decide (s = []) then str "-" else s in
  (∃ e, ringbuf_records (on_key_create KM cur now type desc plen r) = ringbuf_records r ++ [e]
    ∧ handle_event thr e = mk_row "fentry" (current_pid cur) (current_uid cur)
        (dash (take (TYPE_LEN - 1) tn)) (u64 plen) (dash (take (DESC_LEN - 1) dn))
        (bool_decide ((tn = str "user" ∨ tn = str "big_key") ∧ thr ≤ u64 plen)))
  ∧ ∃ e, ringbuf_records (on_sys_add_key UM cur now type desc plen r) = ringbuf_records r ++ [e]
    ∧ r_flag (handle_event thr e) = false.
Proof.
  intros Ht Hd Htn Hdn Hroom [[d0 r'] Hr]. destruct (Hroom _ _ Hr) as [Hlt Hld]. split.
  - unfold on_key_create. rewrite Hr. eexists.
    split; [rewrite ringbuf_submit_records; f_equal; by eapply ringbuf_reserve_records|].
    apply Z.eqb_neq in Ht, Hd. unfold handle_event, suspicious, read_if. rewrite Ht, Hd.
    cbn [source k_pid k_uid datalen k_type k_desc fill_ids Z.eqb andb].
    assert (Hct : cstr (@probe_read_user_str KM type TYPE_LEN (<[0%nat:=0]> (k_type d0))).2 = take (TYPE_LEN - 1) tn)
      by (apply probe_read_user_str_cstr; [done|unfold TYPE_LEN; lia|by rewrite length_insert]).
    assert (Hcd : cstr (@probe_read_user_str KM desc DESC_LEN (<[0%nat:=0]> (k_desc d0))).2 = take (DESC_LEN - 1) dn)
      by (apply probe_read_user_str_cstr; [done|unfold DESC_LEN; lia|by rewrite length_insert]).
    rewrite !first_char, Hct, Hcd, (stageable_read _ tn Hct). f_equal.
    rewrite bool_decide_and. f_equal. apply eq_true_iff_eq. rewrite Z.leb_le. by rewrite bool_decide_eq_true.
  - unfold on_sys_add_key. rewrite Hr. eexists.
    split; [rewrite ringbuf_submit_records; f_equal; by eapply ringbuf_reserve_records|]. done.
Qed.

(** The record of the system call, with the strings of the caller. *)
Lemma syscall_row (UM : UserMem) `{!@UserMemLaws UM} {R} `{!Ringbuf R key_event} `{!RingbufLaws R key_event}
    (thr : Z) (cur : task) (now type desc plen : Z) (tn dn : list Z) (r : R) :
  @user_str UM type = Some tn → @user_str UM desc = Some dn →
  (∀ d r', ringbuf_reserve r = Some (d, r') → length (k_type d) = TYPE_LEN ∧ length (k_desc d) = DESC_LEN) →
  is_Some (ringbuf_reserve r) →
  let dash (s : list Z) := if bool_decide (s = []) then str "-" else s in
  ∃ e, ringbuf_records (on_sys_add_key UM cur now type desc plen r) = ringbuf_records r ++ [e]
    ∧ handle_event thr e = mk_row "tracep" (current_pid cur) (current_uid cur)
        (dash (take (TYPE_LEN - 1) tn)) (u64 plen) (dash (take (DESC_LEN - 1) dn)) false.
Proof.
  intros Htn Hdn Hroom [[d0 r'] Hr]. destruct (Hroom _ _ Hr) as [Hlt Hld]. unfold on_sys_add_key. rewrite Hr. eexists.
  split; [rewrite ringbuf_submit_records; f_equal; by eapply ringbuf_reserve_records|].
  unfold handle_event, suspicious. cbn [source k_pid k_uid datalen k_type k_desc fill_ids Z.eqb andb].
  assert (Hct : cstr (@probe_read_user_str UM type TYPE_LEN (<[0%nat:=0]> (k_type d0))).2 = take (TYPE_LEN - 1) tn)
    by (apply probe_read_user_str_cstr; [done|unfold TYPE_LEN; lia|by rewrite length_insert]).
  assert (Hcd : cstr (@probe_read_user_str UM desc DESC_LEN (<[0%nat:=0]> (k_desc d0))).2 = take (DESC_LEN - 1) dn)
    by (apply probe_read_user_str_cstr; [done|unfold DESC_LEN; lia|by rewrite length_insert]).
  by rewrite !first_char, Hct, Hcd.
Qed.

(** ** Theorems *)

(** While the ring has room, the creation of a key is reported with its
    type, description and size, and flagged exactly when the type is user or
    big_key, nothing longer or shorter, and the size reaches the threshold;
    the record of the system call itself is never flagged. *)
Theorem staged_flagged (KM UM : UserMem) `{!@UserMemLaws KM} {R} `{!Ringbuf R key_event} `{!RingbufLaws R key_event}
    (thr : Z) (cur : task) (now type desc plen : Z) (tn dn : list Z) (r : R) :
  type ≠ 0 → desc ≠ 0 → @user_str KM type = Some tn → @user_str KM desc = Some dn →
  (∀ d r', ringbuf_reserve r = Some (d, r') → length (k_type d) = TYPE_LEN ∧ length (k_desc d) = DESC_LEN) →
  is_Some (ringbuf_reserve r) →
  let dash (s : list Z) := if bool_decide (s = []) then str "-" else s in
  (∃ e, ringbuf_records (on_key_create KM cur now type desc plen r) = ringbuf_records r ++ [e]
    ∧ handle_event thr e = mk_row "fentry" (current_pid cur) (current_uid cur)
        (dash (take (TYPE_LEN - 1) tn)) (u64 plen) (dash (take (DESC_LEN - 1) dn))
        (bool_decide ((tn = str "user" ∨ tn = str "big_key") ∧ thr ≤ u64 plen)))
  ∧ ∃ e, ringbuf_records (on_sys_add_key UM cur now type desc plen r) = ringbuf_records r ++ [e]
    ∧ r_flag (handle_event thr e) = false.
Proof. exact (staged_rows KM UM thr cur now type desc plen tn dn r). Qed.

(** A threshold written in decimal, octal (with 0) or hexadecimal (with
    0x) is taken exactly when it is below 2^64; with a minus sign it is also
    taken, modulo 2^64, although the usage asks for a non-negative integer.
    Without an argument the threshold is 4096. *)
Theorem threshold_parsed (n : notation) (minus : bool) (s : list Z) :
  numeral n s →
  let v := value (base_of n) s in
  parse_threshold (Some ((if minus then str "-" else []) ++ prefix_of n ++ s))
  = (if decide (v < 2 ^ 64) then Some (if minus then u64 (- v) else v) else None)
  ∧ parse_threshold None = Some 4096.
Proof.
  intros Hn v. split; [|done]. unfold parse_threshold. rewrite strtoull_numeral by done. fold v. unfold ULLONG_MAX.
  destruct (Z.ltb_spec (2 ^ 64 - 1) v); case_decide; try lia; done.
Qed.

(** ** Witnesses *)

Definition ex_cur : task := mk_task (42 * 2 ^ 32) 0 (str "stage-key" ++ replicate 7 0).
Definition ex_mem : UserMem := gmap_user_mem {[ 4096 := str "user" ++ [0]; 8192 := str "_dntry" ++ [0] ]}.
Definition ex_dirt : key_event := mk_event 0 0 0 0 0 [] (replicate TYPE_LEN 7) (replicate DESC_LEN 7).

Lemma staged_flagged_witness :
  ∃ e, (@on_key_create ex_mem _ (const_ringbuf ex_dirt) ex_cur 5 4096 8192 8192 ([], 3%nat)).1 = [e]
    ∧ r_flag (handle_event 4096 e) = true.
Proof.
  destruct (@staged_flagged ex_mem ex_mem (gmap_user_mem_laws _) _ (const_ringbuf ex_dirt) (const_ringbuf_laws _)
    4096 ex_cur 5 4096 8192 8192 (str "user") (str "_dntry") ([], 3%nat)) as [(e & He & Hr) _].
  - discriminate.
  - discriminate.
  - reflexivity.
  - reflexivity.
  - intros d r' [= <- <-]. split; reflexivity.
  - eexists. reflexivity.
  - exists e. split; [exact He|]. rewrite Hr. reflexivity.
Defined.

(** "0x1000" and "-1". *)
Lemma threshold_parsed_witness :
  parse_threshold (Some (str "0x1000")) = Some 4096 ∧ parse_threshold (Some (str "-1")) = Some (2 ^ 64 - 1).
Proof.
  split.
  - assert (Hn : numeral Hex (str "1000")) by (split; [done|split; [by repeat constructor|done]]).
    etransitivity; [exact (proj1 (threshold_parsed Hex false (str "1000") Hn))|reflexivity].
  - assert (Hn : numeral Decimal (str "1")) by (split; [done|split; [by repeat constructor|by intros _ [=]]]).
    etransitivity; [exact (proj1 (threshold_parsed Decimal true (str "1") Hn))|reflexivity].
Defined.
