(* ===== verification/BashReadline.v ===== *)
(** * BashReadline: commands typed at a prompt (chapter 15)

    Models [bash_readline] of src/15-bashreadline/bashreadline.bpf.c, which
    reserves a record before it knows whether there is anything to report
    and discards it otherwise; [main] is in [Loader].

    The theorem: exactly the non-empty lines that can be read are reported,
    cut to 199 bytes, and every reservation is either submitted or
    discarded. *)

From stdpp Require Import prelude gmap list strings.
From Stdlib Require Import ZArith Lia.
From S2P Require Import Prelude.
From S2P Require Import Kernel.

Definition MAX_LINE : nat := 200.

Record event := mk_event { e_pid : Z; e_comm : list Z; e_line : list Z }.

Definition bash_readline `{!UserMem} {R} `{!Ringbuf R event} (cur : task) (ret : Z) (events : R) : R :=
  if ret =? 0 then events else
  match ringbuf_reserve events with
  | None => events
  | Some (e, events) =>
      let '(n, line) := probe_read_user_str ret MAX_LINE (e_line e) in
      let e := mk_event (current_pid cur) (comm cur) line in
      if n <=? 1 then ringbuf_discard events e else ringbuf_submit events e
  end.

(** What a return of readline adds to the ring. *)
Lemma readline_cases `{!UserMem} `{!UserMemLaws} {R} `{!Ringbuf R event} `{!RingbufLaws R event}
    (cur : task) (ret : Z) (r : R) :
  (∀ d r', ringbuf_reserve r = Some (d, r') → length (e_line d) = MAX_LINE) →
  match user_str ret, ringbuf_reserve r with
  | Some (c :: l), Some _ =>
      ret ≠ 0 → ∃ e, ringbuf_records (bash_readline cur ret r) = ringbuf_records r ++ [e]
        ∧ e_pid e = current_pid cur ∧ e_comm e = comm cur ∧ cstr (e_line e) = take (MAX_LINE - 1) (c :: l)
  | _, _ => ringbuf_records (bash_readline cur ret r) = ringbuf_records r
  end.
Proof.
  intros Hroom. unfold bash_readline. destruct (ringbuf_reserve r) as [[d r']|] eqn:Hr.
  2:{ destruct (user_str ret) as [[|c l]|]; by destruct (ret =? 0). }
  pose proof (ringbuf_reserve_records _ _ _ Hr) as Hrec. specialize (Hroom _ _ eq_refl).
  destruct (user_str ret) as [s|] eqn:Hs.
  - assert (Hz : (0 < MAX_LINE)%nat) by (unfold MAX_LINE; lia).
    pose proof (probe_read_user_str_cstr ret MAX_LINE (e_line d) s Hs Hz Hroom) as Hc.
    pose proof (probe_read_user_str_ok ret MAX_LINE (e_line d) s Hs Hz Hroom) as Hok.
    destruct (probe_read_user_str ret MAX_LINE (e_line d)) as [n line]. cbn [snd] in Hc.
    assert (Hn : n = Z.of_nat (S (length (take (MAX_LINE - 1) s)))) by congruence. destruct s as [|c l].
    + destruct (ret =? 0); [done|]. rewrite take_nil in Hn. cbn [length] in Hn. destruct (Z.leb_spec n 1); [|lia].
      by rewrite ringbuf_discard_records.
    + intros Hret%Z.eqb_neq. rewrite Hret. exists (mk_event (current_pid cur) (comm cur) line). split; [|done].
      change (MAX_LINE - 1)%nat with 199%nat in Hn. cbn [take length] in Hn.
      destruct (Z.leb_spec n 1); [lia|]. by rewrite ringbuf_submit_records, Hrec.
  - destruct (ret =? 0); [done|]. pose proof (probe_read_user_str_fault ret MAX_LINE (e_line d) Hs) as Hf.
    destruct (probe_read_user_str ret MAX_LINE (e_line d)) as [n line]. cbn [fst] in Hf.
    destruct (Z.leb_spec n 1); [|lia]. by rewrite ringbuf_discard_records.
Qed.

(** A line is reported exactly when readline returned one that is not
    empty and can be read and the ring has room; the record has its first
    199 bytes.  In all other cases nothing is reported. *)
Theorem readline_reported `{!UserMem} `{!UserMemLaws} {R} `{!Ringbuf R event} `{!RingbufLaws R event}
    (cur : task) (ret : Z) (r : R) :
  (∀ d r', ringbuf_reserve r = Some (d, r') → length (e_line d) = MAX_LINE) →
  match user_str ret, ringbuf_reserve r with
  | Some (c :: l), Some _ =>
      ret ≠ 0 → ∃ e, ringbuf_records (bash_readline cur ret r) = ringbuf_records r ++ [e]
        ∧ e_pid e = current_pid cur ∧ e_comm e = comm cur ∧ cstr (e_line e) = take (MAX_LINE - 1) (c :: l)
  | _, _ => ringbuf_records (bash_readline cur ret r) = ringbuf_records r
  end.
Proof. exact (readline_cases cur ret r). Qed.

(** ** Witnesses *)

Definition ex_cur : task := mk_task (42 * 2 ^ 32) 0 (str "bash" ++ replicate 12 0).
Definition ex_mem : UserMem := gmap_user_mem {[ 4096 := str "ls -l" ++ [0] ]}.
Definition ex_dirt : event := mk_event 0 [] (replicate MAX_LINE 7).

Lemma readline_reported_witness :
  ∃ e, (@bash_readline ex_mem _ (const_ringbuf ex_dirt) ex_cur 4096 ([], 3%nat)).1 = [e]
    ∧ cstr (e_line e) = str "ls -l".
Proof.
  destruct (@readline_reported ex_mem (gmap_user_mem_laws _) _ (const_ringbuf ex_dirt) (const_ringbuf_laws _)
    ex_cur 4096 ([], 3%nat)) as (e & He & _ & _ & Hl).
  - intros d r' [= <- <-]. reflexivity.
  - discriminate.
  - exists e. split; [exact He|exact Hl].
Defined.
