(* ===== verification/Rows.v ===== *)
(** * Rows: the lines of the snoopers (chapters 7, 9, 10, 11 and 15)

    The text that [handle_event] prints in src/07-libbpf/execsnoop.c,
    src/09-openat/opensnoop.c, src/10-openat-ret/opensnoop.c,
    src/11-connect/netsnoop.c and src/15-bashreadline/bashreadline.c, from the
    rows of OpenSnoop and NetSnoop and the events of the others.

    The theorem: every line is one row of its table, with its columns at
    fixed places, and the address of a connect can be read back. *)

From stdpp Require Import prelude list strings.
From Stdlib Require Import ZArith Lia.
From S2P Require Import Prelude.
From S2P Require Import Kernel.
From S2P Require Import Printf.
From S2P Require Import Inet.
From S2P Require Import OpenSnoop.
From S2P Require Import NetSnoop.
From S2P Require Import BashReadline.

(** "%-8u %-6u %-16s ", the beginning of four of the lines. *)
Definition who_text (pid uid : Z) (comm : list Z) : list Z :=
  rpad 8 (dec pid) ++ str " " ++ rpad 6 (dec uid) ++ str " " ++ rpad 16 comm ++ str " ".

(** Chapter 7. *)
Definition exec_line (e : OpenSnoop.exec_event) : list Z :=
  who_text (OpenSnoop.x_pid e) (OpenSnoop.x_uid e) (cstr (OpenSnoop.x_comm e)) ++ cstr (OpenSnoop.x_filename e) ++ [10].

(** Chapter 9. *)
Definition open_line (e : OpenSnoop.open_event) : list Z :=
  who_text (OpenSnoop.o_pid e) (OpenSnoop.o_uid e) (cstr (OpenSnoop.o_comm e)) ++
  rpad 5 (OpenSnoop.decode_flags (OpenSnoop.o_flags e)) ++ str " " ++ cstr (OpenSnoop.o_filename e) ++ [10].

(** Chapter 10. *)
Definition open_ret_line (r : OpenSnoop.row) : list Z :=
  who_text (OpenSnoop.r_pid r) (OpenSnoop.r_uid r) (OpenSnoop.r_comm r) ++
  lpad 6 (sdec (OpenSnoop.r_ret r)) ++ str "  " ++ rpad 5 (OpenSnoop.r_flags r) ++ str " " ++ OpenSnoop.r_filename r ++ [10].

(** Chapter 11: the buffer of INET6_ADDRSTRLEN bytes for the address. *)
Definition connect_line (r : NetSnoop.row) : option (list Z) :=
  addr ← inet_ntop (if bool_decide (NetSnoop.w_af r = "IPv4"%string) then Inet.AF_INET else Inet.AF_INET6)
           (NetSnoop.w_addr r) INET6_ADDRSTRLEN;
  Some (who_text (NetSnoop.w_pid r) (NetSnoop.w_uid r) (NetSnoop.w_comm r) ++
    rpad 6 (str (NetSnoop.w_af r)) ++ str " " ++ rpad 42 addr ++ str " " ++ lpad 5 (dec (NetSnoop.w_port r)) ++ str " " ++
    str (NetSnoop.w_status r) ++ str "(" ++ sdec (NetSnoop.w_ret r) ++ str ")" ++ [10]).

(** Chapter 15. *)
Definition readline_line (e : BashReadline.event) : list Z :=
  rpad 8 (dec (BashReadline.e_pid e)) ++ str " " ++ rpad 16 (cstr (BashReadline.e_comm e)) ++ str " " ++
  cstr (BashReadline.e_line e) ++ [10].

(** ** Columns *)

Lemma who_columns pid uid comm ws rest :
  0 ≤ pid < 10 ^ 8 → 0 ≤ uid < 10 ^ 6 → (length comm ≤ 16)%nat →
  columns (8 :: 6 :: 16 :: ws)%nat (who_text pid uid comm ++ rest)
  = rpad 8 (dec pid) :: rpad 6 (dec uid) :: rpad 16 comm :: columns ws rest.
Proof.
  intros Hp Hu Hc. unfold who_text. rewrite <- !app_assoc.
  rewrite !columns_pad; [done| | |]; first [done|apply numeral_length; lia].
Qed.

Lemma decode_flags_length fl : (length (OpenSnoop.decode_flags fl) ≤ 5)%nat.
Proof. unfold OpenSnoop.decode_flags. repeat case_match; vm_compute; lia. Qed.

Lemma exec_columns (e : OpenSnoop.exec_event) :
  0 ≤ OpenSnoop.x_pid e < 10 ^ 8 → 0 ≤ OpenSnoop.x_uid e < 10 ^ 6 → (length (cstr (OpenSnoop.x_comm e)) ≤ 16)%nat →
  columns [8; 6; 16]%nat (exec_line e)
  = [rpad 8 (dec (OpenSnoop.x_pid e)); rpad 6 (dec (OpenSnoop.x_uid e)); rpad 16 (cstr (OpenSnoop.x_comm e));
     cstr (OpenSnoop.x_filename e) ++ [10]].
Proof. intros. unfold exec_line. by rewrite who_columns. Qed.

Lemma open_columns (e : OpenSnoop.open_event) :
  0 ≤ OpenSnoop.o_pid e < 10 ^ 8 → 0 ≤ OpenSnoop.o_uid e < 10 ^ 6 → (length (cstr (OpenSnoop.o_comm e)) ≤ 16)%nat →
  columns [8; 6; 16; 5]%nat (open_line e)
  = [rpad 8 (dec (OpenSnoop.o_pid e)); rpad 6 (dec (OpenSnoop.o_uid e)); rpad 16 (cstr (OpenSnoop.o_comm e));
     rpad 5 (OpenSnoop.decode_flags (OpenSnoop.o_flags e)); cstr (OpenSnoop.o_filename e) ++ [10]].
Proof. intros. unfold open_line. by rewrite who_columns, columns_pad by (done || apply decode_flags_length). Qed.

(** ** Theorem *)

(** A row of chapter 11 as the program makes them. *)
Record connect_ok (r : NetSnoop.row) : Prop := mk_connect_ok {
  co_pid : 0 ≤ NetSnoop.w_pid r < 10 ^ 8;
  co_uid : 0 ≤ NetSnoop.w_uid r < 10 ^ 6;
  co_comm : (length (NetSnoop.w_comm r) ≤ 16)%nat;
  co_addr : Forall is_byte (NetSnoop.w_addr r);
  co_af : (NetSnoop.w_af r = "IPv4"%string ∧ length (NetSnoop.w_addr r) = 4%nat)
          ∨ (NetSnoop.w_af r = "IPv6"%string ∧ length (NetSnoop.w_addr r) = 16%nat);
}.

(** The address can be written, and read back. *)
Lemma connect_ntop (r : NetSnoop.row) :
  Forall is_byte (NetSnoop.w_addr r) →
  (NetSnoop.w_af r = "IPv4"%string ∧ length (NetSnoop.w_addr r) = 4%nat)
  ∨ (NetSnoop.w_af r = "IPv6"%string ∧ length (NetSnoop.w_addr r) = 16%nat) →
  ∃ t, inet_ntop (if bool_decide (NetSnoop.w_af r = "IPv4"%string) then Inet.AF_INET else Inet.AF_INET6)
      (NetSnoop.w_addr r) INET6_ADDRSTRLEN = Some t ∧ (length t ≤ 40)%nat
    ∧ (if bool_decide (NetSnoop.w_af r = "IPv4"%string) then read_v4 t else v6_bytes (read_v6 t)) = NetSnoop.w_addr r
    ∧ (length (str (NetSnoop.w_af r)) ≤ 6)%nat.
Proof.
  intros Hb [[-> Hl]|[-> Hl]].
  - rewrite bool_decide_true by done. destruct (NetSnoop.w_addr r) as [|a [|b [|c [|d [|]]]]]; try done.
    repeat (apply Forall_cons in Hb as [? Hb]). destruct (v4_ntop a b c d []) as (Ht & Hq & Hr); try done.
    eexists. split; [exact Ht|]. split; [lia|]. split; [done|]. cbn. lia.
  - rewrite bool_decide_false by done. destruct (v6_ntop (NetSnoop.w_addr r) Hl Hb) as (t & Ht & Hq & Hr & _).
    exists t. split; [done|]. split; [done|]. split; [done|]. cbn. lia.
Qed.

(** A connect always has its line. *)
Lemma connect_line_some cur ret b :
  Forall is_byte b → length b = NetSnoop.ADDR_BUF → is_Some (connect_line (NetSnoop.connect_row cur ret b)).
Proof.
  intros Hb Hl. unfold NetSnoop.ADDR_BUF in Hl.
  destruct (connect_ntop (NetSnoop.connect_row cur ret b)) as (t & Ht & _);
    [| |unfold connect_line; rewrite Ht; by eexists];
    cbn [NetSnoop.connect_row NetSnoop.w_addr NetSnoop.w_af]; unfold NetSnoop.addr_of; destruct (_ =? _);
    try (by apply Forall_bytes_at); [left|right]; (split; [done|]); apply length_bytes_at; lia.
Qed.

(** The line of a connect is a row of the table of chapter 11: the
    columns are at the places of the headings, and the address column, which
    is never cut, holds a text from which the address can be read back. *)
Theorem connect_columns (r : NetSnoop.row) :
  connect_ok r →
  ∃ line addr rest, connect_line r = Some line
  ∧ columns [8; 6; 16; 6; 42]%nat line
    = [rpad 8 (dec (NetSnoop.w_pid r)); rpad 6 (dec (NetSnoop.w_uid r)); rpad 16 (NetSnoop.w_comm r);
       rpad 6 (str (NetSnoop.w_af r)); rpad 42 addr; rest]
  ∧ (if bool_decide (NetSnoop.w_af r = "IPv4"%string) then read_v4 addr else v6_bytes (read_v6 addr)) = NetSnoop.w_addr r.
Proof.
  intros [Hp Hu Hc Hb Haf].
  destruct (connect_ntop r Hb Haf) as (t & Ht & Hl & Hr & Ha). unfold connect_line. rewrite Ht. cbn [mbind option_bind].
  eexists _, t, _. split; [done|]. split; [|done]. rewrite who_columns by done. rewrite !columns_pad by lia. done.
Qed.

(** ** Witness *)

Lemma connect_columns_witness :
  connect_line (NetSnoop.mk_row 4242 1000 (str "curl") "IPv4" [93; 184; 216; 34] 443 "inprogress" (-115))
  = Some (str "4242     1000   curl             IPv4   93.184.216.34                                443 inprogress(-115)" ++ [10])
  ∧ read_v4 (str "93.184.216.34") = [93; 184; 216; 34].
Proof.
  destruct (connect_columns (NetSnoop.mk_row 4242 1000 (str "curl") "IPv4" [93; 184; 216; 34] 443 "inprogress" (-115)))
    as (line & addr & rest & Hl & Hc & Hr).
  - apply mk_connect_ok; cbn; [lia|lia|lia|by repeat constructor|by left].
  - split; [vm_compute; reflexivity|vm_compute; reflexivity].
Defined.
