(* ===== verification/TaskDump.v ===== *)
(** * TaskDump: an iterator over tasks (chapter 22)

    Models src/22-iterator: [dump_task] of taskdump.bpf.c, called by the
    kernel for every task and once more with NULL, and [main] of taskdump.c
    with what its calls return.  Lines are values, not text.

    The theorems: the snapshot is a header and one line per task, or nothing
    when there are no tasks; [main] copies everything it reads before the
    first error or the end, and reports failures in its exit status. *)

From stdpp Require Import prelude list.
From Stdlib Require Import ZArith Lia.
From S2P Require Import Prelude.

Record task_struct := mk_task_struct { tgid : Z; tpid : Z; tcomm : list Z }.

Inductive text := Header | TaskLine (tgid pid : Z) (comm : list Z).

(** One call: [seq] is what was printed so far. *)
Definition dump_task (seq_num : nat) (t : option task_struct) (seq : list text) : list text :=
  match t with
  | None => seq
  | Some t =>
      let seq := if (seq_num =? 0)%nat then seq ++ [Header] else seq in
      seq ++ [TaskLine (tgid t) (tpid t) (cstr (tcomm t))]
  end.

(** The kernel's walk: every task in order with its number, then NULL. *)
Fixpoint walk (n : nat) (ts : list task_struct) (seq : list text) : list text :=
  match ts with
  | [] => dump_task n None seq
  | t :: ts' => walk (S n) ts' (dump_task n (Some t) seq)
  end.

(** ** main *)

Inductive call := OpenLoad | AttachIter | IterCreate | Close | LinkDestroy | Destroy.

(** What the calls return: [attach] is [Some errno] on failure, [fd] is the
    result of [bpf_iter_create], [reads] are the results of [read], the bytes
    or [inr errno], and then end of file. *)
Record outcome := mk_outcome { loads : bool; attach : option Z; fd : Z; reads : list (list Z + Z) }.

(** The loop: what was written to standard output, and [err]. *)
Fixpoint copy_loop (reads : list (list Z + Z)) : list Z * Z :=
  match reads with
  | [] => ([], 0)
  | inr errno :: _ => ([], - errno)
  | inl [] :: _ => ([], 0)
  | inl b :: reads' => let '(out, err) := copy_loop reads' in (b ++ out, err)
  end.

Definition main (o : outcome) : Z * list Z * list call :=
  if negb (loads o) then (1, [], [OpenLoad]) else
  let status (err : Z) := if negb (err =? 0) then 1 else 0 in
  match attach o with
  | Some errno => (status (- errno), [], [OpenLoad; AttachIter; Destroy])
  | None =>
      if fd o <? 0 then (status (fd o), [], [OpenLoad; AttachIter; IterCreate; LinkDestroy; Destroy])
      else let '(out, err) := copy_loop (reads o) in
           (status err, out, [OpenLoad; AttachIter; IterCreate; Close; LinkDestroy; Destroy])
  end.

Lemma walk_later n ts seq :
  walk (S n) ts seq = seq ++ ((λ t, TaskLine (tgid t) (tpid t) (cstr (tcomm t))) <$> ts).
Proof.
  revert n seq. induction ts as [|t ts IH]; intros n seq; cbn [walk dump_task]; [by rewrite app_nil_r|].
  rewrite IH. cbn [Nat.eqb fmap list_fmap]. by rewrite <- app_assoc.
Qed.

(** The snapshot has one line per task, in the order of the walk, after
    a single header line; a walk without tasks prints nothing at all. *)
Theorem snapshot_exact (ts : list task_struct) :
  walk 0 ts []
  = (if bool_decide (ts = []) then [] else [Header])
    ++ ((λ t, TaskLine (tgid t) (tpid t) (cstr (tcomm t))) <$> ts).
Proof.
  destruct ts as [|t ts]; [done|]. cbn [walk dump_task]. rewrite walk_later. cbn [Nat.eqb app fmap list_fmap].
  by rewrite bool_decide_eq_false_2.
Qed.

(** When the iterator reads [chunks] and then ends or fails with
    [errno], the output is their concatenation and the exit status is 1
    exactly in the case of the failure; the descriptor is closed and the
    link and the object are released, in that order. *)
Theorem taskdump_main_copies (chunks : list (list Z)) (failure : option Z) (n : Z) :
  Forall (λ b, b ≠ []) chunks → 0 ≤ n → (∀ errno, failure = Some errno → 0 < errno) →
  main (mk_outcome true None n ((inl <$> chunks) ++ match failure with Some e => [inr e] | None => [] end))
  = (if bool_decide (is_Some failure) then 1 else 0, concat chunks,
     [OpenLoad; AttachIter; IterCreate; Close; LinkDestroy; Destroy]).
Proof.
  intros Hne Hn Hf. unfold main. cbn [loads attach fd reads negb]. destruct (Z.ltb_spec n 0); [lia|].
  assert (Hc : copy_loop ((inl <$> chunks) ++ match failure with Some e => [inr e] | None => [] end)
    = (concat chunks, match failure with Some e => - e | None => 0 end)).
  { induction Hne as [|b chunks Hb _ IH]; [by destruct failure|]. cbn [fmap list_fmap app copy_loop].
    rewrite IH. by destruct b. }
  rewrite Hc. destruct failure as [e|]; [|done]. specialize (Hf e eq_refl).
  rewrite bool_decide_eq_true_2 by (by eexists). destruct (Z.eqb_spec (- e) 0); [lia|done].
Qed.

(** ** Witness *)
Lemma taskdump_main_copies_witness :
  main (mk_outcome true None 3 [inl [65; 10]; inl [66]; inr 5])
  = (1, [65; 10; 66], [OpenLoad; AttachIter; IterCreate; Close; LinkDestroy; Destroy]).
Proof.
  exact (taskdump_main_copies [[65; 10]; [66]] (Some 5) 3 ltac:(repeat constructor; discriminate) ltac:(lia)
    ltac:(intros e [= <-]; lia)).
Defined.
