(* ===== verification/Sys.v ===== *)
(** * Sys: programs that call the system

    The main functions of the loaders are sequences of calls whose results
    the environment chooses.  [prog] is such a program: a result, a call with
    a continuation for each answer, or [Running] (a loop that was cut off
    after a given number of iterations and is still going on).  [exec] gives
    the traces of a program, including those of executions in progress.

    [wp] is the weakest precondition of a program against a state machine
    that watches the calls: the machine rejects a call that breaks the rules
    and may assume something about the answers.  [exec_wp] is its soundness.
    [held] is the machine for resources: what has been acquired and not
    released, with no release or use of what is not held.  [run] executes a
    program against a world that computes the answers. *)

From stdpp Require Import prelude list.
From Stdlib Require Import ZArith Lia.
From S2P Require Import Prelude.

(** ** Programs *)

(** The calls of a program and the type of the answer of each. *)
Structure calls := mk_calls { call :> Type; answer : call → Type }.

Section prog.
  Context {C : calls}.

Inductive prog (A : Type) : Type :=
  | Ret (a : A)
  | Call (c : C) (k : answer C c → prog A)
  | Running.
Arguments Ret {A} _.
Arguments Call {A} _ _.
Arguments Running {A}.

Fixpoint bind {A B} (p : prog A) (f : A → prog B) : prog B :=
  match p with
  | Ret a => f a
  | Call c k => Call c (λ r, bind (k r) f)
  | Running => Running
  end.

(** One call. *)
Definition sys (c : C) : prog (answer C c) := Call c Ret.

(** [body] again and again until it returns [inr]; [fuel] iterations are
    followed. *)
Fixpoint iter {S A} (fuel : nat) (body : S → prog (S + A)) (s : S) : prog A :=
  match fuel with
  | O => Running
  | S fuel => bind (body s) (λ r, match r with inl s' => iter fuel body s' | inr a => Ret a end)
  end.

(** A [for] loop over a list. *)
Fixpoint for_each {S X} (body : X → S → prog S) (l : list X) (s : S) : prog S :=
  match l with
  | [] => Ret s
  | x :: l' => bind (body x s) (λ s', for_each body l' s')
  end.

(** ** Traces *)

Definition event : Type := sigT (answer C).
Definition ev (c : C) (r : answer C c) : event := existT c r.

(** [exec p tr o]: [p] can make the calls [tr] with these answers; [o] is its
    result, or [None] when it has not finished. *)
Inductive exec {A} : prog A → list event → option A → Prop :=
  | exec_now p : exec p [] None
  | exec_ret a : exec (Ret a) [] (Some a)
  | exec_call c k r tr o : exec (k r) tr o → exec (Call c k) (ev c r :: tr) o.
End prog.
Arguments prog : clear implicits.
Arguments event : clear implicits.
Arguments Ret {C A} _.
Arguments Call {C A} _ _.
Arguments Running {C A}.

Notation "'let!' x ':=' p 'in' q" := (bind p (λ x, q))
  (at level 200, x pattern, p at level 100, q at level 200) : c_scope.
Notation "p ';!' q" := (bind p (λ _, q)) (at level 199, right associativity, q at level 200) : c_scope.

(** ** Watching a program *)

(** [accept g e] is the state after the call and answer [e], [None] when the
    call is against the rules; [assume g e] is what may be assumed of the
    answer. *)
Structure watcher (C : calls) (G : Type) := mk_watcher {
  assume : G → event C → Prop;
  accept : G → event C → option G;
}.
Arguments assume {C G} _ _ _.
Arguments accept {C G} _ _ _.

Section wp.
  Context {C : calls} {G : Type} (W : watcher C G).

(** [total]: whether the program must also finish. *)
Fixpoint wp (total : bool) {A} (p : prog C A) (Q : A → G → Prop) (g : G) : Prop :=
  match p with
  | Ret a => Q a g
  | Call c k =>
      ∀ r, assume W g (ev c r) →
        match accept W g (ev c r) with Some g' => wp total (k r) Q g' | None => False end
  | Running => total = false
  end.

(** The state after a trace. *)
Fixpoint watch (g : G) (tr : list (event C)) : option G :=
  match tr with
  | [] => Some g
  | e :: tr' => match accept W g e with Some g' => watch g' tr' | None => None end
  end.

Fixpoint assumed (g : G) (tr : list (event C)) : Prop :=
  match tr with
  | [] => True
  | e :: tr' => assume W g e ∧ match accept W g e with Some g' => assumed g' tr' | None => True end
  end.

Lemma wp_mono total {A} (p : prog C A) (Q Q' : A → G → Prop) : ∀ g,
  wp total p Q g → (∀ a g', Q a g' → Q' a g') → wp total p Q' g.
Proof.
  induction p as [a|c k IH|]; intros g Hp HQ; cbn in *; [by apply HQ| |done].
  intros r Hr. specialize (Hp r Hr). destruct (accept W g (ev c r)); [|done]. by apply IH.
Qed.

Lemma wp_bind total {A B} (p : prog C A) (f : A → prog C B) (Q : B → G → Prop) : ∀ g,
  wp total p (λ a g', wp total (f a) Q g') g → wp total (bind p f) Q g.
Proof.
  induction p as [a|c k IH|]; intros g Hp; cbn in *; [done| |done].
  intros r Hr. specialize (Hp r Hr). destruct (accept W g (ev c r)); [|done]. by apply IH.
Qed.

(** The rule for loops: an invariant, and for termination a variant that is
    below the fuel. *)
Lemma wp_iter total {S A} (I : nat → S → G → Prop) (body : S → prog C (S + A)) (Q : A → G → Prop) :
  (∀ n s g, I n s g →
    wp total (body s) (λ r g',
      match r with
      | inl s' => ∃ n', (total = true → n' < n)%nat ∧ I n' s' g'
      | inr a => Q a g'
      end) g) →
  ∀ fuel n s g, (total = true → n < fuel)%nat → I n s g → wp total (iter fuel body s) Q g.
Proof.
  intros Hb. induction fuel as [|fuel IH]; intros n s g Hn HI; cbn.
  { destruct total; [|done]. specialize (Hn eq_refl). lia. }
  apply wp_bind. eapply wp_mono; [by apply (Hb n)|]. intros [s'|a] g' Hr; [|done].
  destruct Hr as (n' & Hlt & HI'). apply (IH n'); [|done]. intros Ht. specialize (Hn Ht). specialize (Hlt Ht). lia.
Qed.

Lemma wp_for_each total {S X} (I : list X → S → G → Prop) (body : X → S → prog C S) (Q : S → G → Prop) :
  (∀ x l s g, I (x :: l) s g → wp total (body x s) (λ s' g', I l s' g') g) →
  (∀ s g, I [] s g → Q s g) →
  ∀ l s g, I l s g → wp total (for_each body l s) Q g.
Proof.
  intros Hb HQ. induction l as [|x l IH]; intros s g HI; cbn; [by apply HQ|].
  apply wp_bind. eapply wp_mono; [by apply (Hb x l)|]. intros s' g' HI'. by apply IH.
Qed.

(** Loops that leave the state of the watcher as it was. *)
Lemma wp_iter_keep {S A} fuel (body : S → prog C (S + A)) (Q : A → G → Prop) s g :
  (∀ s, wp false (body s) (λ r g', match r with inl _ => g' = g | inr a => Q a g' end) g) →
  wp false (iter fuel body s) Q g.
Proof.
  intros Hb. apply (wp_iter false (λ _ _ g', g' = g)) with (n := O); [|done|done].
  intros n s' g' ->. eapply wp_mono; [apply Hb|]. intros [s1|a] g1 H; [by exists O|done].
Qed.

Lemma wp_for_each_keep {S X} total (body : X → S → prog C S) (Q : S → G → Prop) l s g :
  (∀ x s, wp total (body x s) (λ _ g', g' = g) g) → (∀ s, Q s g) →
  wp total (for_each body l s) Q g.
Proof.
  intros Hb HQ. apply (wp_for_each total (λ _ _ g', g' = g)); [|by intros ? ? ->|done].
  intros x l' s' g' ->. apply Hb.
Qed.

(** Soundness: along every execution whose answers are as assumed no rule is
    broken, and a result satisfies the postcondition. *)
Lemma exec_wp total {A} (p : prog C A) (Q : A → G → Prop) tr o :
  exec p tr o → ∀ g, wp total p Q g → assumed g tr →
  ∃ g', watch g tr = Some g' ∧ match o with Some a => Q a g' | None => True end.
Proof.
  induction 1 as [p|a|c k r tr o _ IH]; intros g Hp Hass; cbn in *; [by exists g|by exists g|].
  destruct Hass as [Hr Hass]. specialize (Hp r Hr). destruct (accept W g (ev c r)) as [g'|]; [|done]. by apply IH.
Qed.

Lemma watch_app g tr1 tr2 : watch g (tr1 ++ tr2) = g' ← watch g tr1; watch g' tr2.
Proof. revert g. induction tr1 as [|e tr1 IH]; intros g; cbn; [done|]. by destruct (accept W g e). Qed.
End wp.

(** Symbolic execution: [wp_next reduce] takes one step through the program;
    [reduce] evaluates what the watcher makes of a call. *)
Ltac wp_cases b := let E := fresh "E" in destruct b eqn:E; cbn in E; try congruence; try (exfalso; lia).

Ltac wp_next reduce :=
  lazymatch goal with
  | |- wp _ _ (bind _ _) _ _ => apply wp_bind
  | |- wp _ _ (Ret _) _ _ => cbn [wp]
  | |- wp _ _ (sys _) _ _ =>
      cbn [sys wp]; let r := fresh "r" in let H := fresh "H" in intros r H; cbn in r; reduce r H
  | |- ∀ r, assume _ _ _ → _ =>
      let r := fresh "r" in let H := fresh "H" in intros r H; cbn in r; reduce r H
  | |- wp _ _ (let '(_, _) := ?x in _) _ _ => destruct x
  | |- wp _ _ (if ?b then _ else _) _ _ => wp_cases b
  | |- wp _ _ (match ?x with _ => _ end) _ _ => wp_cases x
  end.

(** ** Resources *)

(** What a call does to resources named by [X]. *)
Inductive act (X : Type) := Acquire (x : X) | Release (x : X) | Drop (x : X) | Use (x : X) | Nothing.
Arguments Acquire {X} _.
Arguments Release {X} _.
Arguments Drop {X} _.
Arguments Use {X} _.
Arguments Nothing {X}.

Section resources.
  Context {C : calls} {X : Type} `{!EqDecision X} (effect : event C → list (act X)).

Definition remove_one (x : X) (l : list X) : list X := bfilter (λ y, negb (bool_decide (y = x))) l.

(** A resource is not acquired twice, and only what is held is used or
    released; to drop something that is not held does nothing. *)
Definition do_act (h : list X) (a : act X) : option (list X) :=
  match a with
  | Acquire x => if bool_decide (x ∈ h) then None else Some (x :: h)
  | Release x => if bool_decide (x ∈ h) then Some (remove_one x h) else None
  | Drop x => Some (remove_one x h)
  | Use x => if bool_decide (x ∈ h) then Some h else None
  | Nothing => Some h
  end.

Fixpoint do_acts (h : list X) (l : list (act X)) : option (list X) :=
  match l with
  | [] => Some h
  | a :: l' => match do_act h a with Some h' => do_acts h' l' | None => None end
  end.

Fixpoint held (h : list X) (tr : list (event C)) : option (list X) :=
  match tr with
  | [] => Some h
  | e :: tr' => match do_acts h (effect e) with Some h' => held h' tr' | None => None end
  end.

(** The machine as a watcher that assumes nothing. *)
Definition holder : watcher C (list X) := mk_watcher C (list X) (λ _ _, True) (λ h e, do_acts h (effect e)).

Lemma watch_held h tr : watch holder h tr = held h tr.
Proof. revert h. induction tr as [|e tr IH]; intros h; cbn; [done|]. destruct (do_acts h (effect e)); [apply IH|done]. Qed.

Lemma assumed_held h tr : assumed holder h tr.
Proof. revert h. induction tr as [|e tr IH]; intros h; cbn; [done|]. split; [done|]. destruct (do_acts h (effect e)); [apply IH|done]. Qed.

(** A program that is correct for the machine keeps to the rules along every
    execution, finished or not. *)
Lemma exec_held {A} (p : prog C A) (Q : A → list X → Prop) h tr o :
  wp holder false p Q h → exec p tr o →
  ∃ h', held h tr = Some h' ∧ match o with Some a => Q a h' | None => True end.
Proof.
  intros Hp He. destruct (exec_wp holder false p Q tr o He h Hp (assumed_held h tr)) as (h' & Hw & Ho).
  exists h'. by rewrite <- watch_held.
Qed.

(** The same machine, which also notes what [fails] says a call failed to
    release. *)
Definition leaver (fails : event C → list X) : watcher C (list X * list X) :=
  mk_watcher C (list X * list X) (λ _ _, True)
    (λ g e, match do_acts g.1 (effect e) with Some h => Some (h, fails e ++ g.2) | None => None end).

(** What some call of a trace failed to release. *)
Definition left_by (fails : event C → list X) (tr : list (event C)) : list X := concat (fails <$> tr).

Lemma watch_left fails tr : ∀ h s,
  watch (leaver fails) (h, s) tr = (λ h', (h', concat (reverse (fails <$> tr)) ++ s)) <$> held h tr.
Proof.
  induction tr as [|e tr IH]; intros h s; [done|]. cbn [watch accept leaver held fst snd].
  destruct (do_acts h (effect e)) as [h'|]; [|done]. rewrite IH. destruct (held h' tr); [|done]. cbn [fmap option_fmap option_map].
  change (list_fmap _ _ fails (e :: tr)) with (fails e :: (fails <$> tr)).
  rewrite reverse_cons, concat_app, <- app_assoc. cbn [concat]. by rewrite app_nil_r.
Qed.

Lemma assumed_left fails g tr : assumed (leaver fails) g tr.
Proof.
  revert g. induction tr as [|e tr IH]; intros g; cbn; [done|]. split; [done|].
  by destruct (do_acts g.1 (effect e)).
Qed.

Lemma exec_left {A} (fails : event C → list X) (p : prog C A) (Q : A → list X * list X → Prop) tr o :
  wp (leaver fails) false p Q ([], []) → exec p tr o →
  ∃ h', held [] tr = Some h'
  ∧ match o with Some a => ∃ s, Q a (h', s) ∧ ∀ x, x ∈ s → x ∈ left_by fails tr | None => True end.
Proof.
  intros Hp He. destruct (exec_wp (leaver fails) false p Q tr o He _ Hp (assumed_left fails _ tr)) as (g & Hw & Ho).
  rewrite watch_left in Hw. destruct (held [] tr) as [h'|]; [|done]. injection Hw as <-. exists h'. split; [done|].
  destruct o as [a|]; [|done]. eexists. split; [exact Ho|]. intros x. rewrite app_nil_r. unfold left_by.
  rewrite !list_elem_of_In, !in_concat. intros (l & Hl & Hx). exists l. split; [|done].
  rewrite <- list_elem_of_In in *. by apply elem_of_reverse.
Qed.
End resources.

(** ** Which calls failed *)

Section failures.
  Context {C : calls} (fails : event C → bool).

Definition failed (tr : list (event C)) : bool := existsb fails tr.

Definition failure : watcher C bool := mk_watcher C bool (λ _ _, True) (λ g e, Some (g || fails e)).

Lemma watch_failed g tr : watch failure g tr = Some (g || failed tr).
Proof.
  revert g. induction tr as [|e tr IH]; intros g; cbn; [by rewrite orb_false_r|]. by rewrite IH, orb_assoc.
Qed.

Lemma assumed_failed g tr : assumed failure g tr.
Proof. revert g. induction tr as [|e tr IH]; intros g; cbn; [done|]. split; [done|apply IH]. Qed.

Lemma exec_failed {A} (p : prog C A) (Q : A → bool → Prop) g0 tr a :
  wp failure false p Q g0 → exec p tr (Some a) → Q a (g0 || failed tr).
Proof.
  intros Hp He. destruct (exec_wp failure false p Q tr _ He g0 Hp (assumed_failed g0 tr)) as (g & Hw & Hq).
  rewrite watch_failed in Hw. by injection Hw as <-.
Qed.
End failures.

(** ** Running against a world *)

Section run.
  Context {C : calls} {Wd : Type} (reply : ∀ c : C, Wd → answer C c * Wd).

Fixpoint run {A} (p : prog C A) (w : Wd) : option A * Wd :=
  match p with
  | Ret a => (Some a, w)
  | Call c k => let '(r, w') := reply c w in run (k r) w'
  | Running => (None, w)
  end.

Lemma run_bind {A B} (p : prog C A) (f : A → prog C B) w :
  run (bind p f) w = let '(o, w') := run p w in match o with Some a => run (f a) w' | None => (None, w') end.
Proof.
  revert w. induction p as [a|c k IH|]; intros w; cbn; [done| |done].
  destruct (reply c w) as [r w']. apply IH.
Qed.

(** The calls a run makes, with their answers. *)
Fixpoint trace_of {A} (p : prog C A) (w : Wd) : list (event C) :=
  match p with
  | Ret _ => []
  | Call c k => let '(r, w') := reply c w in ev c r :: trace_of (k r) w'
  | Running => []
  end.

(** A program that must finish does, in a world that answers as assumed. *)
Lemma run_total {G A} (W : watcher C G) (p : prog C A) (Q : A → G → Prop) : ∀ g w,
  wp W true p Q g → assumed W g (trace_of p w) → is_Some (run p w).1.
Proof.
  induction p as [a|c k IH|]; intros g w Hp Hass; cbn in *; [by eexists| |done].
  destruct (reply c w) as [r w']. cbn in Hass. destruct Hass as [Hr Hass]. specialize (Hp r Hr).
  destruct (accept W g (ev c r)) as [g'|]; [|done]. by apply (IH r g').
Qed.

(** A run is one of the executions. *)
Lemma run_exec {A} (p : prog C A) w : exec p (trace_of p w) (run p w).1.
Proof.
  revert w. induction p as [a|c k IH|]; intros w; cbn; [constructor| |constructor].
  destruct (reply c w) as [r w']. constructor. apply IH.
Qed.
End run.
