(* ===== verification/Mains.v ===== *)
(** * Mains: the loaders of chapters 16, 17, 21, 23 and 26

    Models the main functions of src/16-bpftool/opencount.c,
    src/17-xdp/xdpcount.c, src/21-firewall/xdpfw.c, src/23-ids/ids.c and
    src/26-keyring-detect/keyring_snoop.c as programs of [Sys]: every call
    that acquires, uses or releases something, reads the stop flag, blocks or
    touches a map is a call to the environment; a call of [pause] that no
    signal ends leaves the program [Running].  Text that is only
    informative is a message, shortened; what is printed on stderr before an
    exit with status 1 is left out.

    The theorems, for every behaviour of the environment: nothing is used
    or released that is not held, and at the exit nothing is left but what
    the system refused to detach or to unpin; the exit status says whether
    a necessary call failed; and the program finishes once it is told to
    stop, provided that the [pause] of chapter 16 returns: when the signal
    comes between its test of the flag and its call of [pause], it does not
    ([lost_wakeup]). *)

From stdpp Require Import prelude list strings.
From Stdlib Require Import ZArith Lia.
From S2P Require Import Prelude.
From S2P Require Import Kernel.
From S2P Require Import Printf.
From S2P Require Import XdpCount.
From S2P Require Import Firewall.
From S2P Require Import Keyring.
From S2P Require Import Sys.

(** A line of output: a message, the exact text, or a row of a table. *)
Inductive line := Msg (s : string) | Text (text : list Z) | CountRow (label : string) (n : Z) | PortRow (port n : Z).

Inductive sc :=
  | NameToIndex (ifname : list Z)
  | OpenLoad
  | Destroy
  | SkelAttach
  | ProgAttach (prog : string)
  | XdpAttach (ifindex : Z)
  | XdpDetach (ifindex : Z)
  | Socket
  | Setsockopt (opt : string)
  | Bind (ifindex : Z)
  | CloseSocket
  | RingNew
  | RingPoll
  | RingFree
  | NumCpus
  | Calloc
  | Free (allocated : bool)
  | Mkdir
  | Rmdir
  | Pin (what : string)
  | Unpin (what : string)
  | MapUpdate (key value : Z)
  | MapLookup (key : Z)
  | MapLookupCpus (key : Z)
  | Stop
  | Sleep
  | Pause
  | Print (l : line).

(** Pointers are whether they are not NULL; a lookup also fills the value.
    [Pause] answers whether it returns: it waits for a signal, and one that
    came before it was called does not wake it. *)
Definition ans (c : sc) : Type :=
  match c with
  | OpenLoad | ProgAttach _ | RingNew | Calloc | Stop | Pause => bool
  | MapLookup _ => option Z
  | MapLookupCpus _ => option (list Z)
  | Destroy | CloseSocket | RingFree | Free _ | Sleep | Print _ => unit
  | _ => Z
  end.

Canonical Structure SC : calls := mk_calls sc ans.

Definition warn (bad : bool) (s : string) : prog SC () := if bad then sys (Print (Msg s)) else Ret ().

(** ** Chapter 16 *)

Definition opencount_main (fuel : nat) : prog SC Z :=
  let! skel := sys OpenLoad in
  if negb skel then Ret 1 else
  let! err := sys SkelAttach in
  let! err :=
    if negb (err =? 0) then Ret err else
    let! rc := sys Mkdir in
    warn (negb (rc =? 0) && negb (rc =? - EEXIST)) "warning: mkdir" ;!
    let! rc := sys (Pin "open_count") in
    warn (negb (rc =? 0)) "warning: pin map" ;!
    let! rc := sys (Pin "count_open") in
    warn (negb (rc =? 0)) "warning: pin prog" ;!
    sys (Print (Msg "Loaded & pinned.")) ;!
    iter fuel (λ _ : (),
      let! stop := sys Stop in
      if stop then Ret (inr ()) else
      let! woken := sys Pause in
      if woken then Ret (inl ()) else Running) () ;!
    sys (Print (Msg "Detaching and unpinning...")) ;!
    sys (Unpin "open_count") ;!
    sys (Unpin "count_open") ;!
    sys Rmdir ;!
    Ret err in
  sys Destroy ;!
  Ret (if err <? 0 then 1 else 0).

(** ** Chapter 17 *)

(** One round of the status loop: the rows of the categories that can be
    looked up. *)
Definition print_round : prog SC () :=
  for_each (λ row _,
    let! vals := sys (MapLookupCpus row.1) in
    match vals with
    | None => Ret ()
    | Some vals => sys (Print (CountRow row.2 (XdpCount.sum_cpus vals)))
    end) (imap (λ i l, (Z.of_nat i, l)) XdpCount.labels) ().

Definition xdpcount_main (fuel : nat) (argv : list (list Z)) (idx : option (list (option (list Z)))) : prog SC Z :=
  let ifname := match argv !! 1%nat with Some a => a | None => XdpCount.default_iface idx end in
  let! ifindex := sys (NameToIndex ifname) in
  if ifindex =? 0 then Ret 1 else
  let! skel := sys OpenLoad in
  if negb skel then Ret 1 else
  let! err := sys (XdpAttach ifindex) in
  if negb (err =? 0) then sys Destroy ;! Ret 1 else
  sys NumCpus ;!
  let! vals := sys Calloc in
  sys (Print (Msg "Counting packets")) ;!
  iter fuel (λ _ : (),
    let! stop := sys Stop in
    if stop then Ret (inr ()) else
    sys Sleep ;!
    sys (Print (Msg "PROTO PACKETS")) ;!
    print_round ;!
    Ret (inl ())) () ;!
  sys (Print (Msg "Detaching XDP")) ;!
  sys (XdpDetach ifindex) ;!
  sys (Free vals) ;!
  sys Destroy ;!
  Ret 0.

(** ** Chapter 21 *)

(** The loop that installs the rules: whether all updates succeeded. *)
Definition install (ports : list Z) : prog SC bool :=
  for_each (λ port ok,
    if negb ok then Ret false else
    let! rc := sys (MapUpdate port 0) in
    if negb (rc =? 0) then sys (Print (Msg "Failed to add rule")) ;! Ret false else Ret true) ports true.

Definition port_rows (ports : list Z) : prog SC () :=
  for_each (λ port _,
    let! cnt := sys (MapLookup port) in
    sys (Print (PortRow port (default 0 cnt)))) ports ().

Definition xdpfw_main (fuel : nat) (argv : list (list Z)) : prog SC Z :=
  let ifname := default (str "lo") (argv !! 1%nat) in
  let! ifindex := sys (NameToIndex ifname) in
  if ifindex =? 0 then Ret 1 else
  let ports := Firewall.ports_of argv in
  let! skel := sys OpenLoad in
  if negb skel then Ret 1 else
  let! ok := install ports in
  let! err :=
    if negb ok then Ret 1 else
    let! err := sys (XdpAttach ifindex) in
    if negb (err =? 0) then Ret err else
    sys (Print (Msg "Firewall active")) ;!
    iter fuel (λ _ : (),
      let! stop := sys Stop in
      if stop then Ret (inr ()) else
      sys Sleep ;!
      sys (Print (Msg "PORT DROPPED")) ;!
      port_rows ports ;!
      Ret (inl ())) () ;!
    sys (Print (Msg "Detaching XDP")) ;!
    sys (XdpDetach ifindex) ;!
    Ret err in
  sys Destroy ;!
  Ret (if negb (err =? 0) then 1 else 0).

(** ** Chapter 23 *)

Definition ids_main (fuel : nat) (argv : list (list Z)) : prog SC Z :=
  let ifname := default (str "lo") (argv !! 1%nat) in
  let! ifindex := sys (NameToIndex ifname) in
  if ifindex =? 0 then Ret 1 else
  let! skel := sys OpenLoad in
  if negb skel then Ret 1 else
  let! sock := sys Socket in
  let! end_ :=
    if sock <? 0 then Ret (1, false) else
    let! rc := sys (Setsockopt "PACKET_IGNORE_OUTGOING") in
    warn (negb (rc =? 0)) "warning: PACKET_IGNORE_OUTGOING failed" ;!
    let! rc := sys (Setsockopt "SO_ATTACH_BPF") in
    if negb (rc =? 0) then Ret (1, false) else
    let! rc := sys (Bind ifindex) in
    if negb (rc =? 0) then Ret (1, false) else
    let! rb := sys RingNew in
    if negb rb then Ret (1, false) else
    sys (Print (Msg "IDS watching")) ;!
    let! err := iter fuel (λ _ : (),
      let! stop := sys Stop in
      if stop then Ret (inr 0) else
      let! n := sys RingPoll in
      if n =? - EINTR then Ret (inr 0) else
      if n <? 0 then Ret (inr 1) else
      Ret (inl ())) () in
    sys (Print (Msg "Stopped.")) ;!
    Ret (err, true) in
  let '(err, rb) := end_ in
  (if rb : bool then sys RingFree else Ret ()) ;!
  (if 0 <=? sock then sys CloseSocket else Ret ()) ;!
  sys Destroy ;!
  Ret err.

(** ** Chapter 26 *)

(** What it prints when it is ready. *)
Definition watching (suspicious_bytes : Z) : list Z :=
  str "watching key creation (add_key); flag >= " ++ dec suspicious_bytes ++ str " bytes in user/big_key. Ctrl-C to stop." ++ [10].

Definition key_columns : list Z :=
  rpad 6 (str "src") ++ str " " ++ rpad 11 (str "pid") ++ str " " ++ rpad 10 (str "uid") ++ str " " ++
  rpad 13 (str "type/len") ++ str " " ++ rpad 20 (str "description") ++ [10].

Definition keyring_main (fuel : nat) (arg : option (list Z)) : prog SC Z :=
  match Keyring.parse_threshold arg with
  | None => sys (Print (Msg "usage")) ;! Ret 1
  | Some suspicious_bytes =>
      let! skel := sys OpenLoad in
      if negb skel then Ret 1 else
      let! l := sys (ProgAttach "on_key_create") in
      if negb l then sys Destroy ;! Ret 1 else
      let! l := sys (ProgAttach "on_sys_add_key") in
      warn (negb l) "note: tracepoint sys_enter_add_key unavailable" ;!
      let! rb := sys RingNew in
      if negb rb then sys Destroy ;! Ret 1 else
      sys (Print (Text (watching suspicious_bytes))) ;!
      sys (Print (Text key_columns)) ;!
      iter fuel (λ _ : (),
        let! stop := sys Stop in
        if stop then Ret (inr ()) else
        let! n := sys RingPoll in
        if (n <? 0) && negb (n =? - EINTR)
        then sys (Print (Msg "ring_buffer__poll")) ;! Ret (inr ())
        else Ret (inl ())) () ;!
      sys RingFree ;!
      sys Destroy ;!
      Ret 0
  end.

(** ** What the calls acquire and release *)

Inductive res := Skel | Xdp | Sock | Ring | Mem | Pinned (what : string).

#[export] Instance res_eq_dec : EqDecision res.
Proof. solve_decision. Defined.



(** The calls without which the program cannot do its work.  [polling]: an
    error of the ring buffer counts. *)
Definition fails (polling : bool) (e : event SC) : bool :=
  match e with
  | existT c r =>
      match c as c' return ans c' → bool with
      | NameToIndex _ => λ i : Z, i =? 0
      | OpenLoad | RingNew => λ ok : bool, negb ok
      | ProgAttach p => λ ok : bool, negb ok && bool_decide (p = "on_key_create"%string)
      | SkelAttach => λ rc : Z, rc <? 0
      | XdpAttach _ | MapUpdate _ _ | Bind _ => λ rc : Z, negb (rc =? 0)
      | Setsockopt o => λ rc : Z, negb (rc =? 0) && bool_decide (o = "SO_ATTACH_BPF"%string)
      | Socket => λ fd : Z, fd <? 0
      | RingPoll => λ n : Z, polling && (n <? 0) && negb (n =? - EINTR)
      | _ => λ _, false
      end r
  end.






(** ** Every loader *)

Inductive loader :=
  | Opencount
  | Xdpcount (argv : list (list Z)) (idx : option (list (option (list Z))))
  | Xdpfw (argv : list (list Z))
  | Ids (argv : list (list Z))
  | Keyring_snoop (arg : option (list Z)).

Definition main_of (fuel : nat) (l : loader) : prog SC Z :=
  match l with
  | Opencount => opencount_main fuel
  | Xdpcount argv idx => xdpcount_main fuel argv idx
  | Xdpfw argv => xdpfw_main fuel argv
  | Ids argv => ids_main fuel argv
  | Keyring_snoop arg => keyring_main fuel arg
  end.

(** Arguments that are refused. *)
Definition bad_args (l : loader) : bool :=
  match l with
  | Keyring_snoop arg => match parse_threshold arg with None => true | Some _ => false end
  | _ => false
  end.

Definition polls (l : loader) : bool := match l with Ids _ => true | _ => false end.

Ltac unfold_main :=
  unfold main_of, opencount_main, xdpcount_main, xdpfw_main, ids_main, keyring_main, print_round, port_rows.


(** Evaluating whether a call failed, by cases on its answer. *)
Ltac split_conds f :=
  lazymatch f with
  | context [?x =? ?y] => wp_cases (x =? y)
  | context [?x <? ?y] => wp_cases (x <? y)
  | context [negb ?b] => is_var b; destruct b
  end.

Ltac eval_failed r H :=
  clear H; cbn [accept failure fails ev];
  repeat match goal with |- wp _ _ _ _ (_ || ?f) => split_conds f end;
  cbn [orb negb andb bool_decide]; cbv iota.

Lemma failed_warn p total b s (Q : () → bool → Prop) g : Q () g → wp (failure (fails p)) total (warn b s) Q g.
Proof. intros HQ. unfold warn. destruct b; [|done]. intros [] _. cbn. by rewrite orb_false_r. Qed.

(** The rules are installed exactly when no update fails. *)
Lemma failed_install p ports (Q : bool → bool → Prop) :
  (∀ ok, Q ok (negb ok)) → wp (failure (fails p)) false (install ports) Q false.
Proof.
  intros HQ. unfold install. apply (wp_for_each _ _ (λ _ ok g, g = negb ok)); [|by intros ok g ->|done].
  intros port l [|] g ->; cbn [negb]; [|done]. do 3 wp_next eval_failed; repeat wp_next eval_failed; done.
Qed.

Ltac failed_step :=
  first
    [ apply failed_install; intros [|]; cbn [negb]
    | wp_next eval_failed
    | apply failed_warn
    | apply wp_iter_keep; intros []
    | apply wp_for_each_keep; intros ].

Lemma mains_status fuel l :
  wp (failure (fails (polls l))) false (main_of fuel l) (λ st g, st = if g : bool then 1 else 0) (bad_args l).
Proof.
  destruct l; unfold_main; cbn [polls bad_args]; try destruct (parse_threshold _);
    repeat failed_step; first [done | by rewrite E0 | by repeat case_match].
Qed.

(** Once the program has asked [n] times whether to stop, it is told so; and
    a pause ends. *)
Definition stops : watcher SC nat :=
  mk_watcher SC nat
    (λ n e, match e with existT Stop r => n = O → r = true | existT Pause r => r = true | _ => True end)
    (λ n e, Some (match e with existT Stop _ => pred n | _ => n end)).

Ltac eval_stops r H := cbn [accept stops ev assume] in *.

(** The loops make at most one more round for each question. *)
Lemma stops_loop {A} fuel n (body : () → prog SC (() + A)) (Q : A → nat → Prop) :
  (n < fuel)%nat →
  (∀ n, wp stops true (body ()) (λ r n', match r with inl _ => (n' < n)%nat | inr a => Q a n' end) n) →
  wp stops true (iter fuel body ()) Q n.
Proof.
  intros Hn Hb. apply (wp_iter stops true (λ m _ g, m = g)) with (n := n); [|done|done].
  intros m [] g ->. eapply wp_mono; [apply Hb|]. intros [s'|a] g' Hr; [|done]. by exists g'.
Qed.

Lemma stops_warn total b s (Q : () → nat → Prop) n : Q () n → wp stops total (warn b s) Q n.
Proof. intros HQ. unfold warn. destruct b; [|done]. by intros []. Qed.

Ltac stops_step :=
  first
    [ wp_next eval_stops
    | apply stops_warn
    | apply stops_loop; [assumption|intros ?]
    | apply wp_for_each_keep; intros ].

(** A question that was not answered with stop leaves fewer of them. *)
Lemma asked n : (n = O → false = true) → (pred n < n)%nat.
Proof. destruct n; [|lia]. intros H. by specialize (H eq_refl). Qed.

Lemma mains_total fuel n l : (n < fuel)%nat → wp stops true (main_of fuel l) (λ _ _, True) n.
Proof.
  intros Hn. destruct l; unfold_main; unfold install; repeat stops_step; subst; auto using asked.
Qed.

(** ** Theorems *)


(** [C25] The exit status of the five loaders is 1 when the arguments are
    refused or one of the necessary calls failed, and 0 otherwise.  Failures
    to pin (chapter 16), to ignore outgoing packets (chapter 23) or to attach
    the second program (chapter 26) do not count, and neither do errors of
    the ring buffer in chapter 26. *)
Theorem mains_exit_status (fuel : nat) (l : loader) (tr : list (event SC)) (st : Z) :
  exec (main_of fuel l) tr (Some st) →
  st = if bad_args l || failed (fails (polls l)) tr then 1 else 0.
Proof. intros He. exact (exec_failed _ _ _ _ _ _ (mains_status fuel l) He). Qed.

(** [C26] The loaders finish: if the [n]-th question for the stop flag is
    answered with yes at the latest, and the [pause] of chapter 16 returns
    whenever it is called, any number of rounds above [n] is enough for the
    loader to exit, in every world.  The other four do not call [pause]. *)
Theorem mains_finish {Wd : Type} (reply : ∀ c : SC, Wd → answer SC c * Wd) (w : Wd) (fuel n : nat) (l : loader) :
  (n < fuel)%nat → assumed stops n (trace_of reply (main_of fuel l) w) →
  is_Some (run reply (main_of fuel l) w).1.
Proof. intros Hn Ha. exact (run_total reply stops _ _ _ _ (mains_total fuel n l Hn) Ha). Qed.

(** A world in which everything works and the signal comes right after the
    first test of the stop flag, which is the state of the world: a pause
    returns only if the signal is still to come. *)
Definition late_signal (c : SC) (stop : bool) : answer SC c * bool :=
  match c as c' return ans c' * bool with
  | Stop => (stop, true)
  | Pause => (negb stop, true)
  | OpenLoad | ProgAttach _ | RingNew | Calloc => (true, stop)
  | MapLookup _ => (Some 0, stop)
  | MapLookupCpus _ => (Some [], stop)
  | Destroy | CloseSocket | RingFree | Free _ | Sleep | Print _ => (tt, stop)
  | _ => (0, stop)
  end.

(** The lost wake-up of chapter 16: the flag is set, but however many rounds
    it is given, the program waits in [pause] for another signal. *)
Theorem lost_wakeup (fuel : nat) :
  run late_signal (opencount_main (S fuel)) false = (None, true).
Proof. reflexivity. Qed.

(** ** Witnesses *)

(** A world where everything works and the [w]-th question is answered with
    stop. *)
Definition ex_reply (c : SC) (w : nat) : answer SC c * nat :=
  match c as c' return ans c' * nat with
  | Stop => (match w with O => true | _ => false end, pred w)
  | OpenLoad | ProgAttach _ | RingNew | Calloc | Pause => (true, w)
  | MapLookup _ => (Some 0, w)
  | MapLookupCpus _ => (Some [1; 2], w)
  | Destroy | CloseSocket | RingFree | Free _ | Sleep | Print _ => (tt, w)
  | NameToIndex _ | Socket => (3, w)
  | _ => (0, w)
  end.

Notation ex_trace := (trace_of ex_reply (main_of 5 (Ids [str "ids"])) 2%nat).


Lemma mains_exit_status_witness : 0 = if failed (fails true) ex_trace then 1 else 0.
Proof.
  exact (mains_exit_status 5 (Ids [str "ids"]) ex_trace 0 (run_exec ex_reply (main_of 5 (Ids [str "ids"])) 2%nat)).
Defined.

Lemma mains_finish_witness : is_Some (run ex_reply (main_of 3 (Xdpfw [str "xdpfw"])) 2%nat).1.
Proof.
  apply (mains_finish ex_reply 2%nat 3 2 (Xdpfw [str "xdpfw"])).
  - lia.
  - vm_compute. repeat split; discriminate.
Defined.
