(* ===== verification/FirewallRun.v ===== *)
(** * FirewallRun: a whole session of the firewall (chapter 21)

    Composes the loader ([Mains.xdpfw_main]) with the program it loads
    ([Firewall.xdp_fw]): [reply] is a world in which every call works, a
    batch of packets arrives during each second the loader sleeps, each
    packet goes through the program while it is attached, and the user
    presses Ctrl-C after the last batch.

    The theorem: from the command line to the printed tables, every packet
    gets the verdict the arguments ask for, every table has the numbers of
    packets dropped so far, and the interface is free again at the end. *)

From stdpp Require Import prelude gmap list strings.
From Stdlib Require Import ZArith Lia.
From S2P Require Import Prelude.
From S2P Require Import Kernel.
From S2P Require Import Packet.
From S2P Require Import Firewall.
From S2P Require Import Sys.
From S2P Require Import Mains.

Section world.
  Context {M : Type} `{!BpfMap M Z Z}.

(** The map of the loaded program, what is still to arrive, whether the
    program is attached, the verdicts and the output so far. *)
Record world := mk_world {
  blocklist : M;
  arriving : list (list (list Z));
  attached : bool;
  verdicts : list xdp_action;
  out : list line;
}.

(** A batch of packets on the interface. *)
Definition deliver (w : world) : world :=
  match arriving w with
  | [] => w
  | batch :: rest =>
      if attached w then
        match filter_packets batch (blocklist w) with
        | Some (acts, m) => mk_world m rest true (verdicts w ++ acts) (out w)
        | None => mk_world (blocklist w) rest true (verdicts w) (out w)
        end
      else mk_world (blocklist w) rest false (verdicts w ++ ((λ _, XDP_PASS) <$> batch)) (out w)
  end.

Definition reply (c : SC) (w : world) : answer SC c * world :=
  match c as c' return ans c' * world with
  | NameToIndex _ => (2, w)
  | OpenLoad => (true, mk_world map_empty (arriving w) (attached w) (verdicts w) (out w))
  | MapUpdate k v =>
      let '(rc, m) := map_update_elem (blocklist w) k v BPF_ANY in
      (rc, mk_world m (arriving w) (attached w) (verdicts w) (out w))
  | MapLookup k => (map_lookup_elem (blocklist w) k, w)
  | XdpAttach _ => (0, mk_world (blocklist w) (arriving w) true (verdicts w) (out w))
  | XdpDetach _ => (0, mk_world (blocklist w) (arriving w) false (verdicts w) (out w))
  | Stop => (match arriving w with [] => true | _ => false end, w)
  | Sleep => (tt, deliver w)
  | Print l => (tt, mk_world (blocklist w) (arriving w) (attached w) (verdicts w) (out w ++ [l]))
  | ProgAttach _ | RingNew | Calloc => (true, w)
  | MapLookupCpus _ => (None, w)
  | Destroy | CloseSocket | RingFree | Free _ => (tt, w)
  | Pause => (true, w)
  | _ => (0, w)
  end.

Definition boot (batches : list (list (list Z))) : world := mk_world map_empty batches false [] [].
End world.
Arguments world : clear implicits.

(** ** Specification *)

(** The verdict the ports ask for. *)
Definition fw_verdict (ports : list Z) (pkt : list Z) : xdp_action :=
  match fw_port pkt with
  | Some q => if decide (q ∈ ports) then XDP_DROP else XDP_PASS
  | None => XDP_PASS
  end.

(** The table after the packets [pkts]. *)
Definition table (ports : list Z) (pkts : list (list Z)) : list line :=
  Msg "PORT DROPPED" :: ((λ q, PortRow q (u64 (hits q pkts))) <$> ports).

(** The tables of the batches that arrive after the packets [seen]. *)
Fixpoint tables (ports : list Z) (seen : list (list Z)) (batches : list (list (list Z))) : list line :=
  match batches with
  | [] => []
  | b :: rest => table ports (seen ++ b) ++ tables ports (seen ++ b) rest
  end.

Section proof.
  Context {M : Type} `{!BpfMap M Z Z} `{!BpfHashLaws M Z Z MAX_RULES}.
  Implicit Types (w : world M).

Lemma hits_app q p1 p2 : hits q (p1 ++ p2) = hits q p1 + hits q p2.
Proof. unfold hits. rewrite bfilter_app, length_app. lia. Qed.

(** The map has the counts of the packets seen. *)
Definition counted (ports : list Z) (seen : list (list Z)) (m : M) : Prop :=
  ∀ q, map_view m !! q = if decide (q ∈ ports) then Some (u64 (hits q seen)) else None.

Lemma counted_filter ports seen batch m :
  counted ports seen m → Forall (Forall is_byte) batch →
  ∃ m', filter_packets batch m = Some (fw_verdict ports <$> batch, m') ∧ counted ports (seen ++ batch) m'.
Proof.
  intros Hc Hb. destruct (filter_packets_spec batch m Hb) as (m' & Hf & Hq). exists m'. split.
  - rewrite Hf. do 2 f_equal. apply list_fmap_ext. intros i p _. unfold verdict, fw_verdict.
    destruct (fw_port p) as [q|]; [|done]. rewrite Hc. destruct (decide (q ∈ ports));
      [by rewrite decide_True by (by eexists)|by rewrite decide_False by apply is_Some_None].
  - intros q. specialize (Hq q). rewrite Hc in Hq. destruct (decide (q ∈ ports)); [|done]. rewrite Hq, hits_app.
    f_equal. case_decide as H0; [by rewrite H0, Z.add_0_r|]. apply u64_add_l.
Qed.

(** The loop of [install] is [install_rules]. *)
Lemma run_install ports w m :
  install_rules ports (blocklist w) = Some m →
  run reply (install ports) w = (Some true, mk_world m (arriving w) (attached w) (verdicts w) (out w)).
Proof.
  unfold install. revert w. induction ports as [|p ports IH]; intros w; cbn [install_rules for_each].
  { intros [= <-]. by destruct w. }
  intros Hi. rewrite run_bind. cbn. destruct (map_update_elem (blocklist w) p 0 BPF_ANY) as [rc m1].
  destruct (rc =? 0); [|done]. cbn. exact (IH (mk_world m1 _ _ _ _) Hi).
Qed.

Lemma run_port_rows ports seen l w :
  counted ports seen (blocklist w) → l ⊆ ports →
  run reply (port_rows l) w
  = (Some (), mk_world (blocklist w) (arriving w) (attached w) (verdicts w)
       (out w ++ ((λ q, PortRow q (u64 (hits q seen))) <$> l))).
Proof.
  unfold port_rows. revert w. induction l as [|p l IH]; intros w Hc Hl; cbn [for_each].
  { cbn. rewrite app_nil_r. by destruct w. }
  rewrite run_bind. cbn. rewrite map_lookup_view, Hc, decide_True by set_solver. cbn.
  rewrite IH; [|done|set_solver]. cbn. by rewrite <- app_assoc.
Qed.

(** The status loop, from the point where the packets [seen] were counted. *)
Lemma run_loop ports batches : ∀ fuel seen w,
  (length batches < fuel)%nat → Forall (Forall (Forall is_byte)) batches →
  arriving w = batches → attached w = true → counted ports seen (blocklist w) →
  ∃ m, counted ports (seen ++ concat batches) m ∧
  run reply (iter fuel (λ _ : (),
      let! stop := sys Stop in
      if stop then Ret (inr ()) else
      sys Sleep ;! sys (Print (Msg "PORT DROPPED")) ;! port_rows ports ;! Ret (inl ())) ()) w
  = (Some (), mk_world m [] true (verdicts w ++ (fw_verdict ports <$> concat batches))
       (out w ++ tables ports seen batches)).
Proof.
  induction batches as [|b batches IH]; intros fuel seen w Hf Hb Ha Hat Hc; (destruct fuel as [|fuel]; [simpl in Hf; lia|]).
  - exists (blocklist w). rewrite app_nil_r. split; [done|]. cbn. rewrite Ha. cbn. rewrite !app_nil_r.
    destruct w; simpl in *; by subst.
  - apply Forall_cons in Hb as [Hb1 Hb2]. destruct (counted_filter ports seen b (blocklist w) Hc Hb1) as (m & Hm & Hc').
    cbn [iter]. cbn. rewrite Ha. cbn. unfold deliver. rewrite Ha, Hat, Hm. rewrite !run_bind.
    rewrite (run_port_rows ports (seen ++ b)) by (cbn; done || set_solver). cbn.
    destruct (IH fuel (seen ++ b) (mk_world m batches true (verdicts w ++ (fw_verdict ports <$> b))
      ((out w ++ [Msg "PORT DROPPED"]) ++ ((λ q, PortRow q (u64 (hits q (seen ++ b)))) <$> ports))))
      as (m' & Hm' & Hr); [simpl in Hf; lia|done|done|done|done|].
    exists m'. split; [by rewrite app_assoc|]. etrans; [exact Hr|]. cbn. rewrite fmap_app, <- !app_assoc. done.
Qed.
End proof.

Section session.
  Context {M : Type} `{!BpfMap M Z Z}.

(** [C9] A session of the firewall: started with the arguments [argv] while
    the batches of packets arrive one per second, the loader exits with
    status 0 and the interface is free again; every packet was dropped or
    passed as the ports of the command line say; and after every second the
    table has, for each port in order, the number of packets dropped on it
    so far. *)
Theorem firewall_session `{!BpfHashLaws M Z Z MAX_RULES}
    (argv : list (list Z)) (batches : list (list (list Z))) (fuel : nat) :
  (length batches < fuel)%nat → Forall (Forall (Forall is_byte)) batches →
  let ports := ports_of argv in
  ∃ m : M,
    run reply (xdpfw_main fuel argv) (boot batches)
    = (Some 0, mk_world m [] false (fw_verdict ports <$> concat batches)
        (Msg "Firewall active" :: tables ports [] batches ++ [Msg "Detaching XDP"])).
Proof.
  intros Hf Hb ports. destruct (ports_of_ok argv) as (Hlen & _ & _). fold ports in Hlen.
  destruct (install_rules_spec ports (map_empty : M)) as (m0 & Hi & Hv).
  { rewrite map_empty_view, map_size_empty. lia. }
  assert (Hc : counted ports [] m0).
  { intros q. by rewrite Hv, map_empty_view, lookup_empty. }
  destruct (run_loop ports batches fuel [] (mk_world m0 batches true [] [Msg "Firewall active"]) Hf Hb eq_refl eq_refl Hc)
    as (m & _ & Hr).
  exists m. unfold xdpfw_main. cbn. fold ports. rewrite run_bind.
  rewrite (run_install ports (mk_world map_empty batches false [] []) m0 Hi). cbn [negb]. rewrite !run_bind. cbn. rewrite run_bind.
  cbn in Hr. rewrite Hr. done.
Qed.
End session.

(** ** Witness *)

(** xdpfw lo 11111 53, with two datagrams in the first second and one in the
    second. *)
Lemma firewall_session_witness :
  ∃ m, run (@reply _ (gmap_hash MAX_RULES)) (xdpfw_main 3 [str "xdpfw"; str "lo"; str "11111"; str " 53"])
         (@boot _ (gmap_hash MAX_RULES) [[ex_udp 43 103; ex_udp 0 80]; [ex_udp 43 103]])
  = (Some 0, mk_world m [] false [XDP_DROP; XDP_PASS; XDP_DROP]
      [Msg "Firewall active";
       Msg "PORT DROPPED"; PortRow 11111 1; PortRow 53 0;
       Msg "PORT DROPPED"; PortRow 11111 2; PortRow 53 0;
       Msg "Detaching XDP"]).
Proof.
  destruct (@firewall_session _ (gmap_hash MAX_RULES) (gmap_hash_laws MAX_RULES)
    [str "xdpfw"; str "lo"; str "11111"; str " 53"] [[ex_udp 43 103; ex_udp 0 80]; [ex_udp 43 103]] 3) as (m & Hm).
  - simpl. lia.
  - apply (bool_decide_unpack _). vm_compute. exact I.
  - exists m. exact Hm.
Defined.
