(* ===== verification/CountRun.v ===== *)
(** * CountRun: a whole session of the packet counter (chapter 17)

    Composes the loader ([Mains.xdpcount_main]) with the program it loads
    ([XdpCount.xdp_count]): [reply] is a world in which every call works, a
    batch of packets, each on some CPU, arrives during each second the
    loader sleeps, and the user presses Ctrl-C after the last batch.

    The theorem: every packet is passed on, and every table that is printed
    has the number of packets of each category so far, over all the CPUs. *)

From stdpp Require Import prelude gmap list strings.
From Stdlib Require Import ZArith Lia.
From S2P Require Import Prelude.
From S2P Require Import Kernel.
From S2P Require Import Packet.
From S2P Require Import XdpCount.
From S2P Require Import Sys.
From S2P Require Import Mains.

Section world.
  Context {A : Type} `{!PercpuArray A Z}.

(** The array of the loaded program, what is still to arrive, whether the
    program is attached, the verdicts and the output so far. *)
Record world := mk_world {
  counts : A;
  arriving : list (list (nat * list Z));
  attached : bool;
  verdicts : list xdp_action;
  out : list line;
}.

(** A batch of packets on the interface. *)
Definition deliver (w : world) : world :=
  match arriving w with
  | [] => w
  | batch :: rest =>
      if attached w then
        match receive batch (counts w) with
        | Some (acts, a) => mk_world a rest true (verdicts w ++ acts) (out w)
        | None => mk_world (counts w) rest true (verdicts w) (out w)
        end
      else mk_world (counts w) rest false (verdicts w ++ ((λ _, XDP_PASS) <$> batch)) (out w)
  end.

Definition reply (c : SC) (w : world) : answer SC c * world :=
  match c as c' return ans c' * world with
  | NameToIndex _ => (2, w)
  | XdpAttach _ => (0, mk_world (counts w) (arriving w) true (verdicts w) (out w))
  | XdpDetach _ => (0, mk_world (counts w) (arriving w) false (verdicts w) (out w))
  | MapLookupCpus i => (pcpu_values (counts w) i, w)
  | Stop => (match arriving w with [] => true | _ => false end, w)
  | Sleep => (tt, deliver w)
  | Print l => (tt, mk_world (counts w) (arriving w) (attached w) (verdicts w) (out w ++ [l]))
  | OpenLoad | ProgAttach _ | RingNew | Calloc => (true, w)
  | MapLookup _ => (None, w)
  | Destroy | CloseSocket | RingFree | Free _ => (tt, w)
  | Pause => (true, w)
  | _ => (0, w)
  end.

(** [zero] is the array of a program that was just loaded. *)
Definition boot (zero : A) (batches : list (list (nat * list Z))) : world := mk_world zero batches false [] [].
End world.
Arguments world : clear implicits.

(** ** Specification *)

(** The table after the packets [pkts]. *)
Definition count_table (pkts : list (nat * list Z)) : list line :=
  Msg "PROTO PACKETS" :: zip_with CountRow labels ((λ c, u64 (tally c pkts)) <$> all_cats).

Fixpoint count_tables (seen : list (nat * list Z)) (batches : list (list (nat * list Z))) : list line :=
  match batches with
  | [] => []
  | b :: rest => count_table (seen ++ b) ++ count_tables (seen ++ b) rest
  end.

Section proof.
  Context {A : Type} `{!PercpuArray A Z} (ncpu : nat) `{!PercpuArrayLaws A Z ncpu CAT_MAX}.
  Implicit Types (w : world A).

(** The array has the counts of the packets seen. *)
Definition tallied (seen : list (nat * list Z)) (a : A) : Prop :=
  ∀ c, u64 (slot_sum id a (cat_index c)) = u64 (tally c seen).

Lemma tally_app c p1 p2 : tally c (p1 ++ p2) = tally c p1 + tally c p2.
Proof. unfold tally. rewrite bfilter_app, length_app. lia. Qed.

Lemma tallied_receive seen batch a :
  tallied seen a → Forall (λ x, Forall is_byte x.2 ∧ (x.1 < ncpu)%nat) batch →
  ∃ a', receive batch a = Some (replicate (length batch) XDP_PASS, a') ∧ tallied (seen ++ batch) a'.
Proof.
  intros Ht Hb. destruct (receive_total ncpu batch a Hb) as (a' & Hr & Hs). exists a'. split; [done|].
  intros c. by rewrite Hs, (u64_congr _ _ _ (Ht c)), tally_app.
Qed.

(** The rows of categories that can be looked up. *)
Lemma run_count_rows (l : list (Z * string)) : ∀ w,
  run reply (for_each (λ row _,
      let! vals := sys (MapLookupCpus row.1) in
      match vals with None => Ret () | Some vals => sys (Print (CountRow row.2 (sum_cpus vals))) end) l ()) w
  = (Some (), mk_world (counts w) (arriving w) (attached w) (verdicts w)
       (out w ++ omap (λ row, vals ← pcpu_values (counts w) row.1; Some (CountRow row.2 (sum_cpus vals))) l)).
Proof.
  induction l as [|[i s] l IH]; intros w; cbn [for_each].
  { cbn. rewrite app_nil_r. by destruct w. }
  rewrite run_bind. cbn. destruct (pcpu_values (counts w) i) as [vals|]; cbn; rewrite IH; [|done]. cbn.
  by rewrite <- app_assoc.
Qed.

Lemma run_print_round seen w :
  tallied seen (counts w) →
  run reply print_round w
  = (Some (), mk_world (counts w) (arriving w) (attached w) (verdicts w)
       (out w ++ zip_with CountRow labels ((λ c, u64 (tally c seen)) <$> all_cats))).
Proof.
  intros Ht. unfold print_round. rewrite run_count_rows. do 3 f_equal.
  assert (Hc : ∀ i c, cat_index c = i → ∃ vals, pcpu_values (counts w) i = Some vals ∧ sum_cpus vals = u64 (tally c seen)).
  { intros i c <-. destruct (proj2 (pcpu_values_Some (counts w) _) (cat_index_range c)) as [vals Hv]. exists vals.
    split; [done|]. rewrite <- Ht, sum_cpus_sumZ. unfold slot_sum. rewrite Hv. simpl. by rewrite list_fmap_id. }
  cbn -[sum_cpus tally Z.of_nat]. destruct (Hc (Z.of_nat 0) CAT_OTHER eq_refl) as (v0 & E0 & <-). destruct (Hc (Z.of_nat 1) CAT_TCP eq_refl) as (v1 & E1 & <-).
  destruct (Hc (Z.of_nat 2) CAT_UDP eq_refl) as (v2 & E2 & <-). destruct (Hc (Z.of_nat 3) CAT_ICMP eq_refl) as (v3 & E3 & <-).
  destruct (Hc (Z.of_nat 4) CAT_IPV4_OTHER eq_refl) as (v4 & E4 & <-). destruct (Hc (Z.of_nat 5) CAT_IPV6_OTHER eq_refl) as (v5 & E5 & <-).
  destruct (Hc (Z.of_nat 6) CAT_ARP eq_refl) as (v6 & E6 & <-).
  by rewrite E0, E1, E2, E3, E4, E5, E6.
Qed.

#[local] Opaque print_round.

(** The status loop, from the point where the packets [seen] were counted. *)
Lemma run_count_loop batches : ∀ fuel seen w,
  (length batches < fuel)%nat → Forall (Forall (λ x, Forall is_byte x.2 ∧ (x.1 < ncpu)%nat)) batches →
  arriving w = batches → attached w = true → tallied seen (counts w) →
  ∃ a, tallied (seen ++ concat batches) a ∧
  run reply (iter fuel (λ _ : (),
      let! stop := sys Stop in
      if stop then Ret (inr ()) else
      sys Sleep ;! sys (Print (Msg "PROTO PACKETS")) ;! print_round ;! Ret (inl ())) ()) w
  = (Some (), mk_world a [] true (verdicts w ++ replicate (length (concat batches)) XDP_PASS)
       (out w ++ count_tables seen batches)).
Proof.
  induction batches as [|b batches IH]; intros fuel seen w Hf Hb Ha Hat Ht; (destruct fuel as [|fuel]; [simpl in Hf; lia|]).
  - exists (counts w). rewrite app_nil_r. split; [done|]. cbn. rewrite Ha. cbn. rewrite !app_nil_r.
    destruct w; simpl in *; by subst.
  - apply Forall_cons in Hb as [Hb1 Hb2]. destruct (tallied_receive seen b (counts w) Ht Hb1) as (a & Hr & Ht').
    cbn [iter]. cbn. rewrite Ha. cbn. unfold deliver. rewrite Ha, Hat, Hr. rewrite !run_bind.
    rewrite (run_print_round (seen ++ b)) by done. cbn.
    destruct (IH fuel (seen ++ b) (mk_world a batches true (verdicts w ++ replicate (length b) XDP_PASS)
      ((out w ++ [Msg "PROTO PACKETS"]) ++ zip_with CountRow labels ((λ c, u64 (tally c (seen ++ b))) <$> all_cats))))
      as (a' & Ha' & Hr'); [simpl in Hf; lia|done|done|done|done|].
    exists a'. split; [by rewrite app_assoc|]. etrans; [exact Hr'|]. cbn.
    by rewrite length_app, replicate_add, <- !app_assoc.
Qed.
End proof.

Section session.
  Context {A : Type} `{!PercpuArray A Z} (ncpu : nat).

(** [C33] A session of the packet counter: while batches of packets arrive one
    per second, on any CPUs, the loader exits with status 0 and the
    interface is free again; every packet was passed on; and after every
    second the table has, for each category, the number of its packets so
    far, whichever CPUs counted them. *)
Theorem count_session `{!PercpuArrayLaws A Z ncpu CAT_MAX}
    (argv : list (list Z)) (idx : option (list (option (list Z)))) (zero : A)
    (batches : list (list (nat * list Z))) (fuel : nat) :
  (∀ c i v, pcpu_lookup zero c i = Some v → v = 0) →
  (length batches < fuel)%nat → Forall (Forall (λ x, Forall is_byte x.2 ∧ (x.1 < ncpu)%nat)) batches →
  ∃ a : A,
    run reply (xdpcount_main fuel argv idx) (boot zero batches)
    = (Some 0, mk_world a [] false (replicate (length (concat batches)) XDP_PASS)
        (Msg "Counting packets" :: count_tables [] batches ++ [Msg "Detaching XDP"])).
Proof.
  intros Hz Hf Hb. assert (Ht : tallied [] zero).
  { intros c. by rewrite (zero_total zero _ Hz). }
  destruct (run_count_loop ncpu batches fuel [] (mk_world zero batches true [] [Msg "Counting packets"]) Hf Hb eq_refl eq_refl Ht)
    as (a & _ & Hr).
  exists a. unfold xdpcount_main. cbn. rewrite run_bind. cbn in Hr. rewrite Hr. done.
Qed.
End session.

(** ** Witness *)

(** Two packets in the first second, on different CPUs, one in the second. *)
Lemma count_session_witness :
  ∃ a, run (@reply _ (list_pcpu 2 7)) (xdpcount_main 3 [str "xdpcount"; str "lo"] None)
         (boot (λ _ _, 0) [take 2 ex_pkts; drop 2 ex_pkts])
  = (Some 0, mk_world a [] false [XDP_PASS; XDP_PASS; XDP_PASS]
      [Msg "Counting packets";
       Msg "PROTO PACKETS"; CountRow "other" 0; CountRow "TCP" 0; CountRow "UDP" 1; CountRow "ICMP" 0;
       CountRow "IPv4-other" 0; CountRow "IPv6-other" 0; CountRow "ARP" 1;
       Msg "PROTO PACKETS"; CountRow "other" 1; CountRow "TCP" 0; CountRow "UDP" 1; CountRow "ICMP" 0;
       CountRow "IPv4-other" 0; CountRow "IPv6-other" 0; CountRow "ARP" 1;
       Msg "Detaching XDP"]).
Proof.
  destruct (@count_session _ (list_pcpu 2 7) 2 (list_pcpu_laws 2 7) [str "xdpcount"; str "lo"] None (λ _ _, 0)
    [take 2 ex_pkts; drop 2 ex_pkts] 3) as (a & Ha).
  - intros c i v. simpl. destruct (_ && _); [|discriminate]. intros H. injection H as <-. reflexivity.
  - simpl. lia.
  - apply (bool_decide_unpack _). vm_compute. exact I.
  - exists a. rewrite Ha. reflexivity.
Defined.
