(* ===== verification/IdsRun.v ===== *)
(** * IdsRun: a whole session of the intrusion detection system (chapter 23)

    Composes the loader ([Mains.ids_main]) with the tap ([Ids.ids_tap]), the
    rule engine ([Ids.handle_event]) and the text of the alerts (IdsText).
    The world [reply] has a packet socket as packet(7) describes it: it hears
    the frames of all interfaces until it is bound to one, without the
    outgoing ones once it is told to ignore them; every frame it hears goes
    through the filter attached to it.  Frames arrive while the program
    starts and during each poll, and the user presses Ctrl-C after the last
    poll.  IDS_DEBUG is not set.

    The theorem: the program exits with status 0 and a closed socket, and has
    printed exactly the alerts that the records of the frames it heard
    raise, in order, as long as no flow has more than 2^31 packets: after
    that [Ids.gap_counter_overflows] has it write outside an array, where
    [rules] becomes [None]. *)

From stdpp Require Import prelude list strings.
From Stdlib Require Import ZArith Lia.
From S2P Require Import Prelude.
From S2P Require Import Kernel.
From S2P Require Import Ids.
From S2P Require Import IdsText.
From S2P Require Import Sys.
From S2P Require Import Mains.

(** A frame, when and on which interface it appears. *)
Record frame := mk_frame { iface : Z; outgoing : bool; at_ns : Z; bytes : list Z }.

Record socket := mk_socket { ignore_out : bool; tapped : bool; bound : option Z }.

(** The frames a packet socket is handed. *)
Definition hears (s : socket) (f : frame) : bool :=
  negb (ignore_out s && outgoing f) && match bound s with Some i => i =? iface f | None => true end.

Section world.
  Context {S : Type} `{!Skb S} {R : Type} `{!Ringbuf R flow_pkt, !RingReader R}.
  Variables (skb_of : list Z → S) (wall : nat → list Z) (ifindex : Z).

(** [starting]: the frames that appear before the socket is bound and before
    the first poll; [nread]: how many records have been consumed; [rules]:
    the engine, [None] once it wrote outside one of its arrays. *)
Record world := mk_world {
  sock : option socket;
  ring : R;
  nread : nat;
  rules : option engine;
  starting : list frame * list frame;
  arriving : list (list frame);
  screen : list (list Z);
}.

Definition tap (r : R) (f : frame) : R := (ids_tap (at_ns f) (skb_of (bytes f)) r).2.

(** Frames go through the filter, if there is one. *)
Definition deliver (fs : list frame) (w : world) : R :=
  match sock w with
  | Some s => if tapped s then foldl tap (ring w) (bfilter (hears s) fs) else ring w
  | None => ring w
  end.

(** The callback of the ring buffer for one record: the alerts are printed,
    each with the time of the moment. *)
Definition print_alerts (out : list (list Z)) (al : list alert) : list (list Z) :=
  foldl (λ out a, out ++ [default [] (alert_text (wall (length out)) a)]) out al.

Fixpoint consume (ps : list flow_pkt) (e : option engine) (out : list (list Z)) : option engine * list (list Z) :=
  match ps with
  | [] => (e, out)
  | p :: ps =>
      match e ≫= (λ e, handle_event e p) with
      | Some (e, al) => consume ps (Some e) (print_alerts out al)
      | None => (None, out)
      end
  end.

(** [ring_buffer__poll] hands over what was submitted and not consumed. *)
Definition poll (w : world) : world :=
  let '(fs, rest) := match arriving w with [] => ([], []) | fs :: rest => (fs, rest) end in
  let r := deliver fs w in
  let '(e, out) := consume (drop (nread w) (ringbuf_records r)) (rules w) (screen w) in
  mk_world (sock w) (ring_consumed r) (length (ringbuf_records r)) e (starting w) rest out.

Definition set_sock (s : option socket) (r : R) (w : world) : world :=
  mk_world s r (nread w) (rules w) (starting w) (arriving w) (screen w).

Definition with_sock (g : socket → socket) (w : world) : world := set_sock (g <$> sock w) (ring w) w.

Definition msg (l : line) : list Z := match l with Msg s => str s | Text t => t | _ => [] end.

Definition reply (c : SC) (w : world) : answer SC c * world :=
  match c as c' return ans c' * world with
  | NameToIndex _ => (ifindex, w)
  | Socket => (3, set_sock (Some (mk_socket false false None)) (ring w) w)
  | Setsockopt opt =>
      (0, if String.eqb opt "SO_ATTACH_BPF"
          then with_sock (λ s, mk_socket (ignore_out s) true (bound s)) w
          else if String.eqb opt "PACKET_IGNORE_OUTGOING"
          then with_sock (λ s, mk_socket true (tapped s) (bound s)) w
          else w)
  | Bind i =>
      (0, let r := deliver (starting w).1 w in
          with_sock (λ s, mk_socket (ignore_out s) (tapped s) (Some i)) (set_sock (sock w) r w))
  | RingNew => (true, set_sock (sock w) (deliver (starting w).2 w) w)
  | RingPoll => (0, poll w)
  | CloseSocket => (tt, set_sock None (ring w) w)
  | Stop => (match arriving w with [] => true | _ => false end, w)
  | Print l => (tt, mk_world (sock w) (ring w) (nread w) (rules w) (starting w) (arriving w) (screen w ++ [msg l]))
  | OpenLoad | ProgAttach _ | Calloc | Pause => (true, w)
  | MapLookup _ => (None, w)
  | MapLookupCpus _ => (None, w)
  | Destroy | RingFree | Free _ | Sleep => (tt, w)
  | _ => (0, w)
  end.

Definition boot (r : R) (starting : list frame * list frame) (batches : list (list frame)) : world :=
  mk_world None r (length (ringbuf_records r)) (Some Ids.boot) starting batches [].
End world.
Arguments world : clear implicits.

(** ** Specification *)

(** The frames the program hears: before the socket is bound those of every
    interface, afterwards those of its own, and never outgoing ones. *)
Definition heard (ifindex : Z) (starting : list frame * list frame) (batches : list (list frame)) : list frame :=
  bfilter (λ f, negb (outgoing f)) starting.1
  ++ bfilter (λ f, negb (outgoing f) && (ifindex =? iface f)) (starting.2 ++ concat batches).

(** Their records. *)
Definition records (fs : list frame) : list flow_pkt :=
  (λ f, tap_record (at_ns f) (bytes f)) <$> bfilter (λ f, tap_sees (bytes f)) fs.

(** The alerts of the packets [ps], each of its own flow and source. *)
Definition raised_by (ps : list flow_pkt) : list alert := concat ((Ids.trace_of [] ps).*2).

(** ** Lemmas *)

Section proof.
  Context {S : Type} `{!Skb S} `{!SkbLaws S} {R : Type} `{!Ringbuf R flow_pkt, !RingReader R}.
  Context {slots : nat} `{!RingReaderLaws R flow_pkt slots}.
  Variables (skb_of : list Z → S) (wall : nat → list Z) (ifindex : Z).
  Hypothesis skb_of_bytes : ∀ b, skb_bytes (skb_of b) = b.
  Implicit Types (w : world R) (r : R) (fs : list frame).

(** What was submitted grows by some of the records, all of them if the ring
    has room for them. *)
Definition submitted (ps : list flow_pkt) (r r' : R) : Prop :=
  ∃ qs, ringbuf_records r' = ringbuf_records r ++ qs ∧ qs `sublist_of` ps
  ∧ (ring_unread r' ≤ ring_unread r + length ps)%nat
  ∧ ((ring_unread r + length ps ≤ slots)%nat → qs = ps).

Lemma submitted_nil r : submitted [] r r.
Proof. exists []. rewrite app_nil_r. split_and!; [done|done|simpl; lia|done]. Qed.

Lemma submitted_app ps qs r1 r2 r3 : submitted ps r1 r2 → submitted qs r2 r3 → submitted (ps ++ qs) r1 r3.
Proof.
  intros (a & Ha & Hs & Hu & Ht) (b & Hb & Hs' & Hu' & Ht'). exists (a ++ b). rewrite Hb, Ha, app_assoc, length_app.
  split; [done|]. split; [by apply sublist_app|]. split; [lia|]. intros H. rewrite Ht, Ht' by lia. done.
Qed.

Lemma records_app fs1 fs2 : records (fs1 ++ fs2) = records fs1 ++ records fs2.
Proof. unfold records. by rewrite bfilter_app, fmap_app. Qed.

Lemma submitted_tap fs r : Forall (λ f, Forall is_byte (bytes f)) fs → submitted (records fs) r (foldl (tap skb_of) r fs).
Proof.
  revert r. induction fs as [|f fs IH]; intros r Hb; [apply submitted_nil|]. apply Forall_cons in Hb as [Hf Hb].
  change (f :: fs) with ([f] ++ fs). rewrite records_app, foldl_app. eapply submitted_app; [|by apply IH].
  cbn [foldl]. unfold tap, records. rewrite ids_tap_record by (by rewrite skb_of_bytes). rewrite skb_of_bytes. cbn.
  destruct (tap_sees (bytes f)); cbn; [|apply submitted_nil].
  pose proof (ring_room (slots := slots) r) as Hroom. unfold ring_ready in Hroom.
  destruct (ringbuf_reserve r) as [[d r']|] eqn:Hr.
  - eexists. split; [by rewrite ringbuf_submit_records, (ringbuf_reserve_records _ _ _ Hr)|]. split; [done|]. split; [|done].
    pose proof (ring_reserve_unread (slots := slots) _ _ _ Hr). cbn. etrans; [apply (ring_submit_unread (slots := slots))|lia].
  - exists []. rewrite app_nil_r. split; [done|]. split; [apply sublist_nil_l|]. split; [lia|].
    cbn. intros Hu. specialize (Hroom ltac:(lia)). done.
Qed.

Lemma trace_of_app hist ps qs :
  Ids.trace_of hist (ps ++ qs) = Ids.trace_of hist ps ++ Ids.trace_of (hist ++ ps) qs.
Proof.
  revert hist. induction ps as [|p ps IH]; intros hist; cbn; [by rewrite app_nil_r|]. by rewrite IH, <- app_assoc.
Qed.

Lemma print_alerts_app out al1 al2 : print_alerts wall out (al1 ++ al2) = print_alerts wall (print_alerts wall out al1) al2.
Proof. apply foldl_app. Qed.

Lemma consume_of ps : ∀ hist out,
  few_packets (hist ++ ps) →
  consume wall ps (Some (engine_of hist)) out
  = (Some (engine_of (hist ++ ps)), print_alerts wall out (concat (Ids.trace_of hist ps).*2)).
Proof.
  induction ps as [|p ps IH]; intros hist out Hf; cbn [consume Ids.trace_of]; [by rewrite app_nil_r|].
  assert (Happ : hist ++ p :: ps = (hist ++ [p]) ++ ps) by (by rewrite <- app_assoc). rewrite Happ in Hf.
  cbn [mbind option_bind]. rewrite handle_event_of by (by eapply few_app). rewrite IH, <- app_assoc by done. csimpl. by rewrite print_alerts_app.
Qed.

(** The records [hist] have been consumed, [pend] are waiting, and the
    socket is bound. *)
Record running (base hist pend : list flow_pkt) (out : list (list Z)) w : Prop := mk_running {
  run_sock : sock w = Some (mk_socket true true (Some ifindex));
  run_ring : ringbuf_records (ring w) = base ++ hist ++ pend;
  run_nread : nread w = length (base ++ hist);
  run_rules : rules w = Some (engine_of hist);
  run_screen : screen w = print_alerts wall out (raised_by hist);
}.

(** The frames of a bound socket. *)
Definition mine (fs : list frame) : list frame := bfilter (λ f, negb (outgoing f) && (ifindex =? iface f)) fs.

Lemma mine_app fs1 fs2 : mine (fs1 ++ fs2) = mine fs1 ++ mine fs2.
Proof. apply bfilter_app. Qed.

Lemma bytes_bfilter (p : frame → bool) fs :
  Forall (λ f, Forall is_byte (bytes f)) fs → Forall (λ f, Forall is_byte (bytes f)) (bfilter p fs).
Proof. intros H. apply Forall_forall. intros f [_ Hf]%elem_of_bfilter. by apply (proj1 (Forall_forall _ _) H). Qed.

Lemma submitted_deliver fs w s :
  sock w = Some s → tapped s = true → Forall (λ f, Forall is_byte (bytes f)) fs →
  submitted (records (bfilter (hears s) fs)) (ring w) (deliver skb_of fs w).
Proof. intros Hs Ht Hb. unfold deliver. rewrite Hs, Ht. by apply submitted_tap, bytes_bfilter. Qed.

Lemma length_records (p : frame → bool) fs : (length (records (bfilter p fs)) ≤ length fs)%nat.
Proof.
  unfold records. rewrite length_fmap. etrans; apply bfilter_length.
Qed.

(** Not more frames arrive between two polls than the ring has room for. *)
Definition fits (r : R) (batches : list (list frame)) : Prop :=
  match batches with
  | [] => True
  | fs :: rest => (ring_unread r + length fs ≤ slots)%nat ∧ Forall (λ fs, (length fs ≤ slots)%nat) rest
  end.

(** A poll consumes what was waiting and what arrives. *)
Lemma poll_running base hist pend out fs rest w :
  running base hist pend out w → arriving w = fs :: rest → Forall (λ f, Forall is_byte (bytes f)) fs →
  few_packets (hist ++ pend ++ records (mine fs)) →
  ∃ qs, qs `sublist_of` records (mine fs) ∧ ((ring_unread (ring w) + length fs ≤ slots)%nat → qs = records (mine fs))
  ∧ running base (hist ++ pend ++ qs) [] out (poll skb_of wall w) ∧ arriving (poll skb_of wall w) = rest
  ∧ ring_unread (ring (poll skb_of wall w)) = 0%nat.
Proof.
  intros [Hs Hr Hn He Ho] Ha Hb Hfew. destruct (submitted_deliver fs w _ Hs eq_refl Hb) as (qs & Hq & Hsub & _ & Hall).
  exists qs. split; [done|]. split.
  { intros Hu. apply Hall. pose proof (length_records (hears (mk_socket true true (Some ifindex))) fs). lia. }
  unfold poll. rewrite Ha, Hn, He, Hq, Hr, <- !app_assoc.
  assert (Hfq : few_packets (hist ++ pend ++ qs)).
  { eapply few_sublist, Hfew. by repeat apply sublist_app. }
  rewrite (app_assoc base hist), drop_app_length, consume_of by done. split; [|split; [done|apply (ring_consumed_unread (slots := slots))]].
  split; cbn [sock ring nread rules screen]; [done| |by rewrite <- !app_assoc|done|].
  - by rewrite (ring_consumed_records (slots := slots)), Hq, Hr, app_nil_r, <- !app_assoc.
  - rewrite Ho. unfold raised_by. rewrite (trace_of_app [] hist), fmap_app, concat_app. cbn [app]. by rewrite print_alerts_app.
Qed.

Lemma run_polls batches : ∀ fuel base hist pend out w,
  (length batches < fuel)%nat → running base hist pend out w → arriving w = batches →
  Forall (Forall (λ f, Forall is_byte (bytes f))) batches → (batches = [] → pend = []) →
  few_packets (hist ++ pend ++ records (mine (concat batches))) →
  ∃ qs w', qs `sublist_of` records (mine (concat batches))
  ∧ (fits (ring w) batches → qs = records (mine (concat batches)))
  ∧ running base (hist ++ pend ++ qs) [] out w'
  ∧ Sys.run (reply skb_of wall ifindex) (iter fuel (λ _ : (),
      let! stop := sys Stop in
      if stop then Ret (inr 0) else
      let! n := sys RingPoll in
      if n =? - EINTR then Ret (inr 0) else
      if n <? 0 then Ret (inr 1) else
      Ret (inl ())) ()) w = (Some 0, w').
Proof.
  induction batches as [|fs batches IH]; intros fuel base hist pend out w Hf Hw Ha Hb Hp Hfew; (destruct fuel as [|fuel]; [simpl in Hf; lia|]).
  - exists [], w. rewrite (Hp eq_refl), !app_nil_r in *. split; [done|]. split; [done|]. split; [done|].
    cbn. by rewrite Ha.
  - apply Forall_cons in Hb as [Hb1 Hb2].
    cbn [concat] in Hfew. rewrite mine_app, records_app in Hfew.
    assert (Hfew1 : few_packets (hist ++ pend ++ records (mine fs))).
    { eapply few_app. by rewrite <- !app_assoc. }
    destruct (poll_running _ _ _ _ _ _ _ Hw Ha Hb1 Hfew1) as (q1 & Hq1 & Ht1 & Hw1 & Ha1 & Hu1).
    assert (Hfew2 : few_packets ((hist ++ pend ++ q1) ++ [] ++ records (mine (concat batches)))).
    { eapply few_sublist, Hfew. rewrite <- !app_assoc. by repeat apply sublist_app. }
    destruct (IH fuel base _ [] out _ ltac:(simpl in Hf; lia) Hw1 Ha1 Hb2 (λ _, eq_refl) Hfew2) as (q2 & w' & Hq2 & Ht2 & Hw2 & Hrun).
    exists (q1 ++ q2), w'. cbn [concat]. rewrite mine_app, records_app. split; [by apply sublist_app|].
    split.
    { intros [Hu Hc]. rewrite Ht1, Ht2; [done| |done]. destruct batches as [|fs' batches]; [done|]. apply Forall_cons in Hc as [? ?].
      split; [by rewrite Hu1|done]. }
    split.
    { cbn [app] in Hw2. by rewrite <- !app_assoc in Hw2. }
    cbn [iter]. cbn. rewrite Ha. exact Hrun.
Qed.
End proof.

(** ** Theorem *)

Section session.
  Context {S : Type} `{!Skb S} {R : Type} `{!Ringbuf R flow_pkt, !RingReader R}.
  Variables (skb_of : list Z → S) (wall : nat → list Z) (ifindex : Z).

(** How many records the ring holds. *)
Definition SLOTS_23 : nat := ring_slots (256 * 1024) 24.

Example ids_slots : SLOTS_23 = 8191%nat.
Proof. vm_compute. reflexivity. Qed.

(** [C7] A session of the intrusion detection system.  Whatever frames appear
    while it starts and during its polls, at least one of them, the program
    exits with status 0 and a closed socket, and between its two messages it
    has printed exactly the alerts of the packets recorded, in order and
    each as its own flow and source alone determine.  The packets recorded
    are the IPv4 TCP and UDP frames it heard: those of its interface that
    are not outgoing, and those of every interface that appear before the
    socket is bound; all of them, when not more than 8191 frames appear
    between two polls.  No flow may have more than 2^31 packets in them. *)
Theorem ids_session `{!SkbLaws S} `{!RingReaderLaws R flow_pkt SLOTS_23}
    (argv : list (list Z)) (r : R) (starting : list frame * list frame) (batches : list (list frame)) (fuel : nat) :
  (∀ b, skb_bytes (skb_of b) = b) → ring_unread r = 0%nat → ifindex ≠ 0 →
  batches ≠ [] → (length batches < fuel)%nat →
  Forall (λ f, Forall is_byte (bytes f)) (starting.1 ++ starting.2 ++ concat batches) →
  few_packets (records (heard ifindex starting batches)) →
  ∃ ps w',
    ps `sublist_of` records (heard ifindex starting batches)
    ∧ (calm SLOTS_23 (starting.1 ++ starting.2) batches → ps = records (heard ifindex starting batches))
    ∧ Sys.run (reply skb_of wall ifindex) (ids_main fuel argv) (boot r starting batches) = (Some 0, w')
    ∧ sock w' = None
    ∧ screen w' = print_alerts wall [str "IDS watching"] (raised_by ps) ++ [str "Stopped."].
Proof.
  intros Hskb Hu0 Hi Hne Hf Hb Hfew. apply Forall_app in Hb as [Hb1 Hb]. apply Forall_app in Hb as [Hb2 Hb3].
  set (s0 := mk_socket true true None). set (s1 := mk_socket true true (Some ifindex)).
  set (w0 := set_sock (Some s0) r (boot r starting batches)).
  set (r1 := deliver skb_of starting.1 w0). set (w1 := set_sock (Some s1) r1 w0).
  set (r2 := deliver skb_of starting.2 w1).
  destruct (submitted_deliver skb_of Hskb starting.1 w0 s0 eq_refl eq_refl Hb1) as (q1 & Hr1 & Hs1 & Hu1 & Ht1).
  destruct (submitted_deliver skb_of Hskb starting.2 w1 s1 eq_refl eq_refl Hb2) as (q2 & Hr2 & Hs2 & Hu2 & Ht2).
  fold r1 r2 in Hr1, Hr2, Hu1, Hu2. change (ring w0) with r in *. change (ring w1) with r1 in *.
  set (w2 := mk_world (Some s1) r2 (length (ringbuf_records r)) (Some Ids.boot) starting batches [str "IDS watching"]).
  assert (Hw2 : running wall ifindex (ringbuf_records r) [] (q1 ++ q2) [str "IDS watching"] w2).
  { split; [done| |cbn; by rewrite app_nil_r|done|done].
    change (ringbuf_records r2 = ringbuf_records r ++ [] ++ q1 ++ q2). by rewrite Hr2, Hr1, <- app_assoc. }
  assert (Hbs : Forall (Forall (λ f, Forall is_byte (bytes f))) batches).
  { by apply List.Forall_concat. }
  assert (Hh : records (heard ifindex starting batches)
    = (records (bfilter (hears s0) starting.1) ++ records (bfilter (hears s1) starting.2)) ++ records (mine ifindex (concat batches))).
  { unfold heard. rewrite bfilter_app, !records_app, app_assoc. do 3 f_equal. apply bfilter_ext. intros f. unfold hears. cbn. by rewrite andb_true_r. }
  assert (Hfew' : few_packets ([] ++ (q1 ++ q2) ++ records (mine ifindex (concat batches)))).
  { eapply few_sublist, Hfew. rewrite Hh. cbn [app]. by repeat apply sublist_app. }
  destruct (run_polls skb_of wall ifindex Hskb batches fuel _ _ _ _ w2 Hf Hw2 eq_refl Hbs)
    as (q3 & w3 & Hs3 & Ht3 & [Hk3 _ _ _ Ho3] & Hrun); [done|done|].
  exists ((q1 ++ q2) ++ q3). eexists. rewrite Hh. split; [by repeat apply sublist_app|].
  split.
  { intros Hc. destruct batches as [|fs batches]; [done|]. apply Forall_cons in Hc as [Hc1 Hc2]. rewrite !length_app in Hc1.
    pose proof (length_records (hears s0) starting.1) as L1. pose proof (length_records (hears s1) starting.2) as L2.
    rewrite Ht1, Ht2, Ht3; [done|split; [change (ring w2) with r2; lia|done]|lia|lia]. }
  split.
  { unfold ids_main. cbn [Sys.run sys bind reply]. rewrite (proj2 (Z.eqb_neq _ _) Hi). cbn.
    rewrite !run_bind.
    match type of Hrun with ?L = _ => match goal with |- context [Sys.run ?f (iter ?n ?b ?x) ?w] =>
      change (Sys.run f (iter n b x) w) with L end end.
    rewrite Hrun. cbn. reflexivity. }
  cbn. by rewrite Ho3.
Qed.
End session.

(** ** Examples *)

Notation ex_slots := (sized_ringbuf SLOTS_23 (mk_pkt 0 0 0 0 0 0 0)).
Notation ex_run starting batches :=
  (Sys.run (@reply _ list_skb _ ex_slots sized_reader (λ b, b) (λ _, str "12:30:00") 1)
    (ids_main 3 [str "ids"; str "lo"]) (@boot _ ex_slots ([], 0%nat) starting batches)).

(** A datagram to port 4444 on interface 1 during the first poll: one
    line. *)
Example ex_one_alert :
  screen (ex_run ([], []) [[mk_frame 1 false 7 ex_frame]; []]).2
  = [ str "IDS watching";
      str "[12:30:00] ALERT susp-port 10.0.0.1 -> 10.0.0.2:4444  (Metasploit/Meterpreter default)" ++ [10];
      str "Stopped." ].
Proof. vm_compute. reflexivity. Qed.

(** Bound too late: the same datagram on interface 2, just before the socket
    is bound to interface 1, is reported too. *)
Theorem other_interface_reported :
  (ex_run ([mk_frame 2 false 7 ex_frame], []) [[]]).1 = Some 0
  ∧ length (screen (ex_run ([mk_frame 2 false 7 ex_frame], []) [[]]).2) = 3%nat
  ∧ length (screen (ex_run ([], [mk_frame 2 false 7 ex_frame]) [[]]).2) = 2%nat.
Proof. split; [|split]; vm_compute; reflexivity. Qed.

(** ** Witness *)

Lemma ids_session_witness :
  ∃ w',
    ex_run ([], []) [[mk_frame 1 false 7 ex_frame]] = (Some 0, w')
    ∧ screen w' = print_alerts (λ _, str "12:30:00") [str "IDS watching"]
        (raised_by (records (heard 1 ([], []) [[mk_frame 1 false 7 ex_frame]]))) ++ [str "Stopped."].
Proof.
  destruct (@ids_session _ list_skb _ ex_slots sized_reader (λ b, b) (λ _, str "12:30:00") 1
    list_skb_laws (sized_ring_laws _ _) [str "ids"; str "lo"] ([], 0%nat) ([], []) [[mk_frame 1 false 7 ex_frame]] 3)
    as (ps & w' & _ & Hps & Hr & _ & Hs).
  - intros b. reflexivity.
  - reflexivity.
  - discriminate.
  - discriminate.
  - apply Nat.ltb_lt. reflexivity.
  - apply (bool_decide_unpack _). vm_compute. exact I.
  - apply few_short. vm_compute. discriminate.
  - exists w'. split; [exact Hr|]. rewrite Hps in Hs; [exact Hs|].
    constructor; [apply Nat.leb_le; vm_compute; reflexivity|constructor].
Defined.
