(* ===== verification/NettopRun.v ===== *)
(** * NettopRun: nettop from the command line to the screen (chapter 27)

    The rest of src/27-nettop/nettop.c: the options, [attach_all], [sample]
    as a sequence of system calls, the text of [print_sample], and [main],
    as a program of [Sys]; and its composition with the kernel side
    (Nettop) and the pure description of a pass (NettopPoll).

    The theorems: whatever the environment does, the skeleton and the rows
    are released; and over a whole session, with traffic between the passes
    and some of the hooks possibly missing, every frame shows exactly
    the processes that had traffic or retransmissions on the attached hooks
    since the frame before, with those bytes over the elapsed time as the
    rate, the name of their first traffic and the retransmissions. *)

From stdpp Require Import prelude gmap list strings sorting.
From Stdlib Require Import ZArith Lia.
From Stdlib Require Import SpecFloat.
From S2P Require Import Prelude.
From S2P Require Import Kernel.
From S2P Require Import Float64.
From S2P Require Import Libc.
From S2P Require Import Printf.
From S2P Require Import Nettop.
From S2P Require Import NettopPoll.
From S2P Require Import Sys.

(** ** Options *)

Record env_t := mk_env { interval : f64; count : Z; top : Z; clear_screen : bool }.

Definition default_env : env_t := mk_env (f64_of_Z 1) 0 20 true.

(** What [parse_opt] does with an option; a usage error ends the program. *)
Inductive parsed := Parsed (e : env_t) | Usage | Unknown.

Definition parse_opt (key : Z) (arg : list Z) (env : env_t) : parsed :=
  match key with
  | 105 =>
      let i := strtod arg in
      if f64_leb i f64_zero then Usage else Parsed (mk_env i (count env) (top env) (clear_screen env))
  | 99 => Parsed (mk_env (interval env) (atoi arg) (top env) (clear_screen env))
  | 110 => Parsed (mk_env (interval env) (count env) (atoi arg) (clear_screen env))
  | 67 => Parsed (mk_env (interval env) (count env) (top env) false)
  | _ => Unknown
  end.

(** [argp_parse] calls [parse_opt] for the options in order. *)
Fixpoint parse_opts (opts : list (Z * list Z)) (env : env_t) : parsed :=
  match opts with
  | [] => Parsed env
  | (key, arg) :: opts' =>
      match parse_opt key arg env with Parsed env => parse_opts opts' env | r => r end
  end.

(** ** Text *)

(** The text of [fmt_rate] in a buffer of 16 bytes. *)
Definition rate_text (bps : f64) : list Z :=
  let '(v, u) := fmt_rate bps in
  snprintf 16 (fmt_f (if (u =? 0)%nat then 0 else 1) v ++ str (default ""%string (units !! u))).

Definition row_text (r : row) : list Z :=
  rpad 8 (dec (r_pid r)) ++ str " " ++ rpad 16 (cstr (r_comm r)) ++ str " " ++
  lpad 10 (rate_text (r_tx_bps r)) ++ str " " ++ lpad 10 (rate_text (r_rx_bps r)) ++ str " " ++
  lpad 10 (dec (r_retrans r)) ++ [10].

(** "%H:%M:%S". *)
Definition hms (t : Z * Z * Z) : list Z :=
  let '(h, m, s) := t in dec2 h ++ str ":" ++ dec2 m ++ str ":" ++ dec2 s.

(** The output of [print_sample] up to its [fflush]. *)
Definition frame_text (env : env_t) (tm : Z * Z * Z) (rows : list row) : list Z :=
  let n := Z.of_nat (length rows) in
  let shown := shown n (top env) in
  (if clear_screen env then [27] ++ str "[H" ++ [27] ++ str "[J" else []) ++
  hms tm ++ str "   " ++ sdec n ++ str " process" ++ (if n =? 1 then [] else str "es") ++ str " with traffic" ++ [10; 10] ++
  rpad 8 (str "PID") ++ str " " ++ rpad 16 (str "COMM") ++ str " " ++ lpad 10 (str "TX/s") ++ str " " ++
  lpad 10 (str "RX/s") ++ str " " ++ lpad 10 (str "RETRANS") ++ [10] ++
  mjoin (row_text <$> take (Z.to_nat shown) rows) ++
  (if shown <? n then str "... " ++ sdec (n - shown) ++ str " more" ++ [10] else []).

(** ** The program *)

Inductive nc :=
  | Calloc
  | Free
  | OpenLoad
  | Destroy
  | Attach (fn : string)
  | Stop
  | ClockGettime
  | Nanosleep (sec nsec : Z)
  | GetNextKey (key : Z)
  | Lookup (key : Z)
  | Delete (key : Z)
  | Access (path : list Z)
  | Localtime
  | Out (text : list Z)
  | Err (text : list Z).

(** Pointers are whether they are not NULL; [Nanosleep] answers its result
    and errno, the clock seconds and nanoseconds. *)
Definition ans (c : nc) : Type :=
  match c with
  | Calloc | OpenLoad | Attach _ | Stop => bool
  | ClockGettime | Nanosleep _ _ => Z * Z
  | GetNextKey _ => option Z
  | Lookup _ => option proc_stats
  | Delete _ | Access _ => Z
  | Localtime => Z * Z * Z
  | Free | Destroy | Out _ | Err _ => ()
  end.

Canonical Structure NC : calls := mk_calls nc ans.

Definition proc_path (pid : Z) : list Z := snprintf 64 (str "/proc/" ++ dec pid).

#[global] Arguments proc_path : simpl never.

(** [true]: the entry is there. *)
Definition pid_alive (pid : Z) : prog NC bool :=
  let! rc := sys (Access (proc_path pid)) in
  Ret (rc =? 0).

Definition ns_of (ts : Z * Z) : Z := u64 (u64 ts.1 * 1000000000 + u64 ts.2).

Definition mono_ns : prog NC Z :=
  let! ts := sys ClockGettime in
  Ret (ns_of ts).

(** One round of the walk. *)
Definition visit (elapsed : f64) (max_rows : Z) (priming : bool) (now_ns : Z) (ks : Z * scan)
    : prog NC (Z * scan + scan) :=
  let '(key, s) := ks in
  let! next_key := sys (GetNextKey key) in
  match next_key with
  | None => Ret (inr s)
  | Some key =>
      let! val := sys (Lookup key) in
      match val with
      | None => Ret (inl (key, s))
      | Some val =>
          let! alive := pid_alive key in
          if reapable now_ns (λ _, alive) key val
          then sys (Delete key) ;! Ret (inl (key, s))
          else Ret (inl (key, collect elapsed max_rows priming key val s))
      end
  end.

(** [sample], which returns the new table and the rows. *)
Definition sample_prog (walk : nat) (elapsed : f64) (max_rows : Z) (priming : bool) (prev0 : list prev_entry)
    : prog NC (list prev_entry * list row) :=
  let! now_ns := mono_ns in
  let! s := iter walk (visit elapsed max_rows priming now_ns) (0, mk_scan (unsee <$> prev0) []) in
  let '(a, w) := compact_loop p_seen (length (prev s)) 0 0 (prev s) in
  Ret (take w a, qsort (rows s)).

Definition print_sample (env : env_t) (rows : list row) : prog NC () :=
  let! tm := sys Localtime in
  sys (Out (frame_text env tm rows)).

Definition hooks : list string :=
  ["tcp_sendmsg"; "tcp_cleanup_rbuf"; "udp_sendmsg"; "udpv6_sendmsg"; "skb_consume_udp"; "tcp_retransmit_skb"; "tcp_close"]%string.

Definition attach_all : prog NC Z :=
  let! attached := for_each (λ fn attached,
    let! link := sys (Attach fn) in
    if negb link
    then sys (Err (str "warning: could not attach kprobe/" ++ str fn)) ;! Ret attached
    else Ret (attached + 1)) hooks 0 in
  if attached =? 0
  then sys (Err (str "no kprobes attached at all")) ;! Ret (-1)
  else
    sys (Err (str "attached " ++ sdec attached ++ str "/" ++ sdec (Z.of_nat (length hooks)) ++ str " kprobes" ++ [10])) ;!
    Ret 0.

(** The seconds between two readings of the clock; the interval when it went
    backwards. *)
Definition elapsed_of (env : env_t) (t_prev t_now : Z * Z) : f64 :=
  let elapsed := f64_add (f64_of_Z (t_now.1 - t_prev.1))
                   (f64_div (f64_of_Z (t_now.2 - t_prev.2)) (f64_of_Z 1000000000)) in
  if f64_leb elapsed f64_zero then interval env else elapsed.

(** [req] of the loop. *)
Definition req_of (env : env_t) : Z * Z :=
  let sec := f64_to_long (interval env) in
  (sec, f64_to_long (f64_mul (f64_sub (interval env) (f64_of_Z sec)) (f64_of_Z 1000000000))).

(** One round of the main loop, with the clock, the table and the number of
    samples so far. *)
Definition round (walk : nat) (env : env_t) (st : (Z * Z) * list prev_entry * Z)
    : prog NC ((Z * Z) * list prev_entry * Z + ()) :=
  let '(t_prev, prev0, samples) := st in
  let! exiting := sys Stop in
  if exiting then Ret (inr ()) else
  let! r := sys (Nanosleep (req_of env).1 (req_of env).2) in
  if negb (r.1 =? 0) && (r.2 =? EINTR) then Ret (inr ()) else
  let! t_now := sys ClockGettime in
  let! pr := sample_prog walk (elapsed_of env t_prev t_now) MAX_ROWS false prev0 in
  print_sample env pr.2 ;!
  (if negb (count env =? 0) && (count env <=? samples + 1)
   then Ret (inr ()) else Ret (inl (t_now, pr.1, if count env =? 0 then samples else samples + 1))).

Definition nettop_main (fuel walk : nat) (env : env_t) : prog NC Z :=
  let! rows := sys Calloc in
  if negb rows then sys (Err (str "out of memory")) ;! Ret 1 else
  let! skel := sys OpenLoad in
  if negb skel then sys (Err (str "failed to open/load BPF skeleton")) ;! sys Free ;! Ret 1 else
  let! rc := attach_all in
  let! err :=
    if negb (rc =? 0) then Ret 1 else
    sys (Err (str "sampling every " ++ fmt_f 1 (interval env) ++ str "s")) ;!
    let! t_prev := sys ClockGettime in
    let! pr := sample_prog walk (interval env) MAX_ROWS true [] in
    iter fuel (round walk env) (t_prev, pr.1, 0) ;!
    Ret 0 in
  sys Destroy ;!
  sys Free ;!
  Ret err.

(** ** Resources *)

Inductive res := Skel | Rows.

#[export] Instance res_eq_dec : EqDecision res.
Proof. solve_decision. Defined.

(** The map belongs to the skeleton; every pass writes to the rows. *)
Definition effect (e : event NC) : list (act res) :=
  match e with
  | existT c r =>
      match c as c' return ans c' → list (act res) with
      | Calloc => λ ok : bool, if ok then [Acquire Rows] else []
      | Free => λ _, [Release Rows]
      | OpenLoad => λ ok : bool, if ok then [Acquire Skel] else []
      | Destroy => λ _, [Release Skel]
      | Attach _ | Delete _ | Lookup _ => λ _, [Use Skel]
      | GetNextKey _ => λ _, [Use Skel; Use Rows]
      | _ => λ _, []
      end r
  end.

Ltac eval_held r H :=
  clear H; cbn [accept holder effect ev];
  repeat match goal with
    | |- context [do_acts _ (if ?b then _ else _)] => wp_cases b
    end;
  match goal with
  | |- context [do_acts ?h ?l] => let v := eval vm_compute in (do_acts h l) in change (do_acts h l) with v
  end; cbv iota.

Ltac held_step :=
  first
    [ wp_next eval_held
    | apply wp_iter_keep; intros ?
    | apply wp_for_each_keep; intros ].

Lemma held_sample walk elapsed max_rows priming prev0 (Q : list prev_entry * list row → list res → Prop) :
  (∀ x, Q x [Skel; Rows]) →
  wp (holder effect) false (sample_prog walk elapsed max_rows priming prev0) Q [Skel; Rows].
Proof.
  intros HQ. unfold sample_prog, mono_ns, visit, pid_alive. repeat held_step; auto.
Qed.

Lemma nettop_held fuel walk env : wp (holder effect) false (nettop_main fuel walk env) (λ _ h, h = []) [].
Proof.
  unfold nettop_main, attach_all, round, print_sample.
  repeat first [apply held_sample; intros | held_step]; auto.
Qed.

(** Whatever the environment answers, nettop uses the map only while the
    skeleton is loaded and writes rows only while they are allocated, and it
    has released both when it exits. *)
Theorem nettop_release (fuel walk : nat) (env : env_t) (tr : list (event NC)) (o : option Z) :
  exec (nettop_main fuel walk env) tr o →
  ∃ h, held effect [] tr = Some h ∧ (is_Some o → h = []).
Proof.
  intros He. destruct (exec_held effect _ _ _ _ _ (nettop_held fuel walk env) He) as (h & Hh & Ho).
  exists h. split; [done|]. by intros [st ->].
Qed.

(** ** A world with traffic

    Every call succeeds except that some hooks may be missing.  A batch of
    kprobe firings happens during each sleep, which lasts as long as the
    batch says; firings on hooks that are not attached are lost.  The first
    reading of the clock comes after the traffic of the start-up.  When
    there are no more batches, Ctrl-C interrupts the sleep. *)

Definition hook_fn (h : hook) : string :=
  match h with
  | tcp_sendmsg _ _ => "tcp_sendmsg"
  | tcp_cleanup_rbuf _ _ => "tcp_cleanup_rbuf"
  | udp_sendmsg _ _ => "udp_sendmsg"
  | udpv6_sendmsg _ _ => "udpv6_sendmsg"
  | skb_consume_udp _ _ => "skb_consume_udp"
  | tcp_retransmit_skb _ => "tcp_retransmit_skb"
  | tcp_close _ => "tcp_close"
  end.

Section world.
  Context {PM SM : Type} `{!BpfMap PM Z proc_stats} `{!BpfMap SM Z Z}.
  Variables (can : string → bool) (procfs : list Z → bool) (tm : Z → Z * Z * Z).

Record world := mk_world {
  kernel : kstate PM SM;
  attached : list string;
  starting : list firing;
  arriving : list (Z * list firing);
  clock : Z;
  screen : list (list Z);
}.

(** The firings the attached hooks see. *)
Definition hooked (at_ : list string) (fs : list firing) : list firing :=
  bfilter (λ f, bool_decide (hook_fn (f_hook f) ∈ at_)) fs.

Definition timespec (ns : Z) : Z * Z := (ns / 1000000000, ns mod 1000000000).

Definition set_map (m : PM) (w : world) : world :=
  mk_world (mk_kstate m (sock_owner (kernel w))) (attached w) (starting w) (arriving w) (clock w) (screen w).

Definition deliver (fs : list firing) (w : world) : kstate PM SM := foldl fire (kernel w) (hooked (attached w) fs).

Definition reply (c : NC) (w : world) : answer NC c * world :=
  match c as c' return ans c' * world with
  | Calloc => (true, w)
  | OpenLoad => (true, mk_world loaded [] (starting w) (arriving w) (clock w) (screen w))
  | Attach fn =>
      (can fn, mk_world (kernel w) (if can fn then attached w ++ [fn] else attached w) (starting w) (arriving w)
                 (clock w) (screen w))
  | Stop => (false, w)
  | ClockGettime =>
      (timespec (clock w), mk_world (deliver (starting w) w) (attached w) [] (arriving w) (clock w) (screen w))
  | Nanosleep _ _ =>
      match arriving w with
      | [] => ((-1, EINTR), w)
      | (d, fs) :: rest => ((0, 0), mk_world (deliver fs w) (attached w) (starting w) rest (clock w + d) (screen w))
      end
  | GetNextKey key => (map_get_next_key (proc_stats_map (kernel w)) key, w)
  | Lookup key => (map_lookup_elem (proc_stats_map (kernel w)) key, w)
  | Delete key =>
      let '(rc, m) := map_delete_elem (proc_stats_map (kernel w)) key in (rc, set_map m w)
  | Access path => (if procfs path then 0 else -1, w)
  | Localtime => (tm (clock w), w)
  | Out text => ((), mk_world (kernel w) (attached w) (starting w) (arriving w) (clock w) (screen w ++ [text]))
  | Free | Destroy | Err _ => ((), w)
  end.

Definition boot (starting : list firing) (batches : list (Z * list firing)) (t0 : Z) : world :=
  mk_world loaded [] starting batches t0 [].

Definition alive (pid : Z) : bool := procfs (proc_path pid).
End world.
Arguments world : clear implicits.

(** ** [sample_prog] is [sample] *)

Section refinement.
  Context {PM SM : Type} `{!BpfMap PM Z proc_stats} `{!BpfMap SM Z Z}.
  Variables (can : string → bool) (procfs : list Z → bool) (tm : Z → Z * Z * Z).
  Implicit Types w : world PM SM.
  Notation reply := (reply can procfs tm).
  Notation stats w := (proc_stats_map (kernel w)).

Lemma set_map_id w : set_map (stats w) w = w.
Proof. by destruct w as [[]]. Qed.

(** One round of the walk over the system calls. *)
Lemma run_visit elapsed max_rows priming now_ns key s w :
  Sys.run reply (visit elapsed max_rows priming now_ns (key, s)) w
  = match map_get_next_key (stats w) key with
    | None => (Some (inr s), w)
    | Some key =>
        match map_lookup_elem (stats w) key with
        | None => (Some (inl (key, s)), w)
        | Some val =>
            if reapable now_ns (alive procfs) key val
            then (Some (inl (key, s)), set_map (map_delete_elem (stats w) key).2 w)
            else (Some (inl (key, collect elapsed max_rows priming key val s)), w)
        end
    end.
Proof.
  unfold visit. cbn. destruct (map_get_next_key _ _) as [k|]; [|done].
  cbn. destruct (map_lookup_elem _ k) as [val|]; [|done].
  cbn. unfold reapable, alive. destruct (procfs (proc_path k)); cbn; [done|].
  destruct (REAP_IDLE_NS <? _); [|done]. cbn. by destruct (map_delete_elem _ k).
Qed.

(** The walk follows the pure walk over the map. *)
Lemma run_walk elapsed max_rows priming now_ns fuel : ∀ i key s w m' s',
  sample_loop elapsed max_rows priming now_ns (alive procfs) frozen fuel i key (stats w) s = Some (m', s') →
  Sys.run reply (iter fuel (visit elapsed max_rows priming now_ns) (key, s)) w = (Some s', set_map m' w).
Proof.
  induction fuel as [|fuel IH]; intros i key s w m' s'; cbn [sample_loop iter]; [done|].
  unfold frozen. rewrite run_bind, run_visit. destruct (map_get_next_key _ _) as [k|].
  2: { intros [= <- <-]. cbn. by rewrite set_map_id. }
  destruct (map_lookup_elem _ k) as [val|]; [|apply IH].
  destruct (reapable _ _ _ _); [|apply IH].
  intros H. by rewrite (IH (S i) k s (set_map _ w) m' s' H).
Qed.

(** A pass with the clock at rest and no start-up traffic left. *)
Lemma run_sample walk elapsed max_rows priming prev0 w m' prev' rows' :
  starting w = [] →
  sample elapsed max_rows priming (ns_of (timespec (clock w))) (alive procfs) frozen walk (stats w) prev0
    = Some (m', prev', rows') →
  Sys.run reply (sample_prog walk elapsed max_rows priming prev0) w = (Some (prev', rows'), set_map m' w).
Proof.
  intros Hst Hs. unfold sample in Hs. destruct (sample_loop _ _ _ _ _ _ _ _ _ _ _) as [[m1 s1]|] eqn:El; [|done].
  unfold sample_prog, mono_ns. rewrite run_bind. cbn. rewrite Hst.
  assert (Hw : mk_world (deliver [] w) (attached w) [] (arriving w) (clock w) (screen w) = w).
  { destruct w. cbn in *. by subst. }
  rewrite Hw. rewrite run_bind. rewrite (run_walk _ _ _ _ _ _ _ _ _ _ _ El).
  destruct (compact_loop _ _ _ _ _) as [a n]. injection Hs as <- <- <-. done.
Qed.

(** A walk that finds nothing to reap leaves the map alone. *)
Lemma walk_keeps elapsed max_rows priming now_ns al fuel : ∀ i key (m : PM) s m' s',
  (∀ k v, map_lookup_elem m k = Some v → reapable now_ns al k v = false) →
  sample_loop elapsed max_rows priming now_ns al frozen fuel i key m s = Some (m', s') → m' = m.
Proof.
  induction fuel as [|fuel IH]; intros i key m s m' s' Hk; cbn [sample_loop]; [done|]. unfold frozen.
  destruct (map_get_next_key m key) as [k|]; [|by intros [= <- <-]].
  destruct (map_lookup_elem m k) as [v|] eqn:E; [rewrite (Hk k v E)|]; by apply IH.
Qed.

Lemma sample_keeps elapsed max_rows priming now_ns al walk (m : PM) prev0 m' prev' rows' :
  (∀ k v, map_lookup_elem m k = Some v → reapable now_ns al k v = false) →
  sample elapsed max_rows priming now_ns al frozen walk m prev0 = Some (m', prev', rows') →
  m' = m ∧ Sorted traffic_le rows'.
Proof.
  intros Hk. unfold sample. destruct (sample_loop _ _ _ _ _ _ _ _ _ _ _) as [[m1 s1]|] eqn:E; [|done].
  destruct (compact_loop _ _ _ _ _) as [a n]. intros [= <- <- <-]. split; [by eapply walk_keeps|apply qsort_sorted].
Qed.
End refinement.

(** ** Traffic *)

(** The conditions under which nothing wraps around or is dropped: sizes that
    are not negative, with a sum below 2^64, a row for every process, and
    all processes with traffic still running. *)
Record calm (procfs : list Z → bool) (h : list firing) : Prop := mk_calm {
  calm_sizes : Forall (λ c, 0 ≤ c_bytes c) (charges h);
  calm_sum : sum_bytes (charges h) < 2 ^ 64;
  calm_firings : Z.of_nat (length h) < 2 ^ 64;
  calm_procs : Z.of_nat (size (charged_pids h)) ≤ MAX_PROCS;
  calm_alive : ∀ pid, pid ∈ charged_pids h → alive procfs pid = true;
}.

Lemma charges_app h b : charges (h ++ b) = charges h ++ charges b.
Proof. unfold charges. by rewrite omap_app. Qed.

Lemma total_bytes_app pid tx h b : total_bytes pid tx (h ++ b) = total_bytes pid tx h + total_bytes pid tx b.
Proof. unfold total_bytes. by rewrite charges_app, bfilter_app, sum_bytes_app. Qed.

Lemma sum_bytes_cons c cs : sum_bytes (c :: cs) = c_bytes c + sum_bytes cs.
Proof. change (c :: cs) with ([c] ++ cs). rewrite sum_bytes_app, sum_bytes_one. done. Qed.

Lemma sum_bytes_bfilter f cs : Forall (λ c, 0 ≤ c_bytes c) cs → 0 ≤ sum_bytes (bfilter f cs) ≤ sum_bytes cs.
Proof.
  induction 1 as [|c cs Hc _ IH]; [cbn; lia|]. cbn [bfilter]. rewrite sum_bytes_cons.
  destruct (f c); rewrite ?sum_bytes_cons; lia.
Qed.

Lemma charged_pids_app h b : charged_pids (h ++ b) = charged_pids h ∪ charged_pids b.
Proof. unfold charged_pids. rewrite charges_app, fmap_app. apply list_to_set_app_L. Qed.

Lemma calm_app procfs h b : calm procfs (h ++ b) → calm procfs h.
Proof.
  intros [H1 H2 Hn H3 H4]. rewrite charges_app in H1, H2. apply Forall_app in H1 as [H1 H1']. rewrite sum_bytes_app in H2.
  rewrite charged_pids_app in H3, H4. rewrite length_app in Hn. split; [done| |lia| |].
  - pose proof (sum_bytes_bfilter (λ _, true) _ H1'). lia.
  - assert (charged_pids h ⊆ charged_pids h ∪ charged_pids b) as Hs%subseteq_size by set_solver. lia.
  - set_solver.
Qed.

Lemma calm_total procfs h pid tx : calm procfs h → 0 ≤ total_bytes pid tx h < 2 ^ 64.
Proof. intros [H1 H2 _ _ _]. pose proof (sum_bytes_bfilter (of_proc pid tx) _ H1). unfold total_bytes. lia. Qed.

Lemma calm_bytes procfs h b pid tx : calm procfs (h ++ b) → 0 ≤ total_bytes pid tx b.
Proof.
  intros [H1 _ _ _ _]. rewrite charges_app in H1. apply Forall_app in H1 as [_ H1].
  apply (sum_bytes_bfilter (of_proc pid tx) _ H1).
Qed.

(** The row of a process in a frame after the traffic [h] and then [b], [re]
    counting its retransmissions: none if nothing happened in [b]; otherwise
    with the name of its first traffic, its bytes in [b] over the elapsed
    time, all its bytes, and its retransmissions in [b]. *)
Definition frame_row (re : Z → list firing → Z) (elapsed : f64) (h b : list firing) (pid : Z) : option row :=
  let dtx := total_bytes pid true b in
  let drx := total_bytes pid false b in
  let dre := re pid (h ++ b) - re pid h in
  if (dtx =? 0) && (drx =? 0) && (dre =? 0) then None
  else
    c ← head (bfilter (λ c, c_pid c =? pid) (charges (h ++ b)));
    Some (mk_row pid (copy_comm (c_comm c)) (f64_div (f64_of_Z dtx) elapsed) (f64_div (f64_of_Z drx) elapsed)
            (total_bytes pid true (h ++ b)) (total_bytes pid false (h ++ b)) dre).

(** A frame: these rows, each once, busiest first. *)
Definition frame_ok (re : Z → list firing → Z) (elapsed : f64) (h b : list firing) (rows : list row) : Prop :=
  NoDup (r_pid <$> rows) ∧ Sorted traffic_le rows
  ∧ ∀ pid, by_key r_pid rows !! pid = frame_row re elapsed h b pid.

Section rows.
  Context {PM SM : Type} `{!BpfMap PM Z proc_stats} `{!BpfMap SM Z Z}.
  Context `{!BpfHashLaws PM Z proc_stats MAX_PROCS} `{!BpfLruLaws SM Z Z MAX_SOCKS}.
  Variable procfs : list Z → bool.
  Notation rows_of h := (map_view (proc_stats_map (Nettop.run (PM := PM) (SM := SM) h))).

Lemma run_dom h pid : calm procfs h → is_Some (rows_of h !! pid) ↔ pid ∈ charged_pids h.
Proof.
  intros Hc. rewrite <- expected_row_charged, <- (run_rows h (calm_procs _ _ Hc) pid). by rewrite fmap_is_Some.
Qed.

Lemma run_size h : calm procfs h → size (rows_of h) = size (charged_pids h).
Proof.
  intros Hc. rewrite <- size_dom. f_equal. apply set_eq. intros k. rewrite elem_of_dom. by apply run_dom.
Qed.

Lemma no_row_no_bytes h pid tx : expected_row pid h = None → total_bytes pid tx h = 0.
Proof.
  unfold expected_row, total_bytes. set (cs := charges h). clearbody cs. intros He.
  assert (Hn : bfilter (λ c, c_pid c =? pid) cs = []).
  { destruct (bfilter _ cs) as [|c l]; [done|]. cbn [head] in He. destruct (last (c :: l)) eqn:El; [done|].
    by apply last_None in El. }
  replace (bfilter (of_proc pid tx) cs) with (@nil charge); [done|]. symmetry. clear He. unfold of_proc.
  induction cs as [|c cs IH]; cbn [bfilter] in *; [done|]. destruct (c_pid c =? pid); [done|]. by apply IH.
Qed.

(** The counters of a row are the traffic of its process. *)
Lemma run_bytes h pid :
  calm procfs h →
  match rows_of h !! pid with
  | Some v => tx_bytes v = total_bytes pid true h ∧ rx_bytes v = total_bytes pid false h
  | None => total_bytes pid true h = 0 ∧ total_bytes pid false h = 0
  end.
Proof.
  intros Hc. pose proof (run_rows h (calm_procs _ _ Hc) pid) as Hr. destruct (rows_of h !! pid) as [v|]; cbn in Hr.
  - unfold expected_row in Hr. destruct (head _); [|done]. destruct (last _); [|done]. injection Hr as -> -> _ _ _ _.
    unfold u64. by rewrite !Z.mod_small by (eapply calm_total; eauto).
  - symmetry in Hr. split; by apply no_row_no_bytes.
Qed.

(** The name in a row is that of the first traffic. *)
Lemma run_comm h pid v :
  calm procfs h → rows_of h !! pid = Some v →
  ∃ c, head (bfilter (λ c, c_pid c =? pid) (charges h)) = Some c ∧ ps_comm v = c_comm c.
Proof.
  intros Hc Hv. pose proof (run_rows h (calm_procs _ _ Hc) pid) as Hr. rewrite Hv in Hr. cbn in Hr. unfold expected_row in Hr.
  destruct (head _) as [c|]; [|done]. exists c. split; [done|]. destruct (last _); [|done]. by injection Hr.
Qed.

(** The retransmissions the kernel side has counted for a process. *)
Definition counted (pid : Z) (h : list firing) : Z := retrans_counter (Nettop.run (PM := PM) (SM := SM) h) pid.

(** The table of the previous sample, after the traffic [h]. *)
Definition table_ok (h : list firing) (prev0 : list prev_entry) : Prop :=
  NoDup (p_pid <$> prev0) ∧ by_key p_pid prev0 = map_imap (λ k v, Some (entry_of k v)) (rows_of h).

Lemma table_ok_nil : table_ok [] [].
Proof. split; [constructor|]. cbn. rewrite map_empty_view. done. Qed.

Lemma table_ok_lookup h prev0 pid : table_ok h prev0 → by_key p_pid prev0 !! pid = entry_of pid <$> rows_of h !! pid.
Proof. intros [_ ->]. rewrite map_lookup_imap. by destruct (rows_of h !! pid). Qed.

(** The display of a row that is there, as differences of counters. *)
Lemma display_row h b elapsed pid v :
  calm procfs (h ++ b) → rows_of (h ++ b) !! pid = Some v →
  display elapsed false (entry_of pid <$> rows_of h !! pid) pid v = frame_row counted elapsed h b pid.
Proof.
  intros Hc Hv. pose proof (calm_app _ _ _ Hc) as Hch.
  pose proof (run_bytes _ pid Hc) as Hb. pose proof (run_bytes _ pid Hch) as Hh. rewrite Hv in Hb.
  pose proof (calm_total _ _ pid true Hch). pose proof (calm_total _ _ pid false Hch).
  pose proof (calm_bytes _ _ _ pid true Hc). pose proof (calm_bytes _ _ _ pid false Hc).
  pose proof (retrans_counter_grows (PM := PM) (SM := SM) h b pid (calm_firings _ _ Hc)) as [Hre _].
  destruct (run_comm _ _ _ Hc Hv) as (c & Hhead & Hcomm).
  unfold frame_row, counted. rewrite Hhead, !total_bytes_app in *. destruct Hb as [Htx Hrx].
  assert (Hcur : retrans_counter (Nettop.run (PM := PM) (SM := SM) (h ++ b)) pid = retrans_pkts v)
    by (unfold retrans_counter; by rewrite Hv).
  rewrite Hcur in *.
  assert (Hd : display elapsed false (entry_of pid <$> rows_of h !! pid) pid v
    = delta_row elapsed pid v (total_bytes pid true h) (total_bytes pid false h) (retrans_counter (Nettop.run (PM := PM) (SM := SM) h) pid)).
  { unfold retrans_counter. destruct (rows_of h !! pid) as [u|]; [destruct Hh as [<- <-]|destruct Hh as [-> ->]]; done. }
  rewrite Hd. unfold delta_row. rewrite Htx, Hrx, Hcomm, !diff_le by lia.
  replace (total_bytes pid true h + total_bytes pid true b - total_bytes pid true h) with (total_bytes pid true b) by lia.
  replace (total_bytes pid false h + total_bytes pid false b - total_bytes pid false h) with (total_bytes pid false b) by lia.
  by destruct (_ && _ && _).
Qed.

Lemma no_display h b elapsed pid :
  calm procfs (h ++ b) → rows_of (h ++ b) !! pid = None → frame_row counted elapsed h b pid = None.
Proof.
  intros Hc Hv. pose proof (calm_app _ _ _ Hc) as Hch. pose proof (run_bytes _ pid Hc) as Hb. rewrite Hv in Hb.
  assert (Hn : rows_of h !! pid = None).
  { apply eq_None_not_Some. rewrite run_dom by done. intros Hin.
    assert (is_Some (rows_of (h ++ b) !! pid)) as [? ?]; [|congruence]. rewrite run_dom, charged_pids_app by done. set_solver. }
  pose proof (run_bytes _ pid Hch) as Hh. rewrite Hn in Hh. rewrite !total_bytes_app in Hb.
  unfold frame_row, counted, retrans_counter. rewrite Hv, Hn. cbn.
  by replace (total_bytes pid true b) with 0 by lia; replace (total_bytes pid false b) with 0 by lia.
Qed.

Lemma pass_ok elapsed priming now h b prev0 walk :
  let n := size (charged_pids (h ++ b)) in
  calm procfs (h ++ b) → table_ok h prev0 → (S n * S n ≤ walk)%nat →
  let m := proc_stats_map (Nettop.run (PM := PM) (SM := SM) (h ++ b)) in
  ∃ prev' rows', sample elapsed MAX_ROWS priming now (alive procfs) frozen walk m prev0 = Some (m, prev', rows')
  ∧ table_ok (h ++ b) prev' ∧ (priming = false → frame_ok counted elapsed h b rows').
Proof.
  intros n Hc Ht Hw m. pose proof (calm_app _ _ _ Hc) as Hch. pose proof (run_size _ Hc) as Hsz. fold m n in Hsz.
  pose proof (calm_procs _ _ Hc) as Hmax. fold n in Hmax.
  assert (Hdom : ∀ pid, is_Some (rows_of h !! pid) → is_Some (map_view m !! pid)).
  { intros pid. unfold m. rewrite !run_dom by done. rewrite charged_pids_app. set_solver. }
  destruct (sample_spec elapsed MAX_ROWS priming now (alive procfs) m prev0 walk)
    as (m' & prev' & rows' & Hs & _ & Hnp & Hp & Hnr & Hr); [apply Ht| | | | | |].
  { apply Forall_forall. intros p Hin. apply Hdom. pose proof (table_ok_lookup h prev0 (p_pid p) Ht) as Hl.
    rewrite (proj2 (by_key_Some p_pid prev0 (p_pid p) p (proj1 Ht))) in Hl by done.
    destruct (rows_of h !! p_pid p); [by eexists|done]. }
  { apply eq_None_not_Some. unfold m. rewrite run_dom by done. unfold charged_pids.
    rewrite elem_of_list_to_set, list_elem_of_fmap. intros (c & Hc0 & Hin).
    apply list_elem_of_omap in Hin as (f & _ & Hf). by apply charge_of_pid in Hf. }
  1, 2: rewrite Hsz; exact Hmax.
  { by rewrite Hsz. }
  assert (Hkeep : ∀ k v, map_lookup_elem m k = Some v → reapable now (alive procfs) k v = false).
  { intros k v Hk. unfold reapable. rewrite (calm_alive _ _ Hc); [done|]. apply run_dom; [done|].
    rewrite map_lookup_view in Hk. by eexists. }
  destruct (sample_keeps _ _ _ _ _ _ _ _ _ _ _ Hkeep Hs) as [-> Hsort].
  exists prev', rows'. split; [done|]. split; [done|]. intros ->. split; [done|]. split; [done|].
  intros pid. rewrite Hr, map_lookup_imap, (table_ok_lookup h prev0 pid Ht).
  destruct (map_view m !! pid) as [v|] eqn:Hv; [by apply display_row|symmetry; by apply no_display].
Qed.
End rows.

(** ** A session *)

Section session_spec.
  Variables (can : string → bool) (tm : Z → Z * Z * Z) (env : env_t) (re : Z → list firing → Z).

(** The firings on hooks that could be attached. *)
Definition visible (fs : list firing) : list firing := bfilter (λ f, can (hook_fn (f_hook f))) fs.

(** The frames [fs] for the [batches], from the time [t] and after the
    traffic [h]. *)
Fixpoint session (h : list firing) (t : Z) (batches : list (Z * list firing)) (fs : list (list Z)) : Prop :=
  match batches, fs with
  | [], [] => True
  | (d, b) :: batches', f :: fs' =>
      (∃ rows, frame_ok re (elapsed_of env (timespec t) (timespec (t + d))) h (visible b) rows
               ∧ f = frame_text env (tm (t + d)) rows)
      ∧ session (h ++ visible b) (t + d) batches' fs'
  | _, _ => False
  end.

(** The batches until the requested number of samples is reached. *)
Definition limit {A} (samples : Z) (l : list A) : list A :=
  if count env =? 0 then l else take (Z.to_nat (Z.max 1 (count env - samples))) l.

Lemma limit_cons {A} samples (x : A) l :
  limit samples (x :: l)
  = x :: (if negb (count env =? 0) && (count env <=? samples + 1) then []
          else limit (if count env =? 0 then samples else samples + 1) l).
Proof.
  unfold limit. destruct (count env =? 0) eqn:E; cbn [negb andb]; [done|].
  destruct (Z.leb_spec (count env) (samples + 1)).
  - by replace (Z.to_nat (Z.max 1 (count env - samples))) with 1%nat by lia.
  - replace (Z.to_nat (Z.max 1 (count env - samples))) with (S (Z.to_nat (Z.max 1 (count env - (samples + 1))))) by lia.
    done.
Qed.

Definition all_visible (batches : list (Z * list firing)) : list firing := mjoin ((λ b, visible b.2) <$> batches).
End session_spec.

Section session.
  Context {PM SM : Type} `{!BpfMap PM Z proc_stats} `{!BpfMap SM Z Z}.
  Context `{!BpfHashLaws PM Z proc_stats MAX_PROCS} `{!BpfLruLaws SM Z Z MAX_SOCKS}.
  Variables (can : string → bool) (procfs : list Z → bool) (tm : Z → Z * Z * Z) (env : env_t).
  Implicit Types w : world PM SM.
  Notation reply := (reply can procfs tm).
  Notation table_ok := (table_ok (PM := PM) (SM := SM)).
  Notation counted := (counted (PM := PM) (SM := SM)).
  Notation at_hooks := (bfilter can hooks).

Lemma hooked_visible fs : hooked at_hooks fs = visible can fs.
Proof.
  unfold hooked, visible. apply bfilter_ext. intros f. apply eq_bool_prop_intro. rewrite !Is_true_true. rewrite bool_decide_eq_true, elem_of_bfilter.
  split; [by intros [? _]|]. intros Hc. split; [done|]. destruct (f_hook f); cbn; set_solver.
Qed.

Lemma run_attach l : ∀ n w,
  Sys.run reply (for_each (λ fn attached,
    let! link := sys (Attach fn) in
    if negb link
    then sys (Err (str "warning: could not attach kprobe/" ++ str fn)) ;! Ret attached
    else Ret (attached + 1)) l n) w
  = (Some (n + Z.of_nat (length (bfilter can l))),
     mk_world (kernel w) (attached w ++ bfilter can l) (starting w) (arriving w) (clock w) (screen w)).
Proof.
  induction l as [|fn l IH]; intros n w; cbn [for_each bfilter].
  { cbn. rewrite app_nil_r, Z.add_0_r. by destruct w. }
  rewrite run_bind. cbn [Sys.run sys bind]. cbn. destruct (can fn) eqn:E; cbn.
  - etrans; [apply IH|]. cbn. rewrite <- app_assoc. cbn. do 2 f_equal. lia.
  - etrans; [apply IH|]. done.
Qed.

(** A batch during the sleep, and the pass and the frame after it. *)
Lemma run_round walk h d b rest t prev0 samples w :
  kernel w = Nettop.run h → attached w = at_hooks → starting w = [] → arriving w = (d, b) :: rest → clock w = t →
  let h' := h ++ visible can b in
  let n := size (charged_pids h') in
  calm procfs h' → table_ok h prev0 → (S n * S n ≤ walk)%nat →
  ∃ prev' rows',
    table_ok h' prev' ∧ frame_ok counted (elapsed_of env (timespec t) (timespec (t + d))) h (visible can b) rows'
    ∧ Sys.run reply (round walk env (timespec t, prev0, samples)) w
      = (Some (if negb (count env =? 0) && (count env <=? samples + 1) then inr ()
               else inl (timespec (t + d), prev', if count env =? 0 then samples else samples + 1)),
         mk_world (Nettop.run h') at_hooks [] rest (t + d) (screen w ++ [frame_text env (tm (t + d)) rows'])).
Proof.
  intros Hk Hat Hst Har Hcl h' n Hc Ht Hw.
  destruct (pass_ok procfs (elapsed_of env (timespec t) (timespec (t + d))) false (ns_of (timespec (t + d))) h
    (visible can b) prev0 walk Hc Ht Hw) as (prev' & rows' & Hs & Ht' & Hf).
  exists prev', rows'. split; [done|]. split; [by apply Hf|].
  assert (Hd : deliver b w = Nettop.run h').
  { unfold deliver. rewrite Hat, hooked_visible, Hk. unfold h', Nettop.run. by rewrite foldl_app. }
  set (w1 := mk_world (Nettop.run h') at_hooks [] rest (t + d) (screen w)).
  assert (Hsm : Sys.run reply (sample_prog walk (elapsed_of env (timespec t) (timespec (t + d))) MAX_ROWS false prev0) w1
    = (Some (prev', rows'), w1)).
  { rewrite (run_sample can procfs tm walk _ _ _ _ w1 _ _ _ eq_refl Hs). f_equal. exact (set_map_id w1). }
  unfold round. cbn [bind Sys.run sys NettopRun.reply]. cbv iota. rewrite Har.
  rewrite Hd, Hat, Hst, Hcl. fold w1. cbn [fst snd Z.eqb negb andb Sys.run NettopRun.reply].
  change (mk_world (deliver (starting w1) w1) _ _ _ _ _) with w1. change (clock w1) with (t + d).
  rewrite run_bind, Hsm. cbn [fst snd]. rewrite run_bind. cbn. by destruct (_ && _).
Qed.

Lemma run_rounds walk batches : ∀ fuel h t prev0 samples w,
  kernel w = Nettop.run h → attached w = at_hooks → starting w = [] → arriving w = batches → clock w = t →
  let H := h ++ all_visible can batches in
  let n := size (charged_pids H) in
  calm procfs H → table_ok h prev0 → (S n * S n ≤ walk)%nat → (length batches < fuel)%nat →
  ∃ fs w', Sys.run reply (iter fuel (round walk env) (timespec t, prev0, samples)) w = (Some (), w')
  ∧ screen w' = screen w ++ fs ∧ session can tm env counted h t (limit env samples batches) fs.
Proof.
  induction batches as [|[d b] batches IH]; intros fuel h t prev0 samples w Hk Hat Hst Har Hcl H n Hc Ht Hw Hf;
    (destruct fuel as [|fuel]; [cbn in Hf; lia|]); cbn [iter]; rewrite run_bind.
  { exists [], w. rewrite app_nil_r. cbn. rewrite Har. cbn. split; [done|]. split; [done|].
    unfold limit. by destruct (_ =? 0); rewrite ?take_nil. }
  assert (HH : H = (h ++ visible can b) ++ all_visible can batches) by (unfold H; by rewrite <- app_assoc).
  rewrite HH in Hc. pose proof (calm_app _ _ _ Hc) as Hc1.
  assert (Hn : (size (charged_pids (h ++ visible can b)) ≤ n)%nat).
  { unfold n. rewrite HH, (charged_pids_app (h ++ _)). apply subseteq_size. set_solver. }
  destruct (run_round walk h d b batches t prev0 samples w Hk Hat Hst Har Hcl Hc1 Ht ltac:(nia))
    as (prev' & rows' & Ht' & Hfr & ->).
  rewrite limit_cons. destruct (_ && _).
  - eexists [_], _. split; [done|]. split; [done|]. cbn. split; [by exists rows'|done].
  - set (w1 := mk_world _ _ _ _ _ _).
    destruct (IH fuel (h ++ visible can b) (t + d) prev' (if count env =? 0 then samples else samples + 1) w1
      eq_refl eq_refl eq_refl eq_refl eq_refl Hc Ht') as (fs & w' & Hr & Hs & Hse).
    + by rewrite <- HH.
    + cbn in Hf. lia.
    + eexists (_ :: fs), w'. split; [exact Hr|]. split; [rewrite Hs; cbn; by rewrite <- app_assoc|].
      cbn. split; [by exists rows'|done].
Qed.

Lemma run_attach_all w :
  attached w = [] →
  Sys.run reply attach_all w
  = (Some (if existsb can hooks then 0 else -1),
     mk_world (kernel w) at_hooks (starting w) (arriving w) (clock w) (screen w)).
Proof.
  intros Ha. unfold attach_all. rewrite run_bind, run_attach, Ha. cbn [app].
  assert (Hl : (0 + Z.of_nat (length at_hooks) =? 0) = negb (existsb can hooks)).
  { generalize hooks. intros l. induction l as [|x l IH]; cbn; [done|]. destruct (can x); cbn; [done|exact IH]. }
  rewrite Hl. by destruct (existsb can hooks).
Qed.

(** The pass that primes the table. *)
Lemma run_prime walk h w :
  kernel w = Nettop.run h → starting w = [] → calm procfs h →
  (S (size (charged_pids h)) * S (size (charged_pids h)) ≤ walk)%nat →
  ∃ prev' rows', table_ok h prev'
  ∧ Sys.run reply (sample_prog walk (interval env) MAX_ROWS true []) w = (Some (prev', rows'), w).
Proof.
  intros Hk Hst Hc Hw.
  destruct (pass_ok procfs (interval env) true (ns_of (timespec (clock w))) [] h [] walk Hc table_ok_nil Hw)
    as (prev' & rows' & Hs & Ht & _).
  exists prev', rows'. split; [done|]. cbn [app] in Hs. rewrite <- Hk in Hs.
  rewrite (run_sample can procfs tm walk _ _ _ _ w _ _ _ Hst Hs). by rewrite set_map_id.
Qed.
End session.

Section theorem.
  Context {PM SM : Type} `{!BpfMap PM Z proc_stats} `{!BpfMap SM Z Z}.
  Variables (can : string → bool) (procfs : list Z → bool) (tm : Z → Z * Z * Z) (env : env_t).

(** [C2] A session of nettop, kernel side and poller together.  The hooks for
    which [can] holds are attached, traffic comes in batches, one during each
    sleep, and the session is calm: no counter overflows, there is a row for
    every process with traffic, and these processes are still running.  Then
    the program exits with status 0, after one frame for each batch or for as
    many as the option -c asks for, and each frame lists exactly the
    processes that sent or received bytes or had a retransmission counted on
    the attached hooks since the previous frame, once and in order, each with
    the name it had at its first traffic, with exactly these bytes divided by
    the elapsed time as its rates and these retransmissions; nothing from
    before the first frame is shown as a rate.  If no hook can be attached it
    exits with status 1 and prints no frame.  The retransmissions counted are
    those on the sockets of the process, as long as fewer sockets had traffic
    than the table of sockets keeps. *)
Theorem nettop_session `{!BpfHashLaws PM Z proc_stats MAX_PROCS} `{!BpfLruLaws SM Z Z MAX_SOCKS}
    (starting : list firing) (batches : list (Z * list firing)) (t0 : Z) (fuel walk : nat) :
  let h := visible can starting in
  let H := h ++ all_visible can batches in
  let n := size (charged_pids H) in
  calm procfs H → (S n * S n ≤ walk)%nat → (length batches < fuel)%nat →
  ∃ w' : world PM SM,
    Sys.run (reply can procfs tm) (nettop_main fuel walk env) (boot starting batches t0)
      = (Some (if existsb can hooks then 0 else 1), w')
    ∧ (if existsb can hooks
       then session can tm env (counted (PM := PM) (SM := SM)) h t0 (limit env 0 batches) (screen w')
       else screen w' = [])
    ∧ ∀ cap, LruCapacity SM Z Z cap → Z.of_nat (size (charged_socks H)) < cap →
      ∀ pid fs, fs `prefix_of` H → counted (PM := PM) (SM := SM) pid fs = retransmits pid fs.
Proof.
  intros h H n Hc Hw Hf.
  assert (Hre : ∀ cap, LruCapacity SM Z Z cap → Z.of_nat (size (charged_socks H)) < cap →
    ∀ pid fs, fs `prefix_of` H → counted (PM := PM) (SM := SM) pid fs = retransmits pid fs).
  { intros cap Hcap Hs pid fs [fs' Hfs]. rewrite Hfs in Hc, Hs. apply calm_app in Hc. unfold counted.
    rewrite (retransmits_exact (cap := cap)); [apply u64_small| |apply (calm_procs _ _ Hc)].
    - pose proof (retransmits_bounds pid fs). pose proof (calm_firings _ _ Hc). lia.
    - assert (charged_socks fs ⊆ charged_socks (fs ++ fs')) as Hsub%subseteq_size; [|lia].
      unfold charged_socks. rewrite charges_app, fmap_app, list_to_set_app_L. set_solver. }
  cut (∃ w' : world PM SM,
    Sys.run (reply can procfs tm) (nettop_main fuel walk env) (boot starting batches t0)
      = (Some (if existsb can hooks then 0 else 1), w')
    ∧ if existsb can hooks
      then session can tm env (counted (PM := PM) (SM := SM)) h t0 (limit env 0 batches) (screen w')
      else screen w' = []).
  { intros (w' & H1 & H2). exists w'. auto. }
  clear Hre. unfold nettop_main. cbn [Sys.run sys bind NettopRun.reply negb boot]. cbv iota.
  rewrite run_bind, run_attach_all by done. cbn [kernel attached NettopRun.starting arriving clock screen].
  destruct (existsb can hooks); cbn [Z.eqb negb].
  2: { eexists. split; [reflexivity|done]. }
  pose proof (calm_app _ _ _ Hc) as Hc0.
  assert (Hn : (size (charged_pids h) ≤ n)%nat).
  { unfold n, H. rewrite charged_pids_app. apply subseteq_size. set_solver. }
  cbn [Sys.run sys bind NettopRun.reply kernel attached NettopRun.starting arriving clock screen].
  match goal with |- ∃ _, Sys.run _ _ ?w = _ ∧ _ => set (w1 := w) end.
  change (clock (boot starting batches t0)) with t0.
  assert (Hk : kernel w1 = Nettop.run h).
  { unfold w1, deliver. cbn [kernel attached boot NettopRun.starting]. by rewrite hooked_visible. }
  destruct (run_prime can procfs tm env walk h w1 Hk eq_refl Hc0 ltac:(nia)) as (prev' & rows' & Ht & Hp).
  destruct (run_rounds can procfs tm env walk batches fuel h t0 prev' 0 w1 Hk eq_refl eq_refl eq_refl eq_refl Hc Ht Hw Hf)
    as (fs & w' & Hr & Hs & Hse).
  exists w'. rewrite !run_bind, Hp. cbn [fst]. rewrite run_bind.
  match goal with |- context [Sys.run ?r (iter ?f ?b ?s) w1] => change (Sys.run r (iter f b s) w1)
    with (Sys.run (reply can procfs tm) (iter fuel (round walk env) (timespec t0, prev', 0)) w1) end.
  rewrite Hr. split; [done|]. by rewrite Hs.
Qed.
End theorem.

(** ** Witnesses *)

(** Process 1000 sends 500 bytes before the first pass, 3000 during the first
    sleep of two seconds and nothing during the second one, in which process
    2000 receives 64 bytes over UDP; no retransmission hook on this kernel. *)
Definition ex_start : list firing := [mk_firing ex_nc 5 (tcp_sendmsg (mk_sock 16 AF_INET) 500)].
Definition ex_batches : list (Z * list firing) :=
  [ (2000000000, [mk_firing ex_nc 10 (tcp_sendmsg (mk_sock 16 AF_INET) 3000);
                  mk_firing ex_nc 11 (tcp_retransmit_skb (mk_sock 16 AF_INET))]);
    (1000000000, [mk_firing ex_sh 30 (skb_consume_udp (mk_sock 32 AF_INET6) 64)]) ].
Definition ex_can (fn : string) : bool := negb (bool_decide (fn = "tcp_retransmit_skb"%string)).
Definition ex_env : env_t := mk_env (f64_of_Z 1) 0 20 false.
Definition ex_tm (t : Z) : Z * Z * Z := (12, 30, (t / 1000000000) mod 60).

Notation ex_session fuel walk :=
  (Sys.run (@reply _ _ (gmap_hash MAX_PROCS) (gmap_lru MAX_SOCKS) ex_can (λ _, true) ex_tm)
     (nettop_main fuel walk ex_env)
     (@boot _ _ (gmap_hash MAX_PROCS) (gmap_lru MAX_SOCKS) ex_start ex_batches 7000000000)).

Definition ex_header (n : string) : list Z :=
  str n ++ [10; 10] ++ str "PID      COMM                   TX/s       RX/s    RETRANS" ++ [10].

Lemma nettop_session_witness :
  ∃ w', ex_session 3%nat 9%nat = (Some 0, w')
  ∧ session ex_can ex_tm ex_env (counted (PM := gmap Z proc_stats) (SM := gmap Z Z)
      (BpfMap0 := gmap_hash MAX_PROCS) (BpfMap1 := gmap_lru MAX_SOCKS)) ex_start 7000000000 ex_batches (screen w')
  ∧ screen w' = [ ex_header "12:30:09   1 process with traffic" ++
                    str "1000     nc                     1.5K         0B          0" ++ [10];
                  ex_header "12:30:10   1 process with traffic" ++
                    str "2000     sh                       0B        64B          0" ++ [10] ].
Proof.
  destruct (@nettop_session _ _ (gmap_hash MAX_PROCS) (gmap_lru MAX_SOCKS) ex_can (λ _, true) ex_tm ex_env
    (gmap_hash_laws MAX_PROCS) (gmap_lru_laws MAX_SOCKS) ex_start ex_batches 7000000000 3 9) as (w' & Hr & Hs & _).
  - apply mk_calm.
    + apply (bool_decide_unpack _). vm_compute. exact I.
    + vm_compute. reflexivity.
    + vm_compute. reflexivity.
    + vm_compute. discriminate.
    + intros pid _. reflexivity.
  - apply Nat.leb_le. vm_compute. reflexivity.
  - cbn. lia.
  - exists w'. split; [exact Hr|]. split; [exact Hs|].
    apply (f_equal (λ r, screen r.2)) in Hr. cbn [snd] in Hr. rewrite <- Hr. vm_compute. reflexivity.
Defined.

(** A run in which the skeleton cannot be loaded. *)
Lemma nettop_release_witness :
  ∃ h, held effect [] [ev Calloc true; ev OpenLoad false; ev (Err (str "failed to open/load BPF skeleton")) (); ev Free ()]
       = Some h ∧ h = [].
Proof.
  destruct (nettop_release 1 1 ex_env
    [ev Calloc true; ev OpenLoad false; ev (Err (str "failed to open/load BPF skeleton")) (); ev Free ()] (Some 1))
    as (h & Hh & H0).
  - apply (exec_call Calloc _ true), (exec_call OpenLoad _ false), (exec_call (Err _) _ ()), (exec_call Free _ ()), exec_ret.
  - exists h. split; [exact Hh|]. apply H0. by eexists.
Defined.
