(* ===== verification/NettopLive.v ===== *)
(** * NettopLive: what nettop shows while the kernel side keeps counting

    A comment in [sample] of src/27-nettop/nettop.c says that a walk over a
    map that changes meanwhile is fine for a rate display, since the next
    sample corrects it.  This file makes that precise for the whole program
    ([NettopRun.nettop_main]) in any environment: rows may be added and
    counters may grow between any two system calls, and the walk may come
    past a row any number of times, in any order.

    For one process [k] that stays alive the environment is a state machine
    ([observer]) whose answers are assumed to be those of a map: its counters
    do not decrease, its row does not disappear, and a walk does not end
    before it has come past the row; and the walks see at most MAX_ROWS
    different keys.  The theorem: the rates of a frame are differences over
    the time between the two readings of the clock before it; and as long as
    no frame is full, what the frames show for [k] adds up exactly to what
    its counters gained between the priming pass and the last time its row
    was read; nothing is shown twice and nothing is missed. *)

From stdpp Require Import prelude gmap list strings sorting.
From Stdlib Require Import ZArith Lia Permutation.
From S2P Require Import Prelude.
From S2P Require Import Kernel.
From S2P Require Import Float64.
From S2P Require Import Nettop.
From S2P Require Import NettopPoll.
From S2P Require Import Sys.
From S2P Require Import NettopRun.

(** ** Counters *)

Inductive counter := Tx | Rx | Re.

Definition stat (c : counter) (v : proc_stats) : Z :=
  match c with Tx => tx_bytes v | Rx => rx_bytes v | Re => retrans_pkts v end.

Definition baseline (c : counter) (p : prev_entry) : Z :=
  match c with Tx => p_tx_bytes p | Rx => p_rx_bytes p | Re => p_retrans p end.

(** The total of a row that may not be there yet. *)
Definition total (c : counter) (v : option proc_stats) : Z := default 0 (stat c <$> v).

(** A row together with the differences it was made from. *)
Definition shown_row : Type := row * (counter → Z).

Definition row_is (elapsed : f64) (x : shown_row) : Prop :=
  r_tx_bps x.1 = f64_div (f64_of_Z (x.2 Tx)) elapsed
  ∧ r_rx_bps x.1 = f64_div (f64_of_Z (x.2 Rx)) elapsed
  ∧ r_retrans x.1 = x.2 Re.

(** What the rows show for process [k]. *)
Definition shown_for (k : Z) (c : counter) (ds : list shown_row) : Z :=
  foldr (λ x acc, (if r_pid x.1 =? k then x.2 c else 0) + acc) 0 ds.

Record frame := mk_frame { f_tm : Z * Z * Z; f_elapsed : f64; f_rows : list shown_row }.

Definition frame_ok (f : frame) : Prop := Forall (row_is (f_elapsed f)) (f_rows f).

(** No row was left out for want of room. *)
Definition roomy (f : frame) : Prop := Z.of_nat (length (f_rows f)) < MAX_ROWS.

Definition text_of (env : env_t) (f : frame) : list Z := frame_text env (f_tm f) ((f_rows f).*1).

Definition shown_in (k : Z) (c : counter) (fs : list frame) : Z :=
  foldr (λ f acc, shown_for k c (f_rows f) + acc) 0 fs.

(** ** The environment, as far as process [k] is concerned *)

(** The row of [k] when it was last read; whether the current walk has read
    it; the keys seen so far; the output; the row at the first question
    for the stop flag, which ends the priming pass; and every reading of the
    clock and of the local time. *)
Record obs := mk_obs {
  cur : option proc_stats;
  visited : bool;
  keys : gset Z;
  outs : list (list Z);
  primed : option (option proc_stats);
  clocks : list (Z * Z);
  times : list (Z * Z * Z);
}.

Definition no_obs : obs := mk_obs None false ∅ [] None [] [].

(** What the program printed and asked the clocks. *)
Definition log (g : obs) : list (list Z) * list (Z * Z) * list (Z * Z * Z) := (outs g, clocks g, times g).

Section observer.
  Variable k : Z.

Definition grown (old : option proc_stats) (v : proc_stats) : bool :=
  forallb (λ c, total c old <=? stat c v) [Tx; Rx; Re].

Definition plausible (g : obs) (e : event NC) : bool :=
  match e with
  | existT c r =>
      match c as c' return ans c' → bool with
      | GetNextKey _ => λ r : option Z,
          match r with
          | Some key => Z.of_nat (size ({[key]} ∪ keys g)) <=? MAX_ROWS
          | None => match cur g with Some _ => visited g | None => true end
          end
      | Lookup key => λ r : option proc_stats,
          if key =? k then
            match r with
            | Some v => grown (cur g) v
            | None => match cur g with Some _ => false | None => true end
            end
          else true
      | Access path => λ rc : Z, if bool_decide (path = proc_path k) then rc =? 0 else true
      | _ => λ _, true
      end r
  end.

Definition observe (g : obs) (e : event NC) : obs :=
  match e with
  | existT c r =>
      match c as c' return ans c' → obs with
      | GetNextKey _ => λ r : option Z,
          match r with
          | Some key => mk_obs (cur g) (visited g) ({[key]} ∪ keys g) (outs g) (primed g) (clocks g) (times g)
          | None => mk_obs (cur g) false (keys g) (outs g) (primed g) (clocks g) (times g)
          end
      | Lookup key => λ r : option proc_stats,
          match r with
          | Some v => if key =? k then mk_obs (Some v) true (keys g) (outs g) (primed g) (clocks g) (times g) else g
          | None => g
          end
      | Stop => λ _,
          match primed g with
          | None => mk_obs (cur g) (visited g) (keys g) (outs g) (Some (cur g)) (clocks g) (times g)
          | Some _ => g
          end
      | ClockGettime => λ ts, mk_obs (cur g) (visited g) (keys g) (outs g) (primed g) (clocks g ++ [ts]) (times g)
      | Localtime => λ tm, mk_obs (cur g) (visited g) (keys g) (outs g) (primed g) (clocks g) (times g ++ [tm])
      | Out text => λ _, mk_obs (cur g) (visited g) (keys g) (outs g ++ [text]) (primed g) (clocks g) (times g)
      | _ => λ _, g
      end r
  end.

Definition observer : watcher NC obs := mk_watcher NC obs (λ g e, plausible g e = true) (λ g e, Some (observe g e)).
End observer.

(** ** Lemmas *)

Lemma shown_for_app k c ds1 ds2 : shown_for k c (ds1 ++ ds2) = shown_for k c ds1 + shown_for k c ds2.
Proof. unfold shown_for. induction ds1 as [|x ds1 IH]; cbn; [done|]. rewrite IH. lia. Qed.

Lemma shown_for_perm k c ds1 ds2 : ds1 ≡ₚ ds2 → shown_for k c ds1 = shown_for k c ds2.
Proof. unfold shown_for. induction 1; cbn; lia. Qed.

Lemma shown_for_other k c ds : Forall (λ x : shown_row, r_pid x.1 ≠ k) ds → shown_for k c ds = 0.
Proof. unfold shown_for. induction 1 as [|x ds Hx _ IH]; cbn; [done|]. destruct (Z.eqb_spec (r_pid x.1) k); [done|]. lia. Qed.

Lemma grown_spec old v : grown old v = true ↔ ∀ c, total c old ≤ stat c v.
Proof.
  unfold grown. cbn. rewrite !andb_true_iff, !Z.leb_le. split; [|intros H; repeat split; apply H].
  intros (H1 & H2 & H3 & _) []; done.
Qed.

Section collected.
  Variables (elapsed : f64) (max_rows : Z) (priming : bool).

(** What [differentiate] shows. *)
Lemma differentiate_shows key val i p s :
  NoDup (p_pid <$> prev s) → prev s !! i = Some p → p_pid p = key →
  let s' := differentiate elapsed max_rows key val i p s in
  p_pid <$> prev s' = p_pid <$> prev s
  ∧ by_key p_pid (prev s') = <[key := entry_of key val]> (by_key p_pid (prev s))
  ∧ ∃ ds, rows s' = rows s ++ ds.*1 ∧ Forall (row_is elapsed) ds ∧ Forall (λ x : shown_row, r_pid x.1 = key) ds
  ∧ (Z.of_nat (length (rows s')) < max_rows → ∀ c, shown_for key c ds = diff (stat c val) (baseline c p)).
Proof.
  intros Hnd Hi Hp. unfold differentiate. rewrite Hp.
  destruct (by_key_insert p_pid (prev s) i p (entry_of key val) Hnd Hi (eq_sym Hp)) as [Hins Hkeys].
  fold (entry_of key val).
  destruct ((_ =? 0) && _ && _) eqn:Hz; cbn [prev rows].
  - split; [done|]. split; [done|]. exists []. rewrite app_nil_r. split; [done|]. split; [done|]. split; [done|].
    intros _ c. apply andb_true_iff in Hz as [[H1 H2]%andb_true_iff H3]. destruct c; cbn; lia.
  - destruct (Z.leb_spec max_rows (Z.of_nat (length (rows s)))); cbn [prev rows].
    + split; [done|]. split; [done|]. exists []. rewrite app_nil_r. split; [done|]. split; [done|]. split; [done|]. lia.
    + split; [done|]. split; [done|].
      eexists [(_, λ c, diff (stat c val) (baseline c p))]. split; [reflexivity|]. split; [by repeat constructor|].
      split; [by repeat constructor|]. intros _ c. unfold shown_for. cbn. rewrite Z.eqb_refl. lia.
Qed.

(** What [collect] shows: the difference to the entry, or to zero. *)
Lemma collect_shows key val s :
  NoDup (p_pid <$> prev s) →
  (by_key p_pid (prev s) !! key = None → Z.of_nat (length (prev s)) < MAX_ROWS) →
  let s' := collect elapsed max_rows priming key val s in
  let old := by_key p_pid (prev s) !! key in
  NoDup (p_pid <$> prev s')
  ∧ (∀ x, x ∈ p_pid <$> prev s' → x = key ∨ x ∈ p_pid <$> prev s)
  ∧ by_key p_pid (prev s') = <[key := entry_of key val]> (by_key p_pid (prev s))
  ∧ ∃ ds, rows s' = rows s ++ ds.*1 ∧ Forall (row_is elapsed) ds ∧ Forall (λ x : shown_row, r_pid x.1 = key) ds
  ∧ (Z.of_nat (length (rows s')) < max_rows → priming = false ∨ old ≠ None →
     ∀ c, shown_for key c ds = diff (stat c val) (default 0 (baseline c <$> old))).
Proof.
  intros Hnd Hmax. cbv zeta. unfold collect, prev_find.
  pose proof (find_index_by_key p_pid (prev s) key Hnd) as Hf.
  destruct (find_index _ _) as [i|].
  - destruct Hf as (p & Hi & Hp & Hk). rewrite Hi, Hk.
    destruct (differentiate_shows key val i p s Hnd Hi Hp) as (H1 & H2 & ds & H3 & H4 & H5 & H6).
    rewrite H1. split; [done|]. split; [by right|]. split; [done|]. exists ds. auto.
  - rewrite Hf. specialize (Hmax Hf). destruct (Z.leb_spec MAX_ROWS (Z.of_nat (length (prev s)))); [lia|].
    apply by_key_None in Hf.
    assert (Hnd' : ∀ p, p_pid p = key → NoDup (p_pid <$> (prev s ++ [p]))).
    { intros p Hp. rewrite fmap_app. apply NoDup_app. split; [done|]. split; [|apply NoDup_singleton].
      intros x Hx ->%list_elem_of_singleton. congruence. }
    destruct priming; cbn [prev rows].
    + split; [by apply Hnd'|]. split; [rewrite fmap_app; set_solver|]. split; [by rewrite by_key_snoc|].
      exists []. rewrite app_nil_r. split; [done|]. split; [done|]. split; [done|]. by intros _ [|].
    + set (p := mk_prev key 0 0 0 true).
      destruct (differentiate_shows key val (length (prev s)) p (mk_scan (prev s ++ [p]) (rows s)))
        as (H1 & H2 & ds & H3 & H4 & H5 & H6); cbn [prev rows] in *; [by apply Hnd'|by apply list_lookup_middle|done|].
      rewrite H1. split; [by apply Hnd'|]. split; [rewrite fmap_app; set_solver|].
      split; [rewrite H2, by_key_snoc by done; cbn; apply insert_insert_eq|].
      exists ds. split; [done|]. split; [done|]. split; [done|]. intros Hl _ c. rewrite H6 by done. by destruct c.
Qed.
End collected.

(** ** One pass *)

Section pass.
  Variable k : Z.
  Notation W := (observer k).

(** The table between the passes: every entry belongs to a key that was seen,
    and the one of [k] has the totals of its row when it was last read. *)
Record table_for (prev0 : list prev_entry) (g : obs) : Prop := mk_table_for {
  tf_nodup : NoDup (p_pid <$> prev0);
  tf_keys : ∀ x, x ∈ p_pid <$> prev0 → x ∈ keys g;
  tf_entry : by_key p_pid prev0 !! k = entry_of k <$> cur g;
  tf_walk : visited g = false;
}.

(** During a pass that started when the row of [k] was [old]. *)
Record passing (elapsed : f64) (priming : bool) (old : option proc_stats) (s : scan) (g : obs) : Prop := mk_passing {
  pa_nodup : NoDup (p_pid <$> prev s);
  pa_keys : ∀ x, x ∈ p_pid <$> prev s → x ∈ keys g;
  pa_entry : by_key p_pid (prev s) !! k = (λ v, if visited g then entry_of k v else unsee (entry_of k v)) <$> cur g;
  pa_known : old ≠ None → cur g ≠ None;
  pa_rows : ∃ ds, rows s = ds.*1 ∧ Forall (row_is elapsed) ds
    ∧ (Z.of_nat (length (rows s)) < MAX_ROWS → priming = false ∨ old ≠ None →
       ∀ c, shown_for k c ds = total c (cur g) - total c old);
}.

(** A new entry fits: there are not more keys than rows. *)
Lemma table_room s g key :
  NoDup (p_pid <$> prev s) → (∀ x, x ∈ p_pid <$> prev s → x ∈ keys g) →
  key ∈ keys g → Z.of_nat (size (keys g)) ≤ MAX_ROWS →
  by_key p_pid (prev s) !! key = None → Z.of_nat (length (prev s)) < MAX_ROWS.
Proof.
  intros Hnd Hk Hin Hsz Hno. apply by_key_None in Hno.
  assert (Hsub : {[key]} ∪ list_to_set (p_pid <$> prev s) ⊆ keys g).
  { intros x [->%elem_of_singleton|Hx%elem_of_list_to_set]%elem_of_union; [done|by apply Hk]. }
  apply subseteq_size in Hsub. rewrite size_union, size_singleton, size_list_to_set, length_fmap in Hsub by (done || set_solver).
  lia.
Qed.

Lemma passing_collect elapsed priming old s g key val :
  passing elapsed priming old s g → key ∈ keys g → Z.of_nat (size (keys g)) ≤ MAX_ROWS →
  (key = k → grown (cur g) val = true) →
  passing elapsed priming old (collect elapsed MAX_ROWS priming key val s) (observe k g (ev (Lookup key) (Some val))).
Proof.
  intros [Hnd Hk He Ho (ds & Hr & Hrow & Hsum)] Hin Hsz Hg.
  destruct (collect_shows elapsed MAX_ROWS priming key val s Hnd (table_room s g key Hnd Hk Hin Hsz))
    as (H1 & H2 & H3 & ds' & H4 & H5 & H6 & H7).
  set (s' := collect _ _ _ _ _ _) in *.
  assert (Hlen : (length (rows s) ≤ length (rows s'))%nat) by (rewrite H4, length_app; lia).
  assert (Hk' : ∀ x, x ∈ p_pid <$> prev s' → x ∈ keys g) by (intros x Hx; destruct (H2 x Hx) as [->|]; auto).
  assert (Hds : rows s' = (ds ++ ds').*1) by (by rewrite fmap_app, H4, Hr).
  cbn [observe ev]. destruct (Z.eqb_spec key k) as [->|Hne]; (split; cbn [cur visited keys]; [done|done| | |]).
  - by rewrite H3, lookup_insert_eq.
  - done.
  - exists (ds ++ ds'). split; [done|]. split; [by apply Forall_app|].
    intros Hl Hp c. rewrite shown_for_app, Hsum by (done || lia). rewrite H7; [|done|].
    2: { rewrite He. destruct Hp as [Hp|Hp%Ho]; [by left|right]. by destruct (cur g). }
    assert (Hb : default 0 (baseline c <$> by_key p_pid (prev s) !! k) = total c (cur g)).
    { rewrite He. unfold total. destruct (cur g) as [v|]; [|done]. cbn. by destruct (visited g), c. }
    specialize (Hg eq_refl). rewrite grown_spec in Hg. rewrite Hb, diff_le by apply Hg. cbn. lia.
  - by rewrite H3, lookup_insert_ne.
  - done.
  - exists (ds ++ ds'). split; [done|]. split; [by apply Forall_app|].
    intros Hl Hp c. rewrite shown_for_app, Hsum by (done || lia).
    rewrite (shown_for_other k c ds'); [lia|]. eapply Forall_impl; [exact H6|]. by intros x <-.
Qed.

(** One round of the walk. *)
Lemma wp_visit elapsed priming now_ns old key s g :
  passing elapsed priming old s g →
  wp W false (visit elapsed MAX_ROWS priming now_ns (key, s))
    (λ r g', log g' = log g ∧ primed g' = primed g
      ∧ match r with
        | inl ks => passing elapsed priming old ks.2 g'
        | inr s' => s' = s ∧ g' = mk_obs (cur g) false (keys g) (outs g) (primed g) (clocks g) (times g) ∧ (cur g ≠ None → visited g = true)
        end) g.
Proof.
  intros Hp. unfold visit. apply wp_bind. cbn [sys wp]. intros next Hn. cbn in next. cbn [observer accept].
  destruct next as [key'|].
  2: { cbn [wp]. split; [done|]. split; [done|]. split; [done|]. split; [done|].
       cbn in Hn. destruct (cur g); [done|]. by intros []. }
  cbn in Hn. apply Z.leb_le in Hn. set (g1 := observe k g _).
  assert (Hp1 : passing elapsed priming old s g1).
  { destruct Hp as [H1 H2 H3 H4 H5]. split; cbn; auto. set_solver. }
  assert (Hin : key' ∈ keys g1) by (cbn; set_solver).
  assert (Hsz : Z.of_nat (size (keys g1)) ≤ MAX_ROWS) by done.
  apply wp_mono with (Q := λ r g', log g' = log g1 ∧ primed g' = primed g1
    ∧ match r with inl ks => passing elapsed priming old ks.2 g' | inr _ => False end).
  2: { by intros [ks|s'] g' (Ho & Hpr & H). }
  clearbody g1. clear Hp Hn g.
  apply wp_bind. cbn [sys wp]. intros val Hv. cbn in val. cbn [observer accept].
  destruct val as [val|]; [|by cbn [wp observe ev]].
  set (g2 := observe k g1 _).
  assert (Hp2 : passing elapsed priming old (collect elapsed MAX_ROWS priming key' val s) g2).
  { apply passing_collect; try done. intros ->. cbn in Hv. by rewrite Z.eqb_refl in Hv. }
  assert (Ho : log g2 = log g1 ∧ primed g2 = primed g1) by (cbn; by destruct (key' =? k)).
  apply wp_bind. unfold pid_alive. apply wp_bind. cbn [sys wp]. intros rc Hrc. cbn in rc. cbn [observer accept wp].
  cbn in Hrc. change (observe k g2 (ev (Access (proc_path key')) rc)) with g2.
  destruct (reapable now_ns _ key' val) eqn:Hreap; cbn [wp]; [|by destruct Ho].
  apply wp_bind. cbn [sys wp]. intros r _. cbn [observer accept wp].
  split; [apply Ho|]. split; [apply Ho|]. cbn [snd].
  assert (Hne : key' ≠ k).
  { intros ->. rewrite bool_decide_true in Hrc by done. unfold reapable in Hreap. by rewrite Hrc in Hreap. }
  change (observe k g2 (ev (Delete key') r)) with g2. unfold g2. cbn [observe ev].
  by destruct (Z.eqb_spec key' k).
Qed.

(** A pass shows what the counters gained since the last one. *)
Lemma wp_sample walk elapsed priming prev0 g :
  table_for prev0 g →
  wp W false (sample_prog walk elapsed MAX_ROWS priming prev0)
    (λ pr g', table_for pr.1 g' ∧ (∃ ts, log g' = (outs g, clocks g ++ [ts], times g)) ∧ primed g' = primed g
      ∧ ∃ ds, pr.2 = ds.*1 ∧ Forall (row_is elapsed) ds
        ∧ (Z.of_nat (length ds) < MAX_ROWS → priming = false ∨ cur g ≠ None →
           ∀ c, shown_for k c ds = total c (cur g') - total c (cur g))) g.
Proof.
  intros [Hnd Hk He Hw]. unfold sample_prog. apply wp_bind. unfold mono_ns. apply wp_bind. cbn [sys wp].
  intros ts _. cbn in ts. cbn [observer accept wp]. set (g0 := observe k g _).
  assert (Hpids : p_pid <$> (unsee <$> prev0) = p_pid <$> prev0) by (rewrite <- list_fmap_compose; by apply list_fmap_ext).
  apply wp_bind. eapply (wp_iter W false (λ _ ks g', passing elapsed priming (cur g) ks.2 g'
    ∧ log g' = log g0 ∧ primed g' = primed g)) with (n := O); [|done|].
  - intros n [key s] g1 (Hp & Ho & Hpr). eapply wp_mono; [by apply wp_visit|].
    intros [ks|s'] g2 (Ho2 & Hpr2 & H); [exists O; split; [done|]; split; [done|]; by rewrite Ho2, Hpr2|].
    destruct H as (-> & -> & Hvis). destruct Hp as [H1 H2 H3 H4 (ds & H5 & H6 & H7)]. cbn [snd] in *.
    pose proof (compact_loop_filter p_seen (prev s) (length (prev s)) ltac:(done)) as Hc.
    destruct (compact_loop _ _ _ _ _) as [a w]. destruct Hc as [Hc _]. rewrite firstn_all in Hc.
    cbn [wp fst snd outs primed cur]. rewrite Hc. split; [|split; [by exists ts|]; split; [done|]].
    + split; cbn [keys cur visited]; [by apply bfilter_NoDup_fmap| | |done].
      * intros x (y & -> & Hy)%list_elem_of_fmap. apply elem_of_bfilter in Hy as [_ Hy]. apply H2, list_elem_of_fmap. eauto.
      * rewrite by_key_bfilter, H3 by done. destruct (cur g1) as [v|]; [|done]. cbn. by rewrite Hvis.
    + pose proof (qsort_perm (rows s)) as Hperm. rewrite H5 in Hperm at 2.
      destruct (Permutation_map_inv _ _ Hperm) as (ds' & Hq & Hd). exists ds'. split; [done|].
      split; [by rewrite <- Hd|]. intros Hl Hpri c. rewrite <- (shown_for_perm k c ds ds') by done.
      apply H7; [|done]. by rewrite H5, length_fmap, Hd.
  - split; [|done]. cbn [snd]. split; cbn [prev rows].
    + by rewrite Hpids.
    + rewrite Hpids. done.
    + rewrite (by_key_fmap p_pid unsee) by done.
      change (visited g0) with (visited g). change (cur g0) with (cur g). rewrite He, Hw. by destruct (cur g).
    + done.
    + exists []. split; [done|]. split; [done|]. intros _ _ c.
      change (cur g0) with (cur g). cbn. lia.
Qed.

(** ** The session *)

Variable env : env_t.

(** The time of each frame is from the clock.  The program reads it before
    the priming pass and before every later one, and each pass reads it once
    more for itself: every other reading bounds an interval. *)
Definition clocked (g : obs) (fs : list frame) : Prop :=
  f_tm <$> fs = times g
  ∧ ∀ i f, fs !! i = Some f →
      ∃ t_prev t_now, clocks g !! (2 * i)%nat = Some t_prev ∧ clocks g !! (2 * i + 2)%nat = Some t_now
      ∧ f_elapsed f = elapsed_of env t_prev t_now.

(** The frames [fs] account for what [k] gained since it was [b]. *)
Definition accounts (b : option proc_stats) (fs : list frame) (g : obs) : Prop :=
  outs g = text_of env <$> fs ∧ clocked g fs ∧ Forall frame_ok fs
  ∧ (Forall roomy fs → ∀ c, shown_in k c fs = total c (cur g) - total c b).

(** The clock has been read [2 n + 2] times, the last time but one before the
    latest pass. *)
Definition reading (t_prev : Z * Z) (n : nat) (g : obs) : Prop :=
  length (clocks g) = (2 * n + 2)%nat ∧ clocks g !! (2 * n)%nat = Some t_prev.

(** At the head of the main loop. *)
Definition looping (t_prev : Z * Z) (prev0 : list prev_entry) (g : obs) : Prop :=
  table_for prev0 g
  ∧ match primed g with
    | None => outs g = [] ∧ times g = [] ∧ reading t_prev 0 g
    | Some b => ∃ fs, accounts b fs g ∧ reading t_prev (length fs) g
    end.

(** One more frame. *)
Lemma clocked_snoc g g' fs f t_prev t_now ts :
  clocked g fs → reading t_prev (length fs) g →
  clocks g' = clocks g ++ [t_now; ts] → times g' = times g ++ [f_tm f] → f_elapsed f = elapsed_of env t_prev t_now →
  clocked g' (fs ++ [f]) ∧ reading t_now (length (fs ++ [f])) g'.
Proof.
  intros [Ht Hc] [Hl Hp] Hcs Hts He. split; [split|].
  - by rewrite fmap_app, Ht, Hts.
  - intros i f' [Hi|[Hi Hf]]%lookup_app_Some.
    + destruct (Hc i f' Hi) as (a & b & Ha & Hb & Hel). exists a, b. rewrite Hcs.
      split; [by apply lookup_app_l_Some|]. split; [by apply lookup_app_l_Some|done].
    + assert (i = length fs) as ->.
      { apply lookup_lt_Some in Hf. simpl in Hf. lia. }
      rewrite Nat.sub_diag in Hf. injection Hf as <-. exists t_prev, t_now. rewrite Hcs.
      split; [by apply lookup_app_l_Some|]. split; [|done].
      rewrite lookup_app_r by lia. by replace (2 * length fs + 2 - length (clocks g))%nat with 0%nat by lia.
  - unfold reading. rewrite Hcs, !length_app. cbn [length]. split; [lia|].
    rewrite lookup_app_r by lia. by replace (2 * (length fs + 1) - length (clocks g))%nat with 0%nat by lia.
Qed.

Lemma shown_in_snoc c fs f : shown_in k c (fs ++ [f]) = shown_in k c fs + shown_for k c (f_rows f).
Proof. unfold shown_in. induction fs as [|f' fs IH]; cbn; [lia|]. rewrite IH. lia. Qed.

Lemma wp_round walk st g :
  looping st.1.1 st.1.2 g →
  wp W false (round walk env st)
    (λ r g', match r with
             | inl st' => looping st'.1.1 st'.1.2 g'
             | inr _ => ∃ b fs, primed g' = Some b ∧ accounts b fs g'
             end) g.
Proof.
  destruct st as [[t_prev prev0] samples]. cbn [fst snd]. intros [Ht Hs]. unfold round.
  apply wp_bind. cbn [sys wp]. intros exiting _. cbn in exiting. cbn [observer accept]. set (g1 := observe k g _).
  assert (Hg1 : table_for prev0 g1 ∧ ∃ b fs, primed g1 = Some b ∧ accounts b fs g1 ∧ reading t_prev (length fs) g1).
  { unfold g1. cbn. destruct (primed g) as [b|] eqn:Hb.
    - split; [done|]. destruct Hs as [fs Hfs]. by exists b, fs.
    - destruct Hs as (Ho & Htm & Hrd). split; [by destruct Ht|]. exists (cur g), []. split; [done|]. split; [|done].
      split; [done|]. split; [split; [done|done]|]. split; [done|]. intros _ c.
      change (0 = total c (cur g) - total c (cur g)). lia. }
  clearbody g1. clear g Ht Hs. destruct Hg1 as (Ht & b & fs & Hb & (Ho & Hck & Hf & Hsum) & Hrd).
  destruct exiting; [by exists b, fs|].
  apply wp_bind. cbn [sys wp]. intros r _. cbn in r. cbn [observer accept]. change (observe k g1 _) with g1.
  destruct (_ && _); [by exists b, fs|].
  apply wp_bind. cbn [sys wp]. intros t_now _. cbn in t_now. cbn [observer accept]. set (g1' := observe k g1 _).
  assert (Ht' : table_for prev0 g1') by (by destruct Ht).
  apply wp_bind. eapply wp_mono; [by apply wp_sample|].
  intros [prev' rows'] g2 (Ht2 & (ts & Hlog) & Hb2 & ds & Hr & Hds & Hd). cbn [fst snd] in *.
  injection Hlog as Ho2 Hc2 Htm2. cbn in Ho2, Hc2, Htm2. rewrite <- app_assoc in Hc2. cbn [app] in Hc2.
  apply wp_bind. unfold print_sample. apply wp_bind. cbn [sys wp]. intros tm _. cbn in tm. cbn [observer accept].
  set (g2' := observe k g2 _). intros u _. cbn [observer accept]. set (g3 := observe k g2' _).
  set (f := mk_frame tm (elapsed_of env t_prev t_now) ds). set (fs' := fs ++ [f]).
  destruct (clocked_snoc g1 g3 fs f t_prev t_now ts Hck Hrd) as [Hck' Hrd']; [done|cbn; by rewrite Htm2|done|].
  assert (Hacc : accounts b fs' g3).
  { split; [|split; [done|split]].
    - change (outs g2 ++ [frame_text env tm rows'] = text_of env <$> fs').
      unfold fs'. rewrite Ho2, Ho, fmap_app, Hr. reflexivity.
    - apply Forall_app. split; [done|]. by apply Forall_singleton.
    - intros [Hr1 Hr2]%Forall_app c. unfold fs'. rewrite shown_in_snoc, Hsum by done. cbn [f_rows cur g3 g2' observe ev f].
      apply (proj1 (Forall_singleton _ _)) in Hr2. rewrite Hd; [|exact Hr2|by left]. cbn [cur g1' observe ev]. lia. }
  assert (Hl : looping t_now prev' g3).
  { split; [by destruct Ht2|]. cbn. rewrite Hb2. cbn. rewrite Hb. by exists fs'. }
  destruct (_ && _); cbn [wp]; [|done]. exists b, fs'. split; [cbn; by rewrite Hb2|done].
Qed.

Lemma wp_main fuel walk :
  wp W false (nettop_main fuel walk env)
    (λ st g, if st =? 0 then ∃ b fs, primed g = Some b ∧ accounts b fs g else outs g = []) no_obs.
Proof.
  unfold nettop_main.
  repeat (apply wp_bind; cbn [sys wp]; let r := fresh "r" in intros r _; cbn in r; cbn [observer accept observe ev];
    destruct r; cbn [negb]; [|by repeat (intros [] _; cbn)]).
  apply wp_bind, (wp_mono W false _ (λ _ g, g = no_obs)).
  { unfold attach_all. apply wp_bind. apply wp_for_each_keep.
    - intros fn n. apply wp_bind. cbn [sys wp]. intros r _. cbn in r. cbn [observer accept observe ev].
      destruct r; cbn; [done|]. by intros [] _.
    - intros n. destruct (n =? 0); cbn; by intros [] _. }
  intros rc g ->. apply wp_bind. destruct (negb (rc =? 0)).
  { cbn. by intros [] _ [] _. }
  apply wp_bind. cbn [sys wp]. intros [] _. cbn [observer accept observe ev].
  apply wp_bind. cbn [sys wp]. intros t _. cbn in t. cbn [observer accept observe ev].
  apply wp_bind. eapply wp_mono; [apply wp_sample; by split; [constructor|set_solver|..]|].
  intros [prev' rows'] g (Ht & (ts & Hlog) & Hb & _). cbn [fst snd] in *. injection Hlog as Ho Hc Htm.
  apply wp_bind, (wp_iter W false (λ _ st g, looping st.1.1 st.1.2 g)) with (n := O); [|done|].
  - intros n st g1 Hl. eapply wp_mono; [by apply wp_round|].
    intros [st'|u] g2 H; [by exists O|]. cbn. by intros [] _ [] _.
  - split; [done|]. rewrite Hb. cbn. split; [done|]. split; [done|]. unfold reading. by rewrite Hc.
Qed.
End pass.

(** ** Theorem *)

(** [C3] What is on the screen adds up.  In every finished run of nettop, with
    the kernel side counting all the while, and for every process [k] that
    stays alive and whose counters do not decrease, the walks seeing at most
    MAX_ROWS keys: the output is a sequence of frames, in which each row
    shows differences of counters as rates over the time between the two
    readings of the clock before this frame's pass and before the one
    before; and unless a frame is full, that is has MAX_ROWS rows, the
    differences shown for [k] over all frames add up, for each counter,
    exactly to what the counter gained from the priming pass ([b], the row
    as it was then) to the last time its row was read, in whatever order and
    however often the walks came past it. *)
Theorem frames_add_up (k : Z) (env : env_t) (fuel walk : nat) (tr : list (event NC)) :
  exec (nettop_main fuel walk env) tr (Some 0) → assumed (observer k) no_obs tr →
  ∃ g b fs,
    watch (observer k) no_obs tr = Some g ∧ primed g = Some b
    ∧ outs g = text_of env <$> fs ∧ clocked env g fs ∧ Forall frame_ok fs
    ∧ (Forall roomy fs → ∀ c, shown_in k c fs = total c (cur g) - total c b).
Proof.
  intros He Ha. destruct (exec_wp (observer k) false _ _ _ _ He no_obs (wp_main k env fuel walk) Ha) as (g & Hg & b & fs & Hb & H).
  by exists g, b, fs.
Qed.

(** ** Example *)

(** What the walks find, in order; [None] ends a walk.  A clock that advances
    by a second with every question; process 1000 is alive, 2000 is not. *)
Definition ex_reply (c : NC) (w : Z * list (option (Z * proc_stats))) : answer NC c * (Z * list (option (Z * proc_stats))) :=
  match c as c' return ans c' * (Z * list (option (Z * proc_stats))) with
  | Calloc | OpenLoad | Attach _ => (true, w)
  | Stop => (match w.2 with [] => true | _ => false end, w)
  | ClockGettime => ((w.1, 0), (w.1 + 1, w.2))
  | Nanosleep _ _ => ((0, 0), w)
  | GetNextKey _ =>
      match w.2 with
      | Some (key, v) :: _ => (Some key, w)
      | None :: l => (None, (w.1, l))
      | [] => (None, w)
      end
  | Lookup _ => match w.2 with Some (_, v) :: l => (Some v, (w.1, l)) | _ => (None, w) end
  | Delete _ => (0, w)
  | Access path => (if bool_decide (path = proc_path 1000) then 0 else -1, w)
  | Localtime => ((12, 30, 0), w)
  | Free | Destroy | Out _ | Err _ => ((), w)
  end.

Definition ex_row (tx : Z) : proc_stats := mk_stats tx 0 1 0 0 (65 * 1000000000) (str "nc" ++ replicate 14 0).

(** The priming pass reads 500 bytes; the next one 800, then it deletes the
    row of process 2000, which makes the walk start over, and reads 900. *)
Definition ex_script : list (option (Z * proc_stats)) :=
  [ Some (1000, ex_row 500); None;
    Some (1000, ex_row 800); Some (2000, mk_stats 1 0 1 0 0 0 (replicate 16 0)); Some (1000, ex_row 900); None ].

Notation ex_prog := (nettop_main 3 9 (mk_env (f64_of_Z 1) 0 20 false)).
Notation ex_trace := (trace_of ex_reply ex_prog (70, ex_script)).

(** The walk that starts over lists process 1000 twice, once for each part of
    its traffic, and the frame speaks of two processes. *)
Theorem listed_twice :
  (Sys.run ex_reply ex_prog (70, ex_script)).1 = Some 0
  ∧ outs <$> watch (observer 1000) no_obs ex_trace
    = Some [ ex_header "12:30:00   2 processes with traffic" ++
             str "1000     nc                     150B         0B          0" ++ [10] ++
             str "1000     nc                      50B         0B          0" ++ [10] ].
Proof. split; vm_compute; reflexivity. Qed.

(** ** Witness *)

Lemma frames_add_up_witness :
  ∃ g b fs,
    watch (observer 1000) no_obs ex_trace = Some g ∧ primed g = Some b
    ∧ f_elapsed <$> fs = [f64_of_Z 2] ∧ Forall frame_ok fs ∧ (Forall roomy fs → shown_in 1000 Tx fs = total Tx (cur g) - total Tx b).
Proof.
  destruct (frames_add_up 1000 (mk_env (f64_of_Z 1) 0 20 false) 3 9 ex_trace) as (g & b & fs & H1 & H2 & H0 & [Ht Hc] & H3 & H4).
  - assert (Hr : (Sys.run ex_reply ex_prog (70, ex_script)).1 = Some 0) by (vm_compute; reflexivity).
    rewrite <- Hr. apply run_exec.
  - vm_compute. repeat (split; [reflexivity|]). exact I.
  - exists g, b, fs. split; [exact H1|]. split; [exact H2|]. split; [|split; [exact H3|intros Hf; apply H4; exact Hf]].
    assert (Hg : Some (clocks g, length (times g)) = Some ([(70, 0); (71, 0); (72, 0); (73, 0)], 1%nat)).
    { change (Some (clocks g, length (times g))) with ((λ g, (clocks g, length (times g))) <$> Some g).
      rewrite <- H1. vm_compute. reflexivity. }
    injection Hg as Hg Hl. rewrite <- Ht, length_fmap in Hl.
    destruct fs as [|f [|f' fs]]; [discriminate Hl| |discriminate Hl].
    destruct (Hc 0%nat f eq_refl) as (a & c & Ha & Hb & He). rewrite Hg in Ha, Hb. injection Ha as <-. injection Hb as <-.
    cbn [fmap list_fmap]. rewrite He. vm_compute. reflexivity.
Defined.
