(* ===== verification/SnoopRun.v ===== *)
(** * SnoopRun: sessions of the ring-buffer programs (chapters 7 to 13, 15 and 20)

    The loaders of these chapters are the same program with different
    headings: [snoop_prog] is that program as one of [Sys], with the text it
    prints.  A chapter is an instance of [Snooper]: its hooks in the kernel,
    the records they have submitted, and the callback that turns a record
    into lines, with the state it keeps.  [reply] is a world in which
    every call works: hooks fire while the loader starts, once they are
    attached, and during each poll, and the user presses Ctrl-C after the
    last one.

    The results: the program computes the exit status of [Loader.snoop_main]
    and releases what it acquires, in every environment; and in a session it
    prints the headings, the lines of all the records in order, and its
    farewell.  The chapters are in SnoopSessions, TcpSessions and ArgvRace;
    chapter 15 has a main function of its own, made of the same calls and
    the same loop (ReadlineRun). *)

From stdpp Require Import prelude list strings.
From Stdlib Require Import ZArith Lia.
From S2P Require Import Prelude.
From S2P Require Import Kernel.
From S2P Require Import Printf.
From S2P Require Import Loader.
From S2P Require Import Sys.

Inductive lc :=
  | LOpenLoad
  | LAttach
  | LRingNew
  | LRingPoll
  | LRingFree
  | LLinkDestroy
  | LDestroy
  | LStop
  | LPrint (text : list Z)
  | LErr (text : list Z).

Definition ans (c : lc) : Type :=
  match c with
  | LOpenLoad | LRingNew | LStop => bool
  | LAttach | LRingPoll => Z
  | LRingFree | LLinkDestroy | LDestroy | LPrint _ | LErr _ => ()
  end.

Canonical Structure LC : calls := mk_calls lc ans.

(** What the programs print differently. *)
Record texts := mk_texts { attach_failed : list Z; headings : list (list Z) }.

(** [printf] of the headings. *)
Definition print_all (lines : list (list Z)) : prog LC () :=
  for_each (λ l _, sys (LPrint l)) lines ().

Definition bye : list Z := [10] ++ str "Detached. Bye!" ++ [10].

(** The body of [while (!stop)], on the value of [err]. *)
Definition poll_once (err : Z) : prog LC (Z + Z) :=
  let! stop := sys LStop in
  if stop then Ret (inr err) else
  let! err := sys LRingPoll in
  if err =? - EINTR then Ret (inr 0) else
  if err <? 0 then sys (LErr (str "ring_buffer__poll: " ++ sdec err ++ [10])) ;! Ret (inr err) else
  Ret (inl err).

Definition snoop_prog (t : texts) (fuel : nat) : prog LC Z :=
  let! skel := sys LOpenLoad in
  if negb skel then sys (LErr (str "Failed to open/load BPF skeleton" ++ [10])) ;! Ret 1 else
  let! err := sys LAttach in
  let! err :=
    if negb (err =? 0) then sys (LErr (attach_failed t ++ str ": " ++ sdec err ++ [10])) ;! Ret err else
    let! rb := sys LRingNew in
    if negb rb then sys (LErr (str "Failed to create ring buffer" ++ [10])) ;! Ret 1 else
    print_all (headings t) ;!
    let! err := iter fuel poll_once err in
    sys (LPrint bye) ;!
    sys LRingFree ;!
    Ret err in
  sys LDestroy ;!
  Ret (exit_status err).

(** ** Against [Loader] *)

(** The answers so far, as an outcome of [Loader]. *)
Definition note (o : outcome) (e : event LC) : outcome :=
  match e with
  | existT c r =>
      match c as c' return ans c' → outcome with
      | LOpenLoad => λ ok : bool, mk_outcome ok (attach_rc o) (ring_ok o) (polls o)
      | LAttach => λ rc : Z, mk_outcome (loads o) rc (ring_ok o) (polls o)
      | LRingNew => λ ok : bool, mk_outcome (loads o) (attach_rc o) ok (polls o)
      | LRingPoll => λ rc : Z, mk_outcome (loads o) (attach_rc o) (ring_ok o) (polls o ++ [rc])
      | _ => λ _, o
      end r
  end.

Definition recorder : watcher LC outcome := mk_watcher LC outcome (λ _ _, True) (λ o e, Some (note o e)).

Definition no_outcome : outcome := mk_outcome false 0 false [].

Lemma watch_recorder o tr : watch recorder o tr = Some (foldl note o tr).
Proof. revert o. induction tr as [|e tr IH]; intros o; [done|]. cbn. apply IH. Qed.

Lemma assumed_recorder o tr : assumed recorder o tr.
Proof. revert o. induction tr as [|e tr IH]; intros o; [done|]. split; [done|]. apply IH. Qed.

Lemma poll_loop_snoc l rc err : Forall (λ r, 0 ≤ r) l → poll_loop (l ++ [rc]) err = poll_loop [rc] err.
Proof.
  revert err. induction l as [|r l IH]; intros err Hl; [done|]. apply Forall_cons in Hl as [Hr Hl].
  change (poll_loop ((r :: l) ++ [rc]) err)
    with (if r =? - EINTR then 0 else if r <? 0 then r else poll_loop (l ++ [rc]) r).
  destruct (Z.eqb_spec r (- EINTR)); [unfold EINTR in *; lia|]. destruct (Z.ltb_spec r 0); [lia|]. by rewrite IH.
Qed.

Lemma poll_loop_nonneg l err : Forall (λ r, 0 ≤ r) l → poll_loop l err = default err (last l).
Proof.
  revert err. induction l as [|r l IH]; intros err Hl; [done|]. apply Forall_cons in Hl as [Hr Hl]. cbn [poll_loop].
  destruct (Z.eqb_spec r (- EINTR)); [unfold EINTR in *; lia|]. destruct (Z.ltb_spec r 0); [lia|].
  rewrite IH by done. rewrite last_cons. by destruct (last l).
Qed.

(** The loop of the program is the loop of [Loader]. *)
Lemma wp_poll_loop fuel o err :
  polls o = [] →
  wp recorder false (iter fuel poll_once err)
    (λ err' o', o' = mk_outcome (loads o) (attach_rc o) (ring_ok o) (polls o') ∧ err' = poll_loop (polls o') err) o.
Proof.
  intros Hp. apply (wp_iter recorder false (λ _ e o', o' = mk_outcome (loads o) (attach_rc o) (ring_ok o) (polls o')
    ∧ Forall (λ r, 0 ≤ r) (polls o') ∧ e = default err (last (polls o')))) with (n := O); [|done|].
  2: { rewrite Hp. split; [by destruct o; simpl in *; subst|]. done. }
  intros n e o' (Ho & Hn & ->). unfold poll_once. apply wp_bind. cbn [sys wp]. intros stop _. cbn in stop.
  cbn [recorder accept note ev]. destruct stop; cbn [wp].
  { split; [done|]. by rewrite poll_loop_nonneg. }
  apply wp_bind. cbn [sys wp]. intros rc _. cbn in rc. cbn [recorder accept note ev].
  set (o1 := mk_outcome _ _ _ _).
  assert (Ho1 : o1 = mk_outcome (loads o) (attach_rc o) (ring_ok o) (polls o1)) by (unfold o1; cbn; rewrite Ho; done).
  assert (Hl : poll_loop (polls o1) err = poll_loop [rc] err) by (by apply poll_loop_snoc).
  cbn [poll_loop] in Hl. destruct (Z.eqb_spec rc (- EINTR)) as [->|He]; [done|].
  destruct (Z.ltb_spec rc 0).
  - apply wp_bind. cbn [sys wp]. intros u _. done.
  - exists O. split; [done|]. split; [done|]. cbn. split; [apply Forall_app; by repeat constructor|]. by rewrite last_snoc.
Qed.

Lemma wp_snoop_prog t fuel :
  wp recorder false (snoop_prog t fuel) (λ st o, st = (snoop_main o).1) no_outcome.
Proof.
  unfold snoop_prog. apply wp_bind. cbn [sys wp]. intros ok _. cbn in ok. cbn [recorder accept note ev].
  destruct ok; cbn [negb]; [|apply wp_bind; cbn; by intros u _].
  apply wp_bind. cbn [sys wp]. intros rc _. cbn in rc. cbn [recorder accept note ev]. apply wp_bind.
  destruct (Z.eqb_spec rc 0) as [->|Hrc]; cbn [negb].
  2: { apply wp_bind. cbn. intros u _ u' _. unfold snoop_main. cbn. by apply Z.eqb_neq in Hrc as ->. }
  apply wp_bind. cbn [sys wp]. intros rb _. cbn in rb. cbn [recorder accept note ev].
  destruct rb; cbn [negb].
  2: { apply wp_bind. cbn. by intros u _ u' _. }
  apply wp_bind. unfold print_all. apply wp_for_each_keep; [intros l u; cbn; by intros _ _|]. intros u.
  apply wp_bind. eapply wp_mono; [by apply wp_poll_loop|]. intros err o [-> ->].
  apply wp_bind. cbn. intros u1 _ u2 _ u3 _. done.
Qed.

(** The exit status of the program is that of [Loader.snoop_main] on the
    answers it got. *)
Lemma snoop_prog_status t fuel tr st :
  exec (snoop_prog t fuel) tr (Some st) → st = (snoop_main (foldl note no_outcome tr)).1.
Proof.
  intros He. destruct (exec_wp recorder false _ _ _ _ He no_outcome (wp_snoop_prog t fuel) (assumed_recorder _ _))
    as (o & Ho & Hst). rewrite watch_recorder in Ho. by injection Ho as <-.
Qed.

(** ** Resources *)

Inductive res := Skel | Ring.

#[export] Instance res_eq_dec : EqDecision res.
Proof. solve_decision. Defined.

(** The hooks, the ring and its callback belong to the skeleton. *)
Definition effect (e : event LC) : list (act res) :=
  match e with
  | existT c r =>
      match c as c' return ans c' → list (act res) with
      | LOpenLoad => λ ok : bool, if ok then [Acquire Skel] else []
      | LAttach => λ _, [Use Skel]
      | LRingNew => λ ok : bool, Use Skel :: if ok then [Acquire Ring] else []
      | LRingPoll => λ _, [Use Ring; Use Skel]
      | LRingFree => λ _, [Release Ring]
      | LDestroy => λ _, [Release Skel]
      | _ => λ _, []
      end r
  end.

Ltac eval_held r H :=
  clear H; cbn [accept holder effect ev];
  repeat match goal with
    | |- context [if ?b then [Acquire _] else _] => wp_cases b
    end;
  match goal with
  | |- context [do_acts ?h ?l] => let v := eval vm_compute in (do_acts h l) in change (do_acts h l) with v
  end; cbv iota.

Ltac held_step :=
  first
    [ wp_next eval_held
    | apply wp_iter_keep; intros ?
    | apply wp_for_each_keep; intros ].

(** Whatever the environment answers, nothing is used or released that is
    not held, and nothing is held at the exit. *)
Lemma snoop_prog_held t fuel : wp (holder effect) false (snoop_prog t fuel) (λ _ h, h = []) [].
Proof. unfold snoop_prog, print_all, poll_once. repeat held_step; done. Qed.

(** ** The chapters *)

(** The state of the kernel side, its hooks and the records they submitted;
    [snoop_consumed] is what reading the ring does to it, and [snoop_ready]
    whether the ring has room for what a hook submits.  The callback turns a
    record into output and may keep a state. *)
Class Snooper (K H E U : Type) := {
  snoop_fire : K → H → K;
  snoop_records : K → list E;
  snoop_consumed : K → K;
  snoop_ready : K → H → bool;
  snoop_callback : U → E → U * list (list Z);
}.

(** Records are only added; reading them does not change what was
    submitted. *)
Class SnooperLaws (K H E U : Type) `{!Snooper K H E U} : Prop := {
  snoop_fire_records (k : K) (h : H) : ∃ es, snoop_records (snoop_fire k h) = snoop_records k ++ es;
  snoop_consumed_records (k : K) : snoop_records (snoop_consumed k) = snoop_records k;
}.

Section world.
  Context {K H E U : Type} {S : Snooper K H E U}.

Record world := mk_world {
  kern : K;
  hooked : bool;
  nread : nat;
  user : U;
  starting : list H;
  arriving : list (list H);
  screen : list (list Z);
}.

(** The callback on records in order. *)
Fixpoint callbacks (u : U) (es : list E) : U * list (list Z) :=
  match es with
  | [] => (u, [])
  | e :: es =>
      let '(u, out) := snoop_callback u e in
      let '(u, rest) := callbacks u es in
      (u, out ++ rest)
  end.

Definition happen (hs : list H) (w : world) : K := if hooked w then foldl snoop_fire (kern w) hs else kern w.

(** [ring_buffer__poll]: the records that were not read yet; it answers their
    number. *)
Definition poll (w : world) : world :=
  let '(hs, rest) := match arriving w with [] => ([], []) | hs :: rest => (hs, rest) end in
  let k := happen hs w in
  let '(u, out) := callbacks (user w) (drop (nread w) (snoop_records k)) in
  mk_world (snoop_consumed k) (hooked w) (length (snoop_records k)) u (starting w) rest (screen w ++ out).

Definition reply (c : LC) (w : world) : answer LC c * world :=
  match c as c' return ans c' * world with
  | LOpenLoad => (true, w)
  | LAttach => (0, mk_world (kern w) true (nread w) (user w) (starting w) (arriving w) (screen w))
  | LRingNew =>
      (true, mk_world (happen (starting w) w) (hooked w) (nread w) (user w) (starting w) (arriving w) (screen w))
  | LRingPoll => (Z.of_nat (nread (poll w) - nread w), poll w)
  | LStop => (match arriving w with [] => true | _ => false end, w)
  | LRingFree | LLinkDestroy => (tt, w)
  | LDestroy => (tt, mk_world (kern w) false (nread w) (user w) (starting w) (arriving w) (screen w))
  | LPrint text => (tt, mk_world (kern w) (hooked w) (nread w) (user w) (starting w) (arriving w) (screen w ++ [text]))
  | LErr _ => (tt, w)
  end.

Definition boot (k : K) (u : U) (starting : list H) (batches : list (list H)) : world :=
  mk_world k false (length (snoop_records k)) u starting batches [].

(** The kernel side after hooks that fire in batches, each followed by a
    poll. *)
Definition feed (k : K) (batches : list (list H)) : K :=
  foldl (λ k hs, snoop_consumed (foldl snoop_fire k hs)) k batches.

(** For each hook that fires, whether the ring had room for it. *)
Fixpoint fire_rooms (k : K) (hs : list H) : list bool :=
  match hs with
  | [] => []
  | h :: hs => snoop_ready k h :: fire_rooms (snoop_fire k h) hs
  end.

Fixpoint feed_rooms (k : K) (batches : list (list H)) : list bool :=
  match batches with
  | [] => []
  | hs :: rest => fire_rooms k hs ++ feed_rooms (snoop_consumed (foldl snoop_fire k hs)) rest
  end.

Definition session_rooms (k : K) (starting : list H) (batches : list (list H)) : list bool :=
  fire_rooms k starting ++ feed_rooms (foldl snoop_fire k starting) batches.

(** The session prints the headings, [lines] and the farewell, detaches and
    exits with 0. *)
Definition session_prints (t : texts) (k : K) (u : U) (starting : list H) (batches : list (list H)) (fuel : nat)
    (lines : list (list Z)) : Prop :=
  ∃ w', run reply (snoop_prog t fuel) (boot k u starting batches) = (Some 0, w')
  ∧ hooked w' = false ∧ screen w' = headings t ++ lines ++ [bye].
End world.
Arguments world : clear implicits.

(** ** Sessions *)

Section session.
  Context {K H E U : Type} {S : Snooper K H E U} `{!SnooperLaws K H E U}.
  Implicit Types (w : world K H U) (k : K).

Lemma fires_records k hs : ∃ es, snoop_records (foldl snoop_fire k hs) = snoop_records k ++ es.
Proof.
  revert k. induction hs as [|h hs IH]; intros k; [exists []; by rewrite app_nil_r|]. cbn [foldl].
  destruct (IH (snoop_fire k h)) as [es He]. destruct (snoop_fire_records k h) as [es' He'].
  exists (es' ++ es). by rewrite He, He', app_assoc.
Qed.

Lemma callbacks_app u es1 es2 :
  callbacks u (es1 ++ es2)
  = let '(u, out1) := callbacks u es1 in let '(u, out2) := callbacks u es2 in (u, out1 ++ out2).
Proof.
  revert u. induction es1 as [|e es1 IH]; intros u; cbn; [by destruct (callbacks u es2)|].
  destruct (snoop_callback u e) as [u1 out]. rewrite IH. destruct (callbacks u1 es1) as [u2 o1].
  destruct (callbacks u2 es2) as [u3 o2]. by rewrite app_assoc.
Qed.

(** A callback that keeps no state. *)
Lemma callbacks_plain (text : E → list Z) u es :
  (∀ u e, snoop_callback u e = (u, [text e])) → (callbacks u es).2 = text <$> es.
Proof.
  intros Ht. revert u. induction es as [|e es IH]; intros u; [done|]. cbn. rewrite Ht. specialize (IH u).
  destruct (callbacks u es). cbn in *. by rewrite IH.
Qed.

(** The records [seen] were handed to the callback, which started with [u],
    and [pend] are waiting. *)
Record running (u : U) (out : list (list Z)) (base seen pend : list E) w : Prop := mk_running {
  rn_hooked : hooked w = true;
  rn_records : snoop_records (kern w) = base ++ seen ++ pend;
  rn_nread : nread w = length (base ++ seen);
  rn_user : user w = (callbacks u seen).1;
  rn_screen : screen w = out ++ (callbacks u seen).2;
}.

Lemma snoop_poll_running u out base seen pend hs rest w :
  running u out base seen pend w → arriving w = hs :: rest →
  ∃ es, running u out base (seen ++ pend ++ es) [] (poll w)
  ∧ arriving (poll w) = rest ∧ kern (poll w) = snoop_consumed (foldl snoop_fire (kern w) hs).
Proof.
  intros [Hh Hr Hn Hu Ho] Ha. destruct (fires_records (kern w) hs) as [es He]. exists es.
  unfold poll, happen. rewrite Ha, Hh, He, Hr, Hn, Hu, Ho, <- !app_assoc, (app_assoc base seen), drop_app_length.
  pose proof (callbacks_app u seen (pend ++ es)) as Hc. destruct (callbacks u seen) as [u1 o1]. cbn [fst snd] in *.
  destruct (callbacks u1 (pend ++ es)) as [u2 o2]. split; [|done].
  split; cbn [hooked kern nread user screen]; [done| |rewrite !length_app; lia|by rewrite Hc|].
  - by rewrite snoop_consumed_records, He, Hr, app_nil_r, <- !app_assoc.
  - rewrite Hc. cbn [snd]. by rewrite app_assoc.
Qed.

Lemma run_snoop_polls u out base batches : ∀ fuel seen pend err w,
  (length batches < fuel)%nat → running u out base seen pend w → arriving w = batches →
  (batches = [] → pend = [] ∧ 0 ≤ err) →
  ∃ seen' w' err', 0 ≤ err' ∧ running u out base seen' [] w' ∧ kern w' = feed (kern w) batches
  ∧ run reply (iter fuel poll_once err) w = (Some err', w').
Proof.
  induction batches as [|hs batches IH]; intros fuel seen pend err w Hf Hw Ha Hp; (destruct fuel as [|fuel]; [simpl in Hf; lia|]).
  - exists seen, w, err. destruct (Hp eq_refl) as [-> He]. split; [done|]. split; [done|]. split; [done|].
    cbn [iter]. rewrite run_bind. unfold poll_once. cbn. by rewrite Ha.
  - destruct (snoop_poll_running u out base seen pend hs batches w Hw Ha) as (es & Hw1 & Ha1 & Hk1).
    set (n := Z.of_nat (nread (poll w) - nread w)). assert (Hn0 : 0 ≤ n) by lia.
    destruct (IH fuel _ _ n (poll w) ltac:(simpl in Hf; lia) Hw1 Ha1 (λ _, conj eq_refl Hn0))
      as (seen' & w' & err' & He' & Hw' & Hk' & Hrun).
    exists seen', w', err'. split; [done|]. split; [done|]. split; [by rewrite Hk', Hk1|].
    cbn [iter]. rewrite run_bind. unfold poll_once at 1. cbn. rewrite Ha. cbn. fold n.
    destruct (Z.eqb_spec n (- EINTR)) as [Hn|_]; [unfold EINTR in Hn; lia|]. destruct (Z.ltb_spec n 0); [lia|]. exact Hrun.
Qed.

Lemma run_print_all lines w :
  run reply (print_all lines) w
  = (Some (), mk_world (kern w) (hooked w) (nread w) (user w) (starting w) (arriving w) (screen w ++ lines)).
Proof.
  unfold print_all. revert w. induction lines as [|l lines IH]; intros w; cbn [for_each].
  { cbn. rewrite app_nil_r. by destruct w. }
  rewrite run_bind. cbn. rewrite IH. cbn. by rewrite <- app_assoc.
Qed.

(** The loop of a session: [out] is on the screen, hooks have fired and are
    about to. *)
Lemma run_polled out (k : K) (u : U) (starting : list H) (batches : list (list H)) (fuel : nat) (err : Z) :
  batches ≠ [] → (length batches < fuel)%nat →
  let w0 := mk_world (foldl snoop_fire k starting) true (length (snoop_records k)) u starting batches out in
  ∃ es w1 err', 0 ≤ err'
    ∧ snoop_records (feed (foldl snoop_fire k starting) batches) = snoop_records k ++ es
    ∧ run reply (iter fuel poll_once err) w0 = (Some err', w1)
    ∧ screen w1 = out ++ (callbacks u es).2.
Proof.
  intros Hne Hf w0. destruct (fires_records k starting) as [es0 He0].
  assert (Hw0 : running u out (snoop_records k) [] es0 w0).
  { split; cbn; [done|done|by rewrite app_nil_r|done|by rewrite app_nil_r]. }
  destruct (run_snoop_polls u out (snoop_records k) batches fuel [] es0 err w0 Hf Hw0 eq_refl) as
    (seen & w1 & err' & He & [_ Hr _ _ Hs] & Hk & Hrun); [done|].
  exists seen, w1, err'. split; [done|]. split; [by rewrite <- (app_nil_r seen), <- Hr, Hk|]. done.
Qed.

(** A session prints the headings, what the callback makes of all the
    records submitted in it, and the farewell. *)
Lemma session_ok t (k : K) (u : U) (starting : list H) (batches : list (list H)) (fuel : nat) :
  batches ≠ [] → (length batches < fuel)%nat →
  ∃ es,
    snoop_records (feed (foldl snoop_fire k starting) batches) = snoop_records k ++ es
    ∧ session_prints t k u starting batches fuel (callbacks u es).2.
Proof.
  intros Hne Hf. destruct (run_polled (headings t) k u starting batches fuel 0 Hne Hf) as (es & w1 & err & He & Hes & Hrun & Hs).
  exists es. split; [done|]. eexists. split; [|split].
  - unfold snoop_prog. cbn. rewrite !run_bind, run_print_all. cbn. rewrite run_bind.
    match type of Hrun with ?L = _ => match goal with |- context [run ?f (iter ?n ?b ?x) ?w] =>
      change (run f (iter n b x) w) with L end end.
    rewrite Hrun. cbn. unfold exit_status. destruct (Z.ltb_spec err 0); [lia|]. reflexivity.
  - done.
  - cbn. by rewrite Hs, <- app_assoc.
Qed.
End session.

(** ** Sessions against a specification

    [allowed room hist h out]: hook [h], after the hooks [hist], may cause
    the lines [out]; [room] says whether the ring had room for it.  If each
    hook, with the callback, causes allowed lines from every state the
    history can lead to, then what a session prints is allowed for its
    hooks, in order. *)

(** The lines [out] are allowed for the hooks [hs] that follow [hist]. *)
Fixpoint all_allowed {H} (allowed : bool → list H → H → list (list Z) → Prop)
    (rooms : list bool) (hist hs : list H) (out : list (list Z)) : Prop :=
  match rooms, hs with
  | [], [] => out = []
  | room :: rooms, h :: hs =>
      ∃ o1 o2, out = o1 ++ o2 ∧ allowed room hist h o1 ∧ all_allowed allowed rooms (hist ++ [h]) hs o2
  | _, _ => False
  end.

Section specified.
  Context {K H E U : Type} {S : Snooper K H E U} `{!SnooperLaws K H E U}.
  Variables (fine : list H → Prop) (inv : list H → K → Prop) (uinv : list H → U → Prop).
  Variable allowed : bool → list H → H → list (list Z) → Prop.
  (** A promise about the whole session: the ring has room for every hook.
      [False] where it is not needed. *)
  Variable quiet : Prop.
  Hypothesis fine_prefix : ∀ hs hs', fine (hs ++ hs') → fine hs.
  Hypothesis inv_consumed : ∀ hs k, inv hs k → inv hs (snoop_consumed k).
  Hypothesis inv_fire : ∀ hs h k,
    fine (hs ++ [h]) → inv hs k → (quiet → snoop_ready k h = true) →
    ∃ es, snoop_records (snoop_fire k h) = snoop_records k ++ es ∧ inv (hs ++ [h]) (snoop_fire k h)
    ∧ ∀ u, uinv hs u → allowed (snoop_ready k h) hs h (callbacks u es).2 ∧ uinv (hs ++ [h]) (callbacks u es).1.

Lemma all_allowed_app hist rs1 rs2 hs1 hs2 o1 o2 :
  all_allowed allowed rs1 hist hs1 o1 → all_allowed allowed rs2 (hist ++ hs1) hs2 o2 →
  all_allowed allowed (rs1 ++ rs2) hist (hs1 ++ hs2) (o1 ++ o2).
Proof.
  revert hist o1 rs1. induction hs1 as [|h hs1 IH]; intros hist o1 [|r rs1]; cbn; [intros ->; by rewrite app_nil_r|done|done|].
  intros (o & o' & -> & Ha & Hr) H2. exists o, (o' ++ o2). rewrite <- app_assoc. split; [done|]. split; [done|].
  apply IH; [done|]. by rewrite <- app_assoc.
Qed.

(** From state [k] on, the hooks [hs] lead to [k'] and to allowed lines. *)
Definition leads (rs : list bool) (hist hs : list H) (k k' : K) : Prop :=
  ∃ es, snoop_records k' = snoop_records k ++ es ∧ inv (hist ++ hs) k'
  ∧ ∀ u, uinv hist u → all_allowed allowed rs hist hs (callbacks u es).2 ∧ uinv (hist ++ hs) (callbacks u es).1.

Lemma leads_nil hist k k' : snoop_records k' = snoop_records k → inv hist k' → leads [] hist [] k k'.
Proof. intros Hr Hi. exists []. rewrite Hr, !app_nil_r. done. Qed.

Lemma leads_app rs1 rs2 hist hs1 hs2 k k1 k2 :
  leads rs1 hist hs1 k k1 → leads rs2 (hist ++ hs1) hs2 k1 k2 → leads (rs1 ++ rs2) hist (hs1 ++ hs2) k k2.
Proof.
  intros (e1 & R1 & I1 & U1) (e2 & R2 & I2 & U2).
  exists (e1 ++ e2). rewrite R2, R1, <- !app_assoc. rewrite <- app_assoc in I2, U2. split; [done|]. split; [done|].
  intros u Hu. rewrite callbacks_app. destruct (U1 u Hu) as [L1 V1]. destruct (U2 _ V1) as [L2 V2].
  destruct (callbacks u e1) as [u1 o1]. cbn [fst snd] in *. destruct (callbacks u1 e2) as [u2 o2]. cbn [fst snd] in *.
  split; [by apply all_allowed_app|done].
Qed.

Lemma leads_fires hs : ∀ hist k,
  fine (hist ++ hs) → inv hist k → (quiet → Forall (eq true) (fire_rooms k hs)) →
  leads (fire_rooms k hs) hist hs k (foldl snoop_fire k hs).
Proof.
  induction hs as [|h hs IH]; intros hist k Hf Hi Hq; [by apply leads_nil|]. cbn [fire_rooms foldl] in *.
  change (h :: hs) with ([h] ++ hs) in *. rewrite app_assoc in Hf.
  destruct (inv_fire hist h k) as (es & H1 & H2 & H3); [by eapply fine_prefix|done| |].
  { intros Hb. by pose proof (Forall_inv (Hq Hb)). }
  apply (leads_app [snoop_ready k h] _ hist [h] hs k (snoop_fire k h)).
  2: { apply IH; [done|done|]. intros Hb. exact (Forall_inv_tail (Hq Hb)). }
  exists es. split; [done|]. split; [done|]. intros u Hu. destruct (H3 u Hu) as [Ha Hu']. split; [|done].
  eexists _, []. by rewrite app_nil_r.
Qed.

Lemma leads_feed batches : ∀ hist k,
  fine (hist ++ concat batches) → inv hist k → (quiet → Forall (eq true) (feed_rooms k batches)) →
  leads (feed_rooms k batches) hist (concat batches) k (feed k batches).
Proof.
  induction batches as [|hs batches IH]; intros hist k Hf Hi Hq; [by apply leads_nil|]. cbn [concat feed feed_rooms foldl] in *.
  rewrite app_assoc in Hf. setoid_rewrite Forall_app in Hq.
  assert (H0 : leads (fire_rooms k hs) hist hs k (foldl snoop_fire k hs)).
  { apply leads_fires; [by eapply fine_prefix|done|]. by intros [? ?]%Hq. }
  assert (H1 : leads (fire_rooms k hs) hist hs k (snoop_consumed (foldl snoop_fire k hs))).
  { rewrite <- (app_nil_r hs) at 2. rewrite <- (app_nil_r (fire_rooms k hs)).
    eapply leads_app; [exact H0|]. apply leads_nil; [apply snoop_consumed_records|]. apply inv_consumed.
    by destruct H0 as (es & _ & Hi' & _). }
  eapply leads_app; [exact H1|]. apply IH; [done| |by intros [? ?]%Hq]. by destruct H1 as (es & _ & Hi' & _).
Qed.

(** What all the hooks of a session led to. *)
Lemma fed_allowed (k : K) (u : U) (starting : list H) (batches : list (list H)) es :
  inv [] k → uinv [] u → fine (starting ++ concat batches) →
  (quiet → Forall (eq true) (session_rooms k starting batches)) →
  snoop_records (feed (foldl snoop_fire k starting) batches) = snoop_records k ++ es →
  all_allowed allowed (session_rooms k starting batches) [] (starting ++ concat batches) (callbacks u es).2.
Proof.
  intros Hi Hu Hf Hq He. unfold session_rooms in *. setoid_rewrite Forall_app in Hq.
  assert (H1 : leads (fire_rooms k starting) [] starting k (foldl snoop_fire k starting)).
  { apply leads_fires; [by eapply fine_prefix|done|]. by intros [? ?]%Hq. }
  assert (H2 : leads (feed_rooms (foldl snoop_fire k starting) batches) ([] ++ starting) (concat batches)
    (foldl snoop_fire k starting) (feed (foldl snoop_fire k starting) batches)).
  { apply leads_feed; [done|by destruct H1 as (? & _ & ? & _)|by intros [? ?]%Hq]. }
  destruct (leads_app _ _ _ _ _ _ _ _ H1 H2) as (es' & He' & _ & Hc).
  rewrite He in He'. apply app_inv_head in He' as ->. by destruct (Hc u Hu).
Qed.

(** The session. *)
Lemma session_allowed t (k : K) (u : U) (starting : list H) (batches : list (list H)) (fuel : nat) :
  inv [] k → uinv [] u → fine (starting ++ concat batches) →
  (quiet → Forall (eq true) (session_rooms k starting batches)) →
  batches ≠ [] → (length batches < fuel)%nat →
  ∃ out, session_prints t k u starting batches fuel out
  ∧ all_allowed allowed (session_rooms k starting batches) [] (starting ++ concat batches) out.
Proof.
  intros Hi Hu Hf Hq Hne Hl. destruct (session_ok t k u starting batches fuel Hne Hl) as (es & He & Hp).
  eexists. split; [exact Hp|]. by apply fed_allowed.
Qed.
End specified.

(** ** Lines that are a function of the history *)

Section lines.
  Context {H : Type} (spec : list H → H → list (list Z)).

Fixpoint lines_of (hist hs : list H) : list (list Z) :=
  match hs with
  | [] => []
  | h :: hs => spec hist h ++ lines_of (hist ++ [h]) hs
  end.

(** Those of the hooks the ring had room for. *)
Fixpoint kept_lines (rooms : list bool) (hist hs : list H) : list (list Z) :=
  match rooms, hs with
  | room :: rooms, h :: hs => (if room : bool then spec hist h else []) ++ kept_lines rooms (hist ++ [h]) hs
  | _, _ => []
  end.

Lemma all_kept rooms : ∀ hist hs out,
  all_allowed (λ room hist h o, o = if room : bool then spec hist h else []) rooms hist hs out →
  out = kept_lines rooms hist hs.
Proof.
  induction rooms as [|room rooms IH]; intros hist [|h hs] out; cbn; try done.
  intros (o1 & o2 & -> & -> & H2). f_equal. by apply IH.
Qed.

Lemma kept_all rooms : ∀ hist hs,
  Forall (eq true) rooms → length rooms = length hs → kept_lines rooms hist hs = lines_of hist hs.
Proof.
  induction rooms as [|room rooms IH]; intros hist [|h hs] Hf Hl; try done. apply Forall_cons in Hf as [<- Hf].
  cbn in *. f_equal. apply IH; [done|lia].
Qed.
End lines.

(** ** Rings that do not fill up

    The ring of every chapter has the same size. *)

Definition RING_BYTES : Z := 256 * 1024.

(** It has room for everything in a [calm] session, where up to [cap] hooks
    fire between two polls, each submitting up to [cost] records. *)
Section calm.
  Context {K H E U : Type} {S : Snooper K H E U}.
  Variables (unread : K → nat) (slots cost cap : nat).
  Hypothesis ready_below : ∀ k h, (unread k + cost ≤ slots)%nat → snoop_ready k h = true.
  Hypothesis fire_unread : ∀ k h, (unread (snoop_fire k h) ≤ unread k + cost)%nat.
  Hypothesis consumed_unread : ∀ k, unread (snoop_consumed k) = 0%nat.
  Hypothesis cap_fits : (cap * cost ≤ slots)%nat.

Lemma fire_rooms_calm hs : ∀ k,
  (unread k + length hs * cost ≤ slots)%nat → Forall (eq true) (fire_rooms k hs)
  ∧ (unread (foldl snoop_fire k hs) ≤ unread k + length hs * cost)%nat.
Proof.
  induction hs as [|h hs IH]; intros k Hk; cbn in *; [by split; [|lia]|].
  pose proof (fire_unread k h) as Hf. destruct (IH (snoop_fire k h)) as [H1 H2]; [lia|]. split; [|lia].
  constructor; [|done]. by rewrite ready_below by lia.
Qed.

Lemma feed_rooms_calm batches : ∀ k,
  unread k = 0%nat → Forall (λ hs, (length hs ≤ cap)%nat) batches → Forall (eq true) (feed_rooms k batches).
Proof.
  induction batches as [|hs batches IH]; intros k Hk Hc; [constructor|]. apply Forall_cons in Hc as [Hh Hc].
  apply Forall_app. split; [|by apply IH]. apply fire_rooms_calm. rewrite Hk. nia.
Qed.

Lemma calm_rooms k starting batches :
  unread k = 0%nat → calm cap starting batches → Forall (eq true) (session_rooms k starting batches).
Proof.
  intros Hk Hc. unfold session_rooms. destruct batches as [|hs batches]; cbn in *.
  { rewrite app_nil_r. apply fire_rooms_calm. rewrite Hk. nia. }
  apply Forall_cons in Hc as [Hh Hc]. rewrite length_app in Hh.
  destruct (fire_rooms_calm starting k) as [H1 H2]; [rewrite Hk; nia|].
  destruct (fire_rooms_calm hs (foldl snoop_fire k starting)) as [H3 _]; [nia|].
  rewrite !Forall_app. split_and!; [done|done|]. by apply feed_rooms_calm.
Qed.
End calm.

Section rooms.
  Context {K H E U : Type} {S : Snooper K H E U}.

(** The printed lines, computed. *)
Lemma session_prints_eq t (k : K) (u : U) starting batches fuel l l' :
  session_prints t k u starting batches fuel l → l = l' → session_prints t k u starting batches fuel l'.
Proof. by intros ? <-. Qed.

Lemma length_fire_rooms (k : K) (hs : list H) : length (fire_rooms k hs) = length hs.
Proof. revert k. induction hs as [|h hs IH]; intros k; [done|]. cbn. by rewrite IH. Qed.

Lemma length_session_rooms (k : K) (starting : list H) (batches : list (list H)) :
  length (session_rooms k starting batches) = length (starting ++ concat batches).
Proof.
  unfold session_rooms. rewrite !length_app, length_fire_rooms. f_equal. generalize (foldl snoop_fire k starting).
  induction batches as [|hs batches IH]; intros k'; [done|]. cbn. by rewrite !length_app, length_fire_rooms, IH.
Qed.

(** With room for every hook nothing is missing. *)
Lemma kept_session spec (k : K) (starting : list H) (batches : list (list H)) :
  Forall (eq true) (session_rooms k starting batches) →
  kept_lines spec (session_rooms k starting batches) [] (starting ++ concat batches)
  = lines_of spec [] (starting ++ concat batches).
Proof. intros Hr. apply kept_all; [done|apply length_session_rooms]. Qed.
End rooms.
