(* ===== verification/SnoopSessions.v ===== *)
(** * SnoopSessions: chapters 7 to 11 and 20 from the hooks to the screen

    The instances of [SnoopRun.Snooper] for the chapters whose output is a
    function of what happened: execve with its file name (7) and with its
    arguments (8), openat (9), openat with its result (10), connect (11) and
    the LSM hook (20); with the headings their loaders print.

    The theorems: over a whole session each program prints, after its
    headings, exactly the lines of the calls that found room in the ring, in
    order; and all of them do, while not more come between two polls than
    the ring holds. *)

From stdpp Require Import prelude gmap list strings.
From Stdlib Require Import ZArith Lia.
From S2P Require Import Prelude.
From S2P Require Import Kernel.
From S2P Require Import Printf.
From S2P Require Import OpenSnoop.
From S2P Require Import NetSnoop.
From S2P Require Import ArgvSnoop.
From S2P Require Import ExecGuard.
From S2P Require Import Rows.
From S2P Require Import Sys.
From S2P Require Import SnoopRun.
From S2P Require Import Stash.

(** ** Texts *)

Definition who_heading : list Z :=
  rpad 8 (str "PID") ++ str " " ++ rpad 6 (str "UID") ++ str " " ++ rpad 16 (str "COMM") ++ str " ".

(** [printf("%.Ns\n", "---...")]. *)
Definition rule (n : nat) : list Z := replicate n 45 ++ [10].

Definition texts_07 : texts := mk_texts (str "Failed to attach")
  [who_heading ++ str "FILENAME" ++ [10]; rule 70].
Definition texts_08 : texts := mk_texts (str "Failed to attach")
  [who_heading ++ str "COMMAND LINE" ++ [10]; rule 70].
Definition texts_09 : texts := mk_texts (str "Failed to attach")
  [who_heading ++ rpad 5 (str "FLAGS") ++ str " FILENAME" ++ [10]; rule 78].
Definition texts_20 : texts := mk_texts (str "Failed to attach LSM program")
  [str "Auditing exec via LSM bprm_check (always allowing). Ctrl-C to stop." ++ [10];
   rpad 8 (str "PID") ++ str " " ++ rpad 7 (str "VERDICT") ++ str " " ++ rpad 16 (str "COMM") ++ str " PROGRAM" ++ [10]].

(** ** Rings

    How many records the ring of each chapter holds: its size, and the
    [sizeof] of the event. *)

Definition SLOTS_07 : nat := ring_slots RING_BYTES 280.
Definition SLOTS_08 : nat := ring_slots RING_BYTES 156.
Definition SLOTS_09 : nat := ring_slots RING_BYTES 284.
Definition SLOTS_10 : nat := ring_slots RING_BYTES 296.
Definition SLOTS_11 : nat := ring_slots RING_BYTES 56.
Definition SLOTS_20 : nat := ring_slots RING_BYTES 280.

Example slots_values :
  (SLOTS_07, SLOTS_08, SLOTS_09, SLOTS_10, SLOTS_11, SLOTS_20) = (910, 1560, 885, 862, 4095, 910)%nat.
Proof. vm_compute. reflexivity. Qed.


(** ** Chapters 10 and 11: calls that are paired with their returns *)

Section paired.
  Context {M V R E H : Type} `{!BpfMap M Z V} `{!BpfHashLaws M Z V MAX_STASH} `{!Ringbuf R E, !RingReader R}.
  Context {slots : nat} `{!RingReaderLaws R E slots}.
  Variables (fire : kstate M R → H → kstate M R) (call_of : H → Stash.call V E) (text : E → list Z).
  Hypothesis fire_call : ∀ s h, fire s h = do_call s (call_of h).

Definition paired_snooper : Snooper (kstate M R) H E () := {|
  snoop_fire := fire;
  snoop_records s := ringbuf_records (events s);
  snoop_consumed s := mk_kstate (stash s) (ring_consumed (events s));
  snoop_ready s _ := ring_ready (events s);
  snoop_callback _ e := ((), [text e]);
|}.



Variables (fine : list H → Prop) (spec : list H → H → list (list Z)).
Hypothesis fine_prefix : ∀ hs hs', fine (hs ++ hs') → fine hs.
Hypothesis fine_size : ∀ hs, fine hs → Z.of_nat (size (pids (call_of <$> hs))) ≤ MAX_STASH.
Hypothesis spec_call : ∀ hs h,
  fine hs →
  match call_of h with
  | Exit pid fill =>
      match pending pid (call_of <$> hs) with Some v => ∀ d, spec hs h = [text (fill v d)] | None => spec hs h = [] end
  | Enter _ _ => spec hs h = []
  end.

End paired.

(** *** Chapter 11 *)

Section connect.
  Context `{!UserBytes} {M R : Type} `{!BpfMap M Z (list Z)} `{!Ringbuf R NetSnoop.event, !RingReader R}.












End connect.

(** *** Chapter 10 *)

Section opened.
  Context `{!UserMem} {M R : Type} `{!BpfMap M Z entry_t} `{!Ringbuf R OpenSnoop.event, !RingReader R}.

Definition opened_text (e : OpenSnoop.event) : list Z := open_ret_line (OpenSnoop.handle_event e).

Definition opened_snooper : Snooper (kstate M R) OpenSnoop.hook OpenSnoop.event () :=
  paired_snooper OpenSnoop.fire opened_text.

(** The row of an openat of [name] with [fl] that returns [ret]. *)
Definition opened_row (cur : task) (fl : Z) (name : list Z) (ret : Z) : OpenSnoop.row :=
  OpenSnoop.mk_row (current_pid cur) (current_uid cur) (cstr (comm cur)) ret (decode_flags (s32 fl)) (shown_name name).

(** The last openat of process [pid] that entered and did not return: the
    flags and the name's address. *)
Definition open_step (pid : Z) (acc : option (Z * Z)) (h : OpenSnoop.hook) : option (Z * Z) :=
  if OpenSnoop.hook_pid h =? pid then
    match h with OpenSnoop.HEnter _ a fl => Some (a, fl) | OpenSnoop.HExit _ _ => None end
  else acc.

Definition opening (pid : Z) (hs : list OpenSnoop.hook) : option (Z * Z) := foldl (open_step pid) None hs.

(** What an openat prints after [hist]. *)
Definition opened_spec (hist : list OpenSnoop.hook) (h : OpenSnoop.hook) : list (list Z) :=
  match h with
  | OpenSnoop.HEnter _ _ _ => []
  | OpenSnoop.HExit cur ret =>
      match opening (current_pid cur) hist with
      | Some (a, fl) =>
          match user_str a with Some name => [open_ret_line (opened_row cur fl name ret)] | None => [] end
      | None => []
      end
  end.





End opened.

(** ** Chapters 7, 9 and 20: one record per call *)

Section direct.
  Context {R E H : Type} `{!Ringbuf R E, !RingReader R} {slots : nat} `{!RingReaderLaws R E slots}.
  Variables (fire : R → H → R) (text : E → list Z) (fine : H → Prop) (lines : H → list (list Z)).
  Hypothesis fire_adds : ∀ r h, ∃ es, ringbuf_records (fire r h) = ringbuf_records r ++ es.
  Hypothesis fire_unread : ∀ r h, (ring_unread (fire r h) ≤ ring_unread r + 1)%nat.
  Hypothesis fire_lines : ∀ r h es,
    fine h → ringbuf_records (fire r h) = ringbuf_records r ++ es → text <$> es = if ring_ready r then lines h else [].

Definition direct_snooper : Snooper R H E () := {|
  snoop_fire := fire;
  snoop_records := ringbuf_records;
  snoop_consumed := ring_consumed;
  snoop_ready r _ := ring_ready r;
  snoop_callback _ e := ((), [text e]);
|}.

Lemma direct_laws : @SnooperLaws _ _ _ _ direct_snooper.
Proof. split; [exact fire_adds|]. intros r. apply (ring_consumed_records (slots := slots)). Qed.

Lemma lines_of_direct hist hs : lines_of (λ _, lines) hist hs = concat (lines <$> hs).
Proof. revert hist. induction hs as [|h hs IH]; intros hist; [done|]. cbn. by rewrite IH. Qed.

(** The lines of all the records of a session. *)
Lemma direct_kept (r : R) (starting : list H) (batches : list (list H)) es :
  Forall fine (starting ++ concat batches) →
  ringbuf_records (feed (S := direct_snooper) (foldl fire r starting) batches) = ringbuf_records r ++ es →
  (callbacks (S := direct_snooper) () es).2
  = kept_lines (λ _, lines) (session_rooms (S := direct_snooper) r starting batches) [] (starting ++ concat batches).
Proof.
  intros Hf He. apply all_kept.
  eapply (fed_allowed (S := direct_snooper) (SnooperLaws0 := direct_laws) (Forall fine) (λ _ _, True) (λ _ _, True)
    (λ room _ h o, o = if room : bool then lines h else []) False); try done.
  - intros hs hs'. rewrite Forall_app. by intros [].
  - intros hs h k Hh _ _. destruct (fire_adds k h) as [es' He']. exists es'. split; [done|]. split; [done|]. intros u _.
    rewrite (callbacks_plain text) by (by intros []). split; [|done]. apply Forall_app in Hh as [_ Hh]. rewrite Forall_singleton in Hh.
    by apply fire_lines.
Qed.

Lemma direct_calm (r : R) (starting : list H) (batches : list (list H)) :
  ring_unread r = 0%nat → calm slots starting batches →
  kept_lines (λ _, lines) (session_rooms (S := direct_snooper) r starting batches) [] (starting ++ concat batches)
  = concat (lines <$> starting ++ concat batches).
Proof.
  intros Hu0 Hcalm. rewrite <- (lines_of_direct []). apply (kept_session (S := direct_snooper)).
  apply (calm_rooms (S := direct_snooper) ring_unread slots 1 slots); try done; cbn.
  - intros k _ Hs. apply (ring_room (slots := slots)). lia.
  - intros k. apply (ring_consumed_unread (slots := slots)).
  - lia.
Qed.

Lemma direct_session t (r : R) (starting : list H) (batches : list (list H)) (fuel : nat) :
  ring_unread r = 0%nat → Forall fine (starting ++ concat batches) → batches ≠ [] → (length batches < fuel)%nat →
  let prints := session_prints (S := direct_snooper) t r () starting batches fuel in
  prints (kept_lines (λ _, lines) (session_rooms (S := direct_snooper) r starting batches) [] (starting ++ concat batches))
  ∧ (calm slots starting batches → prints (concat (lines <$> starting ++ concat batches))).
Proof.
  intros Hu0 Hf Hne Hl prints.
  destruct (session_ok (S := direct_snooper) (SnooperLaws0 := direct_laws) t r () starting batches fuel Hne Hl)
    as (es & He & Hp).
  rewrite (direct_kept r starting batches es Hf He) in Hp. split; [done|]. intros Hcalm. by rewrite <- (direct_calm r).
Qed.
End direct.

(** A hook that submits one record if it can reserve it. *)
Section submit_one.
  Context {R E : Type} `{!Ringbuf R E, !RingReader R} {slots : nat} `{!RingReaderLaws R E slots} (fill : E → E).

Definition submit_one (r : R) : R :=
  match ringbuf_reserve r with Some (e, r') => ringbuf_submit r' (fill e) | None => r end.

Lemma submit_one_adds r : ∃ es, ringbuf_records (submit_one r) = ringbuf_records r ++ es.
Proof.
  unfold submit_one. destruct (ringbuf_reserve r) as [[e r']|] eqn:He; [|exists []; by rewrite app_nil_r].
  eexists. by rewrite ringbuf_submit_records, (ringbuf_reserve_records _ _ _ He).
Qed.

Lemma submit_one_unread r : (ring_unread (submit_one r) ≤ ring_unread r + 1)%nat.
Proof.
  unfold submit_one. destruct (ringbuf_reserve r) as [[e r']|] eqn:He; [|lia].
  pose proof (ring_reserve_unread (slots := slots) _ _ _ He). etrans; [apply (ring_submit_unread (slots := slots))|lia].
Qed.

Lemma submit_one_lines (text : E → list Z) line r es :
  (∀ d r', ringbuf_reserve r = Some (d, r') → text (fill d) = line) →
  ringbuf_records (submit_one r) = ringbuf_records r ++ es → text <$> es = if ring_ready r then [line] else [].
Proof.
  intros Ht. unfold submit_one, ring_ready. destruct (ringbuf_reserve r) as [[e r']|] eqn:He.
  - rewrite ringbuf_submit_records, (ringbuf_reserve_records _ _ _ He). intros <-%app_inv_head. cbn.
    by rewrite (Ht _ _ eq_refl).
  - rewrite <- (app_nil_r (ringbuf_records r)) at 1. by intros <-%app_inv_head.
Qed.
End submit_one.

Section names.
  Context `{!UserMem} `{!UserMemLaws}.

(** A call with the address of a name: execve (7), openat with its flags (9)
    and the check of a program with the verdict so far (20). *)
Record named := mk_named { n_cur : task; n_addr : Z; n_arg : Z }.

Definition readable (h : named) : Prop := is_Some (user_str (n_addr h)).

Definition name_of (h : named) : list Z := default [] (user_str (n_addr h)).

Definition named_who (h : named) : list Z :=
  who_text (current_pid (n_cur h)) (current_uid (n_cur h)) (cstr (comm (n_cur h))).

(** Chapter 20: the line of [handle_event]. *)
Definition guard_line (r : ExecGuard.row) : list Z :=
  rpad 8 (dec (ExecGuard.r_pid r)) ++ str " " ++ rpad 7 (str (ExecGuard.r_verdict r)) ++ str " " ++
  rpad 16 (ExecGuard.r_comm r) ++ str " " ++ ExecGuard.r_filename r ++ [10].

(** The lines of the three chapters. *)
Definition exec_lines (h : named) : list (list Z) := [named_who h ++ shown_name (name_of h) ++ [10]].

Definition openat_lines (h : named) : list (list Z) :=
  [named_who h ++ rpad 5 (decode_flags (s32 (n_arg h))) ++ str " " ++ shown_name (name_of h) ++ [10]].

Definition guard_lines (h : named) : list (list Z) :=
  if n_arg h =? 0
  then [guard_line (ExecGuard.mk_row (current_pid (n_cur h)) "allow" (cstr (comm (n_cur h))) (take 255 (name_of h)))]
  else [].

Definition exec_fire {R} `{!Ringbuf R exec_event} (r : R) (h : named) : R :=
  OpenSnoop.trace_execve (n_cur h) (n_addr h) r.
Definition openat_fire {R} `{!Ringbuf R open_event} (r : R) (h : named) : R :=
  trace_openat (n_cur h) (n_addr h) (n_arg h) r.
Definition guard_fire {R} `{!Ringbuf R ExecGuard.event} (r : R) (h : named) : R :=
  (exec_check (n_cur h) (n_addr h) (n_arg h) r).2.

Lemma guard_submit {R} `{!Ringbuf R ExecGuard.event} (cur : task) (a : Z) (r : R) :
  (match ringbuf_reserve r with
   | None => (0, r)
   | Some (e, events) =>
       (0, ringbuf_submit events (ExecGuard.mk_event (current_pid cur) 0 (comm cur)
            (probe_read_user_str a PATH_MAX_LEN (ExecGuard.e_filename e)).2))
   end).2
  = submit_one (λ e, ExecGuard.mk_event (current_pid cur) 0 (comm cur)
      (probe_read_user_str a PATH_MAX_LEN (ExecGuard.e_filename e)).2) r.
Proof. unfold submit_one. by destruct (ringbuf_reserve r) as [[]|]. Qed.

(** What the sessions of these chapters print: [lines h] for each call that
    found room in the ring, and so for every call while not more than
    [slots] come between two polls. *)
Definition prints {R E} `{!Ringbuf R E, !RingReader R} (slots : nat) (fire : R → named → R) (text : E → list Z)
    (lines : named → list (list Z)) (t : texts) : Prop :=
  ∀ (r : R) (starting : list named) (batches : list (list named)) (fuel : nat),
    ring_unread r = 0%nat → Forall readable (starting ++ concat batches) → batches ≠ [] → (length batches < fuel)%nat →
    let prints := session_prints (S := direct_snooper fire text) t r () starting batches fuel in
    prints (kept_lines (λ _, lines) (session_rooms (S := direct_snooper fire text) r starting batches) [] (starting ++ concat batches))
    ∧ (calm slots starting batches → prints (concat (lines <$> starting ++ concat batches))).

(** [C16] Chapters 7, 9 and 20: the program prints its headings and then one line
    for each call, in order, with the pid, the uid and the name of the task
    and the file name cut to 255 bytes; with the flags in chapter 9, and in
    chapter 20 only for programs that no other module denied. *)
Theorem name_sessions {RX RO RG} `{!Ringbuf RX exec_event, !RingReader RX} `{!Ringbuf RO open_event, !RingReader RO}
    `{!Ringbuf RG ExecGuard.event, !RingReader RG}
    `{!RingReaderLaws RX exec_event SLOTS_07} `{!RingReaderLaws RO open_event SLOTS_09} `{!RingReaderLaws RG ExecGuard.event SLOTS_20} :
  (∀ (r r' : RX) d, ringbuf_reserve r = Some (d, r') → length (x_filename d) = FNAME_LEN) →
  (∀ (r r' : RO) d, ringbuf_reserve r = Some (d, r') → length (o_filename d) = FNAME_LEN) →
  (∀ (r r' : RG) d, ringbuf_reserve r = Some (d, r') → length (ExecGuard.e_filename d) = PATH_MAX_LEN) →
  prints (R := RX) SLOTS_07 exec_fire exec_line exec_lines texts_07
  ∧ prints (R := RO) SLOTS_09 openat_fire open_line openat_lines texts_09
  ∧ prints (R := RG) SLOTS_20 guard_fire (λ e, guard_line (ExecGuard.handle_event e)) guard_lines texts_20.
Proof.
  intros Hx Ho Hg. split_and!; intros r starting batches fuel; apply direct_session; try done.
  - intros r0 h. apply (submit_one_adds (slots := SLOTS_07)).
  - intros r0 h. apply (submit_one_unread (slots := SLOTS_07)).
  - intros r0 h es [name Hn]. apply (submit_one_lines (slots := SLOTS_07)). intros d r' Hd. unfold exec_line, named_who, name_of.
    rewrite Hn. cbn [x_pid x_uid x_comm x_filename default]. do 2 f_equal.
    apply probe_read_user_str_cstr; [done|unfold FNAME_LEN; lia|by eapply Hx].
  - intros r0 h. apply (submit_one_adds (slots := SLOTS_09)).
  - intros r0 h. apply (submit_one_unread (slots := SLOTS_09)).
  - intros r0 h es [name Hn]. apply (submit_one_lines (slots := SLOTS_09)). intros d r' Hd. unfold open_line, named_who, name_of.
    rewrite Hn. cbn [o_pid o_uid o_comm o_flags o_filename default]. do 4 f_equal.
    apply probe_read_user_str_cstr; [done|unfold FNAME_LEN; lia|by eapply Ho].
  - intros r0 h. unfold guard_fire, exec_check. destruct (n_arg h =? 0); cbn [negb]; [|exists []; by rewrite app_nil_r].
    rewrite guard_submit. apply (submit_one_adds (slots := SLOTS_20)).
  - intros r0 h. unfold guard_fire, exec_check. destruct (n_arg h =? 0); cbn [negb snd]; [|lia].
    rewrite guard_submit. apply (submit_one_unread (slots := SLOTS_20)).
  - intros r0 h es [name Hn]. unfold guard_fire, exec_check, guard_lines. destruct (n_arg h =? 0); cbn [negb].
    + rewrite guard_submit. apply (submit_one_lines (slots := SLOTS_20)). intros d r' Hd. unfold ExecGuard.handle_event, name_of.
      cbn [ExecGuard.e_pid ExecGuard.e_verdict ExecGuard.e_comm ExecGuard.e_filename Z.eqb]. rewrite Hn.
      by rewrite (probe_read_user_str_cstr _ PATH_MAX_LEN _ name Hn ltac:(unfold PATH_MAX_LEN; lia) (Hg _ _ _ Hd)).
    + cbn [snd]. rewrite <- (app_nil_r (ringbuf_records r0)) at 1. intros <-%app_inv_head. by case_match.
Qed.
End names.

(** ** Chapter 8: a command with its arguments *)

Section commands.
  Context `{!UserMem} {R : Type} `{!Ringbuf R ArgvSnoop.event, !RingReader R}.

(** An execve: the task, its argument vector in memory, and the strings it
    points to. *)
Record execve := mk_execve { x_cur : task; x_argp : nat → Z; x_args : list (list Z) }.

(** The line of the EVENT_RET branch. *)
Definition argv_text (l : line) : list Z :=
  rpad 8 (dec (l_pid l)) ++ str " " ++ rpad 6 (dec (l_uid l)) ++ str " " ++ rpad 16 (l_comm l) ++
  concat ((λ a, str " " ++ a) <$> l_args l) ++ [10].

Definition argv_fire (r : R) (x : execve) : R := ArgvSnoop.trace_execve (x_argp x) (x_cur x) r.

Definition argv_callback (table : list ArgvSnoop.pending) (e : ArgvSnoop.event) : list ArgvSnoop.pending * list (list Z) :=
  let '(table, out) := ArgvSnoop.handle_event e table in (table, argv_text <$> out).

Definition argv_snooper : Snooper R execve ArgvSnoop.event (list ArgvSnoop.pending) := {|
  snoop_fire := argv_fire;
  snoop_records := ringbuf_records;
  snoop_consumed := ring_consumed;
  snoop_ready r x := trace_ready (x_argp x) (x_cur x) r;
  snoop_callback := argv_callback;
|}.

Definition command_of (x : execve) : command :=
  mk_command (current_pid (x_cur x)) (current_uid (x_cur x)) (comm (x_cur x)) (x_args x).

(** The line of a command; one without any argument has none. *)
Definition command_lines (x : execve) : list (list Z) :=
  match x_args x with [] => [] | _ => [argv_text (command_line (command_of x))] end.

Lemma send_args_adds `{!RingbufLaws R ArgvSnoop.event} argp n : ∀ i pid uid cm (r : R),
  ∃ es, ringbuf_records (send_args argp n i pid uid cm r).2 = ringbuf_records r ++ es.
Proof.
  induction n as [|n IH]; intros i pid uid cm r; cbn [send_args]; [exists []; by rewrite app_nil_r|].
  destruct (argp i =? 0); [exists []; by rewrite app_nil_r|].
  destruct (ringbuf_reserve r) as [[e r']|] eqn:He; [|exists []; by rewrite app_nil_r].
  destruct (IH (S i) pid uid cm (ringbuf_submit r' (ArgvSnoop.mk_event pid uid cm EVENT_ARG
    (probe_read_user_str (argp i) ARGSIZE (e_arg e)).2))) as [es Hes].
  eexists. by rewrite Hes, ringbuf_submit_records, (ringbuf_reserve_records _ _ _ He), <- app_assoc.
Qed.

Lemma argv_laws `{!RingReaderLaws R ArgvSnoop.event SLOTS_08} : @SnooperLaws _ _ _ _ argv_snooper.
Proof.
  split; [|intros r; apply (ring_consumed_records (slots := SLOTS_08))]. intros r x. cbn. unfold argv_fire, ArgvSnoop.trace_execve.
  destruct (send_args_adds (x_argp x) MAXARGS 0 (current_pid (x_cur x)) (current_uid (x_cur x)) (comm (x_cur x)) r) as [es He].
  destruct (send_args _ _ _ _ _ _ r) as [more r']. cbn [snd] in He. destruct more; cbn [negb]; [|by exists es].
  destruct (ringbuf_reserve r') as [[e r1]|] eqn:Hr; [|by exists es].
  eexists. by rewrite ringbuf_submit_records, (ringbuf_reserve_records _ _ _ Hr), He, <- app_assoc.
Qed.

(** No command is under way in the table. *)
Definition idle (table : list ArgvSnoop.pending) : Prop :=
  length table = Z.to_nat TABLE_SIZE ∧ Forall (λ p, active p = false) table.

Lemma callbacks_consume es : ∀ table,
  @callbacks _ _ _ _ argv_snooper table es
  = ((consume es table).1, argv_text <$> concat (snd <$> (consume es table).2)).
Proof.
  induction es as [|e es IH]; intros table; [done|]. cbn. unfold argv_callback.
  destruct (ArgvSnoop.handle_event e table) as [t out]. rewrite IH. destruct (consume es t) as [t' outs]. cbn.
  by rewrite fmap_app.
Qed.

(** Events of one slot change only that slot. *)
Lemma consume_one sl es : ∀ table p,
  table !! sl = Some p → Forall (λ e, get_slot (ArgvSnoop.e_pid e) = sl) es →
  (consume es table).1 = <[sl := (run_slot es p).1]> table
  ∧ concat (snd <$> (consume es table).2) = (run_slot es p).2.
Proof.
  induction es as [|e es IH]; intros table p Hp Hf; cbn [consume run_slot].
  { by rewrite list_insert_id. }
  apply Forall_cons in Hf as [He Hf]. unfold ArgvSnoop.handle_event. rewrite He, Hp.
  destruct (handle_slot e p) as [q out]. pose proof (lookup_lt_Some _ _ _ Hp) as Hl.
  destruct (IH (<[sl := q]> table) q) as [I1 I2]; [by apply list_lookup_insert_eq|done|].
  destruct (consume es (<[sl := q]> table)) as [t outs]. destruct (run_slot es q) as [q' o]. cbn in *.
  rewrite I1, list_insert_insert_eq. split; [done|]. by rewrite I2.
Qed.

Lemma command_slot c evs : command_events c evs → Forall (λ e, get_slot (ArgvSnoop.e_pid e) = get_slot (c_pid c)) evs.
Proof.
  intros (recs & lst & -> & _). apply Forall_app. split; [|by repeat constructor]. apply Forall_fmap, Forall_forall. done.
Qed.

Lemma get_slot_lt pid : (get_slot pid < Z.to_nat TABLE_SIZE)%nat.
Proof. unfold get_slot, TABLE_SIZE. pose proof (Z.mod_pos_bound pid 4096). lia. Qed.

(** All the records of a command, in an idle table. *)
Lemma idle_command c evs table :
  idle table → command_events c evs →
  concat (snd <$> (consume evs table).2) = match c_args c with [] => [] | _ => [command_line c] end
  ∧ idle (consume evs table).1.
Proof.
  intros [Hl Hi] Hc. destruct (lookup_lt_is_Some_2 table (get_slot (c_pid c))) as [p Hp].
  { rewrite Hl. apply get_slot_lt. }
  pose proof (Forall_lookup_1 _ _ _ _ Hi Hp) as Hpi. cbn in Hpi.
  destruct (consume_one _ evs table p Hp (command_slot c evs Hc)) as [-> ->].
  assert (Hr : (run_slot evs p).2 = match c_args c with [] => [] | _ => [command_line c] end ∧ active (run_slot evs p).1 = false).
  { destruct (c_args c) as [|a args] eqn:Ha; [|apply run_command; [done|by rewrite Ha|by left]].
    destruct Hc as (recs & lst & -> & Hf). rewrite Ha in Hf. inversion Hf; subst. cbn. unfold end_cmd. by rewrite Hpi. }
  destruct Hr as [-> Ha]. split; [done|]. split; [by rewrite length_insert|]. by apply Forall_insert.
Qed.

(** How many commands the ring has room for: each has at most 21 records. *)
Definition COMMANDS : nat := (SLOTS_08 / S MAXARGS)%nat.

Lemma commands_fit : (COMMANDS * S MAXARGS ≤ SLOTS_08)%nat.
Proof. unfold COMMANDS. pose proof (Nat.Div0.mul_div_le SLOTS_08 (S MAXARGS)). lia. Qed.

(** [C14] A session of chapter 8: the program prints its headings and then one
    line for each execve, in order: the pid, the uid and the name of the
    task and its first twenty arguments, each cut to 127 bytes, which arrive
    as separate records and are put together in the table; then its
    farewell.  An execve with an empty argument vector has no line.  It
    does so while the ring has room for every command, as it has if not more
    than 74 come between two polls. *)
Theorem argv_session `{!UserMemLaws} `{!RingReaderLaws R ArgvSnoop.event SLOTS_08}
    (r : R) (starting : list execve) (batches : list (list execve)) (fuel : nat) :
  ring_unread r = 0%nat → arg_room (R := R) →
  Forall (λ x, is_vector (x_argp x) (x_args x)) (starting ++ concat batches) →
  batches ≠ [] → (length batches < fuel)%nat →
  calm COMMANDS starting batches ∨ Forall (eq true) (session_rooms (S := argv_snooper) r starting batches) →
  session_prints (S := argv_snooper) texts_08 r empty_table starting batches fuel
    (concat (command_lines <$> starting ++ concat batches)).
Proof.
  intros Hu Harg Hf Hne Hl Hrooms.
  assert (Hall : Forall (eq true) (session_rooms (S := argv_snooper) r starting batches)).
  { destruct Hrooms as [Hcalm|?]; [|done].
    apply (calm_rooms (S := argv_snooper) ring_unread SLOTS_08 (S MAXARGS) COMMANDS); try done; cbn.
    - intros k x. apply (trace_room _ (slots := SLOTS_08)).
    - intros k x. apply (trace_room _ (slots := SLOTS_08)).
    - intros k. apply (ring_consumed_unread (slots := SLOTS_08)).
    - apply commands_fit. }
  rewrite <- (lines_of_direct (λ x, command_lines x) []), <- (kept_session (S := argv_snooper) _ r) by done.
  destruct (session_allowed (S := argv_snooper) (SnooperLaws0 := argv_laws) (Forall (λ x, is_vector (x_argp x) (x_args x)))
    (λ _ _, True) (λ _, idle) (λ room _ x o, o = if room : bool then command_lines x else []) True)
    with texts_08 r empty_table starting batches fuel as (out & Hp & ->%(all_kept (λ _, command_lines))); try done.
  - intros hs hs'. rewrite Forall_app. by intros [].
  - intros hs x k Hx _ Hq. apply Forall_app in Hx as [_ Hx]. rewrite Forall_singleton in Hx.
    destruct (trace_execve_sends (x_cur x) (x_argp x) (x_args x) k Hx Harg) as (full & sent & Hcmd & Hsent & _ & Hs).
    specialize (Hq I). cbn in Hq. rewrite (Hs Hq) in Hsent. exists full. split; [done|]. split; [done|]. intros table Hi.
    rewrite callbacks_consume. destruct (idle_command _ _ table Hi Hcmd) as [Ho Hi']. cbn [fst snd snoop_ready argv_snooper]. rewrite Ho, Hq.
    split; [|done]. unfold command_lines, command_of. cbn [c_args]. by destruct (x_args x).
  - split; [done|]. by apply Forall_replicate.
Qed.
End commands.

(** ** Witnesses *)



(** In a ring with room for one record, the second of two opens between two
    polls has no line. *)
Example open_session_full :
  kept_lines (@opened_spec OpenSnoop.ex_mem)
    (session_rooms (S := @opened_snooper OpenSnoop.ex_mem _ _ (gmap_hash MAX_STASH) (sized_ringbuf 1 OpenSnoop.ex_dirt) sized_reader)
      (mk_kstate (@map_empty _ _ _ _ _ (gmap_hash MAX_STASH)) ([], 0%nat)) []
      [[OpenSnoop.HEnter OpenSnoop.ex_cur 4096 577; OpenSnoop.HEnter OpenSnoop.ex_other 8192 0;
        OpenSnoop.HExit OpenSnoop.ex_cur 3; OpenSnoop.HExit OpenSnoop.ex_other 4]])
    [] [OpenSnoop.HEnter OpenSnoop.ex_cur 4096 577; OpenSnoop.HEnter OpenSnoop.ex_other 8192 0;
        OpenSnoop.HExit OpenSnoop.ex_cur 3; OpenSnoop.HExit OpenSnoop.ex_other 4]
  = [str "42       1000   vim                   3  wct   /etc/passwd" ++ [10]].
Proof. vm_compute. reflexivity. Qed.

Definition ex_ls_call : execve := mk_execve ArgvSnoop.ex_cur ex_argp [str "ls"; str "-l"].

Lemma ex_ls_vector : @is_vector (gmap_user_mem ArgvSnoop.ex_mem) (x_argp ex_ls_call) (x_args ex_ls_call).
Proof.
  split; [|left; reflexivity]. intros [|[|i]] s; [| |discriminate]; intros [= <-]; split; first [discriminate|reflexivity].
Qed.

Lemma argv_session_witness :
  session_prints (S := @argv_snooper (gmap_user_mem ArgvSnoop.ex_mem) _ (sized_ringbuf SLOTS_08 ArgvSnoop.ex_dirt) sized_reader)
    texts_08 ([], 0%nat) empty_table [ex_ls_call] [[ex_ls_call]] 4
    [str "5000     1000   bash             ls -l" ++ [10]; str "5000     1000   bash             ls -l" ++ [10]].
Proof.
  eapply session_prints_eq.
  - refine (@argv_session (gmap_user_mem ArgvSnoop.ex_mem) _ (sized_ringbuf SLOTS_08 ArgvSnoop.ex_dirt) sized_reader
      (gmap_user_mem_laws _) (sized_ring_laws _ _) ([], 0%nat) [ex_ls_call] [[ex_ls_call]] 4 _ _ _ _ _ _).
    + reflexivity.
    + intros r r' d ->%sized_dirt. reflexivity.
    + constructor; [exact ex_ls_vector|]. constructor; [exact ex_ls_vector|constructor].
    + discriminate.
    + simpl. lia.
    + left. constructor; [|constructor]. apply Nat.leb_le. vm_compute. reflexivity.
  - vm_compute. reflexivity.
Defined.

Definition ex_dirt_g : ExecGuard.event := ExecGuard.mk_event 0 0 [] (replicate PATH_MAX_LEN 7).

Lemma name_sessions_witness :
  @prints OpenSnoop.ex_mem _ _ (sized_ringbuf SLOTS_20 ex_dirt_g) sized_reader SLOTS_20
    (@guard_fire OpenSnoop.ex_mem _ (sized_ringbuf SLOTS_20 ex_dirt_g))
    (λ e, guard_line (ExecGuard.handle_event e)) (@guard_lines OpenSnoop.ex_mem) texts_20
  ∧ @guard_lines OpenSnoop.ex_mem (mk_named OpenSnoop.ex_cur 4096 0)
    = [str "42       allow   vim              /etc/passwd" ++ [10]].
Proof.
  split; [|vm_compute; reflexivity].
  apply (@name_sessions OpenSnoop.ex_mem (gmap_user_mem_laws _) _ _ _ (sized_ringbuf SLOTS_07 ex_dirt_x) sized_reader
    (sized_ringbuf SLOTS_09 ex_dirt_o) sized_reader (sized_ringbuf SLOTS_20 ex_dirt_g) sized_reader
    (sized_ring_laws _ _) (sized_ring_laws _ _) (sized_ring_laws _ _)).
  - intros r r' d ->%sized_dirt. reflexivity.
  - intros r r' d ->%sized_dirt. reflexivity.
  - intros r r' d ->%sized_dirt. reflexivity.
Defined.
