(* ===== verification/TcpSessions.v ===== *)
(** * TcpSessions: chapters 12 and 13 from the hooks to the screen

    The instances of [SnoopRun.Snooper] for tcpstates and tcplife: the
    program attached to [tcp_set_state], the callback that prints a line, and
    the texts of the loaders.  Both programs keep what they know of a socket
    in LRU maps, which may forget an entry to make room for another; [few]
    says that there are fewer sockets than they have room for, and then they
    do not.

    The theorems: over a whole session, whatever order the transitions of
    all the sockets come in, each program prints exactly the lines that they
    call for: tcpstates one for each transition, with the time since the
    transition before it of the same connection; tcplife one for each
    connection that opens and closes, with the time between the two and the
    task that was last seen in SYN_SENT or LAST_ACK at that address since a
    connection was reported for it, or else the task that closes it.  Lines
    are missing, or without a time, only when the ring was full or a map
    evicted an entry; never, while there are few sockets and the loader reads
    the ring in time. *)

From stdpp Require Import prelude gmap list strings.
From Stdlib Require Import ZArith Lia.
From S2P Require Import Prelude.
From S2P Require Import Kernel.
From S2P Require Import Printf.
From S2P Require Import Inet.
From S2P Require Import TcpSock.
From S2P Require Import TcpStates.
From S2P Require Import TcpLife.
From S2P Require Import Sys.
From S2P Require Import SnoopRun.

Definition texts_12 : texts := mk_texts (str "Failed to attach (is tcp_set_state probe-able?)")
  [rpad 18 (str "SKADDR") ++ str " " ++ rpad 7 (str "PID") ++ str " " ++ rpad 16 (str "COMM") ++ str " " ++
   rpad 4 (str "AF") ++ str " " ++ rpad 48 (str "SADDR:PORT") ++ str " " ++ rpad 48 (str "DADDR:PORT") ++ str " " ++
   rpad 14 (str "OLDSTATE") ++ str "    " ++ rpad 14 (str "NEWSTATE") ++ str " " ++ lpad 10 (str "MS") ++ [10]].

Definition texts_13 : texts := mk_texts (str "Failed to attach (is tcp_set_state probe-able?)")
  [rpad 7 (str "PID") ++ str " " ++ rpad 16 (str "COMM") ++ str " " ++ rpad 4 (str "AF") ++ str " " ++
   rpad 48 (str "LADDR:PORT") ++ str " " ++ rpad 48 (str "RADDR:PORT") ++ str " " ++ lpad 9 (str "TX_KB") ++ str " " ++
   lpad 9 (str "RX_KB") ++ str " " ++ lpad 8 (str "RTT_MS") ++ str " " ++ lpad 5 (str "RETR") ++ str " " ++
   lpad 10 (str "DUR_MS") ++ [10]].

(** How many records the rings hold. *)
Definition SLOTS_12 : nat := ring_slots RING_BYTES 88.
Definition SLOTS_13 : nat := ring_slots RING_BYTES 104.

Example tcp_slots : (SLOTS_12, SLOTS_13) = (2730, 2340)%nat.
Proof. vm_compute. reflexivity. Qed.

Section lru.
  (** How many rows the LRU maps hold before they evict one.  That is not
      quite the size they were made with: the CPUs keep free rows in stock. *)
  Variable cap : Z.

(** The sockets of a history; they are [few] when the LRU maps have room for
    all of them. *)
Definition socks (h : list transition) : gset Z := list_to_set ((λ t, sk_addr (t_sk t)) <$> h).

Definition few (h : list transition) : Prop := Z.of_nat (size (socks h)) < cap.

Lemma socks_elem id h : id ∈ socks h ↔ ∃ t, t ∈ h ∧ sk_addr (t_sk t) = id.
Proof. unfold socks. rewrite elem_of_list_to_set, list_elem_of_fmap. naive_solver. Qed.

Lemma epoch_socks id h : (∃ t, t ∈ epoch id h) → id ∈ socks h.
Proof.
  intros (t & (Ht & Hc & _)%epoch_elem). apply socks_elem. exists t. split; [done|].
  unfold concerns in Hc. by apply andb_true_iff in Hc as [_ ?%Z.eqb_eq].
Qed.

Lemma few_prefix h h' : few (h ++ h') → few h.
Proof.
  unfold few. assert (size (socks h) ≤ size (socks (h ++ h')))%nat; [|lia]. apply subseteq_size. unfold socks.
  rewrite fmap_app, list_to_set_app_L. set_solver.
Qed.

(** ** Addresses *)

(** The addresses of a socket, with the bytes of its family. *)
Definition sock_ok (sk : sock) : Prop :=
  is_ip sk = true →
  let ok n a := length a = n ∧ Forall is_byte a in
  if skc_family sk =? TcpSock.AF_INET
  then ok 4%nat (skc_rcv_saddr sk) ∧ ok 4%nat (skc_daddr sk)
  else ok 16%nat (skc_v6_rcv_saddr sk) ∧ ok 16%nat (skc_v6_daddr sk).

(** What the memory behind an address held does not matter. *)
Lemma endpoint_front n family a rest port :
  (family = Inet.AF_INET ∧ length a = 4%nat) ∨ (family = Inet.AF_INET6 ∧ length rest = length a) →
  fmt_endpoint n family (copy_front a rest) port = fmt_endpoint n family (copy_front a []) port.
Proof.
  intros [[-> Hl]|[-> Hl]].
  - destruct a as [|a [|b [|c [|d [|]]]]]; done.
  - rewrite (copy_front_full a rest Hl). unfold copy_front. by rewrite drop_nil, app_nil_r.
Qed.

Notation endpoint := (fmt_endpoint (INET6_ADDRSTRLEN + 10)).

Lemma endpoints_front sk s0 d0 p q :
  is_ip sk = true → sock_ok sk → length s0 = 16%nat → length d0 = 16%nat →
  endpoint (skc_family sk) (copy_addrs sk s0 d0).1 p = endpoint (skc_family sk) (copy_addrs sk [] []).1 p
  ∧ endpoint (skc_family sk) (copy_addrs sk s0 d0).2 q = endpoint (skc_family sk) (copy_addrs sk [] []).2 q.
Proof.
  intros Hip Hok Hs Hd. specialize (Hok Hip). cbv zeta in Hok. unfold is_ip in Hip. apply orb_true_iff in Hip as Hf.
  unfold copy_addrs. destruct (Z.eqb_spec (skc_family sk) TcpSock.AF_INET) as [Hf4|Hf4]; cbn [fst snd].
  - destruct Hok as [[Hl _] [Hl' _]]. split; apply endpoint_front; by left.
  - destruct Hf as [Hf|Hf%Z.eqb_eq]; [done|]. destruct Hok as [[Hl _] [Hl' _]].
    split; apply endpoint_front; right; (split; [done|congruence]).
Qed.

(** The two endpoints of a socket can be written. *)
Lemma endpoints_some sk :
  is_ip sk = true → sock_ok sk →
  ∀ p q, is_Some (fmt_endpoint (INET6_ADDRSTRLEN + 10) (skc_family sk) (copy_addrs sk [] []).1 p)
  ∧ is_Some (fmt_endpoint (INET6_ADDRSTRLEN + 10) (skc_family sk) (copy_addrs sk [] []).2 q).
Proof.
  intros Hip Hok p q. specialize (Hok Hip). cbv zeta in Hok. unfold is_ip in Hip. apply orb_true_iff in Hip as Hf.
  unfold copy_addrs, copy_front. destruct (Z.eqb_spec (skc_family sk) TcpSock.AF_INET) as [Hf4|Hf4].
  - destruct Hok as [[Hl Hb] [Hl' Hb']]. rewrite Hf4, !drop_nil, !app_nil_r. cbn [fst snd]. unfold fmt_endpoint. change TcpSock.AF_INET with Inet.AF_INET.
    split; [destruct (skc_rcv_saddr sk) as [|a [|b [|c [|d [|]]]]]|destruct (skc_daddr sk) as [|a [|b [|c [|d [|]]]]]]; try done.
    + repeat (apply Forall_cons in Hb as [? Hb]). destruct (v4_ntop a b c d []) as (-> & _); done.
    + repeat (apply Forall_cons in Hb' as [? Hb']). destruct (v4_ntop a b c d []) as (-> & _); done.
  - destruct Hf as [Hf|Hf%Z.eqb_eq]; [done|]. destruct Hok as [[Hl Hb] [Hl' Hb']].
    rewrite Hf, !drop_nil, !app_nil_r. cbn [fst snd]. unfold fmt_endpoint.
    destruct (v6_ntop _ Hl Hb) as (t & Ht & _). destruct (v6_ntop _ Hl' Hb') as (t' & Ht' & _).
    change TcpSock.AF_INET6 with Inet.AF_INET6. rewrite Ht, Ht'. split; by eexists.
Qed.

(** ** Chapter 12 *)

Section states.
  Context {M R : Type} `{!BpfMap M Z Z} `{!Ringbuf R TcpStates.event, !RingReader R}.

Definition states_text (e : TcpStates.event) : list Z := default [] (TcpStates.handle_event e).

Definition states_snooper : Snooper (TcpStates.kstate M R) transition TcpStates.event () := {|
  snoop_fire s t := TcpStates.handle_set_state t s;
  snoop_records s := ringbuf_records (TcpStates.events s);
  snoop_consumed s := TcpStates.mk_kstate (timestamps s) (ring_consumed (TcpStates.events s));
  snoop_ready s _ := ring_ready (TcpStates.events s);
  snoop_callback _ e := ((), [states_text e]);
|}.

(** The line of a transition, with the time since the one before it. *)
Definition state_line (t : transition) (span : option Z) : option (list Z) := TcpStates.handle_event (tr_event t span [] []).

(** The time since the previous transition of the connection. *)
Definition since_last (hist : list transition) (t : transition) : option Z :=
  (λ p, (t_now t -64 t_now p) / 1000) <$> last (epoch (sk_addr (t_sk t)) hist).

(** What [t] may print after [hist]: nothing if it is not of an IP socket or
    the ring was full; else its line, with the time since the previous
    transition or, if the map may have evicted that, a dash. *)
Definition states_spec (room : bool) (hist : list transition) (t : transition) (out : list (list Z)) : Prop :=
  if is_ip (t_sk t) && room then
    ∃ span line, state_line t span = Some line ∧ out = [line]
      ∧ (span = since_last hist t ∨ (span = None ∧ ¬ few hist))
  else out = [].

(** What it prints while the sockets are few. *)
Definition state_lines (hist : list transition) (t : transition) : list (list Z) :=
  if is_ip (t_sk t) then option_list (state_line t (since_last hist t)) else [].

Context `{!BpfLruLaws M Z Z TcpStates.MAX_SOCKS, !LruCapacity M Z Z cap}.
Context `{!RingReaderLaws R TcpStates.event SLOTS_12}.

Lemma states_laws : @SnooperLaws _ _ _ _ states_snooper.
Proof.
  split; cbn; [|intros s; apply (ring_consumed_records (slots := SLOTS_12))]. intros s t. rewrite handle_records.
  destruct (is_ip _); [|exists []; by rewrite app_nil_r].
  destruct (ringbuf_reserve _) as [[d r]|]; [by eexists|exists []; by rewrite app_nil_r].
Qed.

Lemma states_unread (s : TcpStates.kstate M R) t :
  (ring_unread (TcpStates.events (TcpStates.handle_set_state t s)) ≤ ring_unread (TcpStates.events s) + 1)%nat.
Proof.
  destruct t as [sk state now cur]. unfold TcpStates.handle_set_state. destruct (is_ip sk); cbn [negb TcpStates.events]; [|lia].
  destruct (ringbuf_reserve (TcpStates.events s)) as [[d r]|] eqn:Hr.
  - pose proof (ring_reserve_unread (slots := SLOTS_12) _ _ _ Hr) as Hu. destruct (copy_addrs _ _ _), (map_lookup_elem _ _);
      cbn [TcpStates.events]; (etrans; [apply (ring_submit_unread (slots := SLOTS_12))|lia]).
  - destruct (map_lookup_elem _ _); cbn [TcpStates.events]; lia.
Qed.

(** While the sockets are few the map has exactly the last transition of
    each connection. *)
Definition ts_exact (h : list transition) (m : M) : Prop :=
  few h → ∀ id, map_view m !! id = t_now <$> last (epoch id h).

Lemma ts_exact_step h t (s : TcpStates.kstate M R) :
  ts_exact h (timestamps s) → ts_exact (h ++ [t]) (timestamps (TcpStates.handle_set_state t s)).
Proof.
  intros Hi Hk id. apply few_prefix in Hk. specialize (Hi Hk). rewrite handle_timestamps, epoch_snoc. unfold extend, concerns.
  destruct (is_ip (t_sk t)); cbn [andb]; [|apply Hi].
  destruct (Z.eqb_spec (sk_addr (t_sk t)) id) as [->|Hne]; destruct (t_state t =? TCP_CLOSE).
  - rewrite map_delete_view. apply lookup_delete_eq.
  - rewrite last_snoc, lru_update_self by (by left). done.
  - rewrite map_delete_view, lookup_delete_ne by done. apply Hi.
  - rewrite (lru_keeps_others (max_entries := cap) _ (socks h)) by (try done; intros i Hs; rewrite Hi in Hs;
      apply fmap_is_Some in Hs as [p Hp%last_Some_elem_of]; apply epoch_socks; by exists p). apply Hi.
Qed.

(** The event's text does not depend on what the record held. *)
Lemma tr_event_text t span (s0 d0 : list Z) :
  is_ip (t_sk t) = true → sock_ok (t_sk t) → length s0 = 16%nat → length d0 = 16%nat →
  TcpStates.handle_event (tr_event t span s0 d0) = state_line t span ∧ is_Some (state_line t span).
Proof.
  intros Hip Hok Hs Hd. set (p := skc_num (t_sk t)). set (q := ntohs (skc_dport (t_sk t))).
  destruct (endpoints_some _ Hip Hok p q) as [[x Hx] [y Hy]]. destruct (endpoints_front _ s0 d0 p q Hip Hok Hs Hd) as [H1 H2].
  unfold state_line, TcpStates.handle_event, tr_event. destruct (copy_addrs (t_sk t) s0 d0), (copy_addrs (t_sk t) [] []).
  cbn [TcpStates.e_family TcpStates.e_saddr TcpStates.e_daddr fst snd TcpStates.e_sport TcpStates.e_dport] in *.
  fold p q. rewrite H1, H2, Hx, Hy. split; [done|by eexists].
Qed.

(** Every transition adds what it may print. *)
Lemma states_step h t s :
  (∀ (r r' : R) d, ringbuf_reserve r = Some (d, r') → length (TcpStates.e_saddr d) = 16%nat ∧ length (TcpStates.e_daddr d) = 16%nat) →
  sock_ok (t_sk t) → ts_inv h (timestamps s) → ts_exact h (timestamps s) →
  ∃ es, ringbuf_records (TcpStates.events (TcpStates.handle_set_state t s)) = ringbuf_records (TcpStates.events s) ++ es
  ∧ states_spec (ring_ready (TcpStates.events s)) h t (states_text <$> es).
Proof.
  intros Hlen Ht Hi He. rewrite handle_records. unfold states_spec, ring_ready.
  destruct (is_ip (t_sk t)) eqn:Hip; cbn [andb]; [|exists []; by rewrite app_nil_r].
  destruct (ringbuf_reserve (TcpStates.events s)) as [[d r']|] eqn:Hr; [|exists []; by rewrite app_nil_r].
  eexists. split; [done|]. cbn. unfold states_text.
  destruct (Hlen _ _ _ Hr) as [H1 H2]. destruct (tr_event_text t (span_of t s) _ _ Hip Ht H1 H2) as [-> [line Hline]].
  exists (span_of t s), line. rewrite Hline. split; [done|]. split; [done|].
  unfold span_of, since_last. rewrite map_lookup_view.
  destruct (Hi (sk_addr (t_sk t))) as [Hn|(p & Hp & Hv)]; [|left; by rewrite Hp, Hv].
  rewrite Hn. destruct (last (epoch (sk_addr (t_sk t)) h)) as [p|] eqn:Hp; [|by left]. right. split; [done|].
  intros Hk. specialize (He Hk (sk_addr (t_sk t))). rewrite Hn, Hp in He. done.
Qed.

(** With few sockets the lines are a function of the history. *)
Lemma states_kept rooms : ∀ hist hs out,
  few (hist ++ hs) → all_allowed states_spec rooms hist hs out → out = kept_lines state_lines rooms hist hs.
Proof.
  induction rooms as [|room rooms IH]; intros hist [|t hs] out Hf; cbn; try done.
  intros (o1 & o2 & -> & Ho & H2). rewrite (cons_middle t hist hs), app_assoc in Hf. f_equal; [|by apply IH].
  unfold states_spec, state_lines in *. destruct (is_ip (t_sk t)), room; cbn [andb] in Ho; try done.
  destruct Ho as (span & line & Hl & -> & [->|[_ []]]); [by rewrite Hl|]. by do 2 eapply few_prefix.
Qed.

(** [C11] A session of chapter 12: whatever sockets change their states, in
    any order, the program prints its headings and then one line for each
    transition of an IP socket that found room in the ring, in order, with
    the time since the previous transition of the same connection, or a
    dash when there is none; and its farewell; then it has detached and
    exits with 0.  While not more than 2730 transitions come between two
    polls no line is missing, and while fewer sockets are seen than the LRU
    map holds without evicting, no time is. *)
Theorem states_session (r : R) (starting : list transition) (batches : list (list transition)) (fuel : nat) :
  (∀ (r r' : R) d, ringbuf_reserve r = Some (d, r') → length (TcpStates.e_saddr d) = 16%nat ∧ length (TcpStates.e_daddr d) = 16%nat) →
  ring_unread r = 0%nat →
  Forall (λ t, sock_ok (t_sk t)) (starting ++ concat batches) → batches ≠ [] → (length batches < fuel)%nat →
  let s0 := TcpStates.init r in
  let rooms := session_rooms (S := states_snooper) s0 starting batches in
  let hooks := starting ++ concat batches in
  ∃ out, session_prints (S := states_snooper) texts_12 s0 () starting batches fuel out
  ∧ all_allowed states_spec rooms [] hooks out
  ∧ (few hooks → out = kept_lines state_lines rooms [] hooks)
  ∧ (few hooks → calm SLOTS_12 starting batches → out = lines_of state_lines [] hooks).
Proof.
  intros Hlen Hu0 Hf Hne Hl s0 rooms hooks.
  destruct (session_allowed (S := states_snooper) (SnooperLaws0 := states_laws) (Forall (λ t, sock_ok (t_sk t)))
    (λ h s, ts_inv h (timestamps s) ∧ ts_exact h (timestamps s)) (λ _ _, True) states_spec False)
    with texts_12 s0 () starting batches fuel as (out & Hp & Ho); try done.
  - intros hs hs'. rewrite Forall_app. by intros [].
  - intros hs t s Ht [Hi He] _. apply Forall_app in Ht as [_ Ht]. rewrite Forall_singleton in Ht.
    destruct (states_step hs t s Hlen Ht Hi He) as (es & Hes & Hsp). exists es. split; [done|].
    split; [split; [by apply ts_inv_step|by apply ts_exact_step]|]. intros u _. split; [|done].
    rewrite (callbacks_plain states_text) by (by intros []). exact Hsp.
  - split; [intros id; left|intros _ id]; cbn; by rewrite map_empty_view, lookup_empty.
  - exists out. split; [done|]. split; [done|]. split; [intros Hfew; by apply states_kept|]. intros Hfew Hcalm.
    rewrite (states_kept _ [] _ _ Hfew Ho). apply (kept_session (S := states_snooper)).
    apply (calm_rooms (S := states_snooper) (λ s, ring_unread (TcpStates.events s)) SLOTS_12 1 SLOTS_12); try done; cbn.
    + intros s _ Hs. apply (ring_room (slots := SLOTS_12)). lia.
    + apply states_unread.
    + intros s. apply (ring_consumed_unread (slots := SLOTS_12)).
Qed.
End states.

(** ** Chapter 13 *)

Section life.
  Context {MB MI R : Type} `{!BpfMap MB Z Z} `{!BpfMap MI Z ident} `{!Ringbuf R TcpLife.event, !RingReader R}.

Definition life_text (e : TcpLife.event) : list Z := default [] (TcpLife.handle_event e).

Definition life_snooper : Snooper (TcpLife.kstate MB MI R) transition TcpLife.event () := {|
  snoop_fire s t := TcpLife.handle_set_state t s;
  snoop_records s := ringbuf_records (TcpLife.events s);
  snoop_consumed s := TcpLife.mk_kstate (births s) (idents s) (ring_consumed (TcpLife.events s));
  snoop_ready s _ := ring_ready (TcpLife.events s);
  snoop_callback _ e := ((), [life_text e]);
|}.

Definition blank : TcpLife.event := TcpLife.mk_event 0 0 0 0 0 0 0 0 0 0 [] [] [].

(** The line of the connection that was born at [birth], closes with [t] and
    belongs to [w]. *)
Definition life_line (t : transition) (birth : Z) (w : ident) : option (list Z) :=
  TcpLife.handle_event (summary blank (t_sk t) birth (t_now t) w).

(** The task that is remembered for a socket: the one last seen in SYN_SENT
    or LAST_ACK.  It is forgotten when a connection that was seen opening
    closes; a close that was not leaves it, for the next connection at the
    same address. *)
Definition remember (id : Z) (hist : list transition) (o : option transition) (t : transition) : option transition :=
  if concerns id t then
    if t_state t =? TCP_CLOSE then match opening id hist with [] => o | _ :: _ => None end
    else if captures t then Some t else o
  else o.

Fixpoint remembered_from (id : Z) (hist : list transition) (o : option transition) (h : list transition) : option transition :=
  match h with
  | [] => o
  | t :: h => remembered_from id (hist ++ [t]) (remember id hist o t) h
  end.

Definition remembered (id : Z) (h : list transition) : option transition := remembered_from id [] None h.

(** Whose connection it is, after [hist]: while the sockets are few, the
    task that is remembered, or the one that closes it when there is none.
    With many, the map may have lost the task captured for this connection;
    without one it may have kept one of an earlier connection. *)
Definition owner (hist : list transition) (t : transition) (w : ident) : Prop :=
  (few hist → w = who (t_cur (default t (remembered (sk_addr (t_sk t)) hist))))
  ∧ match captured (sk_addr (t_sk t)) hist with
    | Some c => w = who (t_cur c) ∨ (w = who (t_cur t) ∧ ¬ few hist)
    | None => w = who (t_cur t) ∨ ∃ c, c ∈ hist ∧ concerns (sk_addr (t_sk t)) c = true ∧ captures c = true ∧ w = who (t_cur c)
    end.

(** What [t] may print after [hist]: the line of its connection, if it
    closes one that was seen opening and the ring had room; with many sockets
    the birth may have been evicted. *)
Definition life_spec (room : bool) (hist : list transition) (t : transition) (out : list (list Z)) : Prop :=
  if is_ip (t_sk t) && (t_state t =? TCP_CLOSE) && room then
    match opening (sk_addr (t_sk t)) hist with
    | [] => out = []
    | first :: later =>
        (out = [] ∧ ¬ few hist)
        ∨ ∃ p w line, life_line t (t_now p) w = Some line ∧ out = [line] ∧ owner hist t w
          ∧ (p = first ∨ (p ∈ later ∧ ¬ few hist))
    end
  else out = [].

(** What it prints while the sockets are few. *)
Definition life_lines (hist : list transition) (t : transition) : list (list Z) :=
  if is_ip (t_sk t) && (t_state t =? TCP_CLOSE) then
    match opening (sk_addr (t_sk t)) hist with
    | [] => []
    | first :: _ =>
        option_list (life_line t (t_now first) (who (t_cur (default t (remembered (sk_addr (t_sk t)) hist)))))
    end
  else [].

Context `{!BpfLruLaws MB Z Z TcpLife.MAX_SOCKS} `{!BpfLruLaws MI Z ident TcpLife.MAX_SOCKS}.
Context `{!LruCapacity MB Z Z cap} `{!LruCapacity MI Z ident cap}.
Context `{!RingReaderLaws R TcpLife.event SLOTS_13}.

Lemma life_laws : @SnooperLaws _ _ _ _ life_snooper.
Proof.
  split; cbn; [|intros s; apply (ring_consumed_records (slots := SLOTS_13))]. intros s t. rewrite life_records.
  destruct (_ && _); [|exists []; by rewrite app_nil_r].
  destruct (map_lookup_elem _ _); [|exists []; by rewrite app_nil_r].
  destruct (ringbuf_reserve _) as [[d r]|]; [by eexists|exists []; by rewrite app_nil_r].
Qed.

Lemma life_unread (s : TcpLife.kstate MB MI R) t :
  (ring_unread (TcpLife.events (TcpLife.handle_set_state t s)) ≤ ring_unread (TcpLife.events s) + 1)%nat.
Proof.
  destruct t as [sk state now cur]. unfold TcpLife.handle_set_state. destruct (is_ip sk); cbn [negb TcpLife.events]; [|lia].
  destruct (state =? TCP_CLOSE); cbn [negb]; [|cbn; lia].
  destruct (map_lookup_elem _ _); [|cbn; lia]. cbn [stamp TcpLife.events].
  destruct (ringbuf_reserve (TcpLife.events s)) as [[d r]|] eqn:Hr; cbn [cleanup TcpLife.events]; [|lia].
  pose proof (ring_reserve_unread (slots := SLOTS_13) _ _ _ Hr). etrans; [apply (ring_submit_unread (slots := SLOTS_13))|lia].
Qed.

(** While the sockets are few a birth is the first opening transition, and
    the owner's row is the task that is remembered. *)
Definition births_exact (h : list transition) (m : MB) : Prop :=
  few h → ∀ id, map_view m !! id = t_now <$> head (opening id h).

Definition idents_exact (h : list transition) (m : MI) : Prop :=
  few h → ∀ id, map_view m !! id = (λ c, who (t_cur c)) <$> remembered id h.

Lemma remembered_snoc id h t : remembered id (h ++ [t]) = remember id h (remembered id h) t.
Proof.
  assert (Hgen : ∀ l hist o, remembered_from id hist o (l ++ [t]) = remember id (hist ++ l) (remembered_from id hist o l) t).
  { induction l as [|x l IH]; intros hist o; cbn [app remembered_from]; [by rewrite app_nil_r|]. by rewrite IH, <- app_assoc. }
  apply Hgen.
Qed.

(** What the connection itself captured is what is remembered. *)
Lemma remembered_captured id h c : captured id h = Some c → remembered id h = Some c.
Proof.
  induction h as [|t h IH] using rev_ind; [done|]. rewrite captured_snoc, remembered_snoc. unfold remember.
  destruct (concerns id t); [|apply IH]. destruct (t_state t =? TCP_CLOSE); [done|]. by destruct (captures t).
Qed.

Lemma opening_socks id h p : p ∈ opening id h → id ∈ socks h.
Proof. intros [_ Hp]%elem_of_bfilter. apply epoch_socks. by exists p. Qed.

Lemma births_socks h m id : births_inv h m → is_Some (map_view m !! id) → id ∈ socks h.
Proof. intros Hi [b (p & Hp & _)%Hi]. by eapply opening_socks. Qed.

Lemma idents_socks h m id : idents_inv h m → is_Some (map_view m !! id) → id ∈ socks h.
Proof.
  intros Hi [w Hw%Hi]. destruct (captured id h) as [c|] eqn:Hc.
  - apply last_Some_elem, elem_of_bfilter in Hc as [_ Hc]. apply epoch_socks. by exists c.
  - destruct Hw as (c & Hin & Hcc & _). apply socks_elem. exists c. split; [done|].
    unfold concerns in Hcc. by apply andb_true_iff in Hcc as [_ ?%Z.eqb_eq].
Qed.

Lemma births_exact_step h t (s : TcpLife.kstate MB MI R) :
  births_inv h (births s) → births_exact h (births s) → births_exact (h ++ [t]) (births (TcpLife.handle_set_state t s)).
Proof.
  intros Hinv Hi Hk%few_prefix id. specialize (Hi Hk). rewrite opening_snoc. unfold concerns. destruct (is_ip (t_sk t)) eqn:Hip; cbn [andb].
  2: { rewrite <- Hi. destruct t as [sk ? ? ?]. unfold TcpLife.handle_set_state. cbn [t_sk] in Hip. by rewrite Hip. }
  rewrite handle_births, (Z.eqb_sym (sk_addr _)) by done.
  assert (Hst : map_view (births (stamp t s)) !! id
    = t_now <$> head (opening id h ++ if (id =? sk_addr (t_sk t)) && opens t then [t] else [])).
  { destruct t as [sk state now cur]. unfold stamp, opens. cbn [births t_state t_sk t_now].
    destruct (state <? TCP_FIN_WAIT1); cbn [andb]; [|by rewrite andb_false_r, app_nil_r].
    rewrite andb_true_r. destruct (Z.eqb_spec id (sk_addr sk)) as [->|Hne]; [|by rewrite (lru_keeps_others (max_entries := cap) _ (socks h)), app_nil_r by eauto using births_socks].
    destruct (opening (sk_addr sk) h) as [|p l] eqn:Ho; specialize (Hi (sk_addr sk)); rewrite Ho in Hi.
    - rewrite lru_update_self by (by right). done.
    - rewrite lru_update_noexist by (rewrite Hi; by eexists). done. }
  rewrite Hst. destruct (t_state t =? TCP_CLOSE) eqn:Ecl; cbn [andb].
  - case_bool_decide as Hid; [by rewrite (proj2 (Z.eqb_eq _ _) Hid)|].
    rewrite (proj2 (Z.eqb_neq _ _) Hid). cbn [andb]. by rewrite app_nil_r.
  - destruct (id =? _); cbn [andb]; [done|by rewrite app_nil_r].
Qed.

Lemma idents_exact_step h t (s : TcpLife.kstate MB MI R) :
  births_exact h (births s) → idents_inv h (idents s) → idents_exact h (idents s) →
  idents_exact (h ++ [t]) (idents (TcpLife.handle_set_state t s)).
Proof.
  intros Hb Hinv Hi Hk%few_prefix id. specialize (Hi Hk). specialize (Hb Hk). rewrite remembered_snoc. unfold remember, concerns.
  destruct t as [sk state now cur]. unfold TcpLife.handle_set_state, captures. cbn [t_sk t_state].
  destruct (is_ip sk); cbn [andb negb]; [|apply Hi].
  destruct (Z.eqb_spec state TCP_CLOSE) as [->|Hcl]; cbn [negb].
  - rewrite stamp_close, map_lookup_view, Hb by done.
    destruct (Z.eqb_spec (sk_addr sk) id) as [<-|Hne].
    + destruct (opening (sk_addr sk) h); cbn [head fmap option_fmap option_map]; [apply Hi|].
      destruct (ringbuf_reserve _) as [[d r]|]; cbn [cleanup idents]; rewrite map_delete_view; apply lookup_delete_eq.
    + destruct (head _); cbn [fmap option_fmap option_map]; [|apply Hi].
      destruct (ringbuf_reserve _) as [[d r]|]; cbn [cleanup idents]; rewrite map_delete_view, lookup_delete_ne by done; apply Hi.
  - unfold stamp. cbn [idents]. destruct (_ || _).
    + destruct (Z.eqb_spec (sk_addr sk) id) as [<-|Hne]; [by rewrite lru_update_self by (by left)|].
      rewrite (lru_keeps_others (max_entries := cap) _ (socks h)) by eauto using idents_socks. apply Hi.
    + destruct (_ =? id); apply Hi.
Qed.

Lemma summary_text t birth w d :
  is_ip (t_sk t) = true → sock_ok (t_sk t) → length (TcpLife.e_saddr d) = 16%nat → length (TcpLife.e_daddr d) = 16%nat →
  TcpLife.handle_event (summary d (t_sk t) birth (t_now t) w) = life_line t birth w ∧ is_Some (life_line t birth w).
Proof.
  intros Hip Hok Hs Hd. set (p := skc_num (t_sk t)). set (q := ntohs (skc_dport (t_sk t))).
  destruct (endpoints_some _ Hip Hok p q) as [[x Hx] [y Hy]]. destruct (endpoints_front _ _ _ p q Hip Hok Hs Hd) as [H1 H2].
  unfold life_line, TcpLife.handle_event, summary. cbn [TcpLife.e_saddr TcpLife.e_daddr blank].
  destruct (copy_addrs (t_sk t) (TcpLife.e_saddr d) (TcpLife.e_daddr d)), (copy_addrs (t_sk t) [] []).
  cbn [TcpLife.e_family TcpLife.e_saddr TcpLife.e_daddr fst snd TcpLife.e_sport TcpLife.e_dport] in *.
  fold p q. rewrite H1, H2, Hx, Hy. split; [done|by eexists].
Qed.

(** What the maps say about the connection that closes with [t]. *)
Record knows (h : list transition) (s : TcpLife.kstate MB MI R) : Prop := mk_knows {
  kn_births : births_inv h (births s);
  kn_idents : idents_inv h (idents s);
  kn_births_exact : births_exact h (births s);
  kn_idents_exact : idents_exact h (idents s);
}.

Lemma knows_step h t s : knows h s → knows (h ++ [t]) (TcpLife.handle_set_state t s).
Proof.
  intros [H1 H2 H3 H4]. split; [by apply births_inv_step|by apply idents_inv_step|by apply births_exact_step|by apply idents_exact_step].
Qed.

Lemma knows_owner h t s :
  knows h s → owner h t (default (who (t_cur t)) (map_lookup_elem (idents s) (sk_addr (t_sk t)))).
Proof.
  intros [_ Hi _ He]. rewrite map_lookup_view. split.
  { intros Hk. rewrite (He Hk). by destruct (remembered _ h). }
  specialize (Hi (sk_addr (t_sk t))).
  destruct (map_view (idents s) !! sk_addr (t_sk t)) as [w|] eqn:Hw.
  - specialize (Hi w eq_refl). cbn. destruct (captured _ h); [by left|by right].
  - cbn. destruct (captured (sk_addr (t_sk t)) h) as [c|] eqn:Hc; [|by left]. right. split; [done|]. intros Hk.
    rewrite (He Hk) in Hw. apply fmap_None in Hw. by rewrite (remembered_captured _ _ _ Hc) in Hw.
Qed.

(** The line of a close. *)
Lemma life_close h t s d birth :
  knows h s → is_ip (t_sk t) = true → sock_ok (t_sk t) →
  length (TcpLife.e_saddr d) = 16%nat → length (TcpLife.e_daddr d) = 16%nat →
  map_view (births s) !! sk_addr (t_sk t) = Some birth →
  t_state t = TCP_CLOSE →
  life_spec true h t [life_text (summary d (t_sk t) birth (t_now t)
    (default (who (t_cur t)) (map_lookup_elem (idents s) (sk_addr (t_sk t)))))].
Proof.
  intros Hkn Hip Hok H1 H2 Hb Hcl. pose proof (knows_owner h t s Hkn) as Hown. unfold life_spec, life_text. rewrite Hip, Hcl.
  set (w := default _ _) in *. destruct (summary_text t birth w d Hip Hok H1 H2) as [-> [line Hline]]. rewrite Hline.
  destruct (kn_births _ _ Hkn _ _ Hb) as (p & Hp & ->).
  destruct (opening (sk_addr (t_sk t)) h) as [|first later] eqn:Ho; [by apply not_elem_of_nil in Hp|]. cbn. right.
  apply elem_of_cons in Hp as [->|Hp]; [exists first, w, line; split_and!; auto|].
  destruct (decide (t_now p = t_now first)) as [He|Hne].
  - exists first, w, line. rewrite <- He. split_and!; auto.
  - exists p, w, line. split_and!; auto. right. split; [done|]. intros Hk.
    pose proof (kn_births_exact _ _ Hkn Hk (sk_addr (t_sk t))) as Hx. rewrite Hb, Ho in Hx. cbn in Hx. congruence.
Qed.

(** Every transition adds what it may print. *)
Lemma life_step h t s :
  (∀ (r r' : R) d, ringbuf_reserve r = Some (d, r') → length (TcpLife.e_saddr d) = 16%nat ∧ length (TcpLife.e_daddr d) = 16%nat) →
  sock_ok (t_sk t) → knows h s →
  ∃ es, ringbuf_records (TcpLife.events (TcpLife.handle_set_state t s)) = ringbuf_records (TcpLife.events s) ++ es
  ∧ life_spec (ring_ready (TcpLife.events s)) h t (life_text <$> es).
Proof.
  intros Hlen Ht Hkn. set (s' := TcpLife.handle_set_state t s). unfold ring_ready. set (room := match _ with Some _ => _ | None => _ end).
  assert (Hquiet : life_spec room h t [] → ringbuf_records (TcpLife.events s') = ringbuf_records (TcpLife.events s) →
    ∃ es, ringbuf_records (TcpLife.events s') = ringbuf_records (TcpLife.events s) ++ es ∧ life_spec room h t (life_text <$> es)).
  { intros Hq Hr. exists []. by rewrite app_nil_r. }
  pose proof (life_records t s) as Hr. fold s' in Hr. rewrite map_lookup_view in Hr.
  destruct (is_ip (t_sk t)) eqn:Hip; cbn [andb] in Hr; [|apply Hquiet; [unfold life_spec; by rewrite Hip|done]].
  destruct (Z.eqb_spec (t_state t) TCP_CLOSE) as [Hcl|Hcl].
  2: { apply Hquiet; [|done]. unfold life_spec. rewrite Hip. by apply Z.eqb_neq in Hcl as ->. }
  assert (Hmiss : room = false ∨ ¬ few h ∨ opening (sk_addr (t_sk t)) h = [] → life_spec room h t []).
  { intros Hm. unfold life_spec. rewrite Hip, Hcl. destruct room; [|done]. cbn. destruct (opening _ h); [done|].
    destruct Hm as [|[]]; [done|by left|done]. }
  destruct (map_view (births s) !! sk_addr (t_sk t)) as [birth|] eqn:Hb.
  2: { apply Hquiet; [|done]. apply Hmiss. destruct (opening (sk_addr (t_sk t)) h) eqn:Ho; [by do 2 right|]. right. left.
       intros Hk. pose proof (kn_births_exact _ _ Hkn Hk (sk_addr (t_sk t))) as Hx. rewrite Hb, Ho in Hx. done. }
  destruct (ringbuf_reserve (TcpLife.events s)) as [[d r']|] eqn:Hres.
  2: { apply Hquiet; [|done]. apply Hmiss. by left. }
  eexists. split; [exact Hr|]. destruct (Hlen _ _ _ Hres). by apply life_close.
Qed.

(** With few sockets the lines are a function of the history. *)
Lemma life_kept rooms : ∀ hist hs out,
  few (hist ++ hs) → all_allowed life_spec rooms hist hs out → out = kept_lines life_lines rooms hist hs.
Proof.
  induction rooms as [|room rooms IH]; intros hist [|t hs] out Hf; cbn; try done.
  intros (o1 & o2 & -> & Ho & H2). rewrite (cons_middle t hist hs), app_assoc in Hf. f_equal; [|by apply IH].
  assert (Hk : few hist) by (by do 2 eapply few_prefix).
  unfold life_spec, life_lines in *. destruct (is_ip (t_sk t) && (t_state t =? TCP_CLOSE)), room; cbn [andb] in Ho; try done.
  destruct (opening _ hist) as [|first later]; [done|]. destruct Ho as [[_ []]|(p & w & line & Hl & -> & [Hw _] & Hp)]; [done|].
  rewrite <- (Hw Hk). destruct Hp as [->|[_ []]]; [|done]. by rewrite Hl.
Qed.

(** [C10] A session of chapter 13: whatever sockets change their states, in
    any order, the program prints its headings and then one line for each
    connection that closes after it was seen opening, in the order of the
    closes: with the time from the first opening transition, the counters
    of the socket, and the task last seen in SYN_SENT or LAST_ACK at this
    address since a connection there was reported, or the task that closes
    it when there is none; and its farewell; then it has detached and exits
    with 0.  A line is missing only when the ring was full, which it is not
    while not more than 2340 transitions come between two polls, or when the
    map of births evicted the entry, which it does not while fewer sockets
    are seen than it holds without evicting. *)
Theorem life_session (r : R) (starting : list transition) (batches : list (list transition)) (fuel : nat) :
  (∀ (r r' : R) d, ringbuf_reserve r = Some (d, r') → length (TcpLife.e_saddr d) = 16%nat ∧ length (TcpLife.e_daddr d) = 16%nat) →
  ring_unread r = 0%nat →
  Forall (λ t, sock_ok (t_sk t)) (starting ++ concat batches) → batches ≠ [] → (length batches < fuel)%nat →
  let s0 := TcpLife.init r in
  let rooms := session_rooms (S := life_snooper) s0 starting batches in
  let hooks := starting ++ concat batches in
  (∃ out, session_prints (S := life_snooper) texts_13 s0 () starting batches fuel out
   ∧ all_allowed life_spec rooms [] hooks out
   ∧ (few hooks → out = kept_lines life_lines rooms [] hooks)
   ∧ (few hooks → calm SLOTS_13 starting batches → out = lines_of life_lines [] hooks))
  ∧ (calm SLOTS_13 starting batches → Forall (eq true) rooms).
Proof.
  intros Hlen Hu0 Hf Hne Hl s0 rooms hooks.
  assert (Hrooms : calm SLOTS_13 starting batches → Forall (eq true) rooms).
  { intros Hcalm. apply (calm_rooms (S := life_snooper) (λ s, ring_unread (TcpLife.events s)) SLOTS_13 1 SLOTS_13); try done; cbn.
    + intros s _ Hs. apply (ring_room (slots := SLOTS_13)). lia.
    + apply life_unread.
    + intros s. apply (ring_consumed_unread (slots := SLOTS_13)). }
  split; [|done].
  destruct (session_allowed (S := life_snooper) (SnooperLaws0 := life_laws) (Forall (λ t, sock_ok (t_sk t))) knows (λ _ _, True) life_spec False)
    with texts_13 s0 () starting batches fuel as (out & Hp & Ho); try done.
  - intros hs hs'. rewrite Forall_app. by intros [].
  - by intros hs k [].
  - intros hs t s Ht Hkn _. apply Forall_app in Ht as [_ Ht]. rewrite Forall_singleton in Ht.
    destruct (life_step hs t s Hlen Ht Hkn) as (es & Hes & Hsp). exists es. split; [done|]. split; [by apply knows_step|].
    intros u _. split; [|done]. rewrite (callbacks_plain life_text) by (by intros []). exact Hsp.
  - split; [intros id b|intros id w|intros _ id|intros _ id]; cbn; rewrite ?map_empty_view, ?lookup_empty; done.
  - exists out. split; [done|]. split; [done|]. split; [intros Hfew; by apply life_kept|]. intros Hfew Hcalm.
    rewrite (life_kept _ [] _ _ Hfew Ho). apply (kept_session (S := life_snooper)). by apply Hrooms.
Qed.
End life.
End lru.

(** ** Witnesses *)

Lemma ex_sock_ok st : sock_ok (TcpStates.ex_sock st) ∧ sock_ok (TcpLife.ex_sock st).
Proof. split; intros _; cbn; repeat split; repeat constructor; lia. Qed.

Notation ex_states := (@states_snooper _ _ (gmap_lru TcpStates.MAX_SOCKS) (sized_ringbuf SLOTS_12 TcpStates.ex_dirt) sized_reader).
Notation ex_life := (@life_snooper _ _ _ (gmap_lru TcpLife.MAX_SOCKS) (gmap_lru TcpLife.MAX_SOCKS)
  (sized_ringbuf SLOTS_13 TcpLife.ex_dirt) sized_reader).

(** A connection of curl opens while tcpstates starts, and is established
    25 ms later. *)
Lemma states_session_witness :
  session_prints (S := ex_states) texts_12 (@TcpStates.init _ _ (gmap_lru TcpStates.MAX_SOCKS) ([], 0%nat)) ()
    TcpStates.ex_h [[TcpStates.ex_t]] 3 (lines_of state_lines [] (TcpStates.ex_h ++ [TcpStates.ex_t])).
Proof.
  destruct (@states_session TcpStates.MAX_SOCKS _ _ (gmap_lru TcpStates.MAX_SOCKS) (sized_ringbuf SLOTS_12 TcpStates.ex_dirt) sized_reader
    (gmap_lru_laws TcpStates.MAX_SOCKS) (gmap_lru_capacity TcpStates.MAX_SOCKS) (sized_ring_laws _ _) ([], 0%nat)
    TcpStates.ex_h [[TcpStates.ex_t]] 3%nat) as (out & Hp & _ & _ & Ho).
  - intros r r' d ->%sized_dirt. split; reflexivity.
  - reflexivity.
  - constructor; [exact (proj1 (ex_sock_ok _))|]. constructor; [exact (proj1 (ex_sock_ok _))|constructor].
  - discriminate.
  - simpl. lia.
  - rewrite Ho in Hp; [exact Hp|vm_compute; reflexivity|].
    constructor; [apply Nat.leb_le; vm_compute; reflexivity|constructor].
Defined.

Lemma life_session_witness :
  session_prints (S := ex_life) texts_13
    (@TcpLife.init _ _ _ (gmap_lru TcpLife.MAX_SOCKS) (gmap_lru TcpLife.MAX_SOCKS) ([], 0%nat)) ()
    TcpLife.ex_h [[TcpLife.ex_t]] 3 (lines_of life_lines [] (TcpLife.ex_h ++ [TcpLife.ex_t])).
Proof.
  destruct (@life_session TcpLife.MAX_SOCKS _ _ _ (gmap_lru TcpLife.MAX_SOCKS) (gmap_lru TcpLife.MAX_SOCKS) (sized_ringbuf SLOTS_13 TcpLife.ex_dirt)
    sized_reader (gmap_lru_laws TcpLife.MAX_SOCKS) (gmap_lru_laws TcpLife.MAX_SOCKS) (gmap_lru_capacity TcpLife.MAX_SOCKS)
    (gmap_lru_capacity TcpLife.MAX_SOCKS) (sized_ring_laws _ _) ([], 0%nat) TcpLife.ex_h [[TcpLife.ex_t]] 3%nat) as [(out & Hp & _ & _ & Ho) _].
  - intros r r' d ->%sized_dirt. split; reflexivity.
  - reflexivity.
  - repeat (constructor; [exact (proj2 (ex_sock_ok _))|]). constructor.
  - discriminate.
  - simpl. lia.
  - rewrite Ho in Hp; [exact Hp|vm_compute; reflexivity|].
    constructor; [apply Nat.leb_le; vm_compute; reflexivity|constructor].
Defined.

(** The screen of that session of tcplife, computed. *)
Example life_screen :
  screen (Sys.run (reply (S := ex_life)) (snoop_prog texts_13 3)
      (boot (S := ex_life) (@TcpLife.init _ _ _ (gmap_lru TcpLife.MAX_SOCKS) (gmap_lru TcpLife.MAX_SOCKS) ([], 0%nat)) ()
        TcpLife.ex_h [[TcpLife.ex_t]])).2
  = headings texts_13
    ++ [str "7       curl             IPv4 10.0.0.1:4242                                    10.0.0.2:80                                            1.5       8.8    10.00     1     100.00" ++ [10];
        bye].
Proof. vm_compute. reflexivity. Qed.
