(* ===== verification/Fileless.v ===== *)
(** * Fileless: the execution lab of chapter 25

    Models the loaders of src/25-fileless-lab/src (memfd_exec.c,
    memfd_execveat.c, memfd_script.c, tmpfile_exec.c, deleted_exec.c), which
    copy a program into a file without a name and execute that, as programs
    of [Sys].  Reads and writes may be short or fail at any point.

    The theorems: three of the loaders execute the new file only when it is
    a complete copy and is no longer open for writing, and never remove the
    caller's file; when nothing fails all of them do execute it; and the two
    cases in which an incomplete file is executed. *)

From stdpp Require Import prelude list strings.
From Stdlib Require Import ZArith Lia.
From S2P Require Import Prelude.
From S2P Require Import Kernel.
From S2P Require Import Printf.
From S2P Require Import Sys.

Inductive fc :=
  | OpenRead (path : list Z)
  | OpenExcl (path : list Z)
  | OpenTmpfile (dir : list Z)
  | MemfdCreate (name : list Z)
  | Read (fd : Z) (size : nat)
  | Write (fd : Z) (data : list Z)
  | Close (fd : Z)
  | Unlink (path : list Z)
  | Getpid
  | Execve (path : list Z)
  | Fexecve (fd : Z)
  | Perror (s : string).

(** [Read] answers the bytes, or [None] for an error; an execution answers
    whether the process image was replaced. *)
Definition ans (c : fc) : Type :=
  match c with
  | OpenRead _ | OpenExcl _ | OpenTmpfile _ | MemfdCreate _ | Write _ _ | Unlink _ | Getpid => Z
  | Read _ _ => option (list Z)
  | Close _ | Perror _ => ()
  | Execve _ | Fexecve _ => bool
  end.

Canonical Structure FC : calls := mk_calls fc ans.

(** How a program ends. *)
Inductive ending := Exit (status : Z) | Replaced.

Definition BUF : nat := Z.to_nat (2 ^ 16).

Lemma BUF_large : (64 ≤ BUF)%nat.
Proof. unfold BUF. lia. Qed.

#[global] Opaque BUF.

(** The loop that writes one buffer; [false] when a write fails. *)
Definition write_all (fuel : nat) (fd : Z) (buf : list Z) : prog FC bool :=
  iter fuel (λ o : nat,
    if (o <? length buf)%nat then
      let! w := sys (Write fd (drop o buf)) in
      if w <? 0 then Ret (inr false) else Ret (inl (o + Z.to_nat w)%nat)
    else Ret (inr true)) 0%nat.

Inductive copied := Done | ReadError | WriteError.

(** The loop that copies [src] to [dst]. *)
Definition copy (fuel : nat) (src dst : Z) : prog FC copied :=
  iter fuel (λ _ : (),
    let! n := sys (Read src BUF) in
    match n with
    | None => Ret (inr ReadError)
    | Some [] => Ret (inr Done)
    | Some buf =>
        let! ok := write_all fuel dst buf in
        if ok : bool then Ret (inl ()) else Ret (inr WriteError)
    end) ().

Definition fail (s : string) : prog FC ending := sys (Perror s) ;! Ret (Exit 1).

(** After an execution call: it returns only when it failed. *)
Definition after_exec (replaced : bool) (s : string) : prog FC ending := if replaced then Ret Replaced else fail s.

Definition fd_path (fd : Z) : list Z := snprintf 64 (str "/proc/self/fd/" ++ sdec fd).
#[global] Arguments fd_path : simpl never.

Definition memfd_exec (fuel : nat) (arg : option (list Z)) : prog FC ending :=
  match arg with
  | None => Ret (Exit 2)
  | Some payload =>
      let! in_ := sys (OpenRead payload) in
      if in_ <? 0 then fail "open payload" else
      let! mfd := sys (MemfdCreate (str "payload")) in
      if mfd <? 0 then fail "memfd_create" else
      let! r := copy fuel in_ mfd in
      match r with
      | WriteError => fail "write memfd"
      | ReadError => fail "read payload"
      | Done =>
          sys (Close in_) ;!
          let! replaced := sys (Execve (fd_path mfd)) in
          after_exec replaced "execve"
      end
  end.

Definition memfd_execveat (fuel : nat) (arg : option (list Z)) : prog FC ending :=
  match arg with
  | None => Ret (Exit 2)
  | Some payload =>
      let! in_ := sys (OpenRead payload) in
      if in_ <? 0 then fail "open payload" else
      let! mfd := sys (MemfdCreate (str "payload")) in
      if mfd <? 0 then fail "memfd_create" else
      let! r := copy fuel in_ mfd in
      match r with
      | WriteError => fail "write memfd"
      | ReadError => fail "read payload"
      | Done =>
          sys (Close in_) ;!
          let! replaced := sys (Fexecve mfd) in
          after_exec replaced "execveat"
      end
  end.

(** [char tmp[PATH_MAX]]. *)
Definition PATH_MAX : nat := Z.to_nat 4096.
#[global] Arguments PATH_MAX : simpl never.
Definition scratch_path (payload : list Z) (pid : Z) : list Z :=
  snprintf PATH_MAX (payload ++ str ".deleted_exec." ++ sdec pid).
#[global] Arguments scratch_path : simpl never.

Definition deleted_exec (fuel : nat) (arg : option (list Z)) : prog FC ending :=
  match arg with
  | None => Ret (Exit 2)
  | Some payload =>
      let! pid := sys Getpid in
      let tmp := scratch_path payload pid in
      let! src := sys (OpenRead payload) in
      if src <? 0 then fail "open" else
      let! dst := sys (OpenExcl tmp) in
      if dst <? 0 then fail "open copy" else
      let! r := copy fuel src dst in
      match r with
      | WriteError => fail "write copy"
      | ReadError => fail "read"
      | Done =>
          sys (Close src) ;!
          sys (Close dst) ;!
          let! fd := sys (OpenRead tmp) in
          if fd <? 0 then fail "reopen copy" else
          let! rc := sys (Unlink tmp) in
          if rc <? 0 then fail "unlink" else
          let! replaced := sys (Fexecve fd) in
          after_exec replaced "fexecve"
      end
  end.

(** Unlike the others, this one does not tell the end of the file from an
    error of [read]. *)
Definition tmpfile_exec (fuel : nat) (arg : option (list Z)) : prog FC ending :=
  match arg with
  | None => Ret (Exit 2)
  | Some payload =>
      let! src := sys (OpenRead payload) in
      if src <? 0 then fail "open src" else
      let! wfd := sys (OpenTmpfile (str "/tmp")) in
      if wfd <? 0 then fail "open O_TMPFILE" else
      let! r := copy fuel src wfd in
      match r with
      | WriteError => Ret (Exit 1)
      | ReadError | Done =>
          sys (Close src) ;!
          let! xfd := sys (OpenRead (fd_path wfd)) in
          if xfd <? 0 then fail "reopen ro" else
          sys (Close wfd) ;!
          let! replaced := sys (Fexecve xfd) in
          after_exec replaced "fexecve"
      end
  end.

Definition script : list Z := str "#!/bin/sh" ++ [10] ++ str "echo 'hello from a memfd shebang script'" ++ [10].

Definition memfd_script : prog FC ending :=
  let! mfd := sys (MemfdCreate (str "script")) in
  if mfd <? 0 then fail "memfd_create" else
  let! w := sys (Write mfd script) in
  if w <? 0 then fail "write" else
  let! replaced := sys (Execve (fd_path mfd)) in
  after_exec replaced "execve".

(** ** Watching the files *)

(** The descriptor of the payload and what is still to be read from it; the
    new file: its descriptors, those of them that are open for writing to a
    file on disk, its name if it has one, and its content. *)
Record files := mk_files {
  g_src : option Z;
  g_unread : list Z;
  g_fds : list Z;
  g_writers : list Z;
  g_name : option (list Z);
  g_content : list Z;
}.

Definition drop_fd (fd : Z) (l : list Z) : list Z := bfilter (λ x, negb (x =? fd)) l.

Section watch.
  Variables (payload : list Z) (whole : list Z) (strict smooth : bool).

(** The file is ready to be executed: nobody has it open for writing and it
    is complete; without [strict], it has some of the first bytes. *)
Definition ready (g : files) : bool :=
  bool_decide (g_writers g = []) &&
  if strict then bool_decide (g_content g = whole) else bool_decide (g_content g = take (length (g_content g)) whole).

Definition opened (fd : Z) (g g' : files) : option files := Some (if fd <? 0 then g else g').

(** Which calls are allowed and what they do. *)
Definition file_step (g : files) (e : event FC) : option files :=
  match e with
  | existT c r =>
      match c as c' return ans c' → option files with
      | OpenRead p => λ fd : Z,
          opened fd g
            (if bool_decide (g_name g = Some p) || existsb (λ x, bool_decide (p = fd_path x)) (g_fds g)
             then mk_files (g_src g) (g_unread g) (fd :: g_fds g) (g_writers g) (g_name g) (g_content g)
             else if bool_decide (p = payload)
             then mk_files (Some fd) whole (g_fds g) (g_writers g) (g_name g) (g_content g)
             else g)
      | OpenExcl p => λ fd : Z, opened fd g (mk_files (g_src g) (g_unread g) [fd] [fd] (Some p) [])
      | OpenTmpfile _ => λ fd : Z, opened fd g (mk_files (g_src g) (g_unread g) [fd] [fd] None [])
      | MemfdCreate _ => λ fd : Z, opened fd g (mk_files (g_src g) (g_unread g) [fd] [] None [])
      | Read fd _ => λ d : option (list Z),
          if bool_decide (g_src g = Some fd)
          then Some (mk_files (g_src g) (drop (length (default [] d)) (g_unread g)) (g_fds g) (g_writers g) (g_name g) (g_content g))
          else None
      | Write fd data => λ w : Z,
          if bool_decide (fd ∈ g_fds g)
          then Some (mk_files (g_src g) (g_unread g) (g_fds g) (g_writers g) (g_name g) (g_content g ++ take (Z.to_nat w) data))
          else None
      | Close fd => λ _,
          Some (mk_files (if bool_decide (g_src g = Some fd) then None else g_src g) (g_unread g)
                  (drop_fd fd (g_fds g)) (drop_fd fd (g_writers g)) (g_name g) (g_content g))
      | Unlink p => λ rc : Z,
          if bool_decide (p = payload) then None
          else Some (mk_files (g_src g) (g_unread g) (g_fds g) (g_writers g)
                       (if bool_decide (g_name g = Some p) && (0 <=? rc) then None else g_name g) (g_content g))
      | Execve p => λ _, if existsb (λ x, bool_decide (p = fd_path x)) (g_fds g) && ready g then Some g else None
      | Fexecve fd => λ _, if bool_decide (fd ∈ g_fds g) && ready g then Some g else None
      | Getpid | Perror _ => λ _, Some g
      end r
  end.

(** What is assumed of the answers: a read gives the next bytes of the file,
    none only at its end; a write takes no more than it was given; a file
    that exists is not created; a new descriptor is not one that is open. *)
Definition file_answer (g : files) (e : event FC) : Prop :=
  match e with
  | existT c r =>
      match c as c' return ans c' → Prop with
      | Read _ size => λ d : option (list Z),
          ∀ data, d = Some data →
            data = take (length data) (g_unread g) ∧ (length data ≤ size)%nat ∧ (data = [] → g_unread g = [])
      | Write _ data => λ w : Z, w ≤ Z.of_nat (length data)
      | OpenExcl p => λ fd : Z, 0 ≤ fd → p ≠ payload ∧ g_src g ≠ Some fd
      | OpenTmpfile _ | MemfdCreate _ => λ fd : Z, 0 ≤ fd → g_src g ≠ Some fd
      | OpenRead _ => λ fd : Z, 0 ≤ fd → fd ∉ g_fds g
      | _ => λ _, True
      end r
  end.

(** Nothing fails, and every write takes something. *)
Definition success (e : event FC) : Prop :=
  match e with
  | existT c r =>
      match c as c' return ans c' → Prop with
      | OpenRead _ | OpenExcl _ | OpenTmpfile _ | MemfdCreate _ | Unlink _ => λ r : Z, 0 ≤ r
      | Read _ _ => λ d : option (list Z), d ≠ None
      | Write _ _ => λ w : Z, 0 < w
      | Execve _ | Fexecve _ => λ replaced : bool, replaced = true
      | _ => λ _, True
      end r
  end.

Definition filer : watcher FC files :=
  mk_watcher FC files (λ g e, file_answer g e ∧ (smooth = true → success e)) file_step.
End watch.

Definition no_files : files := mk_files None [] [] [] None [].

(** ** Copying *)

(** The state with other bytes to read and another content. *)
Definition with_bytes (g : files) (unread content : list Z) : files :=
  mk_files (g_src g) unread (g_fds g) (g_writers g) (g_name g) content.

Section copying.
  Variables (payload whole : list Z) (strict smooth : bool).
  Notation W := (filer payload whole strict smooth).

Lemma wp_write_all fuel fd buf g (Q : bool → files → Prop) :
  fd ∈ g_fds g → (smooth = true → length buf < fuel)%nat →
  Q true (with_bytes g (g_unread g) (g_content g ++ buf)) →
  (∀ o, smooth = false → Q false (with_bytes g (g_unread g) (g_content g ++ take o buf))) →
  wp W smooth (write_all fuel fd buf) Q g.
Proof.
  intros Hfd Hf HQ HQ'. unfold write_all.
  apply (wp_iter W smooth (λ n o g', n = (length buf - o)%nat ∧ (o ≤ length buf)%nat
    ∧ g' = with_bytes g (g_unread g) (g_content g ++ take o buf))) with (n := length buf).
  2: { intros Hs. by apply Hf. }
  2: { split; [lia|]. split; [lia|]. cbn. rewrite app_nil_r. by destruct g. }
  intros n o g' (-> & Ho & ->). destruct (Nat.ltb_spec o (length buf)) as [Hlt|Hge].
  2: { cbn [wp]. by rewrite take_ge by lia. }
  apply wp_bind. intros w [Hw Hsm]. cbn in Hw, Hsm. rewrite length_drop in Hw. cbn [accept W file_step].
  cbn. rewrite bool_decide_true by done. cbn. destruct (Z.ltb_spec w 0) as [Hneg|Hpos]; cbn.
  - destruct smooth; [specialize (Hsm eq_refl); lia|].
    replace (Z.to_nat w) with 0%nat by lia. cbn. rewrite app_nil_r. by apply (HQ' o).
  - exists (length buf - (o + Z.to_nat w))%nat. split; [intros Hs; specialize (Hsm Hs); lia|].
    split; [lia|]. split; [lia|]. unfold with_bytes. cbn. f_equal. rewrite <- app_assoc. f_equal.
    rewrite <- (take_drop o (take (o + Z.to_nat w) buf)), take_take, take_drop_commute. do 2 f_equal; lia.
Qed.

(** The copy, from a state in which nothing was read yet. *)
Lemma wp_copy fuel src dst g (Q : copied → files → Prop) :
  g_src g = Some src → dst ∈ g_fds g → g_unread g = whole → g_content g = [] →
  (smooth = true → length whole < fuel)%nat →
  Q Done (with_bytes g [] whole) →
  (∀ u c, smooth = false → c ++ u = whole → Q ReadError (with_bytes g u c)) →
  (∀ u c, smooth = false → Q WriteError (with_bytes g u c)) →
  wp W smooth (copy fuel src dst) Q g.
Proof.
  intros Hsrc Hdst Hu Hc Hf HD HR HW. unfold copy.
  apply (wp_iter W smooth (λ n _ g', ∃ u c, n = length u ∧ g' = with_bytes g u c ∧ c ++ u = whole)) with (n := length whole).
  2: { intros Hs. specialize (Hf Hs). lia. }
  2: { exists whole, []. split; [done|]. split; [|done]. rewrite <- Hu, <- Hc. by destruct g. }
  intros n [] g' (u & c & -> & -> & Hcu). apply wp_bind. intros d [Hd Hsm]. cbn in Hd, Hsm.
  cbn [accept filer file_step ev]. rewrite bool_decide_true by done. cbn [default from_option].
  destruct d as [buf|].
  2: { cbn. apply HR; [|done]. destruct smooth; [|done]. by specialize (Hsm eq_refl). }
  destruct (Hd buf eq_refl) as (Hbuf & Hsz & Hend).
  destruct buf as [|x buf]; [rewrite (Hend eq_refl) in *; rewrite app_nil_r in Hcu; subst c; exact HD|].
  set (bs := x :: buf) in *. apply wp_bind.
  assert (Hsplit : (c ++ bs) ++ drop (length bs) u = whole).
  { rewrite <- app_assoc, <- Hcu. f_equal. rewrite Hbuf at 1. apply take_drop. }
  assert (Hlen : (length (drop (length bs) u) < length u)%nat).
  { rewrite length_drop. assert (u ≠ []) by (intros ->; by rewrite take_nil in Hbuf). destruct u; [done|]. cbn. lia. }
  apply wp_write_all; [done| | |].
  - intros Hs. specialize (Hf Hs). pose proof (f_equal length Hcu) as Hl. rewrite length_app in Hl.
    rewrite Hbuf, length_take. lia.
  - cbn. exists (length (drop (length bs) u)). split; [done|]. eexists _, _. split; [done|]. split; [done|exact Hsplit].
  - intros o Hs. cbn. by apply HW.
Qed.
End copying.

(** ** The programs *)

Ltac file_cbn :=
  cbn [accept filer file_step ev opened no_files with_bytes g_src g_unread g_fds g_writers g_name g_content existsb].

(** The continuation of a call that was allowed. *)
Ltac file_ret := cbv iota; try lazymatch goal with |- wp _ _ (Ret ?x) ?Q ?g => change (Q x g) end; cbv beta.

(** One call: its answer, what is assumed of it, and the state after it. *)
Ltac file_call r Hr Hs :=
  apply wp_bind; intros r [Hr Hs]; cbn in r, Hr, Hs; file_cbn; file_ret.

Section programs.
  Variables (payload whole : list Z) (smooth : bool).

(** When nothing fails the image is replaced. *)
Definition runs (e : ending) (g : files) : Prop := smooth = true → e = Replaced.

Lemma wp_fail strict s g : smooth = false → wp (filer payload whole strict smooth) smooth (fail s) runs g.
Proof. intros Hs [] _. cbn. unfold runs. congruence. Qed.

Lemma drop_fd_self fd l : fd ∉ l → drop_fd fd (fd :: l) = l.
Proof.
  intros Hn. unfold drop_fd. cbn [bfilter]. rewrite Z.eqb_refl. cbn. apply bfilter_all, Forall_forall.
  intros x Hx. destruct (Z.eqb_spec x fd); [congruence|done].
Qed.

Lemma drop_fd_other fd x : x ≠ fd → drop_fd fd [x] = [x].
Proof. intros Hn. cbn. by destruct (Z.eqb_spec x fd). Qed.

(** A descriptor that was opened, or a program that ends. *)
Lemma wp_opened strict s (fd : Z) (p : prog FC ending) g g' :
  (smooth = true → 0 ≤ fd) →
  (0 ≤ fd → wp (filer payload whole strict smooth) smooth p runs g') →
  wp (filer payload whole strict smooth) smooth (if fd <? 0 then fail s else p) runs (if fd <? 0 then g else g').
Proof.
  intros Hs Hp. destruct (Z.ltb_spec fd 0); [|by apply Hp]. apply wp_fail. destruct smooth; [|done].
  specialize (Hs eq_refl). lia.
Qed.

(** The execution at the end. *)
Lemma wp_after strict s b g :
  (smooth = true → b = true) → wp (filer payload whole strict smooth) smooth (after_exec b s) runs g.
Proof.
  intros Hb. unfold after_exec. destruct b; [done|]. apply wp_fail. destruct smooth; [|done]. by specialize (Hb eq_refl).
Qed.

Lemma wp_fexecve strict s fd g :
  fd ∈ g_fds g → ready whole strict g = true →
  wp (filer payload whole strict smooth) smooth
    (let! replaced := sys (Fexecve fd) in after_exec replaced s) runs g.
Proof.
  intros Hfd Hr. apply wp_bind. intros b [_ Hb]. cbn in Hb. cbn [accept filer file_step ev].
  rewrite bool_decide_true, Hr by done. cbn. by apply wp_after.
Qed.

Lemma wp_execve strict s fd g :
  fd ∈ g_fds g → ready whole strict g = true →
  wp (filer payload whole strict smooth) smooth
    (let! replaced := sys (Execve (fd_path fd)) in after_exec replaced s) runs g.
Proof.
  intros Hfd Hr. apply wp_bind. intros b [_ Hb]. cbn in Hb. cbn [accept filer file_step ev].
  assert (existsb (λ x, bool_decide (fd_path fd = fd_path x)) (g_fds g) = true) as ->.
  { apply existsb_exists. exists fd. split; [by apply list_elem_of_In|]. by apply bool_decide_true. }
  rewrite Hr. cbn. by apply wp_after.
Qed.

Context (fuel : nat) (Hfuel : (smooth = true → length whole < fuel)%nat).

(** The part that the two memfd loaders share, up to the execution. *)
Lemma wp_memfd (s1 s2 s3 s4 : string) (last : Z → prog FC ending) :
  (∀ mfd g, mfd ∈ g_fds g → ready whole true g = true → wp (filer payload whole true smooth) smooth (last mfd) runs g) →
  wp (filer payload whole true smooth) smooth
    (let! in_ := sys (OpenRead payload) in
     if in_ <? 0 then fail s1 else
     let! mfd := sys (MemfdCreate (str "payload")) in
     if mfd <? 0 then fail s2 else
     let! r := copy fuel in_ mfd in
     match r with
     | WriteError => fail s3
     | ReadError => fail s4
     | Done => sys (Close in_) ;! last mfd
     end) runs no_files.
Proof.
  intros Hlast. file_call src Hr Hs. rewrite bool_decide_false, (bool_decide_true (payload = payload)) by done. cbn [orb].
  apply wp_opened; [done|]. intros Hsrc. file_call mfd Hm Hs'. apply wp_opened; [done|]. intros Hmfd. specialize (Hm Hmfd).
  apply wp_bind, wp_copy; [reflexivity|cbn; set_solver|reflexivity|reflexivity|exact Hfuel|..].
  - file_call u Hu Hu'. rewrite bool_decide_true by done. rewrite drop_fd_other by congruence.
    apply Hlast; [cbn; set_solver|]. unfold ready. cbn. by rewrite !bool_decide_true.
  - intros u c Hn _. by apply wp_fail.
  - intros u c Hn. by apply wp_fail.
Qed.

Lemma wp_memfd_exec : wp (filer payload whole true smooth) smooth (memfd_exec fuel (Some payload)) runs no_files.
Proof. apply wp_memfd. intros mfd g. apply wp_execve. Qed.

Lemma wp_memfd_execveat : wp (filer payload whole true smooth) smooth (memfd_execveat fuel (Some payload)) runs no_files.
Proof. apply wp_memfd. intros mfd g. apply wp_fexecve. Qed.

Lemma wp_deleted_exec : wp (filer payload whole true smooth) smooth (deleted_exec fuel (Some payload)) runs no_files.
Proof.
  unfold deleted_exec. file_call pid Hp Hp'. set (tmp := scratch_path payload pid).
  file_call src Hr Hs. rewrite bool_decide_false, (bool_decide_true (payload = payload)) by done. cbn [orb].
  apply wp_opened; [done|]. intros Hsrc. file_call dst Hd Hs'. apply wp_opened; [done|]. intros Hdst.
  destruct (Hd Hdst) as [Htmp Hne].
  apply wp_bind, wp_copy; [reflexivity|cbn; set_solver|reflexivity|reflexivity|exact Hfuel|..].
  2: { intros u c Hn _. by apply wp_fail. }
  2: { intros u c Hn. by apply wp_fail. }
  file_call u1 H1 H1'. file_call u2 H2 H2'.
  rewrite (bool_decide_true (Some src = Some src)), !(drop_fd_other src dst) by congruence.
  rewrite !drop_fd_self by apply not_elem_of_nil.
  file_call fd Hfd Hs3. rewrite (bool_decide_true (Some tmp = Some tmp)) by done. cbn [orb].
  apply wp_opened; [done|]. intros Hfd0. file_call rc Hrc Hs4. rewrite (bool_decide_false (tmp = payload)) by done. file_ret.
  destruct (Z.ltb_spec rc 0) as [Hneg|Hpos].
  { apply wp_fail. destruct smooth; [|done]. specialize (Hs4 eq_refl). lia. }
  apply wp_fexecve; [cbn; set_solver|]. unfold ready. cbn. by rewrite !bool_decide_true.
Qed.

(** Complete only when nothing fails. *)
Lemma wp_tmpfile_exec :
  wp (filer payload whole smooth smooth) smooth (tmpfile_exec fuel (Some payload)) runs no_files.
Proof.
  unfold tmpfile_exec.
  file_call src Hr Hs. rewrite bool_decide_false, (bool_decide_true (payload = payload)) by done. cbn [orb].
  apply wp_opened; [done|]. intros Hsrc. file_call wfd Hd Hs'. apply wp_opened; [done|]. intros Hwfd. specialize (Hd Hwfd).
  assert (Hrest : ∀ u c, ready whole smooth (mk_files None u [wfd] [] None c) = true →
    wp (filer payload whole smooth smooth) smooth
      (sys (Close src) ;! let! xfd := sys (OpenRead (fd_path wfd)) in
       if xfd <? 0 then fail "reopen ro" else
       sys (Close wfd) ;! let! replaced := sys (Fexecve xfd) in after_exec replaced "fexecve") runs
      (mk_files (Some src) u [wfd] [wfd] None c)).
  { intros u c Hready. file_call u1 H1 H1'. rewrite (bool_decide_true (Some src = Some src)) by done.
    rewrite !(drop_fd_other src wfd) by congruence. file_call xfd Hx Hs3.
    rewrite (bool_decide_true (fd_path wfd = fd_path wfd)), orb_true_r by done.
    apply wp_opened; [done|]. intros Hx0. file_call u2 H2 H2'. rewrite bool_decide_false by done.
    rewrite drop_fd_self by apply not_elem_of_nil.
    assert (Hne : xfd ≠ wfd) by (specialize (Hx Hx0); set_solver).
    apply wp_fexecve; [|exact Hready]. cbn. destruct (Z.eqb_spec xfd wfd); [done|]. cbn. set_solver. }
  apply wp_bind, wp_copy; [reflexivity|by apply list_elem_of_singleton|reflexivity|reflexivity|exact Hfuel|..].
  - apply Hrest. unfold ready. cbn. destruct smooth; apply bool_decide_true; [done|]. by rewrite firstn_all.
  - intros u c Hn Hcu. apply Hrest. unfold ready. rewrite Hn. cbn. apply bool_decide_true. rewrite <- Hcu.
    by rewrite take_app_length.
  - intros u c Hn. cbn. unfold runs. congruence.
Qed.
End programs.

Lemma wp_memfd_script payload smooth :
  wp (filer payload script false smooth) smooth memfd_script (runs smooth) no_files.
Proof.
  unfold memfd_script. file_call mfd Hm Hs. apply wp_opened; [done|]. intros Hmfd. file_call w Hw Hs'.
  rewrite bool_decide_true by (cbn; set_solver). file_ret. destruct (Z.ltb_spec w 0).
  { apply wp_fail. destruct smooth; [|done]. specialize (Hs' eq_refl). lia. }
  apply wp_execve; [cbn; set_solver|]. unfold ready. file_cbn. cbn [app]. rewrite bool_decide_true by done.
  apply bool_decide_true. rewrite length_take. generalize (Z.to_nat w). intros k.
  destruct (Nat.le_ge_cases k (length script)); [by rewrite Nat.min_l|by rewrite Nat.min_r, !take_ge].
Qed.

(** ** Theorems *)

Inductive tool := Memfd_exec | Memfd_execveat | Deleted_exec | Tmpfile_exec | Memfd_script.

Definition main_of (fuel : nat) (t : tool) (arg : option (list Z)) : prog FC ending :=
  match t with
  | Memfd_exec => memfd_exec fuel arg
  | Memfd_execveat => memfd_execveat fuel arg
  | Deleted_exec => deleted_exec fuel arg
  | Tmpfile_exec => tmpfile_exec fuel arg
  | Memfd_script => memfd_script
  end.

(** The tools that check the whole copy. *)
Definition careful (t : tool) : bool :=
  match t with Memfd_exec | Memfd_execveat | Deleted_exec => true | Tmpfile_exec | Memfd_script => false end.

Definition image (t : tool) (whole : list Z) : list Z := match t with Memfd_script => script | _ => whole end.

Lemma tool_wp payload whole fuel t :
  wp (filer payload (image t whole) (careful t) false) false (main_of fuel t (Some payload)) (runs false) no_files.
Proof.
  destruct t; cbn [main_of careful image];
    [apply wp_memfd_exec|apply wp_memfd_execveat|apply wp_deleted_exec|apply wp_tmpfile_exec|apply wp_memfd_script]; done.
Qed.

(** [C29] Whatever calls fail and however short the reads and writes are, at
    any moment of any run a loader executes nothing but the new file, which
    is not open for writing any more (on disk that would be ETXTBSY) and
    holds the complete payload for memfd_exec, memfd_execveat and
    deleted_exec, the first bytes of it for the other two; and deleted_exec
    never removes the caller's file. *)
Theorem executes_copy (payload whole : list Z) (fuel : nat) (t : tool) (tr : list (event FC)) (o : option ending) :
  let W := filer payload (image t whole) (careful t) false in
  exec (main_of fuel t (Some payload)) tr o → assumed W no_files tr → is_Some (watch W no_files tr).
Proof.
  intros W He Ha. destruct (exec_wp W false _ _ _ _ He no_files (tool_wp payload whole fuel t) Ha) as (g & Hg & _).
  by eexists.
Qed.

(** [C30] When no call fails, each of the four loaders finishes, after at most
    one round per byte of the payload, and what it executes is the complete
    payload. *)
Theorem copy_runs {Wd : Type} (reply : ∀ c : FC, Wd → answer FC c * Wd) (w : Wd) (payload whole : list Z) (fuel : nat) (t : tool) :
  t ≠ Memfd_script →
  let W := filer payload whole true true in
  let p := main_of fuel t (Some payload) in
  (length whole < fuel)%nat → assumed W no_files (trace_of reply p w) →
  (Sys.run reply p w).1 = Some Replaced ∧ is_Some (watch W no_files (trace_of reply p w)).
Proof.
  intros Ht W p Hl Ha.
  assert (Hwp : wp W true p (runs true) no_files).
  { destruct t; [apply wp_memfd_exec|apply wp_memfd_execveat|apply wp_deleted_exec|apply wp_tmpfile_exec|done]; done. }
  destruct (run_total reply W p _ _ _ Hwp Ha) as [e He].
  pose proof (run_exec reply p w) as Hx. rewrite He in Hx.
  destruct (exec_wp W true p _ _ _ Hx no_files Hwp Ha) as (g & Hg & Hr). rewrite He, (Hr eq_refl). split; [done|]. by eexists.
Qed.

(** ** Incomplete files *)

(** The answers of a given trace are possible ones. *)
Ltac file_answers :=
  cbv -[BUF Z.le elem_of not];
  repeat match goal with
    | |- _ ∧ _ => split
    | |- false = true → _ => discriminate
    | |- ∀ _, _ => intros ?
    | H : Some _ = Some _ |- _ => injection H as <-
    | H : None = Some _ |- _ => discriminate H
    | |- (_ ≤ BUF)%nat => pose proof BUF_large; cbn; lia
    end;
  first [exact I | reflexivity | lia | discriminate | set_solver].

Definition ex_path : list Z := str "/bin/true".
Definition ex_elf : list Z := [127; 69; 76; 70; 2].

(** Two bytes are read, then [read] fails: the loader carries on. *)
Definition ex_truncated : list (event FC) :=
  [ ev (OpenRead ex_path) 3; ev (OpenTmpfile (str "/tmp")) 4; ev (Read 3 BUF) (Some [127; 69]); ev (Write 4 [127; 69]) 2;
    ev (Read 3 BUF) None; ev (Close 3) (); ev (OpenRead (fd_path 4)) 3; ev (Close 4) (); ev (Fexecve 3) true ].

(** Not every loader tells a read error from the end of the file:
    tmpfile_exec can execute a truncated payload, in a run in which every
    answer is one a file system may give. *)
Theorem tmpfile_truncated :
  exec (tmpfile_exec 3 (Some ex_path)) ex_truncated (Some Replaced)
  ∧ assumed (filer ex_path ex_elf false false) no_files ex_truncated
  ∧ watch (filer ex_path ex_elf true false) no_files (take 8 ex_truncated)
    = Some (mk_files None [76; 70; 2] [3] [] None [127; 69]).
Proof.
  split; [|split; [|reflexivity]].
  - unfold ex_truncated, tmpfile_exec. repeat (cbn; apply exec_call). apply exec_ret.
  - by file_answers.
Qed.

(** A write of the script that takes only some of it is not repeated. *)
Definition ex_short : list (event FC) :=
  [ ev (MemfdCreate (str "script")) 3; ev (Write 3 script) 9; ev (Execve (fd_path 3)) true ].

(** memfd_script can execute the beginning of its script. *)
Theorem script_short_write :
  exec memfd_script ex_short (Some Replaced)
  ∧ assumed (filer [] script false false) no_files ex_short
  ∧ watch (filer [] script true false) no_files (take 2 ex_short)
    = Some (mk_files None [] [3] [] None (str "#!/bin/sh")).
Proof.
  split; [|split; [|reflexivity]].
  - unfold ex_short, memfd_script. repeat (cbn; apply exec_call). apply exec_ret.
  - by file_answers.
Qed.

(** The disk is full after the copy was created. *)
Definition ex_full : list (event FC) :=
  [ ev Getpid 77; ev (OpenRead ex_path) 3; ev (OpenExcl (scratch_path ex_path 77)) 4; ev (Read 3 BUF) (Some ex_elf);
    ev (Write 4 ex_elf) (-1); ev (Perror "write copy") () ].

(** When the copy fails, deleted_exec leaves it behind under its name. *)
Theorem scratch_left_behind :
  exec (deleted_exec 2 (Some ex_path)) ex_full (Some (Exit 1))
  ∧ assumed (filer ex_path ex_elf true false) no_files ex_full
  ∧ g_name <$> watch (filer ex_path ex_elf true false) no_files ex_full
    = Some (Some (str "/bin/true.deleted_exec.77")).
Proof.
  split; [|split; [|vm_compute; reflexivity]].
  - unfold ex_full, deleted_exec. repeat (cbn; apply exec_call). apply exec_ret.
  - by file_answers.
Qed.

(** ** Witnesses *)

(** The descriptors are numbered from 3; reads give at most three bytes and
    writes take at most two. *)
Definition ex_reply (c : FC) (w : Z * list Z) : answer FC c * (Z * list Z) :=
  match c as c' return ans c' * (Z * list Z) with
  | OpenRead _ | OpenExcl _ | OpenTmpfile _ | MemfdCreate _ => (w.1, (w.1 + 1, w.2))
  | Read _ _ => (Some (take 3 w.2), (w.1, drop 3 w.2))
  | Write _ d => (Z.min 2 (Z.of_nat (length d)), w)
  | Close _ | Perror _ => ((), w)
  | Unlink _ => (0, w)
  | Getpid => (77, w)
  | Execve _ | Fexecve _ => (true, w)
  end.

Lemma executes_copy_witness : is_Some (watch (filer ex_path ex_elf true false) no_files ex_full).
Proof.
  apply (executes_copy ex_path ex_elf 2 Deleted_exec ex_full (Some (Exit 1))).
  - exact (proj1 scratch_left_behind).
  - exact (proj1 (proj2 scratch_left_behind)).
Defined.

Lemma copy_runs_witness :
  (Sys.run ex_reply (memfd_execveat 6 (Some ex_path)) (3, ex_elf)).1 = Some Replaced.
Proof.
  refine (proj1 (copy_runs ex_reply (3, ex_elf) ex_path ex_elf 6 Memfd_execveat _ _ _)).
  - discriminate.
  - cbn. lia.
  - assert (Ht : trace_of ex_reply (main_of 6 Memfd_execveat (Some ex_path)) (3, ex_elf)
      = [ ev (OpenRead ex_path) 3; ev (MemfdCreate (str "payload")) 4;
          ev (Read 3 BUF) (Some [127; 69; 76]); ev (Write 4 [127; 69; 76]) 2; ev (Write 4 [76]) 1;
          ev (Read 3 BUF) (Some [70; 2]); ev (Write 4 [70; 2]) 2; ev (Read 3 BUF) (Some []);
          ev (Close 3) (); ev (Fexecve 4) true ]) by reflexivity.
    rewrite Ht. clear Ht. by file_answers.
Defined.
