(* ===== verification/FilelessV1.v ===== *)
(** * FilelessV1: the execution lab before its corrections (chapter 25)

    Models deleted_exec.c and memfd_execveat.c of
    src/25-fileless-lab/src-v1.1-verbatim, the two loaders that differ from
    their corrected versions in Fileless, as programs over the same calls.
    The files memfd_exec.c, memfd_script.c and tmpfile_exec.c of that
    directory are those of src up to the last newline, and so are their
    models.

    The theorems: while no call fails, the old loaders other than
    deleted_exec make the very calls of the corrected ones, and end the same
    way; the old deleted_exec
    removes its caller's file in every run that gets as far as opening it;
    and without a payload the old memfd_execveat executes an empty file,
    where the corrected one stops. *)

From stdpp Require Import prelude list strings.
From Stdlib Require Import ZArith Lia.
From S2P Require Import Prelude.
From S2P Require Import Kernel.
From S2P Require Import Sys.
From S2P Require Import Fileless.

(** The result of [unlink] is ignored. *)
Definition deleted_exec_v1 (arg : option (list Z)) : prog FC ending :=
  match arg with
  | None => Ret (Exit 2)
  | Some payload =>
      let! fd := sys (OpenRead payload) in
      if fd <? 0 then fail "open" else
      let! _ := sys (Unlink payload) in
      let! replaced := sys (Fexecve fd) in
      after_exec replaced "fexecve"
  end.

(** Neither descriptor is checked, and an error of [read] ends the loop like
    the end of the file. *)
Definition memfd_execveat_v1 (fuel : nat) (arg : option (list Z)) : prog FC ending :=
  match arg with
  | None => Ret (Exit 2)
  | Some payload =>
      let! in_ := sys (OpenRead payload) in
      let! mfd := sys (MemfdCreate (str "payload")) in
      let! r := copy fuel in_ mfd in
      match r with
      | WriteError => Ret (Exit 1)
      | ReadError | Done =>
          sys (Close in_) ;!
          let! replaced := sys (Fexecve mfd) in
          after_exec replaced "execveat"
      end
  end.

(** The three that were not changed. *)
Definition memfd_exec_v1 : nat → option (list Z) → prog FC ending := memfd_exec.
Definition tmpfile_exec_v1 : nat → option (list Z) → prog FC ending := tmpfile_exec.
Definition memfd_script_v1 : prog FC ending := memfd_script.

Definition main_of_v1 (fuel : nat) (t : tool) (arg : option (list Z)) : prog FC ending :=
  match t with
  | Memfd_exec => memfd_exec_v1 fuel arg
  | Memfd_execveat => memfd_execveat_v1 fuel arg
  | Deleted_exec => deleted_exec_v1 arg
  | Tmpfile_exec => tmpfile_exec_v1 fuel arg
  | Memfd_script => memfd_script_v1
  end.

(** ** Programs with the same runs *)

Section same_runs.
  Context {C : calls} (ok : event C → Prop).

(** [p] and [q] have the same runs among those whose answers are all [ok]. *)
Definition same_runs {A} (p q : prog C A) : Prop :=
  ∀ tr o, Forall ok tr → exec p tr o ↔ exec q tr o.

Lemma exec_inv {A} (p : prog C A) tr o :
  exec p tr o →
  (tr = [] ∧ o = None)
  ∨ match p with
    | Ret a => tr = [] ∧ o = Some a
    | Call c k => ∃ r tr', tr = ev c r :: tr' ∧ exec (k r) tr' o
    | Running => False
    end.
Proof. intros He. destruct He; [by left|by right|right; eauto]. Qed.

Lemma same_runs_refl {A} (p : prog C A) : same_runs p p.
Proof. done. Qed.

(** Programs that agree after every answer that is [ok]. *)
Lemma same_runs_sys {A} c (f g : answer C c → prog C A) :
  (∀ r, ok (ev c r) → same_runs (f r) (g r)) → same_runs (bind (sys c) f) (bind (sys c) g).
Proof.
  intros Hfg tr o Hok. cbn.
  split; (intros [[-> ->]|(r & tr' & -> & He)]%exec_inv; [apply exec_now|]; apply Forall_cons in Hok as [Hr Hok];
    apply exec_call; by apply (Hfg r Hr tr' o Hok)).
Qed.

(** Programs that agree after every result that [p] can have. *)
Lemma same_runs_bind {A B} (p : prog C A) (f g : A → prog C B) :
  (∀ a tr, Forall ok tr → exec p tr (Some a) → same_runs (f a) (g a)) → same_runs (bind p f) (bind p g).
Proof.
  induction p as [a|c k IH|]; intros Hfg; [by apply (Hfg a []); [|apply exec_ret]| |apply same_runs_refl].
  intros tr o Hok. cbn.
  assert (Hk : ∀ r, ok (ev c r) → same_runs (bind (k r) f) (bind (k r) g)).
  { intros r Hr. apply IH. intros a tr1 Hok1 He. apply (Hfg a (ev c r :: tr1)); [by constructor|by apply exec_call]. }
  split; (intros [[-> ->]|(r & tr' & -> & He)]%exec_inv; [apply exec_now|]; apply Forall_cons in Hok as [Hr Hok];
    apply exec_call; by apply (Hk r Hr tr' o Hok)).
Qed.
End same_runs.

(** ** Copies of which nothing fails *)

Definition succeeds : watcher FC () := mk_watcher FC () (λ _ e, success e) (λ _ _, Some ()).

Lemma assumed_succeeds tr : Forall success tr → assumed succeeds () tr.
Proof. induction 1 as [|e tr He _ IH]; [done|]. by split. Qed.

Lemma copy_done fuel src dst tr r : Forall success tr → exec (copy fuel src dst) tr (Some r) → r = Done.
Proof.
  intros Hok He. refine (_ (exec_wp succeeds false _ (λ r _, r = Done) _ _ He () _ (assumed_succeeds tr Hok))).
  { by intros (g & _ & ->). }
  unfold copy. apply wp_iter_keep. intros []. apply wp_bind. intros d Hd. cbn in Hd |- *.
  destruct d as [[|x buf]|]; [done| |done]. apply wp_bind. unfold write_all. apply wp_iter_keep. intros o.
  destruct (o <? _)%nat; [|done]. apply wp_bind. intros w Hw. cbn in Hw |- *. destruct (Z.ltb_spec w 0); [lia|done].
Qed.

(** The descriptor that an event of [open] answers. *)
Definition opened_fd (e : event FC) : Z :=
  match e with
  | existT c r => match c as c' return ans c' → Z with OpenRead _ => λ fd : Z, fd | _ => λ _, 0 end r
  end.

(** ** Theorems *)

Lemma execveat_same (fuel : nat) (arg : option (list Z)) :
  same_runs success (memfd_execveat_v1 fuel arg) (memfd_execveat fuel arg).
Proof.
  destruct arg as [payload|]; [|apply same_runs_refl]. unfold memfd_execveat_v1, memfd_execveat.
  apply same_runs_sys. intros in_ Hin. cbn in Hin. rewrite (proj2 (Z.ltb_ge in_ 0) Hin).
  apply same_runs_sys. intros mfd Hm. cbn in Hm. rewrite (proj2 (Z.ltb_ge mfd 0) Hm).
  apply same_runs_bind. intros r tr Hok He. rewrite (copy_done _ _ _ _ _ Hok He). apply same_runs_refl.
Qed.

(** [C31] While no call fails, the old version of every loader but
    deleted_exec and the corrected one have the same runs: they make the
    same calls, get the same answers, and end in the same way at the same
    point.  The checks that were added change nothing but failures. *)
Theorem v1_same_runs (fuel : nat) (t : tool) (arg : option (list Z)) :
  t ≠ Deleted_exec → same_runs success (main_of_v1 fuel t arg) (main_of fuel t arg).
Proof.
  intros Ht. destruct t; [apply same_runs_refl|apply execveat_same|done|apply same_runs_refl|apply same_runs_refl].
Qed.

(** The old deleted_exec removes its caller's file in every run that ends,
    unless the file cannot be opened, and whether or not the execution
    succeeds: the rule that the corrected version keeps is broken. *)
Theorem deleted_v1_unlinks (payload whole : list Z) (tr : list (event FC)) (e : ending) :
  exec (deleted_exec_v1 (Some payload)) tr (Some e) →
  (∃ fd, fd < 0 ∧ e = Exit 1 ∧ tr = [ev (OpenRead payload) fd; ev (Perror "open") ()])
  ∨ ∃ fd rc rest, 0 ≤ fd ∧ tr = ev (OpenRead payload) fd :: ev (Unlink payload) rc :: rest
    ∧ watch (filer payload whole true false) no_files tr = None.
Proof.
  intros [[_ ?]|(fd & tr1 & -> & He)]%exec_inv; [done|]. cbn in fd, He. destruct (Z.ltb_spec fd 0) as [Hfd|Hfd].
  - left. exists fd. apply exec_inv in He as [[_ ?]|(u & tr2 & -> & He)]; [done|]. destruct u.
    apply exec_inv in He as [[_ ?]|[-> [= ->]]]; [done|]. done.
  - right. apply exec_inv in He as [[_ ?]|(rc & tr2 & -> & He)]; [done|]. exists fd, rc, tr2. split; [done|]. split; [done|].
    unfold no_files. cbn. apply Z.ltb_ge in Hfd as Hf. unfold opened. rewrite Hf.
    rewrite (bool_decide_true (payload = payload)) by done. done.
Qed.

(** Without a payload to open, the old memfd_execveat goes on and executes
    the memfd it never wrote to; the corrected one stops. *)
Theorem execveat_v1_empty (payload : list Z) (fuel : nat) (bad mfd : Z) (replaced : bool) :
  bad < 0 →
  (∃ rest e, exec (memfd_execveat_v1 (S fuel) (Some payload))
     ([ev (OpenRead payload) bad; ev (MemfdCreate (str "payload")) mfd; ev (Read bad BUF) None; ev (Close bad) ();
       ev (Fexecve mfd) replaced] ++ rest) (Some e))
  ∧ ∀ tr o, exec (memfd_execveat (S fuel) (Some payload)) (ev (OpenRead payload) bad :: tr) o → (length tr ≤ 1)%nat.
Proof.
  intros Hbad. split.
  - exists (if replaced then [] else [ev (Perror "execveat") ()]), (if replaced then Replaced else Exit 1).
    unfold memfd_execveat_v1. destruct replaced; repeat (cbn; apply exec_call); apply exec_ret.
  - intros tr o [[? _]|(r & tr1 & Heq & He)]%exec_inv; [done|].
    apply (f_equal (λ l, (opened_fd <$> head l, tail l))) in Heq. cbn in Heq. injection Heq as <- <-.
    apply Z.ltb_lt in Hbad. cbn in He. rewrite Hbad in He.
    apply exec_inv in He as [[-> _]|(u & tr2 & -> & He)]; [cbn; lia|].
    apply exec_inv in He as [[-> _]|[-> _]]; cbn; lia.
Qed.

(** ** Witnesses *)

(** A run of the old memfd_execveat is one of the corrected one. *)
Lemma v1_same_runs_witness :
  exec (memfd_execveat 3 (Some ex_path))
    [ev (OpenRead ex_path) 3; ev (MemfdCreate (str "payload")) 4; ev (Read 3 BUF) (Some [127; 69]); ev (Write 4 [127; 69]) 2;
     ev (Read 3 BUF) (Some []); ev (Close 3) (); ev (Fexecve 4) true] (Some Replaced).
Proof.
  apply (v1_same_runs 3 Memfd_execveat (Some ex_path) ltac:(discriminate)).
  - repeat constructor; cbn; first [lia|discriminate].
  - unfold main_of_v1, memfd_execveat_v1. repeat (cbn; apply exec_call). apply exec_ret.
Defined.

Lemma deleted_v1_unlinks_witness :
  watch (filer ex_path ex_elf true false) no_files
    [ev (OpenRead ex_path) 3; ev (Unlink ex_path) 0; ev (Fexecve 3) true] = None.
Proof.
  destruct (deleted_v1_unlinks ex_path ex_elf [ev (OpenRead ex_path) 3; ev (Unlink ex_path) 0; ev (Fexecve 3) true] Replaced)
    as [(fd & _ & _ & Hx)|(fd & rc & rest & _ & _ & Hw)].
  - unfold deleted_exec_v1. repeat (cbn; apply exec_call). apply exec_ret.
  - apply (f_equal length) in Hx. discriminate Hx.
  - exact Hw.
Defined.

Lemma execveat_v1_empty_witness :
  ∃ rest e, exec (memfd_execveat_v1 1 (Some ex_path))
    ([ev (OpenRead ex_path) (-1); ev (MemfdCreate (str "payload")) 3; ev (Read (-1) BUF) None; ev (Close (-1)) ();
      ev (Fexecve 3) false] ++ rest) (Some e).
Proof. apply (execveat_v1_empty ex_path 0 (-1) 3 false). lia. Defined.
