(* ===== verification/KeyringRun.v ===== *)
(** * KeyringRun: a session of the keyring detector (chapter 26)

    The detector from the hooks to the screen: [Mains.keyring_main], the main
    function of keyring_snoop.c, runs in a world where keys are created and
    add_key is called, in any order and by any task, while the loader starts
    and during its polls.  The tracepoint may be unavailable, and then the
    detector goes on with its other hook.  The state of the world and what a
    poll does to it are those of SnoopRun.

    The theorem: the session prints the threshold, and then one line for each
    creation of a key (and each call of add_key, if the tracepoint is
    there), with the mark of a staged payload on exactly the user and big_key
    keys that reach the threshold. *)

From stdpp Require Import prelude list strings.
From Stdlib Require Import ZArith Lia.
From S2P Require Import Prelude.
From S2P Require Import Kernel.
From S2P Require Import Printf.
From S2P Require Import Libc.
From S2P Require Import Keyring.
From S2P Require Import Sys.
From S2P Require Import Mains.
From S2P Require Import SnoopRun.
From S2P Require Import SnoopSessions.

(** How many records the ring holds. *)
Definition SLOTS_26 : nat := ring_slots RING_BYTES 128.

Example keyring_slots : SLOTS_26 = 1927%nat.
Proof. vm_compute. reflexivity. Qed.

(** The creation of a key in the kernel and the entry of add_key: the task,
    the time and the arguments. *)
Inductive hook :=
  | HCreate (cur : task) (now type description plen : Z)
  | HAdd (cur : task) (now arg0 arg1 arg3 : Z).

(** The line of [handle_event]. *)
Definition key_text (r : Keyring.row) : list Z :=
  rpad 6 (str (Keyring.r_src r)) ++ str " pid=" ++ rpad 7 (dec (Keyring.r_pid r)) ++ str " uid=" ++ rpad 6 (dec (Keyring.r_uid r)) ++
  str " type=" ++ rpad 8 (Keyring.r_type r) ++ str " len=" ++ rpad 8 (dec (Keyring.r_len r)) ++ str " " ++
  rpad 20 (Keyring.r_desc r) ++ (if Keyring.r_flag r then str "  <== STAGED PAYLOAD?" else []) ++ [10].

Section world.
  Context (KM UM : UserMem) {R : Type} `{!Ringbuf R key_event, !RingReader R}.
  (** The threshold, and whether the tracepoint can be attached. *)
  Variables (thr : Z) (tracefs : bool).

Definition key_fire (r : R) (h : hook) : R :=
  match h with
  | HCreate cur now type description plen => on_key_create KM cur now type description plen r
  | HAdd cur now arg0 arg1 arg3 => if tracefs then on_sys_add_key UM cur now arg0 arg1 arg3 r else r
  end.

Definition keyring_snooper : Snooper R hook key_event () :=
  direct_snooper key_fire (λ e, key_text (Keyring.handle_event thr e)).

Notation world := (SnoopRun.world R hook ()).

Definition set_hooked (b : bool) (w : world) : world :=
  mk_world (kern w) b (nread w) (user w) (starting w) (arriving w) (screen w).

Definition key_reply (c : SC) (w : world) : answer SC c * world :=
  match c as c' return Mains.ans c' * world with
  | ProgAttach prog => if String.eqb prog "on_key_create" then (true, set_hooked true w) else (tracefs, w)
  | RingNew =>
      (true, mk_world (happen (S := keyring_snooper) (starting w) w) (hooked w) (nread w) (user w) (starting w) (arriving w) (screen w))
  | RingPoll => (Z.of_nat (nread (poll (S := keyring_snooper) w) - nread w), poll (S := keyring_snooper) w)
  | Stop => (match arriving w with [] => true | _ => false end, w)
  | Destroy => (tt, set_hooked false w)
  | Print (Text text) => (tt, mk_world (kern w) (hooked w) (nread w) (user w) (starting w) (arriving w) (screen w ++ [text]))
  | Print _ => (tt, w)
  | OpenLoad | Calloc => (true, w)
  | MapLookup _ => (None, w)
  | MapLookupCpus _ => (None, w)
  | CloseSocket | RingFree | Free _ | Sleep => (tt, w)
  | Pause => (true, w)
  | _ => (0, w)
  end.

(** ** Specification *)

(** The string at [a], empty if there is none. *)
Definition name_at (m : UserMem) (a : Z) : list Z := if a =? 0 then [] else default [] (@user_str m a).

Definition dash (s : list Z) : list Z := if bool_decide (s = []) then str "-" else s.

(** A key that may be a staged payload. *)
Definition staged (type : list Z) (len : Z) : bool :=
  bool_decide ((type = str "user" ∨ type = str "big_key") ∧ thr ≤ len).

(** The lines of an event. *)
Definition key_lines (h : hook) : list (list Z) :=
  match h with
  | HCreate cur now type description plen =>
      let t := name_at KM type in
      [key_text (Keyring.mk_row "fentry" (current_pid cur) (current_uid cur) (dash (take (TYPE_LEN - 1) t)) (u64 plen)
         (dash (take (DESC_LEN - 1) (name_at KM description))) (staged t (u64 plen)))]
  | HAdd cur now arg0 arg1 arg3 =>
      if tracefs then
        [key_text (Keyring.mk_row "tracep" (current_pid cur) (current_uid cur) (dash (take (TYPE_LEN - 1) (name_at UM arg0)))
           (u64 arg3) (dash (take (DESC_LEN - 1) (name_at UM arg1))) false)]
      else []
  end.

(** The strings can be read; the kernel's may be missing. *)
Definition key_fine (h : hook) : Prop :=
  match h with
  | HCreate _ _ type description _ =>
      (type = 0 ∨ is_Some (@user_str KM type)) ∧ (description = 0 ∨ is_Some (@user_str KM description))
  | HAdd _ _ arg0 arg1 _ => arg0 ≠ 0 ∧ arg1 ≠ 0 ∧ is_Some (@user_str UM arg0) ∧ is_Some (@user_str UM arg1)
  end.
End world.

(** ** Lemmas *)

Section proof.
  Context (KM UM : UserMem) `{!@UserMemLaws KM, !@UserMemLaws UM}.
  Context {R : Type} `{!Ringbuf R key_event, !RingReader R, !RingReaderLaws R key_event SLOTS_26}.
  Variables (thr : Z) (tracefs : bool).
  (** A record of the ring has the arrays of the struct. *)
  Hypothesis room : ∀ (r r' : R) d, ringbuf_reserve r = Some (d, r') → length (k_type d) = TYPE_LEN ∧ length (k_desc d) = DESC_LEN.

Lemma read_user (m : UserMem) `{!@UserMemLaws m} a n dst :
  (0 < n)%nat → length dst = n → a ≠ 0 → is_Some (@user_str m a) →
  cstr (@probe_read_user_str m a n (<[0%nat := 0]> dst)).2 = take (n - 1) (name_at m a).
Proof.
  intros Hn Hl Ha%Z.eqb_neq [s Hs]. unfold name_at. rewrite Ha, Hs. by apply probe_read_user_str_cstr; [|done|rewrite length_insert].
Qed.

Lemma read_kernel a n dst :
  (0 < n)%nat → length dst = n → a = 0 ∨ is_Some (@user_str KM a) →
  cstr (read_if KM a n (<[0%nat := 0]> dst)) = take (n - 1) (name_at KM a).
Proof.
  intros Hn Hl Ha. unfold read_if. destruct (Z.eqb_spec a 0) as [->|Hne].
  - change (name_at KM 0) with (@nil Z). rewrite take_nil. destruct dst; simpl in *; [lia|done].
  - destruct Ha as [?|Ha]; [done|]. by apply read_user.
Qed.

(** The row of an event, from the strings it holds. *)
Lemma key_row e t d :
  cstr (k_type e) = take (TYPE_LEN - 1) t → cstr (k_desc e) = take (DESC_LEN - 1) d →
  Keyring.handle_event thr e
  = Keyring.mk_row (if source e =? 0 then "fentry" else "tracep") (k_pid e) (k_uid e) (dash (take (TYPE_LEN - 1) t)) (datalen e)
      (dash (take (DESC_LEN - 1) d)) ((source e =? 0) && staged thr t (datalen e)).
Proof.
  intros Ht Hd. unfold Keyring.handle_event, suspicious, dash, staged. rewrite !first_char, Ht, Hd, (stageable_read _ t Ht). f_equal.
  rewrite <- andb_assoc. f_equal. rewrite bool_decide_and. f_equal. apply eq_true_iff_eq. by rewrite Z.leb_le, bool_decide_eq_true.
Qed.

(** Both hooks submit one record. *)
Definition create_fill (cur : task) (now type description plen : Z) (e : key_event) : key_event :=
  let e := fill_ids cur now e in
  Keyring.mk_event (ts_ns e) (k_pid e) (k_uid e) (u64 plen) 0 (k_comm e)
    (read_if KM type TYPE_LEN (<[0%nat := 0]> (k_type e))) (read_if KM description DESC_LEN (<[0%nat := 0]> (k_desc e))).

Definition add_fill (cur : task) (now arg0 arg1 arg3 : Z) (e : key_event) : key_event :=
  let e := fill_ids cur now e in
  Keyring.mk_event (ts_ns e) (k_pid e) (k_uid e) (u64 arg3) 1 (k_comm e)
    (@probe_read_user_str UM arg0 TYPE_LEN (<[0%nat := 0]> (k_type e))).2
    (@probe_read_user_str UM arg1 DESC_LEN (<[0%nat := 0]> (k_desc e))).2.

Lemma create_submits cur now t d n (r : R) : on_key_create KM cur now t d n r = submit_one (create_fill cur now t d n) r.
Proof. unfold on_key_create, submit_one. by destruct (ringbuf_reserve r) as [[]|]. Qed.

Lemma add_submits cur now t d n (r : R) : on_sys_add_key UM cur now t d n r = submit_one (add_fill cur now t d n) r.
Proof. unfold on_sys_add_key, submit_one. by destruct (ringbuf_reserve r) as [[]|]. Qed.

Lemma key_adds (r : R) h : ∃ es, ringbuf_records (key_fire KM UM tracefs r h) = ringbuf_records r ++ es.
Proof.
  destruct h as [cur now t d n|cur now t d n]; cbn [key_fire]; rewrite ?create_submits, ?add_submits;
    [|destruct tracefs; [|exists []; by rewrite app_nil_r]]; apply (submit_one_adds (slots := SLOTS_26)).
Qed.

Lemma key_unread (r : R) h : (ring_unread (key_fire KM UM tracefs r h) ≤ ring_unread r + 1)%nat.
Proof.
  destruct h as [cur now t d n|cur now t d n]; cbn [key_fire]; rewrite ?create_submits, ?add_submits;
    [|destruct tracefs; [|lia]]; apply (submit_one_unread (slots := SLOTS_26)).
Qed.

Lemma key_fire_lines (r : R) h es :
  key_fine KM UM h → ringbuf_records (key_fire KM UM tracefs r h) = ringbuf_records r ++ es →
  (λ e, key_text (Keyring.handle_event thr e)) <$> es = if ring_ready r then key_lines KM UM thr tracefs h else [].
Proof.
  destruct h as [cur now t d n|cur now t d n]; cbn [key_fire key_fine key_lines]; rewrite ?create_submits, ?add_submits.
  - intros [Ht Hd]. apply (submit_one_lines (slots := SLOTS_26)). intros e r' [Hl1 Hl2]%room. f_equal.
    rewrite (key_row _ (name_at KM t) (name_at KM d)); [done|by apply read_kernel; [unfold TYPE_LEN; lia| |]|by apply read_kernel; [unfold DESC_LEN; lia| |]].
  - intros (Hz1 & Hz2 & Ht & Hd). destruct tracefs.
    + apply (submit_one_lines (slots := SLOTS_26)). intros e r' [Hl1 Hl2]%room. f_equal.
      rewrite (key_row _ (name_at UM t) (name_at UM d)); [done|by apply (read_user UM); [unfold TYPE_LEN; lia| | |]|by apply (read_user UM); [unfold DESC_LEN; lia| | |]].
    + rewrite <- (app_nil_r (ringbuf_records r)) at 1. intros <-%app_inv_head. by case_match.
Qed.

Notation snooper := (keyring_snooper KM UM thr tracefs).
Notation reply := (key_reply KM UM thr tracefs).

Lemma key_laws : @SnooperLaws _ _ _ _ snooper.
Proof. apply (direct_laws (slots := SLOTS_26)), key_adds. Qed.

(** The loop of the main function. *)
Lemma run_key_polls u out base batches : ∀ fuel seen pend (w : world R hook ()),
  (length batches < fuel)%nat → running (S := snooper) u out base seen pend w → arriving w = batches →
  (batches = [] → pend = []) →
  ∃ seen' w', running (S := snooper) u out base seen' [] w' ∧ kern w' = feed (S := snooper) (kern w) batches
  ∧ Sys.run reply (iter fuel (λ _ : (),
        let! stop := sys Stop in
        if stop then Ret (inr ()) else
        let! n := sys RingPoll in
        if (n <? 0) && negb (n =? - EINTR)
        then sys (Print (Msg "ring_buffer__poll")) ;! Ret (inr ())
        else Ret (inl ())) ()) w = (Some (), w').
Proof.
  induction batches as [|hs batches IH]; intros fuel seen pend w Hf Hw Ha Hp; (destruct fuel as [|fuel]; [simpl in Hf; lia|]).
  - exists seen, w. rewrite (Hp eq_refl) in Hw. split; [done|]. split; [done|]. cbn. by rewrite Ha.
  - destruct (snoop_poll_running (SnooperLaws0 := key_laws) u out base seen pend hs batches w Hw Ha) as (es & Hw1 & Ha1 & Hk1).
    destruct (IH fuel _ _ (poll (S := snooper) w) ltac:(simpl in Hf; lia) Hw1 Ha1 (λ _, eq_refl)) as (seen' & w' & Hw' & Hk' & Hrun).
    exists seen', w'. split; [done|]. split; [by rewrite Hk', Hk1|].
    cbn [iter]. rewrite run_bind. cbn [Sys.run sys bind]. cbn [key_reply]. rewrite Ha. cbn [Sys.run sys bind key_reply].
    destruct (Z.ltb_spec (Z.of_nat (nread (poll (S := snooper) w) - nread w)) 0); [lia|]. cbn [andb Sys.run]. exact Hrun.
Qed.
End proof.

(** ** Theorem *)

Section session.
  Context (KM UM : UserMem) `{!@UserMemLaws KM, !@UserMemLaws UM}.
  Context {R : Type} `{!Ringbuf R key_event, !RingReader R, !RingReaderLaws R key_event SLOTS_26}.

(** [C17] A session of the keyring detector.  With a threshold that can be
    read it prints the threshold and its columns, and then, whatever keys are
    created while it starts and during its polls, one line for each, in
    order, with the task, the type and the description (or a dash) and the
    size, marked as a staged payload exactly when it is a user or big_key
    key of at least that size, and one unmarked line for each call of add_key
    if the tracepoint can be attached; it exits with 0, detached.  Exactly
    the lines of events that found the ring full are missing: none, while
    not more than 1927 events come between two polls.  With a threshold that
    cannot be read it exits with 1 and does nothing. *)
Theorem keyring_session (tracefs : bool) (arg : option (list Z)) (r : R) (starting : list hook) (batches : list (list hook)) (fuel : nat) :
  (∀ (r r' : R) d, ringbuf_reserve r = Some (d, r') → length (k_type d) = TYPE_LEN ∧ length (k_desc d) = DESC_LEN) →
  ring_unread r = 0%nat → Forall (key_fine KM UM) (starting ++ concat batches) → batches ≠ [] → (length batches < fuel)%nat →
  match parse_threshold arg with
  | Some thr =>
      let prints lines := ∃ w',
        Sys.run (key_reply KM UM thr tracefs) (keyring_main fuel arg)
          (boot (S := keyring_snooper KM UM thr tracefs) r () starting batches) = (Some 0, w')
        ∧ hooked w' = false ∧ screen w' = [watching thr; key_columns] ++ lines in
      let rooms := session_rooms (S := keyring_snooper KM UM thr tracefs) r starting batches in
      prints (kept_lines (λ _, key_lines KM UM thr tracefs) rooms [] (starting ++ concat batches))
      ∧ (calm SLOTS_26 starting batches → prints (concat (key_lines KM UM thr tracefs <$> starting ++ concat batches)))
  | None => ∀ thr (w : world R hook ()), Sys.run (key_reply KM UM thr tracefs) (keyring_main fuel arg) w = (Some 1, w)
  end.
Proof.
  intros Hroom Hu0 Hf Hne Hl. destruct (parse_threshold arg) as [thr|] eqn:Ha.
  2: { intros thr w. unfold keyring_main. by rewrite Ha. }
  intros prints rooms. set (S := keyring_snooper KM UM thr tracefs) in *.
  assert (Hk : prints (kept_lines (λ _, key_lines KM UM thr tracefs) rooms [] (starting ++ concat batches))).
  { pose proof (key_laws KM UM thr tracefs) as Hlaws. fold S in Hlaws.
    destruct (fires_records (S := S) r starting) as [es0 He0].
    set (w0 := mk_world (foldl (key_fire KM UM tracefs) r starting) true (length (ringbuf_records r)) () starting batches [watching thr; key_columns]).
    assert (Hw0 : running (S := S) () [watching thr; key_columns] (ringbuf_records r) [] es0 w0).
    { split; cbn [hooked kern nread user screen w0]; [done|exact He0|by rewrite app_nil_r|done|by rewrite app_nil_r]. }
    destruct (run_key_polls KM UM thr tracefs () _ _ batches fuel [] es0 w0 Hl Hw0 eq_refl) as (seen & w1 & [_ Hr _ _ Hs] & Hk & Hrun); [done|].
    exists (set_hooked false w1). split; [|split; [done|]].
    - unfold keyring_main. rewrite Ha. cbn [Sys.run sys bind key_reply String.eqb Ascii.eqb Bool.eqb negb].
      destruct tracefs; cbn [negb warn Sys.run sys bind key_reply]; rewrite run_bind;
        match type of Hrun with ?L = _ => match goal with |- context [Sys.run ?f (iter ?n ?b ?x) ?w] =>
          change (Sys.run f (iter n b x) w) with L end end; rewrite Hrun; reflexivity.
    - cbn [set_hooked screen]. rewrite Hs. f_equal.
      apply (direct_kept (slots := SLOTS_26) _ _ (key_fine KM UM) _ (key_adds KM UM tracefs) (key_fire_lines KM UM thr tracefs Hroom)); [done|].
      rewrite app_nil_r, Hk in Hr. exact Hr. }
  split; [done|]. intros Hcalm.
  rewrite <- (direct_calm (slots := SLOTS_26) _ (λ e, key_text (Keyring.handle_event thr e)) (key_lines KM UM thr tracefs) (key_unread KM UM tracefs) r) by done.
  exact Hk.
Qed.
End session.

(** ** Witness *)

Notation ex_ring := (sized_ringbuf SLOTS_26 Keyring.ex_dirt).

(** "keyring_snoop 0x1000": stage-key stages 8192 bytes while the detector
    starts, and a small key follows; there is no tracefs. *)
Definition ex_starting : list hook := [HAdd Keyring.ex_cur 5 4096 8192 8192; HCreate Keyring.ex_cur 6 4096 8192 8192].
Definition ex_batches : list (list hook) := [[HCreate Keyring.ex_cur 7 4096 0 100]].

Lemma keyring_session_witness :
  ∃ w', Sys.run (@key_reply Keyring.ex_mem Keyring.ex_mem _ ex_ring sized_reader 4096 false) (keyring_main 3 (Some (str "0x1000")))
      (boot (S := @keyring_snooper Keyring.ex_mem Keyring.ex_mem _ ex_ring sized_reader 4096 false) ([], 0%nat) () ex_starting ex_batches)
    = (Some 0, w')
  ∧ screen w' =
    [str "watching key creation (add_key); flag >= 4096 bytes in user/big_key. Ctrl-C to stop." ++ [10];
     str "src    pid         uid        type/len      description         " ++ [10];
     str "fentry pid=42      uid=0      type=user     len=8192     _dntry                <== STAGED PAYLOAD?" ++ [10];
     str "fentry pid=42      uid=0      type=user     len=100      -                   " ++ [10]].
Proof.
  destruct (@keyring_session Keyring.ex_mem Keyring.ex_mem (gmap_user_mem_laws _) (gmap_user_mem_laws _) _ ex_ring sized_reader
    (sized_ring_laws _ _) false (Some (str "0x1000")) ([], 0%nat) ex_starting ex_batches 3) as [_ Hcalm].
  - intros r r' d ->%sized_dirt. split; reflexivity.
  - reflexivity.
  - repeat constructor; first [discriminate | by right | by left | eexists; vm_compute; reflexivity].
  - discriminate.
  - simpl. lia.
  - destruct Hcalm as (w' & Hr & _ & Hs); [constructor; [apply Nat.leb_le; vm_compute; reflexivity|constructor]|].
    exists w'. split; [exact Hr|]. rewrite Hs. vm_compute. reflexivity.
Defined.
