(* ===== verification/ReadlineRun.v ===== *)
(** * ReadlineRun: a session of bashreadline (chapter 15)

    The main function of src/15-bashreadline/bashreadline.c as a program of
    [Sys], over the calls of SnoopRun: it attaches the return probe itself,
    and so has a link to destroy, and it returns a variable that it has not
    set when it is stopped before the first poll.

    The theorems: its exit status is that of [Loader.main_15]; it uses
    nothing it does not hold and releases all it acquires, whatever fails;
    and a session prints one line for each command typed, empty ones
    excepted. *)

From stdpp Require Import prelude list strings.
From Stdlib Require Import ZArith Lia.
From S2P Require Import Prelude.
From S2P Require Import Kernel.
From S2P Require Import Printf.
From S2P Require Import Loader.
From S2P Require Import BashReadline.
From S2P Require Import Rows.
From S2P Require Import Sys.
From S2P Require Import SnoopRun.
From S2P Require Import SnoopSessions.

Definition DEFAULT_BASH : list Z := str "/usr/bin/bash".

(** [argc > 1 ? argv[1] : DEFAULT_BASH]. *)
Definition bash_path (argv : list (list Z)) : list Z := default DEFAULT_BASH (argv !! 1%nat).

Definition readline_texts (path : list Z) : texts := mk_texts
  (str "Failed to attach uretprobe to " ++ path ++ str ":readline (")
  [str "Tracing " ++ path ++ str ":readline — type commands in another bash. Ctrl-C to stop." ++ [10];
   rpad 8 (str "PID") ++ str " " ++ rpad 16 (str "COMM") ++ str " COMMAND" ++ [10]].

Definition no_symbol (path : list Z) (err : Z) : list Z :=
  attach_failed (readline_texts path) ++ sdec err ++ str ")." ++ [10] ++
  str "  Check the symbol exists:  nm -D " ++ path ++ str " | grep ' readline'" ++ [10].

(** The answer of the attachment is zero, or [-errno] when there is no link.
    [ring_buffer__free] and [bpf_link__destroy] do nothing with NULL. *)
Definition readline_prog (path : list Z) (garbage : Z) (fuel : nat) : prog LC Z :=
  let! skel := sys LOpenLoad in
  if negb skel then sys (LErr (str "Failed to open/load BPF skeleton" ++ [10])) ;! Ret 1 else
  let! err := sys LAttach in
  let! err :=
    if negb (err =? 0) then sys (LErr (no_symbol path err)) ;! Ret err else
    let! rb := sys LRingNew in
    let! err :=
      if negb rb then sys (LErr (str "Failed to create ring buffer" ++ [10])) ;! Ret 1 else
      print_all (headings (readline_texts path)) ;!
      let! err := iter fuel poll_once garbage in
      sys (LPrint bye) ;!
      sys LRingFree ;!
      Ret err in
    sys LLinkDestroy ;!
    Ret err in
  sys LDestroy ;!
  Ret (exit_status err).

(** ** Against [Loader] *)

Lemma wp_readline_prog path garbage fuel :
  wp recorder false (readline_prog path garbage fuel) (λ st o, st = (main_15 garbage o).1) no_outcome.
Proof.
  unfold readline_prog. apply wp_bind. cbn [sys wp]. intros ok _. cbn in ok. cbn [recorder accept note ev].
  destruct ok; cbn [negb]; [|apply wp_bind; cbn; by intros u _].
  apply wp_bind. cbn [sys wp]. intros rc _. cbn in rc. cbn [recorder accept note ev]. apply wp_bind.
  destruct (Z.eqb_spec rc 0) as [->|Hrc]; cbn [negb].
  2: { apply wp_bind. cbn. intros u _ u' _. unfold main_15. cbn. by apply Z.eqb_neq in Hrc as ->. }
  apply wp_bind. cbn [sys wp]. intros rb _. cbn in rb. cbn [recorder accept note ev]. apply wp_bind.
  destruct rb; cbn [negb].
  2: { apply wp_bind. cbn. by intros u _ u' _ u'' _. }
  apply wp_bind. unfold print_all. apply wp_for_each_keep; [intros l u; cbn; by intros _ _|]. intros u.
  apply wp_bind. eapply wp_mono; [by apply wp_poll_loop|]. intros err o [-> ->].
  apply wp_bind. cbn. intros u1 _ u2 _ u3 _ u4 _. done.
Qed.

(** ** Resources *)

Inductive res := RSkel | RLink | RRing.

#[export] Instance res_eq_dec : EqDecision res.
Proof. solve_decision. Defined.

(** The link belongs to the program. *)
Definition link_effect (e : event LC) : list (act res) :=
  match e with
  | existT c r =>
      match c as c' return SnoopRun.ans c' → list (act res) with
      | LOpenLoad => λ ok : bool, if ok then [Acquire RSkel] else []
      | LAttach => λ rc : Z, Use RSkel :: if rc =? 0 then [Acquire RLink] else []
      | LRingNew => λ ok : bool, Use RSkel :: if ok then [Acquire RRing] else []
      | LRingPoll => λ _, [Use RRing; Use RSkel]
      | LRingFree => λ _, [Release RRing]
      | LLinkDestroy => λ _, [Use RSkel; Release RLink]
      | LDestroy => λ _, [Release RSkel]
      | _ => λ _, []
      end r
  end.

Ltac eval_link r H :=
  clear H; cbn [accept holder link_effect ev];
  repeat match goal with
    | |- context [if ?b then [Acquire _] else _] => wp_cases b
    end;
  match goal with
  | |- context [do_acts ?h ?l] => let v := eval vm_compute in (do_acts h l) in change (do_acts h l) with v
  end; cbv iota.

Lemma readline_prog_held path garbage fuel :
  wp (holder link_effect) false (readline_prog path garbage fuel) (λ _ h, h = []) [].
Proof.
  unfold readline_prog, print_all, poll_once.
  repeat first [wp_next eval_link | apply wp_iter_keep; intros ? | apply wp_for_each_keep; intros]; done.
Qed.

(** ** Sessions *)

(** How many records the ring holds. *)
Definition SLOTS_15 : nat := ring_slots RING_BYTES 220.

Example readline_slots : SLOTS_15 = 1129%nat.
Proof. vm_compute. reflexivity. Qed.

(** readline returns to the task [cur]. *)
Record typed := mk_typed { t_cur : task; t_ret : Z }.

Section world.
  Context `{!UserMem} {R : Type} `{!Ringbuf R BashReadline.event, !RingReader R}.

Definition typed_fire (r : R) (h : typed) : R := bash_readline (t_cur h) (t_ret h) r.

Definition readline_snooper : Snooper R typed BashReadline.event () := direct_snooper typed_fire readline_line.

(** The line of a command: none at the end of the input, for an empty line,
    and when it cannot be read. *)
Definition typed_lines (h : typed) : list (list Z) :=
  if t_ret h =? 0 then [] else
  match user_str (t_ret h) with
  | Some (c :: l) =>
      [rpad 8 (dec (current_pid (t_cur h))) ++ str " " ++ rpad 16 (cstr (comm (t_cur h))) ++ str " " ++ take 199 (c :: l) ++ [10]]
  | _ => []
  end.
End world.

Section proof.
  Context `{!UserMem, !UserMemLaws} {R : Type} `{!Ringbuf R BashReadline.event, !RingReader R}.
  Context `{!RingReaderLaws R BashReadline.event SLOTS_15}.
  Hypothesis room : ∀ (r r' : R) d, ringbuf_reserve r = Some (d, r') → length (e_line d) = MAX_LINE.

Lemma typed_records (r : R) h :
  ∃ es, ringbuf_records (typed_fire r h) = ringbuf_records r ++ es
  ∧ readline_line <$> es = if ring_ready r then typed_lines h else [].
Proof.
  pose proof (readline_cases (t_cur h) (t_ret h) r (λ d r', room r r' d)) as Hc. fold (typed_fire r h) in Hc.
  unfold typed_lines, ring_ready. destruct (Z.eqb_spec (t_ret h) 0) as [Hz|Hz].
  { exists []. unfold typed_fire, bash_readline. rewrite Hz, app_nil_r. split; [done|]. by destruct (ringbuf_reserve r). }
  assert (Hnone : ringbuf_records (typed_fire r h) = ringbuf_records r →
    match ringbuf_reserve r with Some _ => match user_str (t_ret h) with Some (_ :: _) => False | _ => True end | None => True end →
    ∃ es, ringbuf_records (typed_fire r h) = ringbuf_records r ++ es
    ∧ readline_line <$> es = if match ringbuf_reserve r with Some _ => true | None => false end then
        match user_str (t_ret h) with
        | Some (c :: l) => [rpad 8 (dec (current_pid (t_cur h))) ++ str " " ++ rpad 16 (cstr (comm (t_cur h))) ++ str " " ++ take 199 (c :: l) ++ [10]]
        | _ => []
        end else []).
  { intros Hr Hm. exists []. rewrite app_nil_r. split; [done|]. by repeat case_match. }
  destruct (user_str (t_ret h)) as [[|c l]|], (ringbuf_reserve r) as [[d r']|]; try by apply Hnone.
  destruct (Hc Hz) as (e & He & Hp & Hm & Hl). exists [e]. split; [done|]. cbn. unfold readline_line. by rewrite Hp, Hm, Hl.
Qed.

Lemma typed_unread (r : R) h : (ring_unread (typed_fire r h) ≤ ring_unread r + 1)%nat.
Proof.
  unfold typed_fire, bash_readline. destruct (t_ret h =? 0); [lia|]. destruct (ringbuf_reserve r) as [[d r']|] eqn:Hr; [|lia].
  pose proof (ring_reserve_unread (slots := SLOTS_15) _ _ _ Hr). destruct (probe_read_user_str _ _ _) as [n line].
  destruct (n <=? 1); etrans; [apply (ring_discard_unread (slots := SLOTS_15))|lia|apply (ring_submit_unread (slots := SLOTS_15))|lia].
Qed.

Lemma typed_adds (r : R) h : ∃ es, ringbuf_records (typed_fire r h) = ringbuf_records r ++ es.
Proof. destruct (typed_records r h) as (es & He & _). by exists es. Qed.

Lemma typed_fire_lines (r : R) h es :
  True → ringbuf_records (typed_fire r h) = ringbuf_records r ++ es →
  readline_line <$> es = if ring_ready r then typed_lines h else [].
Proof. intros _ He. destruct (typed_records r h) as (es' & He' & <-). rewrite He in He'. by apply app_inv_head in He' as ->. Qed.
End proof.

(** ** Theorems *)

(** Whatever the environment answers, the loaders of chapters 7 to 13 and 20
    (with any texts) and that of chapter 15 use and release only what they
    hold, in every moment of every run; when they exit they hold nothing,
    and their exit status is the one of Loader. *)
Theorem snoop_loaders_release (t : texts) (path : list Z) (garbage : Z) (fuel : nat) (tr : list (event LC)) (o : option Z) :
  (exec (snoop_prog t fuel) tr o →
   ∃ h, held SnoopRun.effect [] tr = Some h
   ∧ ∀ st, o = Some st → h = [] ∧ st = (snoop_main (foldl note no_outcome tr)).1)
  ∧ (exec (readline_prog path garbage fuel) tr o →
   ∃ h, held link_effect [] tr = Some h
   ∧ ∀ st, o = Some st → h = [] ∧ st = (main_15 garbage (foldl note no_outcome tr)).1).
Proof.
  split; intros He.
  - destruct (exec_held _ _ _ _ _ _ (snoop_prog_held t fuel) He) as (h & Hh & Ho). exists h. split; [done|].
    intros st ->. split; [done|]. by apply (snoop_prog_status t fuel).
  - destruct (exec_held _ _ _ _ _ _ (readline_prog_held path garbage fuel) He) as (h & Hh & Ho). exists h. split; [done|].
    intros st ->. split; [done|].
    destruct (exec_wp recorder false _ _ _ _ He no_outcome (wp_readline_prog path garbage fuel) (assumed_recorder _ _)) as (o & Hw & Hst).
    rewrite watch_recorder in Hw. by injection Hw as <-.
Qed.

(** [C18] A session of chapter 15: the program prints its headings, with the
    path of the shell, and then one line for each command typed at any of its
    prompts, in order, with the task and the first 199 bytes; nothing for the
    end of the input and for empty lines; and its farewell; then it exits
    with 0, detached.  Exactly the commands that found the ring full are
    missing: none, while not more than 1129 lines are typed between two
    polls. *)
Theorem readline_session `{!UserMem, !UserMemLaws} {R} `{!Ringbuf R BashReadline.event, !RingReader R}
    `{!RingReaderLaws R BashReadline.event SLOTS_15}
    (path : list Z) (garbage : Z) (r : R) (starting : list typed) (batches : list (list typed)) (fuel : nat) :
  (∀ (r r' : R) d, ringbuf_reserve r = Some (d, r') → length (e_line d) = MAX_LINE) →
  ring_unread r = 0%nat → batches ≠ [] → (length batches < fuel)%nat →
  let prints lines := ∃ w',
    Sys.run (reply (S := readline_snooper)) (readline_prog path garbage fuel) (boot (S := readline_snooper) r () starting batches)
      = (Some 0, w')
    ∧ hooked w' = false ∧ screen w' = headings (readline_texts path) ++ lines ++ [bye] in
  let rooms := session_rooms (S := readline_snooper) r starting batches in
  prints (kept_lines (λ _, typed_lines) rooms [] (starting ++ concat batches))
  ∧ (calm SLOTS_15 starting batches → prints (concat (typed_lines <$> starting ++ concat batches))).
Proof.
  intros Hroom Hu0 Hne Hf prints rooms.
  assert (Hk : prints (kept_lines (λ _, typed_lines) rooms [] (starting ++ concat batches))).
  { destruct (run_polled (S := readline_snooper) (SnooperLaws0 := direct_laws (slots := SLOTS_15) _ _ (typed_adds Hroom))
      (headings (readline_texts path)) r () starting batches fuel garbage Hne Hf) as (es & w1 & err & He & Hes & Hrun & Hs).
    eexists. split; [|split].
    - unfold readline_prog. cbn -[readline_texts]. rewrite !run_bind, run_print_all. cbn -[readline_texts]. rewrite run_bind.
      match type of Hrun with ?L = _ => match goal with |- context [Sys.run ?f (iter ?n ?b ?x) ?w] =>
        change (Sys.run f (iter n b x) w) with L end end.
      rewrite Hrun. cbn. unfold exit_status. destruct (Z.ltb_spec err 0); [lia|]. reflexivity.
    - done.
    - cbn -[readline_texts]. rewrite Hs, <- app_assoc. do 2 f_equal.
      by apply (direct_kept (slots := SLOTS_15) _ _ (λ _, True) _ (typed_adds Hroom) (typed_fire_lines Hroom)); [apply Forall_true|]. }
  split; [done|]. intros Hcalm.
  rewrite <- (direct_calm (slots := SLOTS_15) _ readline_line typed_lines typed_unread r) by done. exact Hk.
Qed.

(** ** Witnesses *)

Notation ex_ring := (sized_ringbuf SLOTS_15 BashReadline.ex_dirt).

(** A shell reads "ls -l"; the user gives no path. *)
Lemma readline_session_witness :
  ∃ w', Sys.run (reply (S := @readline_snooper BashReadline.ex_mem _ ex_ring sized_reader))
      (readline_prog (bash_path [str "bashreadline"]) (-7) 2)
      (boot (S := @readline_snooper BashReadline.ex_mem _ ex_ring sized_reader) ([], 0%nat) () []
        [[mk_typed BashReadline.ex_cur 4096; mk_typed BashReadline.ex_cur 0]])
    = (Some 0, w')
  ∧ screen w' = [str "Tracing /usr/bin/bash:readline — type commands in another bash. Ctrl-C to stop." ++ [10];
                 str "PID      COMM             COMMAND" ++ [10]; str "42       bash             ls -l" ++ [10]; bye].
Proof.
  destruct (@readline_session BashReadline.ex_mem (gmap_user_mem_laws _) _ ex_ring sized_reader (sized_ring_laws _ _)
    (bash_path [str "bashreadline"]) (-7) ([], 0%nat) [] [[mk_typed BashReadline.ex_cur 4096; mk_typed BashReadline.ex_cur 0]] 2) as [_ Hcalm].
  - intros r r' d ->%sized_dirt. reflexivity.
  - reflexivity.
  - discriminate.
  - simpl. lia.
  - destruct Hcalm as (w' & Hr & _ & Hs); [constructor; [apply Nat.leb_le; vm_compute; reflexivity|constructor]|].
    exists w'. split; [exact Hr|]. rewrite Hs. vm_compute. reflexivity.
Defined.

(** Stopped before the first poll, chapter 15 returns what was on the stack. *)
Example readline_unset :
  (Sys.run (reply (S := @readline_snooper BashReadline.ex_mem _ ex_ring sized_reader)) (readline_prog DEFAULT_BASH (-7) 2)
    (boot (S := @readline_snooper BashReadline.ex_mem _ ex_ring sized_reader) ([], 0%nat) () [] [])).1 = Some 1.
Proof. vm_compute. reflexivity. Qed.
