(* ===== verification/ArgvRace.v ===== *)
(** * ArgvRace: concurrent execves (chapter 8)

    On a machine with several CPUs the records of different execves
    interleave in the ring.  Here each execve is a thread of its own, and one
    step is one round of the loop of [ArgvSnoop.trace_execve] or its end: it
    reserves, fills and submits one record.  (The ring orders records by
    reservation, so that a record may be filled while others are reserved
    makes no difference.)  A schedule is the list of the threads that make
    the steps.

    The theorems: the steps of one thread are [trace_execve]; and over a whole
    session, whatever the schedule, the loader prints the complete command
    line of each execve when its end marker arrives, as long as those that
    overlap fall into different slots of its table. *)

From stdpp Require Import prelude gmap list strings.
From Stdlib Require Import ZArith Lia.
From S2P Require Import Prelude.
From S2P Require Import Kernel.
From S2P Require Import Printf.
From S2P Require Import ArgvSnoop.
From S2P Require Import Sys.
From S2P Require Import SnoopRun.
From S2P Require Import SnoopSessions.

(** Where a thread is: before the argument [i], or past the hook. *)
Inductive pc := Arg (i : nat) | Returned.

Section threads.
  Context `{!UserMem} {R : Type} `{!Ringbuf R ArgvSnoop.event, !RingReader R}.

(** One round of the loop, or the end marker. *)
Definition exec_step (x : execve) (i : nat) (r : R) : pc * R :=
  let pid := current_pid (x_cur x) in
  let uid := current_uid (x_cur x) in
  if (i <? MAXARGS)%nat && negb (x_argp x i =? 0) then
    match ringbuf_reserve r with
    | None => (Returned, r)
    | Some (e, r) =>
        let arg := (probe_read_user_str (x_argp x i) ARGSIZE (e_arg e)).2 in
        (Arg (S i), ringbuf_submit r (ArgvSnoop.mk_event pid uid (comm (x_cur x)) EVENT_ARG arg))
    end
  else
    match ringbuf_reserve r with
    | None => (Returned, r)
    | Some (ret, r) =>
        (Returned, ringbuf_submit r (ArgvSnoop.mk_event pid uid (comm (x_cur x)) EVENT_RET (<[0%nat := 0]> (e_arg ret))))
    end.

(** The threads share the ring. *)
Record threads := mk_threads { ring : R; pcs : list (execve * pc) }.

Definition thread_step (s : threads) (j : nat) : threads :=
  match pcs s !! j with
  | Some (x, Arg i) => let '(p, r) := exec_step x i (ring s) in mk_threads r (<[j := (x, p)]> (pcs s))
  | _ => s
  end.

(** All of [xs] have just been called. *)
Definition called (xs : list execve) (r : R) : threads := mk_threads r ((λ x, (x, Arg 0)) <$> xs).

Definition race_snooper : Snooper threads nat ArgvSnoop.event (list ArgvSnoop.pending) := {|
  snoop_fire := thread_step;
  snoop_records s := ringbuf_records (ring s);
  snoop_consumed s := mk_threads (ring_consumed (ring s)) (pcs s);
  snoop_ready s j := match pcs s !! j with Some (_, Arg _) => ring_ready (ring s) | _ => true end;
  snoop_callback := argv_callback;
|}.

(** A thread on its own. *)
Fixpoint alone (n : nat) (x : execve) (p : pc) (r : R) : R :=
  match n, p with
  | S n, Arg i => let '(p, r) := exec_step x i r in alone n x p r
  | _, _ => r
  end.

Lemma alone_returned n x r : alone n x Returned r = r.
Proof. by destruct n. Qed.

(** It does what the hook does. *)
Lemma alone_sends x n : ∀ i r,
  (i + n = MAXARGS)%nat →
  alone (S n) x (Arg i) r
  = let '(more, r) := send_args (x_argp x) n i (current_pid (x_cur x)) (current_uid (x_cur x)) (comm (x_cur x)) r in
    if negb more then r else
    match ringbuf_reserve r with
    | None => r
    | Some (ret, r) =>
        ringbuf_submit r (ArgvSnoop.mk_event (current_pid (x_cur x)) (current_uid (x_cur x)) (comm (x_cur x)) EVENT_RET
          (<[0%nat := 0]> (e_arg ret)))
    end.
Proof.
  induction n as [|n IH]; intros i r Hi.
  - cbn [alone send_args negb]. unfold exec_step. destruct (Nat.ltb_spec i MAXARGS); [lia|]. cbn [andb].
    by destruct (ringbuf_reserve r) as [[]|].
  - set (m := S n). cbn [alone]. unfold exec_step at 1. destruct (Nat.ltb_spec i MAXARGS); [|lia]. cbn [andb]. subst m. cbn [send_args].
    destruct (x_argp x i =? 0); cbn [negb].
    + by destruct (ringbuf_reserve r) as [[]|].
    + destruct (ringbuf_reserve r) as [[e r']|]; [|done]. apply IH. lia.
Qed.

(** The hook of [ArgvSnoop] is the case without interleaving. *)
Theorem alone_is_trace_execve (x : execve) (r : R) : alone (S MAXARGS) x (Arg 0) r = argv_fire r x.
Proof. by apply alone_sends. Qed.
End threads.
Arguments threads : clear implicits.

(** ** Specification *)

(** How many steps thread [j] has made. *)
Definition steps (j : nat) (hist : list nat) : nat := length (bfilter (Nat.eqb j) hist).

(** How many arguments it sends; one step more and it has returned. *)
Definition nargs (x : execve) : nat := Nat.min MAXARGS (length (x_args x)).

(** It has sent an argument and not its end marker. *)
Definition flying (hist : list nat) (j : nat) (x : execve) : Prop := (0 < steps j hist ≤ nargs x)%nat.

Definition slot_of (x : execve) : nat := get_slot (current_pid (x_cur x)).

Section spec.
  Variable xs : list execve.

(** The end marker of an execve prints its line. *)
Definition race_spec (hist : list nat) (j : nat) : list (list Z) :=
  match xs !! j with
  | Some x => if (steps j hist =? nargs x)%nat then command_lines x else []
  | None => []
  end.

(** Whenever a thread makes a step, the others that are under way have
    other slots. *)
Definition apart (sched : list nat) : Prop :=
  ∀ hist i rest j x y,
    sched = hist ++ i :: rest → xs !! i = Some x → xs !! j = Some y → j ≠ i → flying hist j y → slot_of y ≠ slot_of x.
End spec.

(** ** Lemmas *)

Lemma steps_snoc j hist i : steps j (hist ++ [i]) = (steps j hist + if (j =? i)%nat then 1 else 0)%nat.
Proof. unfold steps. rewrite bfilter_app, length_app. cbn [bfilter]. by destruct (j =? i)%nat. Qed.

Lemma steps_self j hist : steps j (hist ++ [j]) = S (steps j hist).
Proof. rewrite steps_snoc, Nat.eqb_refl. lia. Qed.

Lemma steps_other j hist i : j ≠ i → steps j (hist ++ [i]) = steps j hist.
Proof. intros Hne%Nat.eqb_neq. rewrite steps_snoc, Hne. lia. Qed.

Section race.
  Context `{!UserMem, !UserMemLaws} {R : Type} `{!Ringbuf R ArgvSnoop.event, !RingReader R}.
  Context `{!RingReaderLaws R ArgvSnoop.event SLOTS_08}.
  Variable xs : list execve.
  Hypothesis room : arg_room (R := R).
  Hypothesis vectors : Forall (λ x, is_vector (x_argp x) (x_args x)) xs.

(** The program counters after a schedule that always found room. *)
Definition pc_at (n : nat) (x : execve) : pc := if (n <=? nargs x)%nat then Arg n else Returned.

Definition placed (hist : list nat) (s : threads R) : Prop := pcs s = imap (λ j x, (x, pc_at (steps j hist) x)) xs.

Lemma apart_prefix sched sched' : apart xs (sched ++ sched') → apart xs sched.
Proof. intros Ha hist i rest j x y ->. rewrite <- app_assoc in Ha. by apply (Ha hist i (rest ++ sched')). Qed.

Lemma placed_lookup hist s j : placed hist s → pcs s !! j = (λ x, (x, pc_at (steps j hist) x)) <$> xs !! j.
Proof. intros ->. by rewrite list_lookup_imap. Qed.

(** A step of a thread that has not returned. *)
Lemma exec_step_cases x i r :
  is_vector (x_argp x) (x_args x) → (i ≤ nargs x)%nat → ring_ready r = true →
  (∃ a rec r', (i < nargs x)%nat ∧ x_args x !! i = Some a ∧ arg_record a rec
     ∧ exec_step x i r = (Arg (S i), r') ∧ ringbuf_records r' = ringbuf_records r ++ [arg_event (command_of x) rec])
  ∨ (∃ d r', i = nargs x ∧ exec_step x i r = (Returned, r')
     ∧ ringbuf_records r' = ringbuf_records r ++ [ArgvSnoop.mk_event (current_pid (x_cur x)) (current_uid (x_cur x)) (comm (x_cur x)) EVENT_RET d]).
Proof.
  intros [Hv Hend] Hi Hr. unfold ring_ready in Hr. destruct (ringbuf_reserve r) as [[e r']|] eqn:He; [|done].
  pose proof (ringbuf_reserve_records _ _ _ He) as Hrec. unfold exec_step. rewrite He. unfold nargs in *.
  destruct (Nat.eq_dec i (Nat.min MAXARGS (length (x_args x)))) as [->|Hne].
  - right. assert (((Nat.min MAXARGS (length (x_args x)) <? MAXARGS)%nat && negb (x_argp x (Nat.min MAXARGS (length (x_args x))) =? 0)) = false) as ->.
    { destruct (Nat.le_gt_cases MAXARGS (length (x_args x))).
      - rewrite Nat.min_l by done. by rewrite Nat.ltb_irrefl.
      - rewrite Nat.min_r by lia. destruct Hend as [->|?]; [|lia]. by rewrite andb_false_r. }
    eexists _, _. split; [done|]. split; [done|]. by rewrite ringbuf_submit_records, Hrec.
  - left. assert (Hl : (i < length (x_args x))%nat) by lia. apply lookup_lt_is_Some_2 in Hl as [a Ha].
    destruct (Hv i a Ha) as [Hnz%Z.eqb_neq Hs]. rewrite (proj2 (Nat.ltb_lt i MAXARGS)), Hnz by lia. cbn [negb andb].
    eexists a, _, _. split; [lia|]. split; [done|]. split; [eapply read_arg; [exact Hs|exact (room _ _ _ He)]|]. split; [done|].
    by rewrite ringbuf_submit_records, Hrec.
Qed.

Lemma steps_placed hist s j x p r :
  placed hist s → xs !! j = Some x → p = pc_at (S (steps j hist)) x → placed (hist ++ [j]) (mk_threads r (<[j := (x, p)]> (pcs s))).
Proof.
  intros Hs Hx ->. unfold placed. cbn [pcs]. apply list_eq. intros k. rewrite list_lookup_imap.
  assert (Hl : (j < length (pcs s))%nat) by (rewrite Hs, length_imap; by eapply lookup_lt_Some).
  destruct (Nat.eq_dec k j) as [->|Hne].
  - rewrite list_lookup_insert_eq, Hx by done. cbn. by rewrite steps_self.
  - rewrite list_lookup_insert_ne, (placed_lookup hist) by done. by rewrite steps_other.
Qed.
(** The table of the loader: the slot of a thread under way holds what it
    sent, and all other slots are free. *)
Record tables (hist : list nat) (table : list ArgvSnoop.pending) : Prop := mk_tables {
  tb_length : length table = Z.to_nat TABLE_SIZE;
  tb_flying : ∀ j x, xs !! j = Some x → flying hist j x →
    ∃ p, table !! slot_of x = Some p ∧ mid (command_of x) (take (steps j hist) (x_args x)) p;
  tb_free : ∀ sl p, table !! sl = Some p → (∀ j x, xs !! j = Some x → flying hist j x → slot_of x ≠ sl) → active p = false;
}.

Lemma slot_lookup hist table x : tables hist table → ∃ p, table !! slot_of x = Some p.
Proof. intros Ht. apply lookup_lt_is_Some_2. rewrite (tb_length _ _ Ht). apply get_slot_lt. Qed.

(** The others are elsewhere. *)
Definition alone_in_slot (hist : list nat) (j : nat) (x : execve) : Prop :=
  ∀ k y, xs !! k = Some y → k ≠ j → flying hist k y → slot_of y ≠ slot_of x.

Lemma slot_free hist table j x p :
  tables hist table → xs !! j = Some x → alone_in_slot hist j x → ¬ flying hist j x → table !! slot_of x = Some p → active p = false.
Proof.
  intros Ht Hx Ha Hnf Hp. eapply (tb_free _ _ Ht); [exact Hp|]. intros k y Hy Hf.
  destruct (Nat.eq_dec k j) as [->|Hne]; [|by apply (Ha k y)]. rewrite Hx in Hy. by injection Hy as <-.
Qed.

(** A step of thread [j] changes its slot. *)
Lemma tables_step hist table j x q :
  tables hist table → xs !! j = Some x → alone_in_slot hist j x →
  (flying (hist ++ [j]) j x → mid (command_of x) (take (S (steps j hist)) (x_args x)) q) →
  (¬ flying (hist ++ [j]) j x → active q = false) →
  tables (hist ++ [j]) (<[slot_of x := q]> table).
Proof.
  intros Ht Hx Ha Hmid Hfree. destruct (slot_lookup hist table x Ht) as [p0 Hp0]. pose proof (lookup_lt_Some _ _ _ Hp0) as Hl. split.
  - rewrite length_insert. apply Ht.
  - intros k y Hy Hf. destruct (Nat.eq_dec k j) as [->|Hne].
    + rewrite Hx in Hy. injection Hy as <-. exists q. rewrite list_lookup_insert_eq by done. split; [done|].
      rewrite steps_self. by apply Hmid.
    + assert (Hf' : flying hist k y) by (by unfold flying in *; rewrite steps_other in Hf by done).
      rewrite steps_other by done. rewrite list_lookup_insert_ne by (by apply not_eq_sym, (Ha k y)). by apply (tb_flying _ _ Ht).
  - intros sl p Hp Hno. destruct (Nat.eq_dec sl (slot_of x)) as [->|Hne].
    + rewrite list_lookup_insert_eq in Hp by done. injection Hp as <-. apply Hfree. intros Hf. by apply (Hno j x).
    + rewrite list_lookup_insert_ne in Hp by done. eapply (tb_free _ _ Ht); [exact Hp|]. intros k y Hy Hf.
      destruct (Nat.eq_dec k j) as [->|Hnk]; [rewrite Hx in Hy; injection Hy as <-; by apply not_eq_sym|].
      apply (Hno k y Hy). unfold flying. by rewrite steps_other.
Qed.

Lemma handle_slot_event table e x p :
  ArgvSnoop.e_pid e = current_pid (x_cur x) → table !! slot_of x = Some p →
  callbacks (S := race_snooper (R := R)) table [e]
  = (<[slot_of x := (handle_slot e p).1]> table, argv_text <$> (handle_slot e p).2).
Proof.
  intros He Hp. cbn [callbacks snoop_callback race_snooper]. unfold argv_callback, ArgvSnoop.handle_event. rewrite He.
  unfold slot_of in *. rewrite Hp. destruct (handle_slot e p) as [q out]. cbn [fst snd]. by rewrite app_nil_r.
Qed.

(** An argument arrives. *)
Lemma arg_arrives hist table j x a rec :
  tables hist table → xs !! j = Some x → alone_in_slot hist j x →
  (steps j hist < nargs x)%nat → x_args x !! steps j hist = Some a → arg_record a rec →
  ∃ table', callbacks (S := race_snooper (R := R)) table [arg_event (command_of x) rec] = (table', []) ∧ tables (hist ++ [j]) table'.
Proof.
  intros Ht Hx Ha Hn Hat Hrec. destruct (slot_lookup hist table x Ht) as [p Hp].
  rewrite (handle_slot_event table _ x p) by done.
  change (handle_slot (arg_event (command_of x) rec) p) with (add_arg (arg_event (command_of x) rec) p, [] : list line). cbn [fst snd].
  eexists. split; [done|]. apply tables_step; try done.
  2: { unfold flying. rewrite steps_self. intros []. lia. }
  intros _. erewrite take_S_r by exact Hat. destruct (steps j hist) as [|n] eqn:Hs.
  - cbn [take app]. apply first_arg; [|done]. left. eapply slot_free; try done. unfold flying. lia.
  - destruct (tb_flying _ _ Ht j x Hx) as (p' & Hp' & Hm); [unfold flying; lia|]. rewrite Hp in Hp'. injection Hp' as <-.
    rewrite Hs in Hm. apply store_arg; [done| |done]. rewrite length_take. unfold nargs in Hn. lia.
Qed.

(** The end marker arrives. *)
Lemma end_arrives hist table j x d :
  tables hist table → xs !! j = Some x → alone_in_slot hist j x → steps j hist = nargs x →
  ∃ table', callbacks (S := race_snooper (R := R)) table
      [ArgvSnoop.mk_event (current_pid (x_cur x)) (current_uid (x_cur x)) (comm (x_cur x)) EVENT_RET d]
    = (table', command_lines x) ∧ tables (hist ++ [j]) table'.
Proof.
  intros Ht Hx Ha Hn. destruct (slot_lookup hist table x Ht) as [p Hp].
  rewrite (handle_slot_event table _ x p) by done. cbn [handle_slot ArgvSnoop.e_type]. unfold end_cmd. cbn [ArgvSnoop.e_pid].
  assert (Hnf : ¬ flying (hist ++ [j]) j x) by (unfold flying; rewrite steps_self; lia).
  destruct (Nat.eq_dec (nargs x) 0) as [Hz|Hpos].
  - assert (Hi : active p = false) by (eapply slot_free; try done; unfold flying; lia). rewrite Hi. cbn [negb orb fst snd].
    eexists. split; [|apply tables_step; done]. unfold command_lines. unfold nargs, MAXARGS in Hz. by destruct (x_args x).
  - destruct (tb_flying _ _ Ht j x Hx) as (p' & Hp' & Hm); [unfold flying; lia|]. rewrite Hp in Hp'. injection Hp' as <-.
    rewrite (mid_active _ _ _ Hm), (mid_pid _ _ _ Hm). cbn [c_pid command_of]. rewrite Z.eqb_refl. cbn [negb orb fst snd].
    refine (ex_intro _ _ (conj (f_equal2 pair eq_refl _) _)); [|by apply tables_step]. unfold command_lines.
    assert (Htk : take (steps j hist) (x_args x) = take MAXARGS (x_args x)).
    { rewrite Hn. unfold nargs. by rewrite <- take_take, (take_ge (x_args x) (length (x_args x))). }
    destruct (x_args x) as [|a0 args] eqn:Hxa; [by unfold nargs in Hpos; rewrite Hxa in Hpos|].
    cbn [fmap list_fmap]. f_equal. unfold command_line, command_of. cbn [c_pid c_uid c_comm c_args]. rewrite Hxa.
    rewrite (mid_uid _ _ _ Hm), (mid_comm _ _ _ Hm), (mid_argv _ _ _ Hm). cbn [c_uid c_comm command_of]. by rewrite <- Htk.
Qed.
Lemma race_laws : @SnooperLaws _ _ _ _ (race_snooper (R := R)).
Proof.
  split; cbn; [|intros st; apply (ring_consumed_records (slots := SLOTS_08))]. intros st j. unfold thread_step.
  destruct (pcs st !! j) as [[x [i|]]|]; try (exists []; by rewrite app_nil_r). unfold exec_step.
  destruct ((i <? MAXARGS)%nat && _); (destruct (ringbuf_reserve (ring st)) as [[e r]|] eqn:He; cbn [ring]; [|exists []; by rewrite app_nil_r]);
    eexists; by rewrite ringbuf_submit_records, (ringbuf_reserve_records _ _ _ He).
Qed.

Lemma race_unread (st : threads R) j : (ring_unread (ring (thread_step st j)) ≤ ring_unread (ring st) + 1)%nat.
Proof.
  unfold thread_step. destruct (pcs st !! j) as [[x [i|]]|]; try lia. unfold exec_step.
  destruct ((i <? MAXARGS)%nat && _); (destruct (ringbuf_reserve (ring st)) as [[e r]|] eqn:He; cbn [ring]; [|lia]);
    pose proof (ring_reserve_unread (slots := SLOTS_08) _ _ _ He); (etrans; [apply (ring_submit_unread (slots := SLOTS_08))|lia]).
Qed.

(** One step of the session. *)
Lemma race_fire hist j (st : threads R) :
  apart xs (hist ++ [j]) → placed hist st → snoop_ready (Snooper := race_snooper) st j = true →
  ∃ es, ringbuf_records (ring (thread_step st j)) = ringbuf_records (ring st) ++ es ∧ placed (hist ++ [j]) (thread_step st j)
  ∧ ∀ table, tables hist table →
      (callbacks (S := race_snooper (R := R)) table es).2 = race_spec xs hist j
      ∧ tables (hist ++ [j]) (callbacks (S := race_snooper (R := R)) table es).1.
Proof.
  intros Hap Hpl. cbn [snoop_ready race_snooper]. unfold thread_step, race_spec. rewrite (placed_lookup hist) by done.
  destruct (xs !! j) as [x|] eqn:Hx; cbn [fmap option_fmap option_map].
  2: { intros _. exists []. rewrite app_nil_r. split; [done|]. split.
       - unfold placed. rewrite Hpl. apply list_eq. intros k. rewrite !list_lookup_imap. destruct (Nat.eq_dec k j) as [->|Hne]; [by rewrite Hx|].
         by rewrite steps_other.
       - intros table [T1 T2 T3]. split; [done|].
         assert (Hst : ∀ k y, xs !! k = Some y → steps k (hist ++ [j]) = steps k hist)
           by (intros k y Hy; apply steps_other; intros ->; congruence).
         assert (Hfl : ∀ k y, xs !! k = Some y → flying (hist ++ [j]) k y ↔ flying hist k y)
           by (intros k y Hy; unfold flying; by rewrite (Hst k y)).
         split; [done| |].
         + intros k y Hy Hf. rewrite (Hst k y) by done. apply (T2 k y Hy). by apply Hfl.
         + intros sl p Hp Hno. eapply T3; [done|]. intros k y Hy Hf. apply (Hno k y Hy). by apply Hfl. }
  assert (Ha : alone_in_slot hist j x) by (intros k y Hy Hne Hf; by apply (Hap hist j [] k x y)).
  pose proof (Forall_lookup_1 _ _ _ _ vectors Hx) as Hv. cbn in Hv. unfold pc_at.
  destruct (Nat.leb_spec (steps j hist) (nargs x)) as [Hle|Hgt].
  - intros Hr. destruct (exec_step_cases x (steps j hist) (ring st) Hv Hle Hr) as [(a & rec & r' & Hlt & Hat & Hrec & Hes & Hsub)|(d & r' & Heq & Hes & Hsub)];
      rewrite Hes; cbn [ring]; eexists; (split; [exact Hsub|]); (split; [eapply steps_placed; [done|exact Hx|]; unfold pc_at|]).
    + by rewrite (proj2 (Nat.leb_le _ _)) by lia.
    + intros table Ht. destruct (arg_arrives hist table j x a rec) as (t' & -> & Ht'); try done. split; [|done].
      by rewrite (proj2 (Nat.eqb_neq _ _)) by lia.
    + by rewrite (proj2 (Nat.leb_gt _ _)) by lia.
    + intros table Ht. destruct (end_arrives hist table j x d) as (t' & -> & Ht'); try done. split; [|done].
      by rewrite Heq, Nat.eqb_refl.
  - intros _. exists []. rewrite app_nil_r. split; [done|]. split.
    + unfold placed. rewrite Hpl. apply list_eq. intros k. rewrite !list_lookup_imap. destruct (Nat.eq_dec k j) as [->|Hne].
      * rewrite Hx. cbn. do 2 f_equal. unfold pc_at. rewrite steps_self, !(proj2 (Nat.leb_gt _ _)) by lia. done.
      * by rewrite steps_other.
    + intros table Ht. cbn [callbacks fst snd]. rewrite (proj2 (Nat.eqb_neq _ _)) by lia. split; [done|].
      destruct (slot_lookup hist table x Ht) as [p Hp]. rewrite <- (list_insert_id table (slot_of x) p Hp). apply tables_step; try done.
      * intros []. rewrite steps_self in *. lia.
      * intros _. eapply slot_free; try done. unfold flying. lia.
Qed.
End race.

(** *** The order of the lines *)

(** One element of a sum changes. *)
Lemma concat_imap_change {A B} (xs : list A) : ∀ (f g : nat → A → list B) h x l,
  xs !! h = Some x → f h x ≡ₚ g h x ++ l → (∀ k y, k ≠ h → f k y = g k y) → concat (imap f xs) ≡ₚ concat (imap g xs) ++ l.
Proof.
  induction xs as [|y xs IH]; intros f g [|h] x l Hx Hf Heq; [done..| |]; cbn [imap concat].
  - cbn in Hx. injection Hx as ->. rewrite Hf. rewrite (imap_ext (f ∘ S) (g ∘ S)) by (intros k z _; by apply Heq).
    rewrite <- !app_assoc. f_equiv. apply Permutation_app_comm.
  - rewrite (IH (f ∘ S) (g ∘ S) h x l) by (try done; intros k z Hk; apply Heq; lia). rewrite (Heq 0%nat) by lia. by rewrite app_assoc.
Qed.

Section order.
  Variable xs : list execve.

(** The lines of the execves that have ended. *)
Definition ended (hist : list nat) : list (list Z) :=
  concat (imap (λ j x, if (nargs x <? steps j hist)%nat then command_lines x else []) xs).

Lemma ended_snoc hist j : ended (hist ++ [j]) ≡ₚ ended hist ++ race_spec xs hist j.
Proof.
  unfold ended, race_spec. destruct (xs !! j) as [x|] eqn:Hx.
  - apply (concat_imap_change _ _ _ j x); [done| |by intros k y Hne; rewrite steps_other].
    rewrite steps_self. destruct (Nat.ltb_spec (nargs x) (S (steps j hist))), (Nat.ltb_spec (nargs x) (steps j hist)),
      (Nat.eqb_spec (steps j hist) (nargs x)); try lia; by rewrite ?app_nil_r.
  - rewrite app_nil_r. erewrite imap_ext; [done|]. intros k y Hy. cbn. by rewrite steps_other by (intros ->; congruence).
Qed.

Lemma ended_lines hs : ∀ hist, ended (hist ++ hs) ≡ₚ ended hist ++ lines_of (race_spec xs) hist hs.
Proof.
  induction hs as [|h hs IH]; intros hist; cbn [lines_of]; [by rewrite !app_nil_r|].
  by rewrite (cons_middle h hist hs), app_assoc, IH, ended_snoc, <- app_assoc.
Qed.

(** When all have ended, every one has printed its line once. *)
Lemma all_ended hist :
  (∀ j x, xs !! j = Some x → (nargs x < steps j hist)%nat) → lines_of (race_spec xs) [] hist ≡ₚ concat (command_lines <$> xs).
Proof.
  intros He. pose proof (ended_lines hist []) as Hp. cbn [app] in Hp.
  assert (ended [] = []) as H0.
  { unfold ended. rewrite (imap_ext _ (λ _ _, [])) by done. generalize xs. intros l. induction l; [done|]. cbn. done. }
  rewrite H0 in Hp. cbn [app] in Hp. rewrite <- Hp. unfold ended.
  rewrite (imap_ext _ (λ _ x, command_lines x)) by (intros j x Hx; by rewrite (proj2 (Nat.ltb_lt _ _) (He j x Hx))).
  apply reflexive_eq. f_equal. generalize xs. intros l. induction l as [|x l IH]; [done|]. cbn. by rewrite <- IH.
Qed.
End order.

(** ** Theorem *)

(** [C15] A session of chapter 8 on several CPUs: the execves [xs] send their
    records in any interleaving, and the loader prints the whole line of each
    one at the moment its end marker arrives, with all of its arguments and
    no one else's; so when all have ended, each has exactly one line.  That
    holds if those that overlap have different slots (pid modulo 4096), and
    not more than 1560 records come between two polls. *)
Theorem argv_race_session `{!UserMem, !UserMemLaws} {R} `{!Ringbuf R ArgvSnoop.event, !RingReader R}
    `{!RingReaderLaws R ArgvSnoop.event SLOTS_08}
    (r : R) (xs : list execve) (starting : list nat) (batches : list (list nat)) (fuel : nat) :
  ring_unread r = 0%nat → arg_room (R := R) → Forall (λ x, is_vector (x_argp x) (x_args x)) xs →
  apart xs (starting ++ concat batches) → batches ≠ [] → (length batches < fuel)%nat → calm SLOTS_08 starting batches →
  let sched := starting ++ concat batches in
  session_prints (S := race_snooper) texts_08 (called xs r) empty_table starting batches fuel (lines_of (race_spec xs) [] sched)
  ∧ ((∀ j x, xs !! j = Some x → (nargs x < steps j sched)%nat) →
     lines_of (race_spec xs) [] sched ≡ₚ concat (command_lines <$> xs)).
Proof.
  intros Hu Harg Hv Hap Hne Hl Hcalm sched. split; [|apply all_ended].
  assert (Hrooms : Forall (eq true) (session_rooms (S := race_snooper) (called xs r) starting batches)).
  { apply (calm_rooms (S := race_snooper) (λ st, ring_unread (ring st)) SLOTS_08 1 SLOTS_08); try done; cbn.
    - intros st j Hs. destruct (pcs st !! j) as [[? []]|]; try done. apply (ring_room (slots := SLOTS_08)). lia.
    - apply race_unread.
    - intros st. apply (ring_consumed_unread (slots := SLOTS_08)). }
  unfold sched. rewrite <- (kept_session (S := race_snooper) _ (called xs r)) by done.
  destruct (session_allowed (S := race_snooper) (SnooperLaws0 := race_laws) (apart xs) (placed xs) (tables xs)
    (λ room hist j o, o = if room : bool then race_spec xs hist j else []) True)
    with texts_08 (called xs r) empty_table starting batches fuel as (out & Hp & ->%all_kept); try done.
  - apply apart_prefix.
  - intros hist j st Ha Hpl Hq. specialize (Hq I). cbn [snoop_records snoop_fire race_snooper].
    destruct (race_fire xs Harg Hv hist j st Ha Hpl Hq) as (es & H1 & H2 & H3). exists es. split; [done|]. split; [done|].
    intros table Ht. destruct (H3 table Ht) as [-> Ht']. by rewrite Hq.
  - unfold placed, called. cbn [pcs]. apply list_eq. intros k. rewrite list_lookup_imap, list_lookup_fmap.
    destruct (xs !! k); [|done]. cbn. done.
  - split; [done| |].
    + intros j x _ []. cbn in *. lia.
    + intros sl p Hs%lookup_replicate _. by destruct Hs as [-> _].
Qed.

(** ** Witness *)

(** "ls -l" of process 5000 and "ls" of process 7001, interleaved record by
    record. *)
Definition ex_sh : task := mk_task (7001 * 2 ^ 32) 0 (str "sh" ++ replicate 14 0).
Definition ex_ls_other : execve := mk_execve ex_sh (λ i, match i with O => ex_argp O | _ => 0 end) [str "ls"].
Definition ex_xs : list execve := [ex_ls_call; ex_ls_other].

Lemma ex_apart : apart ex_xs [0; 1; 0; 1; 0]%nat.
Proof.
  intros hist i rest j x y _ Hx Hy Hne _.
  assert (Hs : ∀ k z, ex_xs !! k = Some z → slot_of z = match k with O => 904%nat | _ => 2905%nat end)
    by (intros [|[|k]] z; cbn; intros [= <-]; vm_compute; reflexivity).
  rewrite (Hs _ _ Hx), (Hs _ _ Hy).
  destruct i as [|[|i]], j as [|[|j]]; simpl in Hx, Hy; try discriminate; congruence.
Qed.

Lemma argv_race_session_witness :
  session_prints (S := @race_snooper (gmap_user_mem ArgvSnoop.ex_mem) _ (sized_ringbuf SLOTS_08 ArgvSnoop.ex_dirt) sized_reader)
    texts_08 (called ex_xs ([], 0%nat)) empty_table [0%nat] [[1; 0]; [1; 0]]%nat 4
    [str "7001     0      sh               ls" ++ [10]; str "5000     1000   bash             ls -l" ++ [10]].
Proof.
  eapply session_prints_eq.
  - refine (proj1 (@argv_race_session (gmap_user_mem ArgvSnoop.ex_mem) (gmap_user_mem_laws _) _ (sized_ringbuf SLOTS_08 ArgvSnoop.ex_dirt)
      sized_reader (sized_ring_laws _ _) ([], 0%nat) ex_xs [0%nat] [[1; 0]; [1; 0]]%nat 4 _ _ _ _ _ _ _)).
    + reflexivity.
    + intros r r' d ->%sized_dirt. reflexivity.
    + constructor; [exact ex_ls_vector|]. constructor; [|constructor].
      split; [|left; reflexivity]. intros [|i] s; [|discriminate]. intros [= <-]. split; [discriminate|reflexivity].
    + exact ex_apart.
    + discriminate.
    + simpl. lia.
    + do 2 (constructor; [apply Nat.leb_le; vm_compute; reflexivity|]). constructor.
  - vm_compute. reflexivity.
Defined.

(** In the same slot, 4096 processes apart, the two are mixed up: the first
    command loses an argument, and the second its line. *)
Definition ex_same_slot : execve :=
  mk_execve (mk_task ((5000 + 4096) * 2 ^ 32) 0 (str "sh" ++ replicate 14 0)) (λ i, match i with O => ex_argp O | _ => 0 end) [str "ls"].

Example collision_loses_line :
  screen (Sys.run (reply (S := @race_snooper (gmap_user_mem ArgvSnoop.ex_mem) _ (sized_ringbuf SLOTS_08 ArgvSnoop.ex_dirt) sized_reader))
    (snoop_prog texts_08 3)
    (boot (S := @race_snooper (gmap_user_mem ArgvSnoop.ex_mem) _ (sized_ringbuf SLOTS_08 ArgvSnoop.ex_dirt) sized_reader)
      (called [ex_ls_call; ex_same_slot] ([], 0%nat)) empty_table [] [[0; 1; 0; 1; 0]%nat])).2
  = headings texts_08 ++ [str "5000     1000   bash             -l" ++ [10]; bye].
Proof. vm_compute. reflexivity. Qed.
