(* ===== verification/TcRun.v ===== *)
(** * TcRun: a session of the traffic counters (chapter 18)

    The main function of src/18-tc/tcstat.c as a program of [Sys] with the
    exact text it prints, and a session of it with the two programs of
    tcstat.bpf.c (TcStat): packets pass on any CPU while the loader starts
    and during each second it sleeps.

    The theorems: its exit status and the calls that change the system are
    those of [TcStat.main], whatever the environment answers; and in a session
    every packet is let through and every table on the screen has the packets
    and bytes of each direction since the program was attached there. *)

From stdpp Require Import prelude gmap list strings.
From Stdlib Require Import ZArith Lia.
From S2P Require Import Prelude.
From S2P Require Import Kernel.
From S2P Require Import Packet.
From S2P Require Import Printf.
From S2P Require Import TcStat.
From S2P Require Import Sys.

Inductive tcc :=
  | TIndex (ifname : list Z)
  | TErrno
  | TOpenLoad
  | THookCreate
  | TAttach (d : direction)
  | TCalloc
  | TStop
  | TSleep
  | TLookup (i : Z) (recs : bool)
  | TPrint (text : list Z)
  | TErr (text : list Z)
  | THookDestroy
  | TFree (recs : bool)
  | TDestroy.

(** An interface that is unknown has the index zero. *)
Definition ans (c : tcc) : Type :=
  match c with
  | TIndex _ | TOpenLoad | TCalloc | TStop => bool
  | TErrno | THookCreate | TAttach _ => Z
  | TLookup _ _ => option (list datarec)
  | _ => ()
  end.

Canonical Structure TCC : calls := mk_calls tcc ans.

Definition tc_ifname (argv : list (list Z)) (idx : option (list (option (list Z)))) : list Z :=
  match argv !! 1%nat with Some a => a | None => default_iface idx end.

(** The lines of the tables. *)
Definition tc_columns : list Z :=
  [10] ++ rpad 9 (str "DIR") ++ str " " ++ lpad 14 (str "PACKETS") ++ str " " ++ lpad 16 (str "BYTES") ++ [10].

Definition tc_row (label : string) (pb : Z * Z) : list Z :=
  rpad 9 (str label) ++ str " " ++ lpad 14 (dec pb.1) ++ str " " ++ lpad 16 (dec pb.2) ++ [10].

Definition counting (ifname : list Z) : list Z :=
  str "Counting packets on '" ++ ifname ++ str "' (ingress + egress, TC_ACT_OK — never dropping). Ctrl-C to stop." ++ [10].

Definition removing (ifname : list Z) : list Z := [10] ++ str "Removing clsact qdisc from " ++ ifname ++ str "..." ++ [10].

(** The rows of one table; [recs] is whether the buffer was allocated. *)
Definition tc_rows (recs : bool) : prog TCC () :=
  for_each (λ row _,
    let! vals := sys (TLookup (Z.of_nat row.1) recs) in
    match vals with
    | None => Ret ()
    | Some vals => sys (TPrint (tc_row row.2 (sum_records vals)))
    end) (imap pair dir_label) ().

Definition tc_round (recs : bool) : prog TCC (() + ()) :=
  let! stop := sys TStop in
  if stop then Ret (inr ()) else
  sys TSleep ;!
  sys (TPrint tc_columns) ;!
  tc_rows recs ;!
  Ret (inl ()).

(** The code from [cleanup:]. *)
Definition tc_cleanup (err : Z) (recs : bool) : prog TCC Z :=
  sys THookDestroy ;!
  sys (TFree recs) ;!
  sys TDestroy ;!
  Ret (if err =? 0 then 0 else 1).

Definition tc_main (fuel : nat) (argv : list (list Z)) (idx : option (list (option (list Z)))) : prog TCC Z :=
  let ifname := tc_ifname argv idx in
  let! ifindex := sys (TIndex ifname) in
  if negb ifindex then
    let! errno := sys TErrno in
    sys (TErr (str "Unknown interface '" ++ ifname ++ str "' (" ++ sdec errno ++ str ")" ++ [10])) ;! Ret 1
  else
  let! skel := sys TOpenLoad in
  if negb skel then sys (TErr (str "Failed to open/load BPF skeleton" ++ [10])) ;! Ret 1 else
  let! err := sys THookCreate in
  if negb (err =? 0) && negb (err =? - EEXIST)
  then sys (TErr (str "Failed to create clsact hook on " ++ ifname ++ str ": " ++ sdec err ++ [10])) ;! tc_cleanup err false else
  let! err := sys (TAttach DIR_INGRESS) in
  if negb (err =? 0)
  then sys (TErr (str "Failed to attach ingress program: " ++ sdec err ++ [10])) ;! tc_cleanup err false else
  let! err := sys (TAttach DIR_EGRESS) in
  if negb (err =? 0)
  then sys (TErr (str "Failed to attach egress program: " ++ sdec err ++ [10])) ;! tc_cleanup err false else
  let! recs := sys TCalloc in
  sys (TPrint (counting ifname)) ;!
  iter fuel (λ _ : (), tc_round recs) () ;!
  sys (TPrint (removing ifname)) ;!
  tc_cleanup err recs.

(** ** Against [TcStat.main] *)

(** What was answered, and the calls that changed the system. *)
Record seen := mk_seen { answers : outcome; made : list TcStat.call }.

Definition note (s : seen) (e : event TCC) : seen :=
  let o := answers s in
  match e with
  | existT c r =>
      match c as c' return ans c' → seen with
      | TIndex _ => λ ok : bool, mk_seen (mk_outcome ok (o_load o) (o_hook_create o) (o_attach_ingress o) (o_attach_egress o)) (made s)
      | TOpenLoad => λ ok : bool,
          mk_seen (mk_outcome (o_ifindex o) ok (o_hook_create o) (o_attach_ingress o) (o_attach_egress o)) (made s ++ [OpenLoad])
      | THookCreate => λ rc : Z,
          mk_seen (mk_outcome (o_ifindex o) (o_load o) rc (o_attach_ingress o) (o_attach_egress o)) (made s ++ [HookCreate])
      | TAttach DIR_INGRESS => λ rc : Z,
          mk_seen (mk_outcome (o_ifindex o) (o_load o) (o_hook_create o) rc (o_attach_egress o)) (made s ++ [Attach DIR_INGRESS])
      | TAttach DIR_EGRESS => λ rc : Z,
          mk_seen (mk_outcome (o_ifindex o) (o_load o) (o_hook_create o) (o_attach_ingress o) rc) (made s ++ [Attach DIR_EGRESS])
      | THookDestroy => λ _, mk_seen o (made s ++ [HookDestroy])
      | TDestroy => λ _, mk_seen o (made s ++ [Destroy])
      | _ => λ _, s
      end r
  end.

Definition no_answers : seen := mk_seen (mk_outcome false false 0 0 0) [].

Definition recorder : watcher TCC seen := mk_watcher TCC seen (λ _ _, True) (λ s e, Some (note s e)).

Lemma watch_tc_recorder s tr : watch recorder s tr = Some (foldl note s tr).
Proof. revert s. induction tr as [|e tr IH]; intros s; [done|]. cbn. apply IH. Qed.

Lemma assumed_tc_recorder s tr : assumed recorder s tr.
Proof. revert s. induction tr as [|e tr IH]; intros s; [done|]. split; [done|]. apply IH. Qed.

Lemma wp_tc_rows recs s (Q : () → seen → Prop) : Q () s → wp recorder false (tc_rows recs) Q s.
Proof.
  intros HQ. unfold tc_rows. apply (wp_for_each_keep recorder false); [|by intros []]. intros row u.
  apply wp_bind. cbn [sys wp]. intros vals _. cbn [recorder accept note ev]. destruct vals; cbn; done.
Qed.

Lemma wp_tc_main fuel argv idx :
  wp recorder false (tc_main fuel argv idx) (λ st s, TcStat.main (answers s) = (st, made s)) no_answers.
Proof.
  unfold tc_main. set (ifname := tc_ifname argv idx). apply wp_bind. cbn [sys wp]. intros ok _. cbn in ok.
  cbn [recorder accept note ev no_answers answers made]. destruct ok; cbn [negb];
    [|apply wp_bind; cbn; intros e _ u _; done].
  apply wp_bind. cbn [sys wp]. intros skel _. cbn in skel. cbn [recorder accept note ev answers made].
  destruct skel; cbn [negb]; [|apply wp_bind; cbn; by intros u _].
  apply wp_bind. cbn [sys wp]. intros rc _. cbn in rc. cbn [recorder accept note ev answers made].
  destruct (negb (rc =? 0) && negb (rc =? - EEXIST)) eqn:Erc.
  { apply wp_bind. cbn. intros u _ u1 _ u2 _ u3 _. unfold TcStat.main, cleanup. cbn. by rewrite Erc. }
  apply wp_bind. cbn [sys wp]. intros ri _. cbn in ri. cbn [recorder accept note ev answers made].
  destruct (negb (ri =? 0)) eqn:Eri.
  { apply wp_bind. cbn. intros u _ u1 _ u2 _ u3 _. unfold TcStat.main, cleanup. cbn. by rewrite Erc, Eri. }
  apply wp_bind. cbn [sys wp]. intros re _. cbn in re. cbn [recorder accept note ev answers made].
  destruct (negb (re =? 0)) eqn:Ere.
  { apply wp_bind. cbn. intros u _ u1 _ u2 _ u3 _. unfold TcStat.main, cleanup. cbn. by rewrite Erc, Eri, Ere. }
  apply wp_bind. cbn [sys wp]. intros recs _. cbn in recs. cbn [recorder accept note ev answers made].
  apply wp_bind. cbn [sys wp]. intros u _. cbn [recorder accept note ev answers made].
  apply wp_bind. apply wp_iter_keep. intros []. unfold tc_round.
  apply wp_bind. cbn [sys wp]. intros stop _. cbn in stop. cbn [recorder accept note ev answers made]. destruct stop; cbn [wp].
  - apply wp_bind. cbn. intros u' _ u1 _ u2 _ u3 _. unfold TcStat.main, cleanup. cbn. by rewrite Erc, Eri, Ere.
  - apply wp_bind. cbn [sys wp]. intros u1 _. cbn [recorder accept note ev]. apply wp_bind. cbn [sys wp]. intros u2 _.
    cbn [recorder accept note ev]. apply wp_bind. by apply wp_tc_rows.
Qed.

(** ** Sessions *)

Section world.
  Context {A : Type} `{!PercpuArray A datarec}.

(** The counters, the directions with a program, the packets that pass before
    the second program is attached and before the first second, those of
    each second, the verdicts and the screen. *)
Record world := mk_world {
  stats : A;
  attached : list direction;
  starting : list passing * list passing;
  arriving : list (list passing);
  verdicts : list Z;
  screen : list (list Z);
}.

(** Packets reach the programs that are attached; the others pass. *)
Definition pass (ps : list passing) (w : world) : world :=
  let '(acts, a) := traffic (bfilter (λ p, bool_decide (p_dir p ∈ attached w)) ps) (stats w) in
  mk_world a (attached w) (starting w) (arriving w) (verdicts w ++ acts) (screen w).

Definition set_attached (l : list direction) (w : world) : world :=
  mk_world (stats w) l (starting w) (arriving w) (verdicts w) (screen w).

Definition say (text : list Z) (w : world) : world :=
  mk_world (stats w) (attached w) (starting w) (arriving w) (verdicts w) (screen w ++ [text]).

Definition sleep (w : world) : world :=
  match arriving w with
  | [] => w
  | ps :: rest => pass ps (mk_world (stats w) (attached w) (starting w) rest (verdicts w) (screen w))
  end.

Definition reply (c : tcc) (w : world) : answer TCC c * world :=
  match c as c' return ans c' * world with
  | TIndex _ | TOpenLoad => (true, w)
  | TErrno | THookCreate => (0, w)
  | TAttach DIR_INGRESS => (0, set_attached (DIR_INGRESS :: attached w) w)
  | TAttach DIR_EGRESS => (0, let w := pass (starting w).1 w in set_attached (DIR_EGRESS :: attached w) w)
  | TCalloc => (true, pass (starting w).2 w)
  | TStop => (match arriving w with [] => true | _ => false end, w)
  | TSleep => (tt, sleep w)
  | TLookup i recs => (if recs : bool then pcpu_values (stats w) i else None, w)
  | TPrint text => (tt, say text w)
  | THookDestroy => (tt, set_attached [] w)
  | TErr _ | TFree _ | TDestroy => (tt, w)
  end.

Definition boot (zero : A) (starting : list passing * list passing) (batches : list (list passing)) : world :=
  mk_world zero [] starting batches [] [].
End world.
Arguments world : clear implicits.

(** ** Specification *)

(** The packets that are counted before the first second. *)
Definition early (starting : list passing * list passing) : list passing :=
  bfilter (λ p, bool_decide (p_dir p = DIR_INGRESS)) starting.1 ++ starting.2.

(** The table after the packets [ps]. *)
Definition tc_table (ps : list passing) : list (list Z) :=
  [tc_columns; tc_row "ingress" (u64 (pkts_of DIR_INGRESS ps), u64 (bytes_of DIR_INGRESS ps));
   tc_row "egress" (u64 (pkts_of DIR_EGRESS ps), u64 (bytes_of DIR_EGRESS ps))].

Fixpoint tc_tables (ps : list passing) (batches : list (list passing)) : list (list Z) :=
  match batches with
  | [] => []
  | b :: rest => tc_table (ps ++ b) ++ tc_tables (ps ++ b) rest
  end.

(** ** Lemmas *)

(** Both programs see every packet. *)
Lemma both_attached ps : bfilter (λ p, bool_decide (p_dir p ∈ [DIR_EGRESS; DIR_INGRESS])) ps = ps.
Proof. apply bfilter_all, Forall_forall. intros p _. apply bool_decide_true. destruct (p_dir p); set_solver. Qed.

Lemma of_dir_app d ps1 ps2 : pkts_of d (ps1 ++ ps2) = pkts_of d ps1 + pkts_of d ps2 ∧ bytes_of d (ps1 ++ ps2) = bytes_of d ps1 + bytes_of d ps2.
Proof. unfold pkts_of, bytes_of. rewrite bfilter_app, length_app, fmap_app, sumZ_app. split; lia. Qed.

Section proof.
  Context {A : Type} `{!PercpuArray A datarec} (ncpu : nat) `{!PercpuArrayLaws A datarec ncpu DIR_MAX}.
  Implicit Types (w : world A) (ps : list passing).

(** The counters have the packets [ps]. *)
Definition tallied ps (a : A) : Prop := ∀ d,
  u64 (slot_sum packets a (dir_index d)) = u64 (pkts_of d ps) ∧ u64 (slot_sum bytes a (dir_index d)) = u64 (bytes_of d ps).

Lemma tallied_traffic seen ps a :
  tallied seen a → Forall (λ p, p_cpu p < ncpu)%nat ps →
  (traffic ps a).1 = replicate (length ps) TC_ACT_OK ∧ tallied (seen ++ ps) (traffic ps a).2.
Proof.
  intros Ht Hc. destruct (traffic_sums ncpu ps a Hc) as [H1 H2]. split; [done|]. intros d.
  destruct (H2 d) as [-> ->], (Ht d) as [Hp Hb], (of_dir_app d seen ps) as [-> ->].
  split; [exact (u64_congr _ _ _ Hp)|exact (u64_congr _ _ _ Hb)].
Qed.

Lemma pass_tallied seen ps w :
  tallied seen (stats w) → Forall (λ p, p_cpu p < ncpu)%nat ps →
  let ps' := bfilter (λ p, bool_decide (p_dir p ∈ attached w)) ps in
  ∃ a, tallied (seen ++ ps') a
  ∧ pass ps w = mk_world a (attached w) (starting w) (arriving w) (verdicts w ++ replicate (length ps') TC_ACT_OK) (screen w).
Proof.
  intros Ht Hc ps'. destruct (tallied_traffic seen ps' (stats w) Ht) as [H1 H2].
  { apply Forall_forall. intros p [_ Hp]%elem_of_bfilter. by apply (proj1 (Forall_forall _ _) Hc). }
  exists (traffic ps' (stats w)).2. split; [done|]. unfold pass. fold ps'. destruct (traffic ps' (stats w)). cbn [fst snd] in *. by subst.
Qed.

Lemma run_tc_rows ps w :
  tallied ps (stats w) →
  run reply (tc_rows true) w
  = (Some (), mk_world (stats w) (attached w) (starting w) (arriving w) (verdicts w)
       (screen w ++ [tc_row "ingress" (u64 (pkts_of DIR_INGRESS ps), u64 (bytes_of DIR_INGRESS ps));
                     tc_row "egress" (u64 (pkts_of DIR_EGRESS ps), u64 (bytes_of DIR_EGRESS ps))])).
Proof.
  intros Ht.
  assert (Hd : ∀ d, ∃ recs, pcpu_values (stats w) (dir_index d) = Some recs ∧ sum_records recs = (u64 (pkts_of d ps), u64 (bytes_of d ps))).
  { intros d. destruct (proj2 (pcpu_values_Some (stats w) _) (dir_index_range d)) as [recs Hv]. exists recs. split; [done|].
    destruct (Ht d) as [<- <-]. rewrite sum_records_sumZ. unfold slot_sum. by rewrite Hv. }
  destruct (Hd DIR_INGRESS) as (r0 & E0 & <-), (Hd DIR_EGRESS) as (r1 & E1 & <-). 
  change (dir_index DIR_INGRESS) with (Z.of_nat 0) in E0. change (dir_index DIR_EGRESS) with (Z.of_nat 1) in E1.
  unfold tc_rows, dir_label. cbn -[sum_records tc_row Z.of_nat]. rewrite E0. cbn -[sum_records tc_row Z.of_nat].
  rewrite E1. cbn -[sum_records tc_row Z.of_nat].
  unfold say. cbn [screen stats attached starting arriving verdicts]. by rewrite <- app_assoc.
Qed.

#[local] Opaque tc_rows.

Lemma run_tc_stop w : arriving w = [] → run reply (tc_round true) w = (Some (inr ()), w).
Proof. intros Ha. unfold tc_round. rewrite run_bind. cbn [run sys reply]. by rewrite Ha. Qed.

(** A second of the loader. *)
Lemma run_tc_round b rest ps w :
  arriving w = b :: rest → attached w = [DIR_EGRESS; DIR_INGRESS] →
  Forall (λ p, p_cpu p < ncpu)%nat b → tallied ps (stats w) →
  ∃ a, tallied (ps ++ b) a
  ∧ run reply (tc_round true) w
    = (Some (inl ()), mk_world a (attached w) (starting w) rest (verdicts w ++ replicate (length b) TC_ACT_OK)
        (screen w ++ tc_table (ps ++ b))).
Proof.
  intros Ha Hat Hb Ht.
  set (w1 := mk_world (stats w) (attached w) (starting w) rest (verdicts w) (screen w)).
  destruct (pass_tallied ps b w1 Ht Hb) as (a & Ht' & Hp). cbn [attached w1] in Ht', Hp. rewrite Hat, both_attached in Ht', Hp.
  exists a. split; [done|]. unfold tc_round. rewrite run_bind. cbn [run sys reply]. rewrite Ha. cbn [bind].
  rewrite run_bind. cbn [run sys reply]. rewrite run_bind. cbn [run sys reply]. unfold sleep. rewrite Ha. fold w1.
  rewrite Hp, run_bind, (run_tc_rows (ps ++ b)) by done. cbn [run]. unfold say, w1. cbn [stats attached starting arriving verdicts screen].
  by rewrite Hat, <- app_assoc.
Qed.

#[local] Opaque tc_round.

(** The status loop, after the packets [ps]. *)
Lemma run_tc_loop batches : ∀ fuel ps w,
  (length batches < fuel)%nat → Forall (Forall (λ p, p_cpu p < ncpu)%nat) batches →
  arriving w = batches → attached w = [DIR_EGRESS; DIR_INGRESS] → tallied ps (stats w) →
  ∃ a, run reply (iter fuel (λ _ : (), tc_round true) ()) w
    = (Some (), mk_world a (attached w) (starting w) [] (verdicts w ++ replicate (length (concat batches)) TC_ACT_OK)
        (screen w ++ tc_tables ps batches)).
Proof.
  induction batches as [|b batches IH]; intros fuel ps w Hf Hb Ha Hat Ht; (destruct fuel as [|fuel]; [simpl in Hf; lia|]);
    cbn [iter]; rewrite run_bind.
  - exists (stats w). rewrite run_tc_stop by done. cbn. rewrite !app_nil_r. destruct w; cbn in *; by subst.
  - apply Forall_cons in Hb as [Hb1 Hb2]. destruct (run_tc_round b batches ps w Ha Hat Hb1 Ht) as (a & Ht' & ->).
    destruct (IH fuel (ps ++ b) (mk_world a (attached w) (starting w) batches (verdicts w ++ replicate (length b) TC_ACT_OK)
      (screen w ++ tc_table (ps ++ b)))) as (a' & Hr); [simpl in Hf; lia|done..|].
    exists a'. etrans; [exact Hr|]. cbn [attached starting verdicts screen concat tc_tables].
    by rewrite length_app, replicate_add, <- !app_assoc.
Qed.
End proof.

(** ** Theorems *)

(** The exit status of the loader, and the calls by which it changes the
    system, are those of [TcStat.main] on the answers it got: nothing that
    is printed and no reading of the counters makes a difference. *)
Theorem tc_main_exact (fuel : nat) (argv : list (list Z)) (idx : option (list (option (list Z))))
    (tr : list (event TCC)) (st : Z) :
  exec (tc_main fuel argv idx) tr (Some st) →
  TcStat.main (answers (foldl note no_answers tr)) = (st, made (foldl note no_answers tr)).
Proof.
  intros He. destruct (exec_wp recorder false _ _ _ _ He no_answers (wp_tc_main fuel argv idx) (assumed_tc_recorder _ _))
    as (s & Hs & Hst). rewrite watch_tc_recorder in Hs. by injection Hs as <-.
Qed.

#[local] Opaque tc_rows tc_round counting removing tc_ifname.

Section session.
  Context {A : Type} `{!PercpuArray A datarec} (ncpu : nat).

(** [C34] A session of the traffic counters: while packets pass in both
    directions on any CPUs, the loader exits with status 0 and no program is
    left; every packet was let through; and the table of every second has the
    packets and the bytes of each direction so far, incoming ones from the
    moment the first program was attached, outgoing ones from the second. *)
Theorem tc_session `{!PercpuArrayLaws A datarec ncpu DIR_MAX}
    (argv : list (list Z)) (idx : option (list (option (list Z)))) (zero : A)
    (starting : list passing * list passing) (batches : list (list passing)) (fuel : nat) :
  (∀ c i v, pcpu_lookup zero c i = Some v → v = mk_rec 0 0) →
  (length batches < fuel)%nat →
  Forall (Forall (λ p, p_cpu p < ncpu)%nat) (starting.1 :: starting.2 :: batches) →
  ∃ a : A,
    run reply (tc_main fuel argv idx) (boot zero starting batches)
    = (Some 0, mk_world a [] starting [] (replicate (length (early starting ++ concat batches)) TC_ACT_OK)
        ([counting (tc_ifname argv idx)] ++ tc_tables (early starting) batches ++ [removing (tc_ifname argv idx)])).
Proof.
  intros Hz Hf [Hc1 [Hc2 Hcs]%Forall_cons]%Forall_cons.
  assert (Ht : tallied [] zero) by (intros d; by destruct (zero_slots (ncpu := ncpu) zero (dir_index d) Hz) as [-> ->]).
  set (w1 := mk_world zero [DIR_INGRESS] starting batches [] []).
  destruct (pass_tallied ncpu [] starting.1 w1 Ht Hc1) as (a1 & Ht1 & Hp1). cbn [attached w1] in Ht1, Hp1.
  assert (Hin : ∀ ps, bfilter (λ p, bool_decide (p_dir p ∈ [DIR_INGRESS])) ps = bfilter (λ p, bool_decide (p_dir p = DIR_INGRESS)) ps).
  { intros ps. apply bfilter_ext. intros p. apply bool_decide_ext. set_solver. }
  rewrite Hin in Ht1, Hp1. set (w2 := set_attached [DIR_EGRESS; DIR_INGRESS] (pass starting.1 w1)).
  destruct (pass_tallied ncpu (bfilter (λ p, bool_decide (p_dir p = DIR_INGRESS)) starting.1) starting.2 w2) as (a2 & Ht2 & Hp2);
    [by unfold w2; rewrite Hp1|done|].
  cbn [attached w2 set_attached] in Ht2, Hp2. rewrite both_attached in Ht2, Hp2. fold (early starting) in Ht2.
  destruct (run_tc_loop ncpu batches fuel (early starting) (say (counting (tc_ifname argv idx)) (pass starting.2 w2)))
    as (a & Hr); try done; try (by rewrite Hp2; unfold w2; rewrite Hp1).
  exists a. unfold tc_main. cbn. rewrite run_bind.
  change (set_attached [DIR_INGRESS] (boot zero starting batches)) with w1. rewrite Hp1.
  unfold w2 in Hr, Hp2. rewrite Hp1 in Hr, Hp2. unfold set_attached in *. cbn in *. rewrite Hr. cbn. rewrite Hp2. cbn.
  unfold early. by rewrite !length_app, !replicate_add, <- !app_assoc.
Qed.
End session.

#[local] Transparent tc_rows tc_round counting removing tc_ifname.

(** ** Witnesses *)

Lemma tc_main_exact_witness :
  TcStat.main (mk_outcome true true (- EEXIST) (-22) 0) = (1, [OpenLoad; HookCreate; Attach DIR_INGRESS; HookDestroy; Destroy]).
Proof.
  refine (tc_main_exact 1 [str "tcstat"; str "lo"] None
    [ev (TIndex (str "lo") : TCC) true; ev (TOpenLoad : TCC) true; ev (THookCreate : TCC) (- EEXIST);
     ev (TAttach DIR_INGRESS : TCC) (-22); ev (TErr (str "Failed to attach ingress program: -22" ++ [10]) : TCC) tt;
     ev (THookDestroy : TCC) tt; ev (TFree false : TCC) tt; ev (TDestroy : TCC) tt] 1 _).
  repeat (apply exec_call || apply exec_ret).
Defined.

(** A packet goes out before the second program is there, another comes in
    just after it, and two more pass in the first second. *)
Lemma tc_session_witness :
  ∃ a, run (@reply _ (list_pcpu 2 2)) (tc_main 2 [str "tcstat"; str "lo"] None)
         (boot (λ _ _, mk_rec 0 0) ([mk_passing 0 DIR_EGRESS 70], [mk_passing 0 DIR_INGRESS 60])
            [[mk_passing 1 DIR_EGRESS 1500; mk_passing 1 DIR_INGRESS 40]])
  = (Some 0, mk_world a [] ([mk_passing 0 DIR_EGRESS 70], [mk_passing 0 DIR_INGRESS 60]) [] [0; 0; 0]
      [str "Counting packets on 'lo' (ingress + egress, TC_ACT_OK — never dropping). Ctrl-C to stop." ++ [10];
       [10] ++ str "DIR              PACKETS            BYTES" ++ [10];
       str "ingress                2              100" ++ [10];
       str "egress                 1             1500" ++ [10];
       [10] ++ str "Removing clsact qdisc from lo..." ++ [10]]).
Proof.
  destruct (@tc_session _ (list_pcpu 2 2) 2 (list_pcpu_laws 2 2) [str "tcstat"; str "lo"] None (λ _ _, mk_rec 0 0)
    ([mk_passing 0 DIR_EGRESS 70], [mk_passing 0 DIR_INGRESS 60])
    [[mk_passing 1 DIR_EGRESS 1500; mk_passing 1 DIR_INGRESS 40]] 2) as (a & Ha).
  - intros c i v. simpl. destruct (_ && _); [|discriminate]. intros E. injection E as <-. reflexivity.
  - simpl. lia.
  - apply (bool_decide_unpack _). vm_compute. exact I.
  - exists a. rewrite Ha. reflexivity.
Defined.
