(* ===== verification/TailRun.v ===== *)
(** * TailRun: a session of the dispatcher (chapter 19)

    The main function of src/19-tailcall/tailcall.c as a program of [Sys] with
    the exact text it prints, and a session of it with the dispatcher and its
    handlers (TailCall): commands are executed from the moment the dispatcher
    is attached and during each second the loader sleeps.

    The theorems: whatever fails, the loader uses and releases only what it
    holds, and its exit status tells whether something it needs has failed;
    and in a session every table has the numbers of commands of the root user
    and of others so far, and no miss; or, if the jump table cannot be
    filled, nothing was ever attached. *)

From stdpp Require Import prelude gmap list strings.
From Stdlib Require Import ZArith Lia.
From S2P Require Import Prelude.
From S2P Require Import Kernel.
From S2P Require Import Packet.
From S2P Require Import Printf.
From S2P Require Import TailCall.
From S2P Require Import Sys.

Inductive vc :=
  | VOpenLoad
  | VUpdate (key : Z) (fd : TailCall.prog)
  | VAttach
  | VStop
  | VSleep
  | VLookup (k : Z)
  | VPrint (text : list Z)
  | VErr (text : list Z)
  | VLinkDestroy
  | VDestroy.

(** A call that stores or attaches answers with 0 or [-errno]; one that
    cannot read the counter leaves the variable as it is. *)
Definition ans (c : vc) : Type :=
  match c with
  | VOpenLoad | VStop => bool
  | VUpdate _ _ | VAttach => Z
  | VLookup _ => option Z
  | _ => ()
  end.

Canonical Structure VC : calls := mk_calls vc ans.

Definition hello : list Z :=
  str "Dispatching execve() by tail call. Run commands in another terminal. Ctrl-C to stop." ++ [10].

Definition tail_bye : list Z := [10] ++ str "Detaching. Bye!" ++ [10].

(** The four lines of a table. *)
Definition tail_table (u r m : Z) : list (list Z) :=
  [[10] ++ str "execve dispatched by tail call:" ++ [10];
   str "  user (uid != 0) : " ++ dec u ++ [10];
   str "  root (uid == 0) : " ++ dec r ++ [10];
   str "  dispatch miss   : " ++ dec m ++ str "   (tail call fell through — should stay 0)" ++ [10]].

Definition print_lines (ls : list (list Z)) : prog VC () := for_each (λ l _, sys (VPrint l)) ls ().

Definition tail_round : prog VC (() + ()) :=
  let! stop := sys VStop in
  if stop then Ret (inr ()) else
  sys VSleep ;!
  let! u := sys (VLookup IDX_USER) in
  let! r := sys (VLookup IDX_ROOT) in
  let! m := sys (VLookup IDX_MISS) in
  print_lines (tail_table (default 0 u) (default 0 r) (default 0 m)) ;!
  Ret (inl ()).

(** [bpf_link__destroy] does nothing with NULL. *)
Definition tail_main (fuel : nat) : prog VC Z :=
  let! skel := sys VOpenLoad in
  if negb skel then sys (VErr (str "Failed to open/load BPF skeleton" ++ [10])) ;! Ret 1 else
  let! err :=
    let! err := sys (VUpdate IDX_USER Handle_user) in
    if negb (err =? 0) then sys (VErr (str "set user slot: " ++ sdec err ++ [10])) ;! Ret err else
    let! err := sys (VUpdate IDX_ROOT Handle_root) in
    if negb (err =? 0) then sys (VErr (str "set root slot: " ++ sdec err ++ [10])) ;! Ret err else
    let! err := sys VAttach in
    if negb (err =? 0) then sys (VErr (str "attach dispatch: " ++ sdec err ++ [10])) ;! Ret err else
    sys (VPrint hello) ;!
    iter fuel (λ _ : (), tail_round) () ;!
    sys (VPrint tail_bye) ;!
    sys VLinkDestroy ;!
    Ret 0 in
  sys VDestroy ;!
  Ret (if err =? 0 then 0 else 1).

(** ** Resources and failures *)

Inductive res := VSkel | VLink.

#[export] Instance res_eq_dec : EqDecision res.
Proof. solve_decision. Defined.

(** The tables and the link belong to the skeleton. *)
Definition effect (e : event VC) : list (act res) :=
  match e with
  | existT c r =>
      match c as c' return ans c' → list (act res) with
      | VOpenLoad => λ ok : bool, if ok then [Acquire VSkel] else []
      | VUpdate _ _ | VLookup _ => λ _, [Use VSkel]
      | VAttach => λ rc : Z, Use VSkel :: if rc =? 0 then [Acquire VLink] else []
      | VLinkDestroy => λ _, [Use VSkel; Release VLink]
      | VDestroy => λ _, [Release VSkel]
      | _ => λ _, []
      end r
  end.

(** The calls it cannot do without. *)
Definition fails (e : event VC) : bool :=
  match e with
  | existT c r =>
      match c as c' return ans c' → bool with
      | VOpenLoad => λ ok : bool, negb ok
      | VUpdate _ _ | VAttach => λ rc : Z, negb (rc =? 0)
      | _ => λ _, false
      end r
  end.

Ltac eval_tail_held r H :=
  clear H; cbn [accept holder effect ev];
  repeat match goal with
    | |- context [if ?b then [Acquire _] else _] => wp_cases b
    end;
  match goal with
  | |- context [do_acts ?h ?l] => let v := eval vm_compute in (do_acts h l) in change (do_acts h l) with v
  end; cbv iota.

Lemma tail_main_held fuel : wp (holder effect) false (tail_main fuel) (λ _ h, h = []) [].
Proof.
  unfold tail_main, tail_round, print_lines.
  repeat first [wp_next eval_tail_held | apply wp_iter_keep; intros ? | apply wp_for_each_keep; intros]; done.
Qed.

Ltac eval_tail_fails r H := clear H; cbn [accept failure fails ev orb].

Lemma tail_main_fails fuel : wp (failure fails) false (tail_main fuel) (λ st g, st = if g : bool then 1 else 0) false.
Proof.
  unfold tail_main, tail_round, print_lines.
  repeat first [wp_next eval_tail_fails | apply wp_iter_keep; intros ? | apply wp_for_each_keep; intros];
    first [done | by case_match].
Qed.

(** In every run the loader uses and releases only what it holds; when it
    exits it holds nothing, and its status is 1 exactly when the skeleton did
    not load, a slot of the jump table could not be filled or the
    dispatcher could not be attached. *)
Theorem tail_main_releases (fuel : nat) (tr : list (event VC)) (o : option Z) :
  exec (tail_main fuel) tr o →
  ∃ h, held effect [] tr = Some h ∧ ∀ st, o = Some st → h = [] ∧ st = if failed fails tr then 1 else 0.
Proof.
  intros He. destruct (exec_held _ _ _ _ _ _ (tail_main_held fuel) He) as (h & Hh & Ho). exists h. split; [done|].
  intros st ->. split; [done|]. exact (exec_failed _ _ _ _ _ _ (tail_main_fails fuel) He).
Qed.

(** ** Sessions *)

Section world.
  Context {T : Type} `{!ProgArray T} {A : Type} `{!PercpuArray A Z}.

(** The jump table, the counters, whether the dispatcher is attached, the
    commands before the first second and in each second, and the screen. *)
Record world := mk_world {
  jmp_table : T;
  counts : A;
  linked : bool;
  starting : list task;
  arriving : list (list task);
  screen : list (list Z);
}.

Definition executed (execs : list task) (w : world) : world :=
  mk_world (jmp_table w) (if linked w then foldl (λ c t, dispatch t (jmp_table w) c) (counts w) execs else counts w)
    (linked w) (starting w) (arriving w) (screen w).

Definition set_linked (b : bool) (w : world) : world :=
  mk_world (jmp_table w) (counts w) b (starting w) (arriving w) (screen w).

Definition say (text : list Z) (w : world) : world :=
  mk_world (jmp_table w) (counts w) (linked w) (starting w) (arriving w) (screen w ++ [text]).

Definition sleep (w : world) : world :=
  match arriving w with
  | [] => w
  | execs :: rest => executed execs (mk_world (jmp_table w) (counts w) (linked w) (starting w) rest (screen w))
  end.

Definition reply (c : vc) (w : world) : answer VC c * world :=
  match c as c' return ans c' * world with
  | VOpenLoad => (true, w)
  | VUpdate key fd =>
      let '(rc, t) := prog_update (jmp_table w) key fd in
      (rc, mk_world t (counts w) (linked w) (starting w) (arriving w) (screen w))
  | VAttach => (0, executed (starting w) (set_linked true w))
  | VStop => (match arriving w with [] => true | _ => false end, w)
  | VSleep => (tt, sleep w)
  | VLookup k => (pcpu_lookup (counts w) 0 k, w)
  | VPrint text => (tt, say text w)
  | VLinkDestroy => (tt, set_linked false w)
  | VErr _ | VDestroy => (tt, w)
  end.

Definition boot (zero : A) (starting : list task) (batches : list (list task)) : world :=
  mk_world prog_empty zero false starting batches [].
End world.
Arguments world : clear implicits.

(** The tables after the commands [seen]. *)
Fixpoint tail_tables (seen : list task) (batches : list (list task)) : list (list Z) :=
  match batches with
  | [] => []
  | b :: rest =>
      tail_table (u64 (user_execs (seen ++ b))) (u64 (root_execs (seen ++ b))) 0 ++ tail_tables (seen ++ b) rest
  end.

(** ** Lemmas *)

Lemma execs_app l1 l2 :
  user_execs (l1 ++ l2) = user_execs l1 + user_execs l2 ∧ root_execs (l1 ++ l2) = root_execs l1 + root_execs l2.
Proof. unfold user_execs, root_execs. rewrite !bfilter_app, !length_app. lia. Qed.

Section proof.
  Context {T : Type} `{!ProgArray T, !ProgArrayLaws T} {A : Type} `{!PercpuArray A Z, !PercpuArrayLaws A Z 1 IDX_MAX}.
  Implicit Types (w : world T A).

(** The jump table is filled, and the commands [seen] were counted. *)
Record counting (seen : list task) (w : world T A) : Prop := mk_counting {
  ct_user : tail_call_target (jmp_table w) IDX_USER = Some Handle_user;
  ct_root : tail_call_target (jmp_table w) IDX_ROOT = Some Handle_root;
  ct_users : pcpu_lookup (counts w) 0 IDX_USER = Some (u64 (user_execs seen));
  ct_roots : pcpu_lookup (counts w) 0 IDX_ROOT = Some (u64 (root_execs seen));
  ct_misses : pcpu_lookup (counts w) 0 IDX_MISS = Some 0;
}.

Lemma counting_executed seen execs w : counting seen w → linked w = true → counting (seen ++ execs) (executed execs w).
Proof.
  intros [H1 H2 H3 H4 H5] Hl. unfold executed. rewrite Hl. destruct (execs_app seen execs) as [Hu Hr].
  destruct (dispatch_all (jmp_table w) execs (counts w) _ _ _ H1 H2 H3 H4 H5) as (G1 & G2 & G3).
  split; cbn [jmp_table counts]; [done..| | |done]; by rewrite ?Hu, ?Hr.
Qed.

Lemma run_print_lines ls : ∀ w,
  run reply (print_lines ls) w
  = (Some (), mk_world (jmp_table w) (counts w) (linked w) (starting w) (arriving w) (screen w ++ ls)).
Proof.
  unfold print_lines. induction ls as [|l ls IH]; intros w; cbn [for_each]; [cbn; rewrite app_nil_r; by destruct w|].
  rewrite run_bind. cbn [run sys reply]. rewrite IH. unfold say. cbn [jmp_table counts linked starting arriving screen].
  by rewrite <- app_assoc.
Qed.

#[local] Opaque tail_table.

(** A second of the loader. *)
Lemma run_tail_round b rest seen w :
  arriving w = b :: rest → linked w = true → counting seen w →
  ∃ w', counting (seen ++ b) w' ∧ linked w' = true ∧ arriving w' = rest ∧ jmp_table w' = jmp_table w
  ∧ screen w' = screen w ++ tail_table (u64 (user_execs (seen ++ b))) (u64 (root_execs (seen ++ b))) 0
  ∧ run reply tail_round w = (Some (inl ()), w').
Proof.
  intros Ha Hl Hc.
  set (w1 := mk_world (jmp_table w) (counts w) (linked w) (starting w) rest (screen w)).
  assert (Hc1 : counting (seen ++ b) (executed b w1)) by (apply counting_executed; [by destruct Hc|done]).
  destruct (Hc1) as [G1 G2 G3 G4 G5]. eexists. split; [|split; [|split; [|split; [|split]]]].
  6: { unfold tail_round. rewrite run_bind. cbn [run sys reply]. rewrite Ha. rewrite run_bind. cbn [run sys reply].
       unfold sleep. rewrite Ha. fold w1. do 3 (rewrite run_bind; cbn [run sys reply]). rewrite G3, G4, G5, run_bind, run_print_lines.
       reflexivity. }
  all: done.
Qed.

Lemma run_tail_stop w : arriving w = [] → run reply tail_round w = (Some (inr ()), w).
Proof. intros Ha. unfold tail_round. rewrite run_bind. cbn [run sys reply]. by rewrite Ha. Qed.

#[local] Opaque tail_round.

(** The status loop, after the commands [seen]. *)
Lemma run_tail_loop batches : ∀ fuel seen w,
  (length batches < fuel)%nat → arriving w = batches → linked w = true → counting seen w →
  ∃ w', run reply (iter fuel (λ _ : (), tail_round) ()) w = (Some (), w')
  ∧ jmp_table w' = jmp_table w
  ∧ screen w' = screen w ++ tail_tables seen batches.
Proof.
  induction batches as [|b batches IH]; intros fuel seen w Hf Ha Hl Hc; (destruct fuel as [|fuel]; [simpl in Hf; lia|]);
    cbn [iter]; rewrite run_bind.
  - exists w. cbn [tail_tables]. rewrite app_nil_r. split; [|done].
    by rewrite run_tail_stop.
  - destruct (run_tail_round b batches seen w Ha Hl Hc) as (w1 & Hc1 & Hl1 & Ha1 & Hj1 & Hs1 & ->).
    destruct (IH fuel (seen ++ b) w1) as (w2 & Hr & Hj2 & Hs2); [simpl in Hf; lia|done..|].
    exists w2. cbn [tail_tables]. rewrite app_assoc, <- Hs1, <- Hj1. by split.
Qed.
End proof.

#[local] Opaque tail_round tail_table hello tail_bye.

Section session.
  Context {T : Type} `{!ProgArray T} {A : Type} `{!PercpuArray A Z}.

(** [C35] A session of chapter 19.  If the jump table can be filled, the
    dispatcher is attached, and while commands are executed, the program
    prints after every second how many of them so far were root's and how
    many were not, each command once and none as a miss; it exits with 0,
    detached.  If the table cannot be filled it exits with 1, and no command
    was counted. *)
Theorem tail_session `{!ProgArrayLaws T} `{!PercpuArrayLaws A Z 1 IDX_MAX}
    (zero : A) (starting : list task) (batches : list (list task)) (fuel : nat) :
  (∀ i v, pcpu_lookup zero 0 i = Some v → v = 0) → (length batches < fuel)%nat →
  ∃ w' : world T A,
    linked w' = false
    ∧ match wire (prog_empty : T) with
      | inr jt =>
          run reply (tail_main fuel) (boot zero starting batches) = (Some 0, w')
          ∧ jmp_table w' = jt
          ∧ screen w' = [hello] ++ tail_tables starting batches ++ [tail_bye]
      | inl _ =>
          run reply (tail_main fuel) (boot zero starting batches) = (Some 1, w')
          ∧ counts w' = zero ∧ screen w' = []
      end.
Proof.
  intros Hz Hf. unfold tail_main, boot. cbn. destruct (wire prog_empty) as [rc|jt] eqn:Hw; unfold wire in Hw.
  - destruct (prog_update prog_empty IDX_USER Handle_user) as [rc1 t1].
    destruct (Z.eqb_spec rc1 0) as [->|Hne]; cbn [negb] in Hw |- *.
    2: { cbn. apply Z.eqb_neq in Hne as ->. cbn. eexists. split; [|split; [reflexivity|done]]. done. }
    cbn. destruct (prog_update t1 IDX_ROOT Handle_root) as [rc2 t2].
    destruct (Z.eqb_spec rc2 0) as [->|Hne]; cbn [negb] in Hw |- *; [done|].
    cbn. apply Z.eqb_neq in Hne as ->. cbn. eexists. split; [|split; [reflexivity|done]]. done.
  - destruct (wire_targets prog_empty jt Hw) as [Hu Hr].
    destruct (prog_update prog_empty IDX_USER Handle_user) as [rc1 t1].
    destruct (Z.eqb_spec rc1 0) as [->|Hne]; cbn [negb] in Hw; [|done].
    destruct (prog_update t1 IDX_ROOT Handle_root) as [rc2 t2] eqn:E2.
    destruct (Z.eqb_spec rc2 0) as [->|Hne]; cbn [negb] in Hw; [|done]. injection Hw as ->.
    cbn. rewrite E2. cbn. rewrite run_bind.
    set (w0 := mk_world jt zero true starting batches []).
    assert (H0 : ∀ i, 0 ≤ i < IDX_MAX → pcpu_lookup zero 0 i = Some 0).
    { intros i Hi. destruct (proj2 (pcpu_lookup_Some zero 0 i) (conj Nat.lt_0_1 Hi)) as [v Hv]. rewrite Hv. f_equal. by eapply Hz. }
    assert (Hc : counting starting (say hello (executed starting w0))).
    { destruct (counting_executed [] starting w0) as [G1 G2 G3 G4 G5]; [|done|by split].
      split; cbn [jmp_table counts w0]; try done; rewrite H0 by done; done. }
    destruct (run_tail_loop batches fuel starting (say hello (executed starting w0)) Hf eq_refl eq_refl Hc) as (w1 & Hrun & Hj & Hs).
    change (set_linked true (mk_world jt zero false starting batches [])) with w0. rewrite run_bind, Hrun. cbn.
    eexists. split; [|split; [reflexivity|]]; [done|]. cbn. rewrite Hs, Hj. by rewrite <- app_assoc.
Qed.
End session.

(** ** Witnesses *)

#[local] Transparent tail_round tail_table hello tail_bye.

(** The second slot cannot be filled. *)
Lemma tail_main_releases_witness :
  ∃ h, held effect [] [ev (VOpenLoad : VC) true; ev (VUpdate IDX_USER Handle_user : VC) 0; ev (VUpdate IDX_ROOT Handle_root : VC) (- E2BIG);
                      ev (VErr (str "set root slot: -7" ++ [10]) : VC) tt; ev (VDestroy : VC) tt] = Some h
  ∧ ∀ st, Some 1 = Some st → h = [] ∧ st = 1.
Proof.
  refine (tail_main_releases 1 _ (Some 1) _). repeat (apply exec_call || apply exec_ret).
Defined.

(** A command of uid 1000 before the first second, one of root and another of
    uid 1000 in it. *)
Lemma tail_session_witness :
  ∃ w', run (@reply _ gmap_prog_array _ (list_pcpu 1 3)) (tail_main 2)
          (@boot _ gmap_prog_array _ (λ _ _, 0) [mk_task 0 1000 []] [[mk_task 0 0 []; mk_task 0 1000 []]]) = (Some 0, w')
  ∧ screen w' = [str "Dispatching execve() by tail call. Run commands in another terminal. Ctrl-C to stop." ++ [10];
                 [10] ++ str "execve dispatched by tail call:" ++ [10];
                 str "  user (uid != 0) : 2" ++ [10]; str "  root (uid == 0) : 1" ++ [10];
                 str "  dispatch miss   : 0   (tail call fell through — should stay 0)" ++ [10];
                 [10] ++ str "Detaching. Bye!" ++ [10]].
Proof.
  destruct (@tail_session _ gmap_prog_array _ (list_pcpu 1 3) gmap_prog_array_laws (list_pcpu_laws 1 3)
    (λ _ _, 0) [mk_task 0 1000 []] [[mk_task 0 0 []; mk_task 0 1000 []]] 2) as (w' & _ & Hm).
  - intros i v. simpl. destruct (_ && _); [|discriminate]. intros Hv. injection Hv as <-. reflexivity.
  - simpl. lia.
  - destruct Hm as (Hr & _ & Hs). exists w'. split; [exact Hr|]. rewrite Hs. vm_compute. reflexivity.
Defined.
